(** * The session and dispatch layer of kcp-go (sess.go)

    A shallow embedding of [vendor/github.com/xtaci/kcp-go/v5/sess.go]:
    the crypto frame of a datagram, the listener's dispatcher, and the
    [Read], [WriteBuffers], [Close] and [SetMtu] methods of a session.

    Go values are embedded as follows.
    - [[]byte] is [list byte]; slicing and [copy] are written out, a slice
      expression out of range is a panic.
    - [int], [uint16], [uint32] and [uint64] are [Z]; the only arithmetic
      that can wrap is the atomic addition on the uint64 counters, which
      is written with its modulus.
    - pointers to sessions are keys of a heap ([gmap nat UDPSession]); the
      listener's table and the accept queue hold such keys, as the source
      holds [*UDPSession].
    - a channel of [struct{}] with one slot is a [bool] (the slot is
      full); a channel that is only ever closed is a [bool] (closed).
    - every method runs in a monad that threads the process state and
      reports a panic or a loop that does not end. *)

From Stdlib Require Import ZArith List Lia Bool.
From Stdlib.Strings Require Import Byte.
From stdpp Require Import base gmap strings list.
Import ListNotations.

Local Open Scope Z_scope.

Abbreviation byte := Byte.byte.

(** ** Bytes and the little-endian codec ([encoding/binary]) *)

Definition byte_to_Z (b : byte) : Z := Z.of_N (Byte.to_N b).

Definition byte_of_Z (z : Z) : byte :=
  match Byte.of_N (Z.to_N (z mod 256)) with
  | Some b => b
  | None => Byte.x00
  end.

(** [s[n:]]: panics unless [n <= len(s)]. *)
Definition slice_from (n : nat) (s : list byte) : option (list byte) :=
  if (n <=? length s)%nat then Some (skipn n s) else None.

(** [s[:n]] for [n <= len(s)] (no call site of the model reslices beyond
    the length). *)
Definition slice_to (n : nat) (s : list byte) : option (list byte) :=
  if (n <=? length s)%nat then Some (firstn n s) else None.

(** The bytes of [dst] after [copy(dst, src)]; the call returns
    [min(len(dst), len(src))]. *)
Definition copy (dst src : list byte) : list byte :=
  firstn (length dst) src ++ skipn (length src) dst.

Definition copy_n (dst src : list byte) : nat :=
  Nat.min (length dst) (length src).

(** [binary.LittleEndian.Uint16(b)], [Uint32(b)]: panic on a short slice. *)
Definition Uint16 (b : list byte) : option Z :=
  match b with
  | b0 :: b1 :: _ => Some (Z.lor (byte_to_Z b0) (Z.shiftl (byte_to_Z b1) 8))
  | _ => None
  end.

Definition Uint32 (b : list byte) : option Z :=
  match b with
  | b0 :: b1 :: b2 :: b3 :: _ =>
      Some (Z.lor (Z.lor (Z.lor (byte_to_Z b0) (Z.shiftl (byte_to_Z b1) 8))
                         (Z.shiftl (byte_to_Z b2) 16))
                  (Z.shiftl (byte_to_Z b3) 24))
  | _ => None
  end.

(** The four bytes [binary.LittleEndian.PutUint32] stores. *)
Definition le32 (v : Z) : list byte :=
  [byte_of_Z v; byte_of_Z (Z.shiftr v 8);
   byte_of_Z (Z.shiftr v 16); byte_of_Z (Z.shiftr v 24)].

(** [binary.LittleEndian.PutUint32(b, v)]: panics unless [len(b) >= 4]. *)
Definition PutUint32 (b : list byte) (v : Z) : option (list byte) :=
  if (4 <=? length b)%nat then Some (copy b (le32 v)) else None.

(** ** CRC-32 with the IEEE polynomial ([hash/crc32]) *)

Definition crc_shift (c : Z) : Z :=
  if Z.testbit c 0 then Z.lxor (Z.shiftr c 1) 0xEDB88320 else Z.shiftr c 1.

Definition crc_update (c : Z) (b : byte) : Z :=
  Nat.iter 8 crc_shift (Z.lxor c (byte_to_Z b)).

Definition ChecksumIEEE (data : list byte) : Z :=
  Z.lxor (fold_left crc_update data 0xFFFFFFFF) 0xFFFFFFFF.

(** ** Constants of sess.go *)

Definition nonceSize : nat := 16.
Definition crcSize : nat := 4.
Definition cryptHeaderSize : nat := nonceSize + crcSize.
Definition mtuLimit : Z := 1500.
Definition acceptBacklog : nat := 128.
Definition maxFECEncodeLatency : Z := 500.


(** ** Errors returned to callers *)

Inductive error : Type :=
| errInvalidOperation
| errTimeout
| errNotOwner
| ErrClosedPipe                  (* io.ErrClosedPipe *)
| SocketError (code : nat).      (* an error reported by the socket *)

(** ** Collaborators declared outside sess.go

    [BlockCrypt] is the interface of crypt.go.  [Encrypt(dst, src)] and
    [Decrypt(dst, src)] store into [dst]; sess.go always passes the same
    slice twice, so the model maps the bytes of that slice to the bytes
    stored, and the caller keeps the length of its slice (see [copy]). *)

Record BlockCrypt : Type := {
  Encrypt : list byte -> list byte;
  Decrypt : list byte -> list byte;
}.

(** The ARQ instance (kcp.go), the FEC codec (fec.go), the nonce source
    (entropy.go) and the socket ([net.PacketConn]) are used by sess.go
    through the members below and are not part of it; the development is
    parametric in them, and in the constants [IKCP_OVERHEAD] and
    [IKCP_SN_OFFSET] of kcp.go and [fecHeaderSizePlus2], [typeData] and
    [typeParity] of fec.go.

    - [KCP_Recv k n] is [k.Recv(buf)] for a buffer of [n] bytes: the new
      state and the bytes stored at the front of [buf] (sess.go discards
      the returned count).
    - [KCP_Send k b] is [k.Send(b)] (sess.go discards the returned code).
    - [KCP_Input k data regular ackNoDelay] returns the new state and the
      code, zero on success.
    - [KCP_flush k ackOnly] returns the new state, the interval and the
      calls [(buf, size)] made to the output callback, in order.
    - [FEC_encode e b rto] returns the new encoder, the bytes it stores
      at the front of [b], and the parity shards.
    - [Entropy_Fill n] returns the new state and the bytes stored at the
      front of the slice given to [Fill]. *)

Class Externals : Type := {
  KCP : Type;
  IKCP_OVERHEAD : nat;
  IKCP_SN_OFFSET : nat;
  NewKCP : Z -> KCP;
  conv : KCP -> Z;
  snd_wnd : KCP -> Z;
  rmt_wnd : KCP -> Z;
  mss : KCP -> Z;
  KCP_WaitSnd : KCP -> Z;
  KCP_PeekSize : KCP -> Z;
  KCP_Recv : KCP -> nat -> KCP * list byte;
  KCP_Send : KCP -> list byte -> KCP;
  KCP_Input : KCP -> list byte -> bool -> bool -> KCP * Z;
  KCP_flush : KCP -> bool -> KCP * Z * list (list byte * Z);
  KCP_SetMtu : KCP -> Z -> KCP;

  FecDecoder : Type;
  FecEncoder : Type;
  fecHeaderSizePlus2 : nat;
  typeData : Z;
  typeParity : Z;
  newFECDecoder : Z -> Z -> option FecDecoder;
  newFECEncoder : Z -> Z -> Z -> option FecEncoder;
  FEC_decode : FecDecoder -> list byte -> FecDecoder * list (list byte);
  FEC_encode : FecEncoder -> list byte -> Z ->
               FecEncoder * list byte * list (list byte);

  Entropy : Type;
  Entropy_Init : nat -> Entropy;
  Entropy_Fill : Entropy -> Entropy * list byte;

  PacketConn : Type;
  PacketConn_Close : PacketConn -> PacketConn * option error;
}.

(** ** Observable calls

    The calls a method makes on its collaborators are logged, oldest
    first, so that "no ARQ input occurs" or "flush is called under the
    mutex" can be read off a run. *)

Inductive KCPCall : Type :=
| CallWaitSnd
| CallPeekSize
| CallRecv (n : nat)
| CallSend (b : list byte)
| CallInput (data : list byte) (regular ackNoDelay : bool)
| CallFlush (ackOnly : bool)
| CallSetMtu (mtu : Z).

Inductive Task : Type := TaskPostProcess | TaskReadLoop.

Inductive Event : Type :=
| EvLock (sid : nat)                        (* s.mu.Lock() *)
| EvUnlock (sid : nat)                      (* s.mu.Unlock() *)
| EvKCP (sid : nat) (c : KCPCall)           (* a call on s.kcp *)
| EvKcpInput (sid : nat) (data : list byte) (* entry into s.kcpInput *)
| EvDecrypt (data : list byte)              (* block.Decrypt(data, data) *)
| EvEncrypt (data : list byte)              (* block.Encrypt(data, data) *)
| EvConnClose (c : nat)                     (* conn.Close() *)
| EvGo (sid : nat) (t : Task)               (* go s.postProcess() / s.readLoop() *)
| EvTimedSched (sid : nat) (at_ : Z)        (* SystemTimedSched.Put(s.update, t) *)
| EvTx (msgs : list (string * list byte)).  (* s.tx(txqueue) *)

(** ** Counters ([DefaultSnmp]), all uint64 *)

Definition add64 (x d : Z) : Z := (x + d) mod 2 ^ 64.

Record Snmp : Type := {
  ActiveOpens : Z;
  PassiveOpens : Z;
  CurrEstab : Z;
  MaxConn : Z;
  BytesSent : Z;
  BytesReceived : Z;
  InPkts : Z;
  InBytes : Z;
  InCsumErrors : Z;
  InErrs : Z;
  KCPInErrors : Z;
}.

Definition set_ActiveOpens (v : Z) (x : Snmp) : Snmp :=
  {| ActiveOpens := v; PassiveOpens := PassiveOpens x; CurrEstab := CurrEstab x; MaxConn := MaxConn x; BytesSent := BytesSent x; BytesReceived := BytesReceived x; InPkts := InPkts x; InBytes := InBytes x; InCsumErrors := InCsumErrors x; InErrs := InErrs x; KCPInErrors := KCPInErrors x |}.

Definition set_PassiveOpens (v : Z) (x : Snmp) : Snmp :=
  {| ActiveOpens := ActiveOpens x; PassiveOpens := v; CurrEstab := CurrEstab x; MaxConn := MaxConn x; BytesSent := BytesSent x; BytesReceived := BytesReceived x; InPkts := InPkts x; InBytes := InBytes x; InCsumErrors := InCsumErrors x; InErrs := InErrs x; KCPInErrors := KCPInErrors x |}.

Definition set_CurrEstab (v : Z) (x : Snmp) : Snmp :=
  {| ActiveOpens := ActiveOpens x; PassiveOpens := PassiveOpens x; CurrEstab := v; MaxConn := MaxConn x; BytesSent := BytesSent x; BytesReceived := BytesReceived x; InPkts := InPkts x; InBytes := InBytes x; InCsumErrors := InCsumErrors x; InErrs := InErrs x; KCPInErrors := KCPInErrors x |}.

Definition set_MaxConn (v : Z) (x : Snmp) : Snmp :=
  {| ActiveOpens := ActiveOpens x; PassiveOpens := PassiveOpens x; CurrEstab := CurrEstab x; MaxConn := v; BytesSent := BytesSent x; BytesReceived := BytesReceived x; InPkts := InPkts x; InBytes := InBytes x; InCsumErrors := InCsumErrors x; InErrs := InErrs x; KCPInErrors := KCPInErrors x |}.

Definition set_BytesSent (v : Z) (x : Snmp) : Snmp :=
  {| ActiveOpens := ActiveOpens x; PassiveOpens := PassiveOpens x; CurrEstab := CurrEstab x; MaxConn := MaxConn x; BytesSent := v; BytesReceived := BytesReceived x; InPkts := InPkts x; InBytes := InBytes x; InCsumErrors := InCsumErrors x; InErrs := InErrs x; KCPInErrors := KCPInErrors x |}.

Definition set_BytesReceived (v : Z) (x : Snmp) : Snmp :=
  {| ActiveOpens := ActiveOpens x; PassiveOpens := PassiveOpens x; CurrEstab := CurrEstab x; MaxConn := MaxConn x; BytesSent := BytesSent x; BytesReceived := v; InPkts := InPkts x; InBytes := InBytes x; InCsumErrors := InCsumErrors x; InErrs := InErrs x; KCPInErrors := KCPInErrors x |}.

Definition set_InPkts (v : Z) (x : Snmp) : Snmp :=
  {| ActiveOpens := ActiveOpens x; PassiveOpens := PassiveOpens x; CurrEstab := CurrEstab x; MaxConn := MaxConn x; BytesSent := BytesSent x; BytesReceived := BytesReceived x; InPkts := v; InBytes := InBytes x; InCsumErrors := InCsumErrors x; InErrs := InErrs x; KCPInErrors := KCPInErrors x |}.

Definition set_InBytes (v : Z) (x : Snmp) : Snmp :=
  {| ActiveOpens := ActiveOpens x; PassiveOpens := PassiveOpens x; CurrEstab := CurrEstab x; MaxConn := MaxConn x; BytesSent := BytesSent x; BytesReceived := BytesReceived x; InPkts := InPkts x; InBytes := v; InCsumErrors := InCsumErrors x; InErrs := InErrs x; KCPInErrors := KCPInErrors x |}.

Definition set_InCsumErrors (v : Z) (x : Snmp) : Snmp :=
  {| ActiveOpens := ActiveOpens x; PassiveOpens := PassiveOpens x; CurrEstab := CurrEstab x; MaxConn := MaxConn x; BytesSent := BytesSent x; BytesReceived := BytesReceived x; InPkts := InPkts x; InBytes := InBytes x; InCsumErrors := v; InErrs := InErrs x; KCPInErrors := KCPInErrors x |}.

Definition set_InErrs (v : Z) (x : Snmp) : Snmp :=
  {| ActiveOpens := ActiveOpens x; PassiveOpens := PassiveOpens x; CurrEstab := CurrEstab x; MaxConn := MaxConn x; BytesSent := BytesSent x; BytesReceived := BytesReceived x; InPkts := InPkts x; InBytes := InBytes x; InCsumErrors := InCsumErrors x; InErrs := v; KCPInErrors := KCPInErrors x |}.

Definition set_KCPInErrors (v : Z) (x : Snmp) : Snmp :=
  {| ActiveOpens := ActiveOpens x; PassiveOpens := PassiveOpens x; CurrEstab := CurrEstab x; MaxConn := MaxConn x; BytesSent := BytesSent x; BytesReceived := BytesReceived x; InPkts := InPkts x; InBytes := InBytes x; InCsumErrors := InCsumErrors x; InErrs := InErrs x; KCPInErrors := v |}.


Section Model.

Context {ext : Externals}.

(** ** Sessions, the listener and the process state

    Fields that the modelled methods neither read nor write (the batch
    connection [xconn], the [sync.Once] of the socket errors) are left
    out.  [chSocketReadError] and [chSocketWriteError] are closed exactly
    when the matching error cell is filled ([notifyReadError],
    [notifyWriteError]), so each pair is one [option error].  [recvbuf]
    holds the whole backing array: its length is [cap(s.recvbuf)].  A
    deadline is [None] for the zero time. *)

Record UDPSession : Type := {
  conn : nat;  (* key of the socket in [socks] *)
  ownConn : bool;
  kcp : KCP;
  sess_l : bool;  (* s.l != nil *)
  block : option BlockCrypt;
  recvbuf : list byte;
  bufptr : list byte;
  fecDecoder : option FecDecoder;
  fecEncoder : option FecEncoder;
  remote : string;  (* remote.String() *)
  rd : option Z;
  wd : option Z;
  headerSize : nat;
  ackNoDelay : bool;
  writeDelay : bool;
  dup : Z;
  die : bool;  (* closed *)
  dieOnce : bool;  (* done *)
  chReadEvent : bool;  (* slot full *)
  chWriteEvent : bool;  (* slot full *)
  socketReadError : option error;
  socketWriteError : option error;
  nonce : Entropy;
  chPostProcessing : list (list byte);  (* oldest first *)
}.

Definition set_kcp (v : KCP) (x : UDPSession) : UDPSession :=
  {| conn := conn x; ownConn := ownConn x; kcp := v; sess_l := sess_l x; block := block x; recvbuf := recvbuf x; bufptr := bufptr x; fecDecoder := fecDecoder x; fecEncoder := fecEncoder x; remote := remote x; rd := rd x; wd := wd x; headerSize := headerSize x; ackNoDelay := ackNoDelay x; writeDelay := writeDelay x; dup := dup x; die := die x; dieOnce := dieOnce x; chReadEvent := chReadEvent x; chWriteEvent := chWriteEvent x; socketReadError := socketReadError x; socketWriteError := socketWriteError x; nonce := nonce x; chPostProcessing := chPostProcessing x |}.

Definition set_recvbuf (v : list byte) (x : UDPSession) : UDPSession :=
  {| conn := conn x; ownConn := ownConn x; kcp := kcp x; sess_l := sess_l x; block := block x; recvbuf := v; bufptr := bufptr x; fecDecoder := fecDecoder x; fecEncoder := fecEncoder x; remote := remote x; rd := rd x; wd := wd x; headerSize := headerSize x; ackNoDelay := ackNoDelay x; writeDelay := writeDelay x; dup := dup x; die := die x; dieOnce := dieOnce x; chReadEvent := chReadEvent x; chWriteEvent := chWriteEvent x; socketReadError := socketReadError x; socketWriteError := socketWriteError x; nonce := nonce x; chPostProcessing := chPostProcessing x |}.

Definition set_bufptr (v : list byte) (x : UDPSession) : UDPSession :=
  {| conn := conn x; ownConn := ownConn x; kcp := kcp x; sess_l := sess_l x; block := block x; recvbuf := recvbuf x; bufptr := v; fecDecoder := fecDecoder x; fecEncoder := fecEncoder x; remote := remote x; rd := rd x; wd := wd x; headerSize := headerSize x; ackNoDelay := ackNoDelay x; writeDelay := writeDelay x; dup := dup x; die := die x; dieOnce := dieOnce x; chReadEvent := chReadEvent x; chWriteEvent := chWriteEvent x; socketReadError := socketReadError x; socketWriteError := socketWriteError x; nonce := nonce x; chPostProcessing := chPostProcessing x |}.

Definition set_fecDecoder (v : option FecDecoder) (x : UDPSession) : UDPSession :=
  {| conn := conn x; ownConn := ownConn x; kcp := kcp x; sess_l := sess_l x; block := block x; recvbuf := recvbuf x; bufptr := bufptr x; fecDecoder := v; fecEncoder := fecEncoder x; remote := remote x; rd := rd x; wd := wd x; headerSize := headerSize x; ackNoDelay := ackNoDelay x; writeDelay := writeDelay x; dup := dup x; die := die x; dieOnce := dieOnce x; chReadEvent := chReadEvent x; chWriteEvent := chWriteEvent x; socketReadError := socketReadError x; socketWriteError := socketWriteError x; nonce := nonce x; chPostProcessing := chPostProcessing x |}.

Definition set_fecEncoder (v : option FecEncoder) (x : UDPSession) : UDPSession :=
  {| conn := conn x; ownConn := ownConn x; kcp := kcp x; sess_l := sess_l x; block := block x; recvbuf := recvbuf x; bufptr := bufptr x; fecDecoder := fecDecoder x; fecEncoder := v; remote := remote x; rd := rd x; wd := wd x; headerSize := headerSize x; ackNoDelay := ackNoDelay x; writeDelay := writeDelay x; dup := dup x; die := die x; dieOnce := dieOnce x; chReadEvent := chReadEvent x; chWriteEvent := chWriteEvent x; socketReadError := socketReadError x; socketWriteError := socketWriteError x; nonce := nonce x; chPostProcessing := chPostProcessing x |}.

Definition set_die (v : bool) (x : UDPSession) : UDPSession :=
  {| conn := conn x; ownConn := ownConn x; kcp := kcp x; sess_l := sess_l x; block := block x; recvbuf := recvbuf x; bufptr := bufptr x; fecDecoder := fecDecoder x; fecEncoder := fecEncoder x; remote := remote x; rd := rd x; wd := wd x; headerSize := headerSize x; ackNoDelay := ackNoDelay x; writeDelay := writeDelay x; dup := dup x; die := v; dieOnce := dieOnce x; chReadEvent := chReadEvent x; chWriteEvent := chWriteEvent x; socketReadError := socketReadError x; socketWriteError := socketWriteError x; nonce := nonce x; chPostProcessing := chPostProcessing x |}.

Definition set_dieOnce (v : bool) (x : UDPSession) : UDPSession :=
  {| conn := conn x; ownConn := ownConn x; kcp := kcp x; sess_l := sess_l x; block := block x; recvbuf := recvbuf x; bufptr := bufptr x; fecDecoder := fecDecoder x; fecEncoder := fecEncoder x; remote := remote x; rd := rd x; wd := wd x; headerSize := headerSize x; ackNoDelay := ackNoDelay x; writeDelay := writeDelay x; dup := dup x; die := die x; dieOnce := v; chReadEvent := chReadEvent x; chWriteEvent := chWriteEvent x; socketReadError := socketReadError x; socketWriteError := socketWriteError x; nonce := nonce x; chPostProcessing := chPostProcessing x |}.

Definition set_chReadEvent (v : bool) (x : UDPSession) : UDPSession :=
  {| conn := conn x; ownConn := ownConn x; kcp := kcp x; sess_l := sess_l x; block := block x; recvbuf := recvbuf x; bufptr := bufptr x; fecDecoder := fecDecoder x; fecEncoder := fecEncoder x; remote := remote x; rd := rd x; wd := wd x; headerSize := headerSize x; ackNoDelay := ackNoDelay x; writeDelay := writeDelay x; dup := dup x; die := die x; dieOnce := dieOnce x; chReadEvent := v; chWriteEvent := chWriteEvent x; socketReadError := socketReadError x; socketWriteError := socketWriteError x; nonce := nonce x; chPostProcessing := chPostProcessing x |}.

Definition set_chWriteEvent (v : bool) (x : UDPSession) : UDPSession :=
  {| conn := conn x; ownConn := ownConn x; kcp := kcp x; sess_l := sess_l x; block := block x; recvbuf := recvbuf x; bufptr := bufptr x; fecDecoder := fecDecoder x; fecEncoder := fecEncoder x; remote := remote x; rd := rd x; wd := wd x; headerSize := headerSize x; ackNoDelay := ackNoDelay x; writeDelay := writeDelay x; dup := dup x; die := die x; dieOnce := dieOnce x; chReadEvent := chReadEvent x; chWriteEvent := v; socketReadError := socketReadError x; socketWriteError := socketWriteError x; nonce := nonce x; chPostProcessing := chPostProcessing x |}.

Definition set_nonce (v : Entropy) (x : UDPSession) : UDPSession :=
  {| conn := conn x; ownConn := ownConn x; kcp := kcp x; sess_l := sess_l x; block := block x; recvbuf := recvbuf x; bufptr := bufptr x; fecDecoder := fecDecoder x; fecEncoder := fecEncoder x; remote := remote x; rd := rd x; wd := wd x; headerSize := headerSize x; ackNoDelay := ackNoDelay x; writeDelay := writeDelay x; dup := dup x; die := die x; dieOnce := dieOnce x; chReadEvent := chReadEvent x; chWriteEvent := chWriteEvent x; socketReadError := socketReadError x; socketWriteError := socketWriteError x; nonce := v; chPostProcessing := chPostProcessing x |}.

Definition set_chPostProcessing (v : list (list byte)) (x : UDPSession) : UDPSession :=
  {| conn := conn x; ownConn := ownConn x; kcp := kcp x; sess_l := sess_l x; block := block x; recvbuf := recvbuf x; bufptr := bufptr x; fecDecoder := fecDecoder x; fecEncoder := fecEncoder x; remote := remote x; rd := rd x; wd := wd x; headerSize := headerSize x; ackNoDelay := ackNoDelay x; writeDelay := writeDelay x; dup := dup x; die := die x; dieOnce := dieOnce x; chReadEvent := chReadEvent x; chWriteEvent := chWriteEvent x; socketReadError := socketReadError x; socketWriteError := socketWriteError x; nonce := nonce x; chPostProcessing := v |}.

(** The fields of [Listener] carry the prefix [l_]. *)

Record Listener : Type := {
  l_block : option BlockCrypt;
  l_dataShards : Z;
  l_parityShards : Z;
  l_conn : nat;
  l_ownConn : bool;
  l_sessions : gmap string nat;  (* remote address to session *)
  l_chAccepts : list nat;  (* oldest first; cap = acceptBacklog *)
  l_die : bool;
}.

Definition set_l_sessions (v : gmap string nat) (x : Listener) : Listener :=
  {| l_block := l_block x; l_dataShards := l_dataShards x; l_parityShards := l_parityShards x; l_conn := l_conn x; l_ownConn := l_ownConn x; l_sessions := v; l_chAccepts := l_chAccepts x; l_die := l_die x |}.

Definition set_l_chAccepts (v : list nat) (x : Listener) : Listener :=
  {| l_block := l_block x; l_dataShards := l_dataShards x; l_parityShards := l_parityShards x; l_conn := l_conn x; l_ownConn := l_ownConn x; l_sessions := l_sessions x; l_chAccepts := v; l_die := l_die x |}.

(** The process: one listener, its sessions and the client sessions. *)

Record World : Type := {
  DefaultSnmp : Snmp;
  heap : gmap nat UDPSession;  (* the sessions, by pointer *)
  listener : Listener;
  socks : gmap nat PacketConn;  (* the sockets, by pointer *)
  trace : list Event;  (* oldest first *)
  rand : list nat;  (* the choices of the Go scheduler and of crypto/rand *)
  now : Z;  (* time.Now() *)
}.

Definition set_DefaultSnmp (v : Snmp) (x : World) : World :=
  {| DefaultSnmp := v; heap := heap x; listener := listener x; socks := socks x; trace := trace x; rand := rand x; now := now x |}.

Definition set_heap (v : gmap nat UDPSession) (x : World) : World :=
  {| DefaultSnmp := DefaultSnmp x; heap := v; listener := listener x; socks := socks x; trace := trace x; rand := rand x; now := now x |}.

Definition set_listener (v : Listener) (x : World) : World :=
  {| DefaultSnmp := DefaultSnmp x; heap := heap x; listener := v; socks := socks x; trace := trace x; rand := rand x; now := now x |}.

Definition set_socks (v : gmap nat PacketConn) (x : World) : World :=
  {| DefaultSnmp := DefaultSnmp x; heap := heap x; listener := listener x; socks := v; trace := trace x; rand := rand x; now := now x |}.

Definition set_trace (v : list Event) (x : World) : World :=
  {| DefaultSnmp := DefaultSnmp x; heap := heap x; listener := listener x; socks := socks x; trace := v; rand := rand x; now := now x |}.

Definition set_rand (v : list nat) (x : World) : World :=
  {| DefaultSnmp := DefaultSnmp x; heap := heap x; listener := listener x; socks := socks x; trace := trace x; rand := v; now := now x |}.

(** ** The monad of a sequential run

    A call returns a value and the next state, panics, runs a loop that
    never ends, or waits on channels that nothing in a sequential run
    makes ready. *)

Inductive Res (A : Type) : Type :=
| Ret (a : A) (w : World)
| Panic
| Loops
| Blocks.

Arguments Ret {A} a w.
Arguments Panic {A}.
Arguments Loops {A}.
Arguments Blocks {A}.

Definition M (A : Type) : Type := World -> Res A.

Definition ret {A : Type} (a : A) : M A := fun w => Ret a w.

Definition bind {A B : Type} (m : M A) (k : A -> M B) : M B :=
  fun w =>
    match m w with
    | Ret a w' => k a w'
    | Panic => Panic
    | Loops => Loops
    | Blocks => Blocks
    end.

Notation "x <- m ;; k" := (bind m (fun x => k))
  (at level 100, m at next level, right associativity).
Notation "m ;;; k" := (bind m (fun _ => k))
  (at level 100, right associativity).

Definition panic {A : Type} : M A := fun _ => Panic.
Definition loops {A : Type} : M A := fun _ => Loops.
Definition blocks {A : Type} : M A := fun _ => Blocks.

(** An index or slice expression out of range panics. *)
Definition inrange {A : Type} (o : option A) : M A :=
  match o with
  | Some a => ret a
  | None => panic
  end.

Definition emit (e : Event) : M unit :=
  fun w => Ret tt (set_trace (trace w ++ [e]) w).

(** Dereference of a session pointer. *)
Definition getS (sid : nat) : M UDPSession :=
  fun w =>
    match heap w !! sid with
    | Some s => Ret s w
    | None => Panic
    end.

Definition modS (sid : nat) (f : UDPSession -> UDPSession) : M unit :=
  fun w =>
    match heap w !! sid with
    | Some s => Ret tt (set_heap (<[sid := f s]> (heap w)) w)
    | None => Panic
    end.

Definition getL : M Listener := fun w => Ret (listener w) w.

Definition modL (f : Listener -> Listener) : M unit :=
  fun w => Ret tt (set_listener (f (listener w)) w).

Definition modSnmp (f : Snmp -> Snmp) : M unit :=
  fun w => Ret tt (set_DefaultSnmp (f (DefaultSnmp w)) w).

Definition getNow : M Z := fun w => Ret (now w) w.

(** A value drawn from the environment (scheduler, crypto/rand). *)
Definition draw : M nat :=
  fun w => Ret (hd 0%nat (rand w)) (set_rand (tl (rand w)) w).

(** A [select] over the cases that are ready: none when nothing is
    ready, the case itself when it is alone, otherwise one of them as
    the scheduler decides. *)
Definition choose {A : Type} (ready : list A) : M (option A) :=
  match ready with
  | [] => ret None
  | [a] => ret (Some a)
  | a :: _ => i <- draw ;; ret (Some (nth (i mod length ready) ready a))
  end.

Definition when_ (b : bool) (m : M unit) : M unit :=
  if b then m else ret tt.

(** [for _, x := range xs { body }] *)
Fixpoint forM_ {A : Type} (xs : list A) (body : A -> M unit) : M unit :=
  match xs with
  | [] => ret tt
  | x :: xs' => body x ;;; forM_ xs' body
  end.

(** ** Calls on the ARQ instance of a session *)

Definition kcpWaitSnd (sid : nat) : M Z :=
  s <- getS sid ;;
  emit (EvKCP sid CallWaitSnd) ;;;
  ret (KCP_WaitSnd (kcp s)).

Definition kcpPeekSize (sid : nat) : M Z :=
  s <- getS sid ;;
  emit (EvKCP sid CallPeekSize) ;;;
  ret (KCP_PeekSize (kcp s)).

Definition kcpRecv (sid : nat) (n : nat) : M (list byte) :=
  s <- getS sid ;;
  emit (EvKCP sid (CallRecv n)) ;;;
  let '(k, out) := KCP_Recv (kcp s) n in
  modS sid (set_kcp k) ;;;
  ret out.

Definition kcpSend (sid : nat) (b : list byte) : M unit :=
  s <- getS sid ;;
  emit (EvKCP sid (CallSend b)) ;;;
  modS sid (set_kcp (KCP_Send (kcp s) b)).

Definition kcpInput_call (sid : nat) (data : list byte)
    (regular ackNoDelay_ : bool) : M Z :=
  s <- getS sid ;;
  emit (EvKCP sid (CallInput data regular ackNoDelay_)) ;;;
  let '(k, code) := KCP_Input (kcp s) data regular ackNoDelay_ in
  modS sid (set_kcp k) ;;;
  ret code.

Definition kcpSetMtu (sid : nat) (mtu : Z) : M unit :=
  s <- getS sid ;;
  emit (EvKCP sid (CallSetMtu mtu)) ;;;
  modS sid (set_kcp (KCP_SetMtu (kcp s) mtu)).

(** [notifyReadEvent], [notifyWriteEvent]: a send that is dropped when
    the slot is full. *)
Definition notifyReadEvent (sid : nat) : M unit :=
  modS sid (set_chReadEvent true).

Definition notifyWriteEvent (sid : nat) : M unit :=
  modS sid (set_chWriteEvent true).

(** [xmitBuf.Get().([]byte)[:n]]: the pool hands out buffers of
    [mtuLimit] bytes, so a longer slice panics.  A recycled buffer keeps
    stale bytes, which every caller overwrites or owns; the model takes
    the buffer from the pool's [New]. *)
Definition xmitBuf_Get (n : nat) : M (list byte) :=
  if (Z.of_nat n <=? mtuLimit) then ret (repeat Byte.x00 n) else panic.

(** ** The output callback given to [NewKCP] (newUDPSession)

    The callback hands a copy of the segment, with [headerSize] bytes
    reserved in front, to the post-processor; once [die] is closed the
    [select] may drop it instead. *)

Inductive OutCase : Type := OutSend | OutDie.

Definition output (sid : nat) (buf : list byte) (size : Z) : M unit :=
  if Z.of_nat IKCP_OVERHEAD <=? size then
    s <- getS sid ;;
    bts <- xmitBuf_Get (Z.to_nat size + headerSize s) ;;
    let bts := firstn (headerSize s) bts
               ++ copy (skipn (headerSize s) bts) buf in
    c <- choose
           ((if (length (chPostProcessing s) <? acceptBacklog)%nat
             then [OutSend] else [])
            ++ (if die s then [OutDie] else [])) ;;
    match c with
    | Some OutSend =>
        modS sid (set_chPostProcessing (chPostProcessing s ++ [bts]))
    | Some OutDie => ret tt
    | None => blocks
    end
  else ret tt.

(** A call [(buf, size)] of the callback that does not panic in a
    session whose header takes [hs] bytes: it is skipped, or its copy
    fits a pool buffer. *)
Definition output_fits (hs : nat) (o : list byte * Z) : Prop :=
  snd o < Z.of_nat IKCP_OVERHEAD
  \/ Z.of_nat (Z.to_nat (snd o) + hs) <= mtuLimit.

(** [s.kcp.flush(ackOnly)], with the callbacks it makes. *)
Definition kcpFlush (sid : nat) (ackOnly : bool) : M Z :=
  s <- getS sid ;;
  emit (EvKCP sid (CallFlush ackOnly)) ;;;
  let '(k, interval, outs) := KCP_flush (kcp s) ackOnly in
  modS sid (set_kcp k) ;;;
  forM_ outs (fun o => output sid (fst o) (snd o)) ;;;
  ret interval.

(** ** Listener.closeSession *)

Definition closeSession (remote_ : string) : M bool :=
  l <- getL ;;
  match l_sessions l !! remote_ with
  | Some _ =>
      modL (set_l_sessions (delete remote_ (l_sessions l))) ;;;
      ret true
  | None => ret false
  end.

(** [s.conn.Close()] *)
Definition connClose (c : nat) : M (option error) :=
  fun w =>
    match socks w !! c with
    | Some pc =>
        let '(pc', e) := PacketConn_Close pc in
        Ret e (set_trace (trace w ++ [EvConnClose c])
                 (set_socks (<[c := pc']> (socks w)) w))
    | None => Panic
    end.

(** ** UDPSession.Close *)

Definition Close (sid : nat) : M (option error) :=
  s <- getS sid ;;
  once <- (if dieOnce s then ret false
           else modS sid (fun x => set_dieOnce true (set_die true x)) ;;;
                ret true) ;;
  if once : bool then
    modSnmp (fun c => set_CurrEstab (add64 (CurrEstab c) (2 ^ 64 - 1)) c) ;;;
    emit (EvLock sid) ;;;
    kcpFlush sid false ;;;
    emit (EvUnlock sid) ;;;
    if sess_l s then
      closeSession (remote s) ;;;
      ret None
    else if ownConn s then
      connClose (conn s)
    else
      ret None
  else
    ret (Some ErrClosedPipe).

(** [n] calls of [Close] one after the other, with their results in
    order. *)
Fixpoint Close_times (n : nat) (sid : nat) : M (list (option error)) :=
  match n with
  | O => ret []
  | S n' =>
      r <- Close sid ;;
      rs <- Close_times n' sid ;;
      ret (r :: rs)
  end.

(** ** UDPSession.SetMtu *)

Definition SetMtu (sid : nat) (mtu : Z) : M bool :=
  if mtuLimit <? mtu then
    ret false
  else
    emit (EvLock sid) ;;;
    kcpSetMtu sid mtu ;;;
    emit (EvUnlock sid) ;;;
    ret true.

(** ** UDPSession.Read

    The result is the caller's slice after the call, the count and the
    error.  [c], the channel of the deadline timer, is ready when a
    deadline is set and has passed. *)

Inductive WakeCase : Type := WakeEvent | WakeTimer | WakeSocketError | WakeDie.

(** The cases of the non-blocking [select] that opens each pass of
    [WriteBuffers]. *)
Inductive GuardCase : Type := GuardSocketError | GuardDie.

Definition expired (deadline : option Z) (t : Z) : bool :=
  match deadline with
  | Some d => d <=? t
  | None => false
  end.

Definition is_some {A : Type} (o : option A) : bool :=
  match o with
  | Some _ => true
  | None => false
  end.

Definition socketError (o : option error) : M error :=
  match o with
  | Some e => ret e
  | None => panic
  end.

(** The cases of the [select] that ends a pass of [Read] which are
    ready at time [t]: [chReadEvent], the timer, [chSocketReadError],
    [die]. *)
Definition read_ready (s : UDPSession) (t : Z) : list WakeCase :=
  (if chReadEvent s then [WakeEvent] else [])
  ++ (if expired (rd s) t then [WakeTimer] else [])
  ++ (if is_some (socketReadError s) then [WakeSocketError] else [])
  ++ (if die s then [WakeDie] else []).

(** The same for [WriteBuffers]: [chWriteEvent], the timer,
    [chSocketWriteError], [die]; and the cases of its opening [select],
    which has a [default]. *)
Definition write_ready (s : UDPSession) (t : Z) : list WakeCase :=
  (if chWriteEvent s then [WakeEvent] else [])
  ++ (if expired (wd s) t then [WakeTimer] else [])
  ++ (if is_some (socketWriteError s) then [WakeSocketError] else [])
  ++ (if die s then [WakeDie] else []).

Definition write_guard (s : UDPSession) : list GuardCase :=
  (if is_some (socketWriteError s) then [GuardSocketError] else [])
  ++ (if die s then [GuardDie] else []).

Fixpoint Read_loop (fuel : nat) (sid : nat) (b : list byte)
    : M (list byte * Z * option error) :=
  match fuel with
  | O => loops
  | S fuel' =>
      emit (EvLock sid) ;;;
      s <- getS sid ;;
      if (0 <? length (bufptr s))%nat then
        let n := copy_n b (bufptr s) in
        modS sid (set_bufptr (skipn n (bufptr s))) ;;;
        emit (EvUnlock sid) ;;;
        modSnmp (fun c => set_BytesReceived
                            (add64 (BytesReceived c) (Z.of_nat n)) c) ;;;
        ret (copy b (bufptr s), Z.of_nat n, None)
      else
        size <- kcpPeekSize sid ;;
        if 0 <? size then
          if size <=? Z.of_nat (length b) then
            out <- kcpRecv sid (length b) ;;
            emit (EvUnlock sid) ;;;
            modSnmp (fun c => set_BytesReceived
                                (add64 (BytesReceived c) size) c) ;;;
            ret (copy b out, size, None)
          else
            let backing :=
              if Z.of_nat (length (recvbuf s)) <? size
              then repeat Byte.x00 (Z.to_nat size)
              else recvbuf s in
            out <- kcpRecv sid (Z.to_nat size) ;;
            let buf := copy (firstn (Z.to_nat size) backing) out in
            let n := copy_n b buf in
            modS sid (fun x =>
              set_bufptr (skipn n buf)
                (set_recvbuf (buf ++ skipn (Z.to_nat size) backing) x)) ;;;
            emit (EvUnlock sid) ;;;
            modSnmp (fun c => set_BytesReceived
                                (add64 (BytesReceived c) (Z.of_nat n)) c) ;;;
            ret (copy b buf, Z.of_nat n, None)
        else
          emit (EvUnlock sid) ;;;
          t <- getNow ;;
          c <- choose (read_ready s t) ;;
          match c with
          | Some WakeEvent =>
              modS sid (set_chReadEvent false) ;;;
              Read_loop fuel' sid b
          | Some WakeTimer => ret (b, 0, Some errTimeout)
          | Some WakeSocketError =>
              e <- socketError (socketReadError s) ;;
              ret (b, 0, Some e)
          | Some WakeDie => ret (b, 0, Some ErrClosedPipe)
          | None => blocks
          end
  end.

(** Without another goroutine the loop is entered at most twice: a
    second pass finds [chReadEvent] drained, so that more fuel changes
    nothing (lemma [Read_loop_fuel]). *)
Definition Read (sid : nat) (b : list byte)
    : M (list byte * Z * option error) :=
  Read_loop 2 sid b.

(** ** UDPSession.WriteBuffers and Write *)

(** The inner loop that cuts one slice into segments of at most [mss]
    bytes.  [mss] is a uint32 in kcp.go; a negative bound would make the
    slice expression panic.  With [mss = 0] and a non-empty slice the
    source loop never ends; [fuel] bounds the unrolling. *)
Fixpoint send_segments (fuel : nat) (sid : nat) (b : list byte) : M unit :=
  match fuel with
  | O => loops
  | S fuel' =>
      s <- getS sid ;;
      let m := mss (kcp s) in
      if Z.of_nat (length b) <=? m then
        kcpSend sid b
      else if m <? 0 then
        panic
      else
        kcpSend sid (firstn (Z.to_nat m) b) ;;;
        send_segments fuel' sid (skipn (Z.to_nat m) b)
  end.

(** The number of segments [send_segments] hands to [Send] for a
    non-empty slice when [mss] is [m > 0]. *)
Definition segments_of (m : Z) (b : list byte) : Z :=
  (Z.of_nat (length b) + m - 1) / m.

(** [for _, b := range v { n += len(b); ... }] *)
Fixpoint send_slices (sid : nat) (v : list (list byte)) (n : Z) : M Z :=
  match v with
  | [] => ret n
  | b :: v' =>
      send_segments (S (length b)) sid b ;;;
      send_slices sid v' (n + Z.of_nat (length b))
  end.

Definition window_open (k : KCP) (waitsnd : Z) : bool :=
  (waitsnd <? snd_wnd k) && (waitsnd <? rmt_wnd k).


Fixpoint WriteBuffers_loop (fuel : nat) (sid : nat) (v : list (list byte))
    : M (Z * option error) :=
  match fuel with
  | O => loops
  | S fuel' =>
      s <- getS sid ;;
      c0 <- choose (write_guard s) ;;
      match c0 with
      | Some GuardSocketError =>
          e <- socketError (socketWriteError s) ;;
          ret (0, Some e)
      | Some GuardDie => ret (0, Some ErrClosedPipe)
      | None =>
          emit (EvLock sid) ;;;
          waitsnd <- kcpWaitSnd sid ;;
          if window_open (kcp s) waitsnd then
            n <- send_slices sid v 0 ;;
            waitsnd' <- kcpWaitSnd sid ;;
            s' <- getS sid ;;
            when_ (negb (window_open (kcp s') waitsnd')
                   || negb (writeDelay s'))
                  (kcpFlush sid false ;;; ret tt) ;;;
            emit (EvUnlock sid) ;;;
            modSnmp (fun c => set_BytesSent (add64 (BytesSent c) n) c) ;;;
            ret (n, None)
          else
            emit (EvUnlock sid) ;;;
            t <- getNow ;;
            c <- choose (write_ready s t) ;;
            match c with
            | Some WakeEvent =>
                modS sid (set_chWriteEvent false) ;;;
                WriteBuffers_loop fuel' sid v
            | Some WakeTimer => ret (0, Some errTimeout)
            | Some WakeSocketError =>
                e <- socketError (socketWriteError s) ;;
                ret (0, Some e)
            | Some WakeDie => ret (0, Some ErrClosedPipe)
            | None => blocks
            end
      end
  end.

(** Two passes are all a sequential run can make (lemma
    [WriteBuffers_loop_fuel]). *)
Definition WriteBuffers (sid : nat) (v : list (list byte))
    : M (Z * option error) :=
  WriteBuffers_loop 2 sid v.

Definition Write (sid : nat) (b : list byte) : M (Z * option error) :=
  WriteBuffers sid [b].

(** ** UDPSession.kcpInput *)

(** [for _, x := range xs] with a local that the body updates. *)
Fixpoint foldM {A B : Type} (xs : list A) (acc : B) (body : B -> A -> M B)
    : M B :=
  match xs with
  | [] => ret acc
  | x :: xs' => acc' <- body acc x ;; foldM xs' acc' body
  end.

(** The notifications that end both branches of [kcpInput]. *)
Definition notifyAfterInput (sid : nat) : M unit :=
  n <- kcpPeekSize sid ;;
  when_ (0 <? n) (notifyReadEvent sid) ;;;
  waitsnd <- kcpWaitSnd sid ;;
  s <- getS sid ;;
  when_ (window_open (kcp s) waitsnd) (notifyWriteEvent sid).

(** Modelled from the spec: [fecPacket.flag()] of fec.go, which is not
    under src/.  The FEC type flag is the little-endian 16-bit word at
    offset 4 of the packet (offsets 24..25 of the encrypted datagram). *)
Definition fecPacket_flag (f : list byte) : option Z :=
  match slice_from 4 f with
  | Some t => Uint16 t
  | None => None
  end.

(** [xmitBuf.Put(r)], which returns a recovered shard to the pool, has
    no counterpart: see [xmitBuf_Get]. *)
Definition kcpInput (sid : nat) (data : list byte) : M unit :=
  emit (EvKcpInput sid data) ;;;
  t4 <- inrange (slice_from 4 data) ;;
  fecFlag <- inrange (Uint16 t4) ;;
  kcpInErrors <-
    (if (fecFlag =? typeData) || (fecFlag =? typeParity) then
       if (fecHeaderSizePlus2 <=? length data)%nat then
         emit (EvLock sid) ;;;
         s <- getS sid ;;
         dec <- inrange (match fecDecoder s with
                         | Some d => Some d
                         | None => newFECDecoder 1 1
                         end) ;;
         let '(dec', recovers) := FEC_decode dec data in
         modS sid (set_fecDecoder (Some dec')) ;;;
         flag <- inrange (fecPacket_flag data) ;;
         e1 <- (if flag =? typeData then
                  payload <- inrange (slice_from fecHeaderSizePlus2 data) ;;
                  code <- kcpInput_call sid payload true (ackNoDelay s) ;;
                  ret (if code =? 0 then 0 else 1)
                else ret 0) ;;
         e2 <- foldM recovers e1 (fun errs r =>
                 if (2 <=? length r)%nat then
                   sz <- inrange (Uint16 r) ;;
                   if (sz <=? Z.of_nat (length r)) && (2 <=? sz) then
                     code <- kcpInput_call sid
                               (skipn 2 (firstn (Z.to_nat sz) r))
                               false (ackNoDelay s) ;;
                     ret (if code =? 0 then errs else errs + 1)
                   else ret errs
                 else ret errs) ;;
         notifyAfterInput sid ;;;
         emit (EvUnlock sid) ;;;
         ret e2
       else
         modSnmp (fun c => set_InErrs (add64 (InErrs c) 1) c) ;;;
         ret 0
     else
       emit (EvLock sid) ;;;
       s <- getS sid ;;
       code <- kcpInput_call sid data true (ackNoDelay s) ;;
       notifyAfterInput sid ;;;
       emit (EvUnlock sid) ;;;
       ret (if code =? 0 then 0 else 1)) ;;
  modSnmp (fun c => set_InPkts (add64 (InPkts c) 1) c) ;;;
  modSnmp (fun c => set_InBytes
                      (add64 (InBytes c) (Z.of_nat (length data))) c) ;;;
  when_ (0 <? kcpInErrors)
        (modSnmp (fun c => set_KCPInErrors
                             (add64 (KCPInErrors c) kcpInErrors) c)).

(** ** The inbound crypto frame

    The statements that open [UDPSession.packetInput] (lines 782-795)
    and [Listener.packetInput] (lines 904-917), which differ only in the
    receiver: the result is [decrypted] and [data]. *)
Definition packetInput_decrypt (block_ : option BlockCrypt)
    (data : list byte) : M (bool * list byte) :=
  match block_ with
  | Some blk =>
      if (cryptHeaderSize <=? length data)%nat then
        emit (EvDecrypt data) ;;;
        let data := copy data (Decrypt blk data) in
        data <- inrange (slice_from nonceSize data) ;;
        body <- inrange (slice_from crcSize data) ;;
        let checksum := ChecksumIEEE body in
        stored <- inrange (Uint32 data) ;;
        if checksum =? stored then
          ret (true, body)
        else
          modSnmp (fun c => set_InCsumErrors
                              (add64 (InCsumErrors c) 1) c) ;;;
          ret (false, data)
      else
        ret (false, data)
  | None => ret (true, data)
  end.

(** ** UDPSession.packetInput *)

Definition UDPSession_packetInput (sid : nat) (data : list byte) : M unit :=
  s <- getS sid ;;
  r <- packetInput_decrypt (block s) data ;;
  let '(decrypted, data) := r in
  if decrypted && (IKCP_OVERHEAD <=? length data)%nat then
    kcpInput sid data
  else
    ret tt.

(** ** newUDPSession *)

(** [new(UDPSession)] and its registration in the heap. *)
Definition alloc (s : UDPSession) : M nat :=
  fun w =>
    let sid := fresh (dom (heap w)) in
    Ret sid (set_heap (<[sid := s]> (heap w)) w).

Definition newUDPSession (conv_ : Z) (dataShards parityShards : Z)
    (l : bool) (conn_ : nat) (ownConn_ : bool) (remote_ : string)
    (block_ : option BlockCrypt) : M nat :=
  seed <- draw ;;
  let enc := newFECEncoder dataShards parityShards
               (if is_some block_ then Z.of_nat cryptHeaderSize else 0) in
  sid <- alloc
    {| conn := conn_; ownConn := ownConn_; kcp := NewKCP conv_;
       sess_l := l; block := block_;
       recvbuf := repeat Byte.x00 (Z.to_nat mtuLimit); bufptr := [];
       fecDecoder := newFECDecoder dataShards parityShards;
       fecEncoder := enc;
       remote := remote_; rd := None; wd := None;
       headerSize := ((if is_some block_ then cryptHeaderSize else 0)
                      + (if is_some enc then fecHeaderSizePlus2 else 0))%nat;
       ackNoDelay := false; writeDelay := false; dup := 0;
       die := false; dieOnce := false;
       chReadEvent := false; chWriteEvent := false;
       socketReadError := None; socketWriteError := None;
       nonce := Entropy_Init seed; chPostProcessing := [] |} ;;
  emit (EvGo sid TaskPostProcess) ;;;
  (if l then
     modSnmp (fun c => set_PassiveOpens (add64 (PassiveOpens c) 1) c)
   else
     emit (EvGo sid TaskReadLoop) ;;;
     modSnmp (fun c => set_ActiveOpens (add64 (ActiveOpens c) 1) c)) ;;;
  t <- getNow ;;
  emit (EvTimedSched sid t) ;;;
  modSnmp (fun c =>
    let currestab := add64 (CurrEstab c) 1 in
    let c' := set_CurrEstab currestab c in
    if MaxConn c <? currestab then set_MaxConn currestab c' else c') ;;;
  ret sid.

(** ** Listener.packetInput

    [l.sessionLock] guards the table against other goroutines and is
    not logged. *)

(** The recovery of [(conv, sn, convRecovered)] from the frame (lines
    924-939); [None] when a read is out of range. *)
Definition recoverConv (data : list byte) : option (Z * Z * bool) :=
  t4 ← slice_from 4 data;
  fecFlag ← Uint16 t4;
  if (fecFlag =? typeData) || (fecFlag =? typeParity) then
    if (fecFlag =? typeData)
       && (fecHeaderSizePlus2 + IKCP_OVERHEAD <=? length data)%nat then
      tc ← slice_from fecHeaderSizePlus2 data;
      conv_ ← Uint32 tc;
      ts ← slice_from (fecHeaderSizePlus2 + IKCP_SN_OFFSET) data;
      sn ← Uint32 ts;
      Some (conv_, sn, true)
    else
      Some (0, 0, false)
  else
    conv_ ← Uint32 data;
    ts ← slice_from IKCP_SN_OFFSET data;
    sn ← Uint32 ts;
    Some (conv_, sn, true).

(** The body of [if s == nil && convRecovered] (lines 951-958). *)
Definition acceptNew (conv_ : Z) (data : list byte) (addr : string)
    : M unit :=
  l <- getL ;;
  if (length (l_chAccepts l) <? acceptBacklog)%nat then
    sid <- newUDPSession conv_ (l_dataShards l) (l_parityShards l)
             true (l_conn l) false addr (l_block l) ;;
    kcpInput sid data ;;;
    modL (fun l => set_l_sessions (<[addr := sid]> (l_sessions l)) l) ;;;
    modL (fun l => set_l_chAccepts (l_chAccepts l ++ [sid]) l)
  else
    ret tt.

Definition Listener_packetInput (data : list byte) (addr : string) : M unit :=
  l <- getL ;;
  r <- packetInput_decrypt (l_block l) data ;;
  let '(decrypted, data) := r in
  if decrypted && (IKCP_OVERHEAD <=? length data)%nat then
    let s := l_sessions l !! addr in
    h <- inrange (recoverConv data) ;;
    let '(conv_, sn, convRecovered) := h in
    s <- match s with
         | Some sid =>
             x <- getS sid ;;
             if negb convRecovered || (conv_ =? conv (kcp x)) then
               kcpInput sid data ;;;
               ret (Some sid)
             else if sn =? 0 then
               Close sid ;;;
               ret None
             else
               ret (Some sid)
         | None => ret None
         end ;;
    if negb (is_some s) && convRecovered then
      acceptNew conv_ data addr
    else
      ret tt
  else
    ret tt.

(** ** UDPSession.postProcess *)

(** Lines 637-640 (and 643-646 for a parity shard): nonce, checksum,
    encryption in place.  [buf[:nonceSize]] is in range of the capacity
    of a pool buffer even when [buf] is shorter, but [buf[cryptHeaderSize:]]
    then panics, so a buffer shorter than the crypto header panics either
    way. *)
Definition seal (sid : nat) (blk : BlockCrypt) (buf : list byte)
    : M (list byte) :=
  s <- getS sid ;;
  head <- inrange (slice_to nonceSize buf) ;;
  let '(nz, filled) := Entropy_Fill (nonce s) in
  modS sid (set_nonce nz) ;;;
  let buf := copy head filled ++ skipn nonceSize buf in
  body <- inrange (slice_from cryptHeaderSize buf) ;;
  let checksum := ChecksumIEEE body in
  field <- inrange (slice_from nonceSize buf) ;;
  field' <- inrange (PutUint32 field checksum) ;;
  let buf := firstn nonceSize buf ++ field' in
  emit (EvEncrypt buf) ;;;
  ret (copy buf (Encrypt blk buf)).

(** The outbound crypto frame in the words of the spec: the nonce in
    bytes 0..15, the CRC32/IEEE of the bytes from offset 20 in bytes
    16..19, little-endian, the bytes from offset 20 as they were; the
    whole is then encrypted in place. *)
Definition crypto_plain (filled buf : list byte) : list byte :=
  copy (firstn nonceSize buf) filled
  ++ le32 (ChecksumIEEE (skipn cryptHeaderSize buf))
  ++ skipn cryptHeaderSize buf.

(** The bytes that [n] calls of [Fill] in a row store, from the state
    [nz] of the nonce source on: the call of line 637 for the buffer,
    then the call of line 643 for each parity shard. *)
Fixpoint nonce_fills (nz : Entropy) (n : nat) : list (list byte) :=
  match n with
  | O => []
  | S n' => snd (Entropy_Fill nz) :: nonce_fills (fst (Entropy_Fill nz)) n'
  end.

(** The outbound crypto frames of the buffers [bufs] in the words of
    the spec, each with a nonce of its own, in the order of [bufs]. *)
Definition crypto_plains (nz : Entropy) (bufs : list (list byte))
    : list (list byte) :=
  zip_with crypto_plain (nonce_fills nz (length bufs)) bufs.

(** The buffer and the parity shards that leave the FEC stage of the
    post-processor (step 1 of [postProcess_buf] below). *)
Definition fec_staged (s : UDPSession) (buf : list byte)
    : list byte * list (list byte) :=
  match fecEncoder s with
  | Some e =>
      let '(_, stored, ecc) := FEC_encode e buf maxFECEncodeLatency in
      (copy buf stored, ecc)
  | None => (buf, [])
  end.

(** [for k := range xs { xs[k] = f(xs[k]) }] *)
Fixpoint mapM {A B : Type} (f : A -> M B) (xs : list A) : M (list B) :=
  match xs with
  | [] => ret []
  | x :: xs' => y <- f x ;; ys <- mapM f xs' ;; ret (y :: ys)
  end.

(** The locals of the goroutine: the batch, the cork channel (slot
    full) and whether [chDie] holds [s.die] rather than nil. *)
Record PostProcess : Type := {
  txqueue : list (string * list byte);
  chCork : bool;
  chDie : bool;
}.

(** The body of [case buf := <-s.chPostProcessing]. *)
Definition postProcess_buf (sid : nat) (buf : list byte) (p : PostProcess)
    : M PostProcess :=
  s <- getS sid ;;
  (* 1. FEC encoding *)
  r <- match fecEncoder s with
       | Some e =>
           let '(e', stored, ecc) := FEC_encode e buf maxFECEncodeLatency in
           modS sid (set_fecEncoder (Some e')) ;;;
           ret (copy buf stored, ecc)
       | None => ret (buf, [])
       end ;;
  let '(buf, ecc) := r in
  (* 2&3. crc32 & encryption *)
  r <- match block s with
       | Some blk =>
           buf' <- seal sid blk buf ;;
           ecc' <- mapM (seal sid blk) ecc ;;
           ret (buf', ecc')
       | None => ret (buf, ecc)
       end ;;
  let '(buf, ecc) := r in
  (* 4. TxQueue *)
  let q := txqueue p ++ [(remote s, buf)] in
  dups <- mapM (fun _ : nat =>
                  bts <- xmitBuf_Get (length buf) ;;
                  ret (remote s, copy bts buf))
               (seq 0 (Z.to_nat (dup s))) ;;
  parity <- mapM (fun e =>
                    bts <- xmitBuf_Get (length e) ;;
                    ret (remote s, copy bts e))
                 ecc ;;
  s' <- getS sid ;;
  ret {| txqueue := q ++ dups ++ parity;
         chCork := if (length (chPostProcessing s') =? 0)%nat
                   then true else chCork p;
         chDie := true |}.

Inductive PostCase : Type := PostBuf | PostCork | PostDie.

(** One pass of the [for { select { ... } }] of the goroutine; [None]
    when the goroutine returns. *)
Definition postProcess_step (sid : nat) (p : PostProcess)
    : M (option PostProcess) :=
  s <- getS sid ;;
  c <- choose
         ((if (0 <? length (chPostProcessing s))%nat then [PostBuf] else [])
          ++ (if chCork p then [PostCork] else [])
          ++ (if chDie p && die s then [PostDie] else [])) ;;
  match c with
  | Some PostBuf =>
      match chPostProcessing s with
      | buf :: rest =>
          modS sid (set_chPostProcessing rest) ;;;
          p' <- postProcess_buf sid buf p ;;
          ret (Some p')
      | [] => blocks
      end
  | Some PostCork =>
      (if (0 <? length (txqueue p))%nat
       then emit (EvTx (txqueue p)) else ret tt) ;;;
      ret (Some {| txqueue := []; chCork := false; chDie := true |})
  | Some PostDie =>
      if chCork p || (0 <? length (chPostProcessing s))%nat then
        ret (Some {| txqueue := txqueue p; chCork := chCork p;
                     chDie := false |})
      else
        ret None
  | None => blocks
  end.

End Model.

Arguments Ret {ext A} a w.
Arguments Panic {ext A}.
Arguments Loops {ext A}.
Arguments Blocks {ext A}.

(** * The other methods of sess.go

    The setters of a session, its timer task, the socket errors, and
    the accept side of the listener.  Fields of [Listener] that the
    dispatcher does not touch are kept in [ListenerCells]; the methods
    that use them take and return the cells. *)

Section Methods.

Context {ext : Externals}.

Notation "x <- m ;; k" := (bind m (fun x => k))
  (at level 100, m at next level, right associativity).
Notation "m ;;; k" := (bind m (fun _ => k))
  (at level 100, right associativity).

Definition set_rd (v : option Z) (x : UDPSession) : UDPSession :=
  {| conn := conn x; ownConn := ownConn x; kcp := kcp x; sess_l := sess_l x; block := block x; recvbuf := recvbuf x; bufptr := bufptr x; fecDecoder := fecDecoder x; fecEncoder := fecEncoder x; remote := remote x; rd := v; wd := wd x; headerSize := headerSize x; ackNoDelay := ackNoDelay x; writeDelay := writeDelay x; dup := dup x; die := die x; dieOnce := dieOnce x; chReadEvent := chReadEvent x; chWriteEvent := chWriteEvent x; socketReadError := socketReadError x; socketWriteError := socketWriteError x; nonce := nonce x; chPostProcessing := chPostProcessing x |}.

Definition set_wd (v : option Z) (x : UDPSession) : UDPSession :=
  {| conn := conn x; ownConn := ownConn x; kcp := kcp x; sess_l := sess_l x; block := block x; recvbuf := recvbuf x; bufptr := bufptr x; fecDecoder := fecDecoder x; fecEncoder := fecEncoder x; remote := remote x; rd := rd x; wd := v; headerSize := headerSize x; ackNoDelay := ackNoDelay x; writeDelay := writeDelay x; dup := dup x; die := die x; dieOnce := dieOnce x; chReadEvent := chReadEvent x; chWriteEvent := chWriteEvent x; socketReadError := socketReadError x; socketWriteError := socketWriteError x; nonce := nonce x; chPostProcessing := chPostProcessing x |}.

Definition set_ackNoDelay (v : bool) (x : UDPSession) : UDPSession :=
  {| conn := conn x; ownConn := ownConn x; kcp := kcp x; sess_l := sess_l x; block := block x; recvbuf := recvbuf x; bufptr := bufptr x; fecDecoder := fecDecoder x; fecEncoder := fecEncoder x; remote := remote x; rd := rd x; wd := wd x; headerSize := headerSize x; ackNoDelay := v; writeDelay := writeDelay x; dup := dup x; die := die x; dieOnce := dieOnce x; chReadEvent := chReadEvent x; chWriteEvent := chWriteEvent x; socketReadError := socketReadError x; socketWriteError := socketWriteError x; nonce := nonce x; chPostProcessing := chPostProcessing x |}.

Definition set_writeDelay (v : bool) (x : UDPSession) : UDPSession :=
  {| conn := conn x; ownConn := ownConn x; kcp := kcp x; sess_l := sess_l x; block := block x; recvbuf := recvbuf x; bufptr := bufptr x; fecDecoder := fecDecoder x; fecEncoder := fecEncoder x; remote := remote x; rd := rd x; wd := wd x; headerSize := headerSize x; ackNoDelay := ackNoDelay x; writeDelay := v; dup := dup x; die := die x; dieOnce := dieOnce x; chReadEvent := chReadEvent x; chWriteEvent := chWriteEvent x; socketReadError := socketReadError x; socketWriteError := socketWriteError x; nonce := nonce x; chPostProcessing := chPostProcessing x |}.

Definition set_dup (v : Z) (x : UDPSession) : UDPSession :=
  {| conn := conn x; ownConn := ownConn x; kcp := kcp x; sess_l := sess_l x; block := block x; recvbuf := recvbuf x; bufptr := bufptr x; fecDecoder := fecDecoder x; fecEncoder := fecEncoder x; remote := remote x; rd := rd x; wd := wd x; headerSize := headerSize x; ackNoDelay := ackNoDelay x; writeDelay := writeDelay x; dup := v; die := die x; dieOnce := dieOnce x; chReadEvent := chReadEvent x; chWriteEvent := chWriteEvent x; socketReadError := socketReadError x; socketWriteError := socketWriteError x; nonce := nonce x; chPostProcessing := chPostProcessing x |}.

Definition set_socketReadError (v : option error) (x : UDPSession) : UDPSession :=
  {| conn := conn x; ownConn := ownConn x; kcp := kcp x; sess_l := sess_l x; block := block x; recvbuf := recvbuf x; bufptr := bufptr x; fecDecoder := fecDecoder x; fecEncoder := fecEncoder x; remote := remote x; rd := rd x; wd := wd x; headerSize := headerSize x; ackNoDelay := ackNoDelay x; writeDelay := writeDelay x; dup := dup x; die := die x; dieOnce := dieOnce x; chReadEvent := chReadEvent x; chWriteEvent := chWriteEvent x; socketReadError := v; socketWriteError := socketWriteError x; nonce := nonce x; chPostProcessing := chPostProcessing x |}.

Definition set_socketWriteError (v : option error) (x : UDPSession) : UDPSession :=
  {| conn := conn x; ownConn := ownConn x; kcp := kcp x; sess_l := sess_l x; block := block x; recvbuf := recvbuf x; bufptr := bufptr x; fecDecoder := fecDecoder x; fecEncoder := fecEncoder x; remote := remote x; rd := rd x; wd := wd x; headerSize := headerSize x; ackNoDelay := ackNoDelay x; writeDelay := writeDelay x; dup := dup x; die := die x; dieOnce := dieOnce x; chReadEvent := chReadEvent x; chWriteEvent := chWriteEvent x; socketReadError := socketReadError x; socketWriteError := v; nonce := nonce x; chPostProcessing := chPostProcessing x |}.

Definition set_l_die (v : bool) (x : Listener) : Listener :=
  {| l_block := l_block x; l_dataShards := l_dataShards x; l_parityShards := l_parityShards x; l_conn := l_conn x; l_ownConn := l_ownConn x; l_sessions := l_sessions x; l_chAccepts := l_chAccepts x; l_die := v |}.

(** ** UDPSession.isClosed *)

Definition isClosed (sid : nat) : M bool :=
  s <- getS sid ;;
  ret (die s).

(** ** The deadlines of a session

    A [time.Time] is [None] for the zero time, as in [rd] and [wd]. *)

Definition SetDeadline (sid : nat) (t : option Z) : M (option error) :=
  emit (EvLock sid) ;;;
  modS sid (set_rd t) ;;;
  modS sid (set_wd t) ;;;
  emit (EvUnlock sid) ;;;
  notifyReadEvent sid ;;;
  notifyWriteEvent sid ;;;
  ret None.

Definition SetReadDeadline (sid : nat) (t : option Z) : M (option error) :=
  emit (EvLock sid) ;;;
  modS sid (set_rd t) ;;;
  emit (EvUnlock sid) ;;;
  notifyReadEvent sid ;;;
  ret None.

Definition SetWriteDeadline (sid : nat) (t : option Z) : M (option error) :=
  emit (EvLock sid) ;;;
  modS sid (set_wd t) ;;;
  emit (EvUnlock sid) ;;;
  notifyWriteEvent sid ;;;
  ret None.

(** ** SetWriteDelay, SetACKNoDelay, SetDUP *)

Definition SetWriteDelay (sid : nat) (delay : bool) : M unit :=
  emit (EvLock sid) ;;;
  modS sid (set_writeDelay delay) ;;;
  emit (EvUnlock sid).

Definition SetACKNoDelay (sid : nat) (nodelay : bool) : M unit :=
  emit (EvLock sid) ;;;
  modS sid (set_ackNoDelay nodelay) ;;;
  emit (EvUnlock sid).

Definition SetDUP (sid : nat) (dup_ : Z) : M unit :=
  emit (EvLock sid) ;;;
  modS sid (set_dup dup_) ;;;
  emit (EvUnlock sid).

(** ** UDPSession.update, the timer task of a session

    The task is scheduled again [interval] milliseconds from now; [now]
    counts milliseconds. *)

Definition update (sid : nat) : M unit :=
  s <- getS sid ;;
  if die s then
    ret tt
  else
    emit (EvLock sid) ;;;
    interval <- kcpFlush sid false ;;
    waitsnd <- kcpWaitSnd sid ;;
    s' <- getS sid ;;
    when_ (window_open (kcp s') waitsnd) (notifyWriteEvent sid) ;;;
    emit (EvUnlock sid) ;;;
    t <- getNow ;;
    emit (EvTimedSched sid (t + interval)).

(** ** UDPSession.GetConv *)

Definition GetConv (sid : nat) : M Z :=
  s <- getS sid ;;
  ret (conv (kcp s)).

(** ** notifyReadError, notifyWriteError

    The [sync.Once] has run exactly when the cell is filled. *)

Definition notifyReadError (sid : nat) (err : error) : M unit :=
  s <- getS sid ;;
  if is_some (socketReadError s) then ret tt
  else modS sid (set_socketReadError (Some err)).

Definition notifyWriteError (sid : nat) (err : error) : M unit :=
  s <- getS sid ;;
  if is_some (socketWriteError s) then ret tt
  else modS sid (set_socketWriteError (Some err)).

(** ** The accept side of the listener

    [socketReadError], with its channel and its [sync.Once], and the
    deadline [rd] of [Accept].  [dieOnce] has run exactly when [die] is
    closed. *)

Record ListenerCells : Type := {
  l_socketReadError : option error;
  l_rd : option Z;
}.

(** [Listener.notifyReadError]: the first error is stored and handed to
    every session of the table. *)
Definition Listener_notifyReadError (err : error) (c : ListenerCells)
    : M ListenerCells :=
  if is_some (l_socketReadError c) then
    ret c
  else
    l <- getL ;;
    forM_ (map snd (map_to_list (l_sessions l)))
          (fun sid => notifyReadError sid err) ;;;
    ret {| l_socketReadError := Some err; l_rd := l_rd c |}.

Inductive AcceptCase : Type :=
  AcceptTimeout | AcceptSession | AcceptSocketError | AcceptDie.

(** The cases of the [select] of [AcceptKCP] that are ready at time
    [t]: the timer, [chAccepts], [chSocketReadError], [die]. *)
Definition accept_ready (l : Listener) (c : ListenerCells) (t : Z)
    : list AcceptCase :=
  (if expired (l_rd c) t then [AcceptTimeout] else [])
  ++ (if (0 <? length (l_chAccepts l))%nat then [AcceptSession] else [])
  ++ (if is_some (l_socketReadError c) then [AcceptSocketError] else [])
  ++ (if l_die l then [AcceptDie] else []).

(** [Listener.AcceptKCP]; [Accept] returns the same session as a
    [net.Conn]. *)
Definition AcceptKCP (c : ListenerCells) : M (option nat * option error) :=
  l <- getL ;;
  t <- getNow ;;
  x <- choose (accept_ready l c t) ;;
  match x with
  | Some AcceptTimeout => ret (None, Some errTimeout)
  | Some AcceptSession =>
      match l_chAccepts l with
      | sid :: rest =>
          modL (set_l_chAccepts rest) ;;;
          ret (Some sid, None)
      | [] => blocks
      end
  | Some AcceptSocketError =>
      e <- socketError (l_socketReadError c) ;;
      ret (None, Some e)
  | Some AcceptDie => ret (None, Some ErrClosedPipe)
  | None => blocks
  end.

Definition Accept (c : ListenerCells) : M (option nat * option error) :=
  AcceptKCP c.

Definition Listener_SetReadDeadline (t : option Z) (c : ListenerCells)
    : ListenerCells * option error :=
  ({| l_socketReadError := l_socketReadError c; l_rd := t |}, None).

Definition Listener_SetWriteDeadline (t : option Z) : option error :=
  Some errInvalidOperation.

Definition Listener_SetDeadline (t : option Z) (c : ListenerCells)
    : ListenerCells * option error :=
  let '(c', _) := Listener_SetReadDeadline t c in
  let _ := Listener_SetWriteDeadline t in
  (c', None).

(** ** Listener.Close *)

Definition Listener_Close : M (option error) :=
  l <- getL ;;
  if l_die l then
    ret (Some ErrClosedPipe)
  else
    modL (set_l_die true) ;;;
    if l_ownConn l then connClose (l_conn l) else ret None.

(** ** serveConn

    [new(Listener)] replaces the listener of the process;
    [go l.monitor()] starts the reader of readloop.go, which is not part
    of sess.go. *)
Definition serveConn (block_ : option BlockCrypt)
    (dataShards parityShards : Z) (conn_ : nat) (ownConn_ : bool)
    : M ListenerCells :=
  modL (fun _ =>
          {| l_block := block_; l_dataShards := dataShards;
             l_parityShards := parityShards; l_conn := conn_;
             l_ownConn := ownConn_; l_sessions := ∅; l_chAccepts := [];
             l_die := false |}) ;;;
  ret {| l_socketReadError := None; l_rd := None |}.

(** ** NewConn2, NewConn3, NewConn4

    [binary.Read(rand.Reader, ...)] draws the conversation id. *)

Definition NewConn4 (convid : Z) (raddr : string)
    (block_ : option BlockCrypt) (dataShards parityShards : Z)
    (ownConn_ : bool) (conn_ : nat) : M (nat * option error) :=
  sid <- newUDPSession convid dataShards parityShards false conn_ ownConn_
           raddr block_ ;;
  ret (sid, None).

Definition NewConn3 (convid : Z) (raddr : string)
    (block_ : option BlockCrypt) (dataShards parityShards : Z)
    (conn_ : nat) : M (nat * option error) :=
  sid <- newUDPSession convid dataShards parityShards false conn_ false
           raddr block_ ;;
  ret (sid, None).

Definition NewConn2 (raddr : string) (block_ : option BlockCrypt)
    (dataShards parityShards : Z) (conn_ : nat) : M (nat * option error) :=
  r <- draw ;;
  NewConn3 (Z.of_nat r mod 2 ^ 32) raddr block_ dataShards parityShards conn_.

(** ** The datagrams of a run

    The reader of a listener hands every datagram it receives to
    [Listener.packetInput], one after the other. *)
Definition Listener_packetInputs (pkts : list (list byte * string)) : M unit :=
  forM_ pkts (fun p => Listener_packetInput (fst p) (snd p)).

(** [postProcess] from its entry: the passes of the loop until the
    goroutine returns; [fuel] bounds the passes. *)
Fixpoint postProcess_loop (fuel : nat) (sid : nat) (p : PostProcess)
    : M unit :=
  match fuel with
  | O => loops
  | S fuel' =>
      r <- postProcess_step sid p ;;
      match r with
      | Some p' => postProcess_loop fuel' sid p'
      | None => ret tt
      end
  end.

(** [txqueue := make([]ipv4.Message, 0, acceptBacklog)], an empty cork
    channel and [chDie := s.die]. *)
Definition postProcess_init : PostProcess :=
  {| txqueue := []; chCork := false; chDie := true |}.

Definition postProcess (fuel : nat) (sid : nat) : M unit :=
  postProcess_loop fuel sid postProcess_init.

End Methods.

(** * Frames

    The relations in which the properties of the other methods are
    stated. *)

(** ** What a call leaves alone

    [keeps R m]: every run of [m] that returns relates the state before
    to the state after by [R].  A [Frame] is a relation that composes
    along a run and ignores the draws of the scheduler. *)

Definition keeps {ext : Externals} {A : Type} (R : World -> World -> Prop)
    (m : M A) : Prop :=
  forall w a w', m w = Ret a w' -> R w w'.

Record Frame {ext : Externals} (R : World -> World -> Prop) : Prop := {
  frame_refl : forall w, R w w;
  frame_trans : forall a b c, R a b -> R b c -> R a c;
  frame_rand : forall w r, R w (set_rand r w);
}.

(** The payloads handed to [Send] of session [sid] in a log. *)
Definition sent (sid : nat) (evs : list Event) : list (list byte) :=
  flat_map (fun ev =>
              match ev with
              | EvKCP i (CallSend b) => if (i =? sid)%nat then [b] else []
              | _ => []
              end) evs.

(** The parts of the state a relation does not look at. *)
Definition ignores_heap {ext : Externals} (R : World -> World -> Prop) : Prop :=
  forall w h, R w (set_heap h w).
Definition ignores_trace {ext : Externals} (R : World -> World -> Prop)
    : Prop :=
  forall w t, R w (set_trace t w).
Definition ignores_snmp {ext : Externals} (R : World -> World -> Prop) : Prop :=
  forall w c, R w (set_DefaultSnmp c w).
Definition ignores_socks {ext : Externals} (R : World -> World -> Prop)
    : Prop :=
  forall w s, R w (set_socks s w).
Definition ignores_listener {ext : Externals} (R : World -> World -> Prop)
    : Prop :=
  forall w l, R w (set_listener l w).

(** The messages handed to [tx] in a log, in order. *)
Definition transmitted (evs : list Event) : list (string * list byte) :=
  flat_map (fun ev => match ev with EvTx msgs => msgs | _ => [] end) evs.

(** What the body of the post-processor leaves alone: the queue, the
    [die] channel and the address of its session, and the messages
    transmitted so far. *)
Definition post_frame {ext : Externals} (sid : nat) (w w' : World) : Prop :=
  (forall s, heap w !! sid = Some s ->
             exists s', heap w' !! sid = Some s'
                        /\ chPostProcessing s' = chPostProcessing s
                        /\ die s' = die s /\ remote s' = remote s)
  /\ exists evs, trace w' = trace w ++ evs /\ transmitted evs = [].

(** The call leaves [proj] of session [sid] as it was. *)
Definition session_keeps {ext : Externals} {T : Type} (sid : nat)
    (proj : UDPSession -> T) (w w' : World) : Prop :=
  forall s, heap w !! sid = Some s ->
            exists s', heap w' !! sid = Some s' /\ proj s' = proj s.

(** The log grows by events that satisfy [P]. *)
Definition grows {ext : Externals} (P : Event -> Prop) (w w' : World) : Prop :=
  exists evs, trace w' = trace w ++ evs /\ Forall P evs.

(** What the input path of session [sid] leaves alone: the listener,
    the sockets, the other sessions and the counters of connections,
    of bytes and of checksum errors. *)
Definition input_frame {ext : Externals} (sid : nat) (w w' : World) : Prop :=
  listener w' = listener w /\ socks w' = socks w
  /\ (forall j, j <> sid -> heap w' !! j = heap w !! j)
  /\ ActiveOpens (DefaultSnmp w') = ActiveOpens (DefaultSnmp w)
  /\ PassiveOpens (DefaultSnmp w') = PassiveOpens (DefaultSnmp w)
  /\ CurrEstab (DefaultSnmp w') = CurrEstab (DefaultSnmp w)
  /\ MaxConn (DefaultSnmp w') = MaxConn (DefaultSnmp w)
  /\ BytesSent (DefaultSnmp w') = BytesSent (DefaultSnmp w)
  /\ BytesReceived (DefaultSnmp w') = BytesReceived (DefaultSnmp w)
  /\ InCsumErrors (DefaultSnmp w') = InCsumErrors (DefaultSnmp w).

(** A call that hands a packet to the ARQ instance of [sid] as a
    regular one. *)
Definition regular_input (sid : nat) (ev : Event) : Prop :=
  exists d a, ev = EvKCP sid (CallInput d true a).

(** What identifies a session to the listener: its address, that it was
    accepted, that it does not own the socket, and whether it is
    closed. *)
Definition session_id {ext : Externals} (s : UDPSession)
    : string * bool * bool * bool * bool :=
  (remote s, sess_l s, ownConn s, die s, dieOnce s).

(** Every entry of the table is an open session that the listener
    accepted from that address. *)
Definition table_ok {ext : Externals} (w : World) : Prop :=
  forall addr sid,
    l_sessions (listener w) !! addr = Some sid ->
    exists s, heap w !! sid = Some s
              /\ session_id s = (addr, true, false, false, false).

(** ** A reference instance of the collaborators

    The statements below hold for every instance of [Externals]; this
    one makes the model run on concrete packets. *)

Module Ref.

(** Modelled from the spec: the ARQ instance [KCP] of kcp.go, which is
    not under src/.  Only its public surface is kept: [Send] queues one
    segment, [WaitSnd] counts the segments queued or in flight, [flush]
    moves queued segments into flight while the window allows and emits
    each of them behind a header of [IKCP_OVERHEAD] bytes that starts
    with the conversation id, [Input] accepts a frame of the session's
    conversation and queues its payload for the reader, [PeekSize] is
    the size of the next message or -1, [Recv] delivers it. *)
Record kcp_state : Type := {
  k_conv : Z;
  k_snd_wnd : Z;
  k_rmt_wnd : Z;
  k_mss : Z;
  snd_queue : list (list byte);
  snd_buf : list (list byte);
  rcv_queue : list (list byte);
}.

Definition overhead : nat := 24.

Definition new_kcp (c : Z) : kcp_state :=
  {| k_conv := c; k_snd_wnd := 32; k_rmt_wnd := 32; k_mss := 1400 - 24;
     snd_queue := []; snd_buf := []; rcv_queue := [] |}.

Definition wait_snd (k : kcp_state) : Z :=
  Z.of_nat (length (snd_buf k) + length (snd_queue k)).

Definition peek_size (k : kcp_state) : Z :=
  match rcv_queue k with
  | m :: _ => Z.of_nat (length m)
  | [] => -1
  end.

Definition recv (k : kcp_state) (n : nat) : kcp_state * list byte :=
  match rcv_queue k with
  | m :: rest =>
      if (length m <=? n)%nat then
        ({| k_conv := k_conv k; k_snd_wnd := k_snd_wnd k;
            k_rmt_wnd := k_rmt_wnd k; k_mss := k_mss k;
            snd_queue := snd_queue k; snd_buf := snd_buf k;
            rcv_queue := rest |}, m)
      else (k, [])
  | [] => (k, [])
  end.

Definition send (k : kcp_state) (b : list byte) : kcp_state :=
  match b with
  | [] => k
  | _ =>
      {| k_conv := k_conv k; k_snd_wnd := k_snd_wnd k;
         k_rmt_wnd := k_rmt_wnd k; k_mss := k_mss k;
         snd_queue := snd_queue k ++ [b]; snd_buf := snd_buf k;
         rcv_queue := rcv_queue k |}
  end.

Definition input (k : kcp_state) (data : list byte) (regular ack : bool)
    : kcp_state * Z :=
  if (length data <? overhead)%nat then (k, -1)
  else if negb (default 0 (Uint32 data) =? k_conv k) then (k, -1)
  else
    ({| k_conv := k_conv k; k_snd_wnd := k_snd_wnd k;
        k_rmt_wnd := k_rmt_wnd k; k_mss := k_mss k;
        snd_queue := snd_queue k; snd_buf := snd_buf k;
        rcv_queue := match skipn overhead data with
                     | [] => rcv_queue k
                     | m => rcv_queue k ++ [m]
                     end |}, 0).

Definition header (k : kcp_state) : list byte :=
  le32 (k_conv k) ++ repeat Byte.x00 (overhead - 4)%nat.

Definition flush (k : kcp_state) (ackOnly : bool)
    : kcp_state * Z * list (list byte * Z) :=
  let room := (Z.to_nat (Z.min (k_snd_wnd k) (k_rmt_wnd k))
               - length (snd_buf k))%nat in
  let moved := if ackOnly then [] else firstn room (snd_queue k) in
  ({| k_conv := k_conv k; k_snd_wnd := k_snd_wnd k;
      k_rmt_wnd := k_rmt_wnd k; k_mss := k_mss k;
      snd_queue := skipn (length moved) (snd_queue k);
      snd_buf := snd_buf k ++ moved;
      rcv_queue := rcv_queue k |},
   10,
   map (fun seg => (header k ++ seg,
                    Z.of_nat (overhead + length seg))) moved).

Definition set_mtu (k : kcp_state) (mtu : Z) : kcp_state :=
  if mtu <? 50 then k
  else {| k_conv := k_conv k; k_snd_wnd := k_snd_wnd k;
          k_rmt_wnd := k_rmt_wnd k; k_mss := mtu - Z.of_nat overhead;
          snd_queue := snd_queue k; snd_buf := snd_buf k;
          rcv_queue := rcv_queue k |}.

(** Modelled from the spec: the FEC codec of fec.go, which is not under
    src/.  A codec exists when both shard counts are positive; this one
    never has a shard to recover and emits no parity. *)
Definition new_fec (dataShards parityShards : Z) : option unit :=
  if (0 <? dataShards) && (0 <? parityShards) then Some tt else None.

(** Modelled from the spec: the nonce source of entropy.go, which is
    not under src/: sixteen bytes per packet, here from a counter. *)
Definition fill (n : nat) : nat * list byte :=
  (S n, repeat (byte_of_Z (Z.of_nat n)) nonceSize).

(** A socket that reports an error when closed twice. *)
Definition close_conn (closed : bool) : bool * option error :=
  (true, if closed then Some (SocketError 0) else None).

#[export] Instance externals : Externals := {|
  KCP := kcp_state;
  IKCP_OVERHEAD := overhead;
  IKCP_SN_OFFSET := 12;
  NewKCP := new_kcp;
  conv := k_conv;
  snd_wnd := k_snd_wnd;
  rmt_wnd := k_rmt_wnd;
  mss := k_mss;
  KCP_WaitSnd := wait_snd;
  KCP_PeekSize := peek_size;
  KCP_Recv := recv;
  KCP_Send := send;
  KCP_Input := input;
  KCP_flush := flush;
  KCP_SetMtu := set_mtu;
  FecDecoder := unit;
  FecEncoder := unit;
  fecHeaderSizePlus2 := 8;
  typeData := 0xf1;
  typeParity := 0xf2;
  newFECDecoder := new_fec;
  newFECEncoder := fun d p _ => new_fec d p;
  FEC_decode := fun d _ => (d, []);
  FEC_encode := fun e _ _ => (e, [], []);
  Entropy := nat;
  Entropy_Init := fun seed => seed;
  Entropy_Fill := fill;
  PacketConn := bool;
  PacketConn_Close := close_conn;
|}.

(** Modelled from the spec: a block cipher of crypt.go, which is not
    under src/: every byte is XORed with one key byte, so [Decrypt]
    undoes [Encrypt]. *)
Definition xor_byte (key : Z) (b : byte) : byte :=
  byte_of_Z (Z.lxor key (byte_to_Z b)).

Definition xorCrypt (key : Z) : BlockCrypt :=
  {| Encrypt := map (xor_byte key); Decrypt := map (xor_byte key) |}.

(** A listener on socket 0 with an empty table, and the process that
    holds nothing else. *)
Definition listener0 (blk : option BlockCrypt) : Listener :=
  {| l_block := blk; l_dataShards := 0; l_parityShards := 0;
     l_conn := 0%nat; l_ownConn := true; l_sessions := ∅;
     l_chAccepts := []; l_die := false |}.

Definition snmp0 : Snmp :=
  {| ActiveOpens := 0; PassiveOpens := 0; CurrEstab := 0; MaxConn := 0;
     BytesSent := 0; BytesReceived := 0; InPkts := 0; InBytes := 0;
     InCsumErrors := 0; InErrs := 0; KCPInErrors := 0 |}.

Definition world0 (blk : option BlockCrypt) : World :=
  {| DefaultSnmp := snmp0; heap := ∅; listener := listener0 blk;
     socks := {[ 0%nat := false ]}; trace := []; rand := []; now := 0 |}.

(** The state reached by [m], or [w] itself when [m] does not return;
    and the value returned, if any. *)
Definition after {A : Type} (m : M A) (w : World) : World :=
  match m w with
  | Ret _ w' => w'
  | _ => w
  end.

Definition result_of {A : Type} (r : Res A) : option A :=
  match r with
  | Ret a _ => Some a
  | _ => None
  end.

(** An ARQ frame without FEC: conv, then cmd, frg, wnd, ts, then sn at
    [IKCP_SN_OFFSET], una, len, and the payload. *)
Definition frame (conv_ sn : Z) (payload : list byte) : list byte :=
  le32 conv_ ++ [Byte.x51; Byte.x00; Byte.x20; Byte.x00] ++ le32 0
  ++ le32 sn ++ le32 0 ++ le32 (Z.of_nat (length payload)) ++ payload.

(** A session with conversation id [c] at address [addr], accepted by
    the listener ([l = true]) or dialled by a client that owns socket 0,
    with neither FEC nor pending data. *)
Definition session0 (c : Z) (l : bool) (blk : option BlockCrypt)
    (addr : string) : UDPSession :=
  {| conn := 0%nat; ownConn := negb l; kcp := new_kcp c; sess_l := l;
     block := blk; recvbuf := repeat Byte.x00 (Z.to_nat mtuLimit);
     bufptr := []; fecDecoder := None; fecEncoder := None;
     remote := addr; rd := None; wd := None;
     headerSize := if is_some blk then cryptHeaderSize else 0%nat;
     ackNoDelay := false; writeDelay := false; dup := 0;
     die := false; dieOnce := false;
     chReadEvent := false; chWriteEvent := false;
     socketReadError := None; socketWriteError := None;
     nonce := 0%nat; chPostProcessing := [] |}.

(** The process that holds [s] at pointer 0, registered in the table of
    the listener when [s] was accepted. *)
Definition world1 (s : UDPSession) : World :=
  {| DefaultSnmp := set_CurrEstab 1 snmp0;
     heap := {[ 0%nat := s ]};
     listener :=
       set_l_sessions
         (if sess_l s then {[ remote s := 0%nat ]} else ∅)
         (listener0 (block s));
     socks := {[ 0%nat := false ]}; trace := []; rand := []; now := 0 |}.

Definition peer : string := "10.0.0.1:4000".

Definition hi : list byte := [Byte.x68; Byte.x69].

(** The same session once [Close] has run and two bytes are left in the
    stash. *)
Definition closed_with_stash : UDPSession :=
  set_bufptr hi (set_dieOnce true (set_die true (session0 7 false None peer))).

(** A session whose ARQ instance holds the message [hi] for the
    reader. *)
Definition with_message : UDPSession :=
  set_kcp {| k_conv := 7; k_snd_wnd := 32; k_rmt_wnd := 32;
             k_mss := 1400 - 24; snd_queue := []; snd_buf := [];
             rcv_queue := [hi] |}
    (session0 7 false None peer).

(** A client session whose send window is 2, as after
    [SetWindowSize(2, 32)], and three full segments to write. *)
Definition narrow : UDPSession :=
  set_kcp {| k_conv := 7; k_snd_wnd := 2; k_rmt_wnd := 32;
             k_mss := 1400 - 24; snd_queue := []; snd_buf := [];
             rcv_queue := [] |}
    (session0 7 false None peer).

Definition bulk : list byte := repeat Byte.x00 (3 * 1376).

(** An encrypted datagram of 24 bytes whose checksum field is wrong. *)
Definition garbled : list byte := repeat Byte.x2a 24.

(** An outbound buffer: 20 reserved bytes and an ARQ frame. *)
Definition outbound : list byte :=
  repeat Byte.x00 cryptHeaderSize ++ frame 7 0 hi.

(** The cells of a listener without deadline or socket error. *)
Definition cells0 : ListenerCells :=
  {| l_socketReadError := None; l_rd := None |}.

(** A client session whose send window of 2 is taken by two segments
    in flight. *)
Definition stalled : UDPSession :=
  set_kcp {| k_conv := 7; k_snd_wnd := 2; k_rmt_wnd := 32;
             k_mss := 1400 - 24; snd_queue := []; snd_buf := [hi; hi];
             rcv_queue := [] |}
    (session0 7 false None peer).

(** A closed session that has one segment left for the
    post-processor. *)
Definition closing : UDPSession :=
  set_chPostProcessing [frame 7 0 hi]
    (set_dieOnce true (set_die true (session0 7 false None peer))).

(** A parity shard: the FEC type flag [typeParity] at offset 4. *)
Definition parity_shard : list byte :=
  repeat Byte.x00 4 ++ [Byte.xf2; Byte.x00] ++ repeat Byte.x2a 20.

End Ref.

(** ** The reference instance with forward error correction

    The collaborators of [Ref], with an FEC encoder that emits parity. *)

Module RefFec.

(** Modelled from the spec: the FEC encoder of fec.go, which is not
    under src/, for one data shard and one parity shard: every buffer
    completes a shard group, and its parity shard is the buffer with
    the type flag [typeParity] at offset 24, behind the crypto header
    and the sequence id. *)
Definition parity_of (buf : list byte) : list byte :=
  firstn 24 buf ++ [Byte.xf2; Byte.x00] ++ skipn 26 buf.

#[local] Instance externals_fec : Externals := {|
  KCP := Ref.kcp_state;
  IKCP_OVERHEAD := Ref.overhead;
  IKCP_SN_OFFSET := 12;
  NewKCP := Ref.new_kcp;
  conv := Ref.k_conv;
  snd_wnd := Ref.k_snd_wnd;
  rmt_wnd := Ref.k_rmt_wnd;
  mss := Ref.k_mss;
  KCP_WaitSnd := Ref.wait_snd;
  KCP_PeekSize := Ref.peek_size;
  KCP_Recv := Ref.recv;
  KCP_Send := Ref.send;
  KCP_Input := Ref.input;
  KCP_flush := Ref.flush;
  KCP_SetMtu := Ref.set_mtu;
  FecDecoder := unit;
  FecEncoder := unit;
  fecHeaderSizePlus2 := 8;
  typeData := 0xf1;
  typeParity := 0xf2;
  newFECDecoder := Ref.new_fec;
  newFECEncoder := fun d p _ => Ref.new_fec d p;
  FEC_decode := fun d _ => (d, []);
  FEC_encode := fun e buf _ => (e, [], [parity_of buf]);
  Entropy := nat;
  Entropy_Init := fun seed => seed;
  Entropy_Fill := Ref.fill;
  PacketConn := bool;
  PacketConn_Close := Ref.close_conn;
|}.

(** A client session with the XOR cipher and an FEC encoder, which
    sends every datagram twice. *)
Definition session_fec : UDPSession :=
  {| conn := 0%nat; ownConn := true; kcp := Ref.new_kcp 7; sess_l := false;
     block := Some (Ref.xorCrypt 90);
     recvbuf := repeat Byte.x00 (Z.to_nat mtuLimit);
     bufptr := []; fecDecoder := None; fecEncoder := Some tt;
     remote := Ref.peer; rd := None; wd := None;
     headerSize := (cryptHeaderSize + 8)%nat;
     ackNoDelay := false; writeDelay := false; dup := 1;
     die := false; dieOnce := false;
     chReadEvent := false; chWriteEvent := false;
     socketReadError := None; socketWriteError := None;
     nonce := 0%nat; chPostProcessing := [] |}.

Definition world_fec : World :=
  {| DefaultSnmp := set_CurrEstab 1 Ref.snmp0;
     heap := {[ 0%nat := session_fec ]};
     listener := Ref.listener0 (Some (Ref.xorCrypt 90));
     socks := {[ 0%nat := false ]}; trace := []; rand := []; now := 0 |}.

(** An outbound buffer: 28 reserved bytes and an ARQ frame. *)
Definition outbound_fec : list byte :=
  repeat Byte.x00 (cryptHeaderSize + 8) ++ Ref.frame 7 0 Ref.hi.

End RefFec.

(** * Proof automation

    [run_with Hs] unfolds the primitives of the monad and runs a method
    as far as the lookups of the session [Hs] decide. *)

Ltac unfold_prims :=
  unfold kcpWaitSnd, kcpPeekSize, kcpRecv, kcpSend, kcpInput_call,
    kcpSetMtu, notifyReadEvent, notifyWriteEvent, socketError;
  unfold bind, getS, modS, emit, ret, modSnmp, getL, modL, getNow,
    when_, inrange, panic, loops, blocks.

Ltac run_with Hs :=
  unfold_prims;
  repeat (cbn -[copy copy_n Z.of_nat Z.to_nat Z.ltb Z.leb Nat.ltb Nat.leb
                firstn skipn repeat read_ready write_ready write_guard
                choose];
          rewrite ?lookup_insert_eq, ?Hs).

(** * Properties *)

Section Properties.

Context {ext : Externals}.

(** ** Running the primitives *)

Lemma getS_ok (w : World) (sid : nat) (s : UDPSession) :
  heap w !! sid = Some s -> getS sid w = Ret s w.
Proof. intros H. unfold getS. rewrite H. reflexivity. Qed.

Lemma modS_ok (w : World) (sid : nat) (s : UDPSession)
    (f : UDPSession -> UDPSession) :
  heap w !! sid = Some s ->
  modS sid f w = Ret tt (set_heap (<[sid := f s]> (heap w)) w).
Proof. intros H. unfold modS. rewrite H. reflexivity. Qed.

Lemma bind_unit_ret (m : M unit) (w : World) :
  bind m (fun _ => ret tt) w = m w.
Proof. unfold bind, ret. destruct (m w) as [[] w'| | |]; reflexivity. Qed.

Lemma add64_succ (x : Z) : 0 <= x < 2 ^ 64 - 1 -> add64 x 1 = x + 1.
Proof. intros H. unfold add64. apply Z.mod_small. lia. Qed.

Lemma add64_pred (x : Z) : 0 < x < 2 ^ 64 -> add64 x (2 ^ 64 - 1) = x - 1.
Proof.
  intros H. unfold add64.
  replace (x + (2 ^ 64 - 1)) with (x - 1 + 1 * 2 ^ 64) by ring.
  rewrite Z.mod_add by lia. apply Z.mod_small. lia.
Qed.

(** ** SetMtu *)

(** C10.  [SetMtu] refuses exactly the values above [mtuLimit] = 1500,
    returning false and leaving the process state as it was; every other
    value, zero and negative ones included, is passed to the ARQ
    instance under the mutex and the call returns true. *)
Theorem SetMtu_bound (w : World) (sid : nat) (s : UDPSession) (mtu : Z) :
  heap w !! sid = Some s ->
  (SetMtu sid mtu w = Ret false w <-> 1500 < mtu)
  /\ (mtu <= 1500 ->
      exists w',
        SetMtu sid mtu w = Ret true w'
        /\ heap w' = <[sid := set_kcp (KCP_SetMtu (kcp s) mtu) s]> (heap w)
        /\ trace w' = trace w ++ [EvLock sid; EvKCP sid (CallSetMtu mtu);
                                  EvUnlock sid]).
Proof.
  intros Hs.
  unfold SetMtu, mtuLimit.
  destruct (1500 <? mtu) eqn:E.
  - apply Z.ltb_lt in E. split; [split; [lia | reflexivity] | lia].
  - apply Z.ltb_ge in E. split.
    + split; [| lia]. unfold bind, emit, kcpSetMtu, bind, getS, emit, modS, ret.
      cbn. rewrite Hs. cbn. rewrite Hs. cbn. discriminate.
    + intros _. unfold bind, emit, kcpSetMtu, bind, getS, emit, modS, ret.
      cbn. rewrite Hs. cbn. rewrite Hs. cbn.
      eexists. split; [reflexivity |]. cbn. split; [reflexivity |].
      rewrite <- !app_assoc. reflexivity.
Qed.

(** ** Slices *)

Lemma copy_length (dst src : list byte) : length (copy dst src) = length dst.
Proof.
  unfold copy. rewrite length_app, length_firstn, length_skipn. lia.
Qed.

Lemma slice_from_ok (n : nat) (s : list byte) :
  (n <= length s)%nat -> slice_from n s = Some (skipn n s).
Proof.
  intros H. unfold slice_from.
  destruct (n <=? length s)%nat eqn:E; [reflexivity |].
  apply Nat.leb_gt in E. lia.
Qed.

Lemma slice_to_ok (n : nat) (s : list byte) :
  (n <= length s)%nat -> slice_to n s = Some (firstn n s).
Proof.
  intros H. unfold slice_to.
  destruct (n <=? length s)%nat eqn:E; [reflexivity |].
  apply Nat.leb_gt in E. lia.
Qed.

Lemma Uint32_ok (b : list byte) :
  (4 <= length b)%nat -> exists v, Uint32 b = Some v.
Proof.
  destruct b as [|b0 [|b1 [|b2 [|b3 r]]]]; cbn; intros H; try lia.
  eexists. reflexivity.
Qed.

(** ** The inbound crypto frame *)

Lemma packetInput_decrypt_short (w : World) (blk : BlockCrypt)
    (data : list byte) :
  (length data < cryptHeaderSize)%nat ->
  packetInput_decrypt (Some blk) data w = Ret (false, data) w.
Proof.
  intros H. unfold packetInput_decrypt.
  destruct (cryptHeaderSize <=? length data)%nat eqn:E; [| reflexivity].
  apply Nat.leb_le in E. lia.
Qed.

Lemma packetInput_decrypt_mismatch (w : World) (blk : BlockCrypt)
    (data : list byte) :
  let plain := copy data (Decrypt blk data) in
  (cryptHeaderSize <= length data)%nat ->
  Uint32 (skipn nonceSize plain)
    <> Some (ChecksumIEEE (skipn cryptHeaderSize plain)) ->
  packetInput_decrypt (Some blk) data w
  = Ret (false, skipn nonceSize plain)
        (set_DefaultSnmp
           (set_InCsumErrors (add64 (InCsumErrors (DefaultSnmp w)) 1)
              (DefaultSnmp w))
           (set_trace (trace w ++ [EvDecrypt data]) w)).
Proof.
  intros plain Hlen Hcrc. unfold packetInput_decrypt.
  assert (Hp : length plain = length data) by apply copy_length.
  unfold cryptHeaderSize, nonceSize, crcSize in *.
  destruct (16 + 4 <=? length data)%nat eqn:E;
    [| apply Nat.leb_gt in E; lia].
  fold plain. unfold bind at 1. cbn [emit].
  rewrite (slice_from_ok 16 plain) by lia.
  unfold bind at 1. cbn [inrange ret].
  rewrite (slice_from_ok 4 (skipn 16 plain))
    by (rewrite length_skipn; lia).
  unfold bind at 1. cbn [inrange ret].
  destruct (Uint32_ok (skipn 16 plain)) as [v Hv];
    [rewrite length_skipn; lia |].
  rewrite Hv. unfold bind at 1. cbn [inrange ret].
  rewrite skipn_skipn in *. cbn [Nat.add] in *.
  destruct (ChecksumIEEE (skipn 20 plain) =? v) eqn:Ev.
  - apply Z.eqb_eq in Ev. subst v. contradiction.
  - reflexivity.
Qed.

(** C8.  With a cipher configured, a datagram shorter than the crypto
    header (20 bytes) is dropped by the session and by the listener with
    the process state untouched: nothing is decrypted, [InCsumErrors]
    keeps its value and no call reaches the ARQ instance. *)
Theorem short_packet_dropped (w : World) (blk : BlockCrypt)
    (data : list byte) (addr : string) :
  (length data < cryptHeaderSize)%nat ->
  (forall sid s,
      heap w !! sid = Some s -> block s = Some blk ->
      UDPSession_packetInput sid data w = Ret tt w)
  /\ (l_block (listener w) = Some blk ->
      Listener_packetInput data addr w = Ret tt w).
Proof.
  intros Hlen. split.
  - intros sid s Hs Hb. unfold UDPSession_packetInput.
    unfold bind at 1. rewrite (getS_ok _ _ _ Hs). rewrite Hb.
    unfold bind. rewrite packetInput_decrypt_short by exact Hlen.
    reflexivity.
  - intros Hb. unfold Listener_packetInput.
    unfold bind at 1. cbn [getL]. rewrite Hb.
    unfold bind. rewrite packetInput_decrypt_short by exact Hlen.
    reflexivity.
Qed.

(** C3.  With a cipher configured and at least 20 bytes received, a
    datagram whose CRC32/IEEE over the decrypted bytes from offset 20
    differs from the little-endian word stored at offset 16 adds exactly
    one to [InCsumErrors] and is dropped: the only call logged is the
    decryption, so the ARQ instance receives no input.  The same holds
    in [UDPSession.packetInput] and in [Listener.packetInput]. *)
Theorem checksum_rejection (w : World) (blk : BlockCrypt)
    (data : list byte) (addr : string) :
  let plain := copy data (Decrypt blk data) in
  let w' :=
    set_DefaultSnmp
      (set_InCsumErrors (InCsumErrors (DefaultSnmp w) + 1) (DefaultSnmp w))
      (set_trace (trace w ++ [EvDecrypt data]) w) in
  (cryptHeaderSize <= length data)%nat ->
  Uint32 (skipn nonceSize plain)
    <> Some (ChecksumIEEE (skipn cryptHeaderSize plain)) ->
  0 <= InCsumErrors (DefaultSnmp w) < 2 ^ 64 - 1 ->
  (forall sid s,
      heap w !! sid = Some s -> block s = Some blk ->
      UDPSession_packetInput sid data w = Ret tt w')
  /\ (l_block (listener w) = Some blk ->
      Listener_packetInput data addr w = Ret tt w').
Proof.
  intros plain w' Hlen Hcrc Hcnt. subst w'.
  rewrite <- (add64_succ _ Hcnt). split.
  - intros sid s Hs Hb. unfold UDPSession_packetInput.
    unfold bind at 1. rewrite (getS_ok _ _ _ Hs). rewrite Hb.
    unfold bind. rewrite packetInput_decrypt_mismatch by assumption.
    reflexivity.
  - intros Hb. unfold Listener_packetInput.
    unfold bind at 1. cbn [getL]. rewrite Hb.
    unfold bind. rewrite packetInput_decrypt_mismatch by assumption.
    reflexivity.
Qed.

(** ** Read *)

Lemma copy_prefix (dst src : list byte) :
  firstn (Nat.min (length dst) (length src)) (copy dst src)
  = firstn (Nat.min (length dst) (length src)) src.
Proof.
  unfold copy.
  rewrite firstn_app, length_firstn.
  replace (Nat.min (length dst) (length src)
           - Nat.min (length dst) (length src))%nat with 0%nat by lia.
  cbn. rewrite app_nil_r. rewrite firstn_firstn. f_equal. lia.
Qed.

Lemma copy_short (dst src : list byte) :
  (length dst <= length src)%nat -> copy dst src = firstn (length dst) src.
Proof.
  intros H. unfold copy. rewrite skipn_all2 by lia. apply app_nil_r.
Qed.

(** A pass that finds the stash non-empty. *)
Lemma Read_loop_stash (fuel : nat) (w : World) (sid : nat) (s : UDPSession)
    (dst : list byte) :
  heap w !! sid = Some s ->
  bufptr s <> [] ->
  let n := Nat.min (length dst) (length (bufptr s)) in
  exists w',
    Read_loop (S fuel) sid dst w
    = Ret (copy dst (bufptr s), Z.of_nat n, None) w'
    /\ heap w' = <[sid := set_bufptr (skipn n (bufptr s)) s]> (heap w)
    /\ trace w' = trace w ++ [EvLock sid; EvUnlock sid].
Proof.
  intros Hs Hne n. cbn [Read_loop].
  destruct (bufptr s) as [|x xs] eqn:Eb; [contradiction |].
  run_with Hs. rewrite Eb. run_with Hs. cbn [Nat.ltb Nat.leb].
  run_with Hs. eexists. split; [reflexivity |]. cbn.
  split; [reflexivity |]. rewrite <- app_assoc. reflexivity.
Qed.

(** A pass that finds a message which fits the destination. *)
Lemma Read_loop_direct (fuel : nat) (w : World) (sid : nat)
    (s : UDPSession) (dst : list byte) (k : KCP) (out : list byte) :
  heap w !! sid = Some s ->
  bufptr s = [] ->
  0 < KCP_PeekSize (kcp s) <= Z.of_nat (length dst) ->
  KCP_Recv (kcp s) (length dst) = (k, out) ->
  exists w',
    Read_loop (S fuel) sid dst w
    = Ret (copy dst out, KCP_PeekSize (kcp s), None) w'
    /\ heap w' = <[sid := set_kcp k s]> (heap w)
    /\ trace w' = trace w ++ [EvLock sid; EvKCP sid CallPeekSize;
                              EvKCP sid (CallRecv (length dst));
                              EvUnlock sid].
Proof.
  intros Hs Hb [Hpos Hfit] Er. cbn [Read_loop].
  run_with Hs. rewrite Hb. run_with Hs.
  cbn [Nat.ltb Nat.leb]. run_with Hs.
  destruct (0 <? KCP_PeekSize (kcp s)) eqn:E0;
    [| apply Z.ltb_ge in E0; lia].
  destruct (KCP_PeekSize (kcp s) <=? Z.of_nat (length dst)) eqn:E1;
    [| apply Z.leb_gt in E1; lia].
  run_with Hs. rewrite Er. run_with Hs.
  eexists. split; [reflexivity |]. cbn.
  split; [reflexivity |]. rewrite <- !app_assoc. reflexivity.
Qed.

(** A pass that finds a message longer than the destination. *)
Lemma Read_loop_partial (fuel : nat) (w : World) (sid : nat)
    (s : UDPSession) (dst : list byte) (k : KCP) (out : list byte) :
  let size := KCP_PeekSize (kcp s) in
  let backing :=
    if Z.of_nat (length (recvbuf s)) <? size
    then repeat Byte.x00 (Z.to_nat size) else recvbuf s in
  let stash := copy (firstn (Z.to_nat size) backing) out in
  heap w !! sid = Some s ->
  bufptr s = [] ->
  Z.of_nat (length dst) < size ->
  KCP_Recv (kcp s) (Z.to_nat size) = (k, out) ->
  exists w' s',
    Read_loop (S fuel) sid dst w
    = Ret (firstn (length dst) stash, Z.of_nat (length dst), None) w'
    /\ heap w' = <[sid := s']> (heap w)
    /\ kcp s' = k
    /\ bufptr s' = skipn (length dst) stash
    /\ Z.of_nat (length (bufptr s')) = size - Z.of_nat (length dst)
    /\ trace w' = trace w ++ [EvLock sid; EvKCP sid CallPeekSize;
                              EvKCP sid (CallRecv (Z.to_nat size));
                              EvUnlock sid].
Proof.
  intros size backing stash Hs Hb Hshort Er. cbn [Read_loop].
  run_with Hs. rewrite Hb. run_with Hs.
  cbn [Nat.ltb Nat.leb]. run_with Hs.
  fold size. destruct (0 <? size) eqn:E0; [| apply Z.ltb_ge in E0; lia].
  destruct (size <=? Z.of_nat (length dst)) eqn:E1;
    [apply Z.leb_le in E1; lia |].
  run_with Hs. rewrite Er. run_with Hs. fold backing. fold stash.
  assert (Hlen : length stash = Z.to_nat size).
  { subst stash. rewrite copy_length, length_firstn. subst backing.
    destruct (Z.of_nat (length (recvbuf s)) <? size) eqn:Ec.
    - rewrite repeat_length. lia.
    - apply Z.ltb_ge in Ec. lia. }
  assert (Hn : copy_n dst stash = length dst)
    by (unfold copy_n; lia).
  rewrite Hn, (copy_short dst stash) by lia.
  eexists. eexists. split; [reflexivity |]. cbn.
  rewrite insert_insert_eq. split; [reflexivity |]. cbn.
  split; [reflexivity |]. split; [reflexivity |].
  split; [rewrite length_skipn; lia |].
  rewrite <- !app_assoc. reflexivity.
Qed.

(** C7.  [Read] serves the stash first, without a call on the ARQ
    instance: it copies [min(len(dst), len(bufptr))] bytes and advances
    the stash.  With an empty stash and a pending message of [size > 0]
    bytes, a destination that can hold it receives the message directly
    and [Read] returns [size]; a shorter destination is filled from the
    stash buffer (a new one of [size] bytes when the old capacity is
    smaller), [Read] returns [len(dst)] and the other [size - len(dst)]
    bytes stay in the stash. *)
Theorem Read_priority (w : World) (sid : nat) (s : UDPSession)
    (dst : list byte) :
  heap w !! sid = Some s ->
  (bufptr s <> [] ->
   let n := Nat.min (length dst) (length (bufptr s)) in
   exists w',
     Read sid dst w = Ret (copy dst (bufptr s), Z.of_nat n, None) w'
     /\ firstn n (copy dst (bufptr s)) = firstn n (bufptr s)
     /\ heap w' = <[sid := set_bufptr (skipn n (bufptr s)) s]> (heap w)
     /\ trace w' = trace w ++ [EvLock sid; EvUnlock sid])
  /\ (bufptr s = [] -> 0 < KCP_PeekSize (kcp s) ->
      let size := KCP_PeekSize (kcp s) in
      (size <= Z.of_nat (length dst) ->
       exists w',
         Read sid dst w
         = Ret (copy dst (snd (KCP_Recv (kcp s) (length dst))), size, None) w'
         /\ heap w'
            = <[sid := set_kcp (fst (KCP_Recv (kcp s) (length dst))) s]>
                (heap w)
         /\ trace w' = trace w ++ [EvLock sid; EvKCP sid CallPeekSize;
                                   EvKCP sid (CallRecv (length dst));
                                   EvUnlock sid])
      /\ (Z.of_nat (length dst) < size ->
          let backing :=
            if Z.of_nat (length (recvbuf s)) <? size
            then repeat Byte.x00 (Z.to_nat size) else recvbuf s in
          let stash :=
            copy (firstn (Z.to_nat size) backing)
                 (snd (KCP_Recv (kcp s) (Z.to_nat size))) in
          exists w' s',
            Read sid dst w
            = Ret (firstn (length dst) stash, Z.of_nat (length dst), None) w'
            /\ heap w' = <[sid := s']> (heap w)
            /\ kcp s' = fst (KCP_Recv (kcp s) (Z.to_nat size))
            /\ bufptr s' = skipn (length dst) stash
            /\ Z.of_nat (length (bufptr s')) = size - Z.of_nat (length dst)
            /\ trace w' = trace w ++ [EvLock sid; EvKCP sid CallPeekSize;
                                      EvKCP sid (CallRecv (Z.to_nat size));
                                      EvUnlock sid])).
Proof.
  intros Hs. split; [| intros Hb Hpos size; split].
  - intros Hne n. unfold Read.
    destruct (Read_loop_stash 1 w sid s dst Hs Hne) as (w' & H1 & H2 & H3).
    exists w'. split; [exact H1 |]. split; [apply copy_prefix |].
    split; assumption.
  - intros Hfit. unfold Read.
    destruct (KCP_Recv (kcp s) (length dst)) as [k out] eqn:Er.
    apply (Read_loop_direct 1 w sid s dst k out); auto.
  - intros Hshort backing stash. unfold Read.
    destruct (KCP_Recv (kcp s) (Z.to_nat size)) as [k out] eqn:Er.
    apply (Read_loop_partial 1 w sid s dst k out); auto.
Qed.

(** ** Select *)

Lemma set_rand_id (w : World) : set_rand (rand w) w = w.
Proof. destruct w. reflexivity. Qed.

Lemma choose_In {A : Type} (ready : list A) (w : World) :
  ready <> [] ->
  exists x r, choose ready w = Ret (Some x) (set_rand r w) /\ In x ready.
Proof.
  intros Hne. destruct ready as [|a [|b l]]; [contradiction | |].
  - exists a, (rand w). cbn. unfold ret. rewrite set_rand_id.
    split; [reflexivity | left; reflexivity].
  - eexists. exists (tl (rand w)). cbn [choose]. unfold bind, draw, ret.
    split; [reflexivity |]. apply nth_In. apply Nat.mod_upper_bound.
    cbn. lia.
Qed.

(** ** Read on a closed session *)

(** A pass of [Read] that finds neither stash nor message. *)
Lemma Read_loop_idle (fuel : nat) (w : World) (sid : nat) (s : UDPSession)
    (dst : list byte) :
  heap w !! sid = Some s ->
  bufptr s = [] ->
  KCP_PeekSize (kcp s) <= 0 ->
  Read_loop (S fuel) sid dst w
  = bind (choose (read_ready s (now w)))
      (fun c =>
         match c with
         | Some WakeEvent =>
             bind (modS sid (set_chReadEvent false))
                  (fun _ => Read_loop fuel sid dst)
         | Some WakeTimer => ret (dst, 0, Some errTimeout)
         | Some WakeSocketError =>
             bind (socketError (socketReadError s))
                  (fun e => ret (dst, 0, Some e))
         | Some WakeDie => ret (dst, 0, Some ErrClosedPipe)
         | None => blocks
         end)
      (set_trace (trace w ++ [EvLock sid; EvKCP sid CallPeekSize;
                              EvUnlock sid]) w).
Proof.
  intros Hs Hb Hp. cbn [Read_loop].
  run_with Hs. rewrite Hb. run_with Hs. cbn [Nat.ltb Nat.leb].
  run_with Hs.
  destruct (0 <? KCP_PeekSize (kcp s)) eqn:E0; [apply Z.ltb_lt in E0; lia |].
  cbn -[choose read_ready]. rewrite <- !app_assoc. reflexivity.
Qed.

Lemma read_ready_In (s : UDPSession) (t : Z) (x : WakeCase) :
  In x (read_ready s t) ->
  match x with
  | WakeEvent => chReadEvent s = true
  | WakeTimer => expired (rd s) t = true
  | WakeSocketError => exists e, socketReadError s = Some e
  | WakeDie => die s = true
  end.
Proof.
  unfold read_ready.
  destruct (chReadEvent s), (expired (rd s) t),
    (socketReadError s) as [e|], (die s); cbn;
    intros H; repeat (destruct H as [<- | H]); try contradiction; eauto.
Qed.

Lemma read_ready_closed (s : UDPSession) (t : Z) :
  die s = true -> read_ready s t <> [].
Proof.
  intros Hd. unfold read_ready. rewrite Hd.
  destruct (chReadEvent s), (expired (rd s) t),
    (is_some (socketReadError s)); discriminate.
Qed.

(** On a closed session, a pass that finds no data and no pending
    read event returns an error. *)
Lemma Read_loop_closed_drained (fuel : nat) (w : World) (sid : nat)
    (s : UDPSession) (dst : list byte) :
  heap w !! sid = Some s ->
  bufptr s = [] ->
  KCP_PeekSize (kcp s) <= 0 ->
  die s = true ->
  chReadEvent s = false ->
  exists e w',
    Read_loop (S fuel) sid dst w = Ret (dst, 0, Some e) w'
    /\ (expired (rd s) (now w) = false -> socketReadError s = None ->
        e = ErrClosedPipe).
Proof.
  intros Hs Hb Hp Hd Hev.
  rewrite (Read_loop_idle fuel w sid s dst Hs Hb Hp).
  destruct (choose_In (read_ready s (now w))
              (set_trace (trace w ++ [EvLock sid; EvKCP sid CallPeekSize;
                                      EvUnlock sid]) w)
              (read_ready_closed s (now w) Hd)) as (x & r & Hc & Hin).
  unfold bind at 1. rewrite Hc.
  apply read_ready_In in Hin. destruct x.
  - congruence.
  - eexists. eexists. split; [reflexivity |]. congruence.
  - destruct Hin as [e He]. rewrite He. eexists. eexists.
    split; [reflexivity |]. congruence.
  - eexists. eexists. split; [reflexivity |]. reflexivity.
Qed.

(** On a closed session without data, [Read] returns an error after at
    most two passes. *)
Lemma Read_loop_closed_idle (fuel : nat) (w : World) (sid : nat)
    (s : UDPSession) (dst : list byte) :
  heap w !! sid = Some s ->
  bufptr s = [] ->
  KCP_PeekSize (kcp s) <= 0 ->
  die s = true ->
  exists e w',
    Read_loop (S (S fuel)) sid dst w = Ret (dst, 0, Some e) w'
    /\ (expired (rd s) (now w) = false -> socketReadError s = None ->
        e = ErrClosedPipe).
Proof.
  intros Hs Hb Hp Hd.
  rewrite (Read_loop_idle (S fuel) w sid s dst Hs Hb Hp).
  destruct (choose_In (read_ready s (now w))
              (set_trace (trace w ++ [EvLock sid; EvKCP sid CallPeekSize;
                                      EvUnlock sid]) w)
              (read_ready_closed s (now w) Hd)) as (x & r & Hc & Hin).
  unfold bind at 1. rewrite Hc.
  apply read_ready_In in Hin. destruct x.
  - unfold bind at 1.
    erewrite modS_ok by (cbn; exact Hs).
    match goal with
    | |- context [Read_loop (S fuel) sid dst ?W] =>
        destruct (Read_loop_closed_drained fuel W sid
                    (set_chReadEvent false s) dst)
          as (e & w' & H1 & H2);
          [cbn; apply lookup_insert_eq | exact Hb | exact Hp | exact Hd
          | reflexivity |]
    end.
    exists e, w'. split; [exact H1 | exact H2].
  - eexists. eexists. split; [reflexivity |]. congruence.
  - destruct Hin as [e He]. rewrite He. eexists. eexists.
    split; [reflexivity |]. congruence.
  - eexists. eexists. split; [reflexivity |]. reflexivity.
Qed.

(** C9.  After [Close] ([die] is closed), [Read] still returns the
    buffered data with a nil error, exactly as on an open session: from
    a non-empty stash it copies [min(len(dst), len(bufptr))] bytes and
    advances the stash; with an empty stash and a pending message of
    [size > 0] bytes it hands over the message that [Recv] returns,
    directly when the destination can hold it, else the first
    [len(dst)] bytes with the rest kept in the stash.  A call that
    finds neither returns an error without blocking, which is
    closed-pipe unless the read deadline has passed or a socket error
    is stored; and closed-pipe is returned only by a call that found no
    buffered data. *)
Theorem Read_after_Close (w : World) (sid : nat) (s : UDPSession)
    (dst : list byte) :
  heap w !! sid = Some s ->
  die s = true ->
  (bufptr s <> [] ->
   let n := Nat.min (length dst) (length (bufptr s)) in
   exists w',
     Read sid dst w = Ret (copy dst (bufptr s), Z.of_nat n, None) w'
     /\ firstn n (copy dst (bufptr s)) = firstn n (bufptr s)
     /\ heap w' = <[sid := set_bufptr (skipn n (bufptr s)) s]> (heap w)
     /\ trace w' = trace w ++ [EvLock sid; EvUnlock sid])
  /\ (bufptr s = [] -> 0 < KCP_PeekSize (kcp s) ->
      let size := KCP_PeekSize (kcp s) in
      (size <= Z.of_nat (length dst) ->
       exists w',
         Read sid dst w
         = Ret (copy dst (snd (KCP_Recv (kcp s) (length dst))), size, None) w'
         /\ heap w'
            = <[sid := set_kcp (fst (KCP_Recv (kcp s) (length dst))) s]>
                (heap w)
         /\ trace w' = trace w ++ [EvLock sid; EvKCP sid CallPeekSize;
                                   EvKCP sid (CallRecv (length dst));
                                   EvUnlock sid])
      /\ (Z.of_nat (length dst) < size ->
          let backing :=
            if Z.of_nat (length (recvbuf s)) <? size
            then repeat Byte.x00 (Z.to_nat size) else recvbuf s in
          let stash :=
            copy (firstn (Z.to_nat size) backing)
                 (snd (KCP_Recv (kcp s) (Z.to_nat size))) in
          exists w' s',
            Read sid dst w
            = Ret (firstn (length dst) stash, Z.of_nat (length dst), None) w'
            /\ heap w' = <[sid := s']> (heap w)
            /\ kcp s' = fst (KCP_Recv (kcp s) (Z.to_nat size))
            /\ bufptr s' = skipn (length dst) stash
            /\ Z.of_nat (length (bufptr s')) = size - Z.of_nat (length dst)
            /\ trace w' = trace w ++ [EvLock sid; EvKCP sid CallPeekSize;
                                      EvKCP sid (CallRecv (Z.to_nat size));
                                      EvUnlock sid]))
  /\ (bufptr s = [] -> KCP_PeekSize (kcp s) <= 0 ->
      exists e w',
        Read sid dst w = Ret (dst, 0, Some e) w'
        /\ (expired (rd s) (now w) = false -> socketReadError s = None ->
            e = ErrClosedPipe))
  /\ (forall dst' n w',
        Read sid dst w = Ret (dst', n, Some ErrClosedPipe) w' ->
        bufptr s = [] /\ KCP_PeekSize (kcp s) <= 0).
Proof.
  intros Hs Hd.
  assert (Hstash : bufptr s <> [] ->
                   exists r w', Read sid dst w = Ret (r, None) w').
  { intros Hne. unfold Read.
    destruct (Read_loop_stash 1 w sid s dst Hs Hne) as (w' & H1 & _).
    eauto. }
  assert (Hmsg : bufptr s = [] -> 0 < KCP_PeekSize (kcp s) ->
                 exists r w', Read sid dst w = Ret (r, None) w').
  { intros Hb Hpos. unfold Read.
    destruct (Z_le_gt_dec (KCP_PeekSize (kcp s)) (Z.of_nat (length dst)))
      as [Hfit | Hshort].
    - destruct (KCP_Recv (kcp s) (length dst)) as [k out] eqn:Er.
      destruct (Read_loop_direct 1 w sid s dst k out Hs Hb
                  (conj Hpos Hfit) Er) as (w' & H1 & _).
      eauto.
    - destruct (KCP_Recv (kcp s) (Z.to_nat (KCP_PeekSize (kcp s))))
        as [k out] eqn:Er.
      destruct (Read_loop_partial 1 w sid s dst k out Hs Hb
                  ltac:(lia) Er) as (w' & s' & H1 & _).
      eauto. }
  split; [| split; [| split]].
  - intros Hne n. unfold Read.
    destruct (Read_loop_stash 1 w sid s dst Hs Hne) as (w' & H1 & H2 & H3).
    exists w'. split; [exact H1 |]. split; [apply copy_prefix |].
    split; assumption.
  - intros Hb Hpos size. split.
    + intros Hfit. unfold Read.
      destruct (KCP_Recv (kcp s) (length dst)) as [k out] eqn:Er.
      apply (Read_loop_direct 1 w sid s dst k out); auto.
    + intros Hshort backing stash. unfold Read.
      destruct (KCP_Recv (kcp s) (Z.to_nat size)) as [k out] eqn:Er.
      apply (Read_loop_partial 1 w sid s dst k out); auto.
  - intros Hb Hp. unfold Read.
    apply (Read_loop_closed_idle 0 w sid s dst); assumption.
  - intros dst' n w' Hr.
    destruct (bufptr s) as [|x xs] eqn:Eb.
    + split; [reflexivity |].
      destruct (Z_le_gt_dec (KCP_PeekSize (kcp s)) 0) as [Hle | Hgt];
        [exact Hle |].
      destruct Hmsg as (r & w1 & H1); [reflexivity | lia |]. congruence.
    + destruct Hstash as (r & w1 & H1); [discriminate |]. congruence.
Qed.

(** ** Close *)

Lemma set_heap_id (w : World) : set_heap (heap w) w = w.
Proof. destruct w. reflexivity. Qed.

Lemma set_chPostProcessing_id (s : UDPSession) :
  set_chPostProcessing (chPostProcessing s) s = s.
Proof. destruct s. reflexivity. Qed.

(** Once [die] is closed the callback returns: it queues the segment
    or drops it, and touches nothing but the queue of the session. *)
Lemma output_closed (w : World) (sid : nat) (s : UDPSession)
    (buf : list byte) (size : Z) :
  heap w !! sid = Some s ->
  die s = true ->
  output_fits (headerSize s) (buf, size) ->
  exists q r,
    output sid buf size w
    = Ret tt (set_rand r
                (set_heap (<[sid := set_chPostProcessing q s]> (heap w)) w)).
Proof.
  intros Hs Hd Hfit. unfold output.
  destruct (Z.of_nat IKCP_OVERHEAD <=? size) eqn:E.
  - apply Z.leb_le in E. destruct Hfit as [Hlt | Hfit]; [cbn in Hlt; lia |].
    cbn [snd] in Hfit.
    unfold bind at 1. rewrite (getS_ok _ _ _ Hs).
    unfold bind at 1. unfold xmitBuf_Get.
    destruct (Z.of_nat (Z.to_nat size + headerSize s) <=? mtuLimit) eqn:E2;
      [| apply Z.leb_gt in E2; lia].
    unfold ret at 1. rewrite Hd.
    match goal with
    | |- context [choose ?l] =>
        destruct (choose_In l w) as (x & r & Hc & Hin);
          [destruct (length (chPostProcessing s) <? acceptBacklog)%nat;
           discriminate |]
    end.
    unfold bind at 1. rewrite Hc. destruct x.
    + erewrite modS_ok by (cbn; exact Hs). eexists. exists r. reflexivity.
    + exists (chPostProcessing s), r. unfold ret.
      rewrite set_chPostProcessing_id, (insert_id _ _ _ Hs), set_heap_id.
      reflexivity.
  - exists (chPostProcessing s), (rand w). unfold ret.
    rewrite set_chPostProcessing_id, (insert_id _ _ _ Hs), set_heap_id,
      set_rand_id.
    reflexivity.
Qed.

Lemma outputs_closed (outs : list (list byte * Z)) (w : World) (sid : nat)
    (s : UDPSession) :
  heap w !! sid = Some s ->
  die s = true ->
  Forall (output_fits (headerSize s)) outs ->
  exists q r,
    forM_ outs (fun o => output sid (fst o) (snd o)) w
    = Ret tt (set_rand r
                (set_heap (<[sid := set_chPostProcessing q s]> (heap w)) w)).
Proof.
  revert w s. induction outs as [|[buf size] outs IH]; intros w s Hs Hd Hall.
  - exists (chPostProcessing s), (rand w). cbn. unfold ret.
    rewrite set_chPostProcessing_id, (insert_id _ _ _ Hs), set_heap_id,
      set_rand_id.
    reflexivity.
  - inversion Hall as [|o os Hfit Hrest]; subst.
    destruct (output_closed w sid s buf size Hs Hd Hfit) as (q & r & Ho).
    cbn [forM_ fst snd]. unfold bind at 1. rewrite Ho.
    match goal with
    | |- context [forM_ outs _ ?W] =>
        destruct (IH W (set_chPostProcessing q s)) as (q' & r' & Hr);
          [cbn; apply lookup_insert_eq | exact Hd | exact Hrest |]
    end.
    rewrite Hr. exists q', r'. cbn. rewrite insert_insert_eq. reflexivity.
Qed.

Lemma kcpFlush_closed (w : World) (sid : nat) (s : UDPSession) (k : KCP)
    (interval : Z) (outs : list (list byte * Z)) :
  heap w !! sid = Some s ->
  die s = true ->
  KCP_flush (kcp s) false = (k, interval, outs) ->
  Forall (output_fits (headerSize s)) outs ->
  exists q r,
    kcpFlush sid false w
    = Ret interval
        (set_rand r
           (set_heap (<[sid := set_chPostProcessing q (set_kcp k s)]> (heap w))
              (set_trace (trace w ++ [EvKCP sid (CallFlush false)]) w))).
Proof.
  intros Hs Hd Hf Hall. unfold kcpFlush.
  unfold bind at 1. rewrite (getS_ok _ _ _ Hs).
  unfold bind at 1. cbn [emit]. rewrite Hf.
  unfold bind at 1. erewrite modS_ok by (cbn; exact Hs).
  unfold bind at 1.
  match goal with
  | |- context [forM_ outs _ ?W] =>
      destruct (outputs_closed outs W sid (set_kcp k s)) as (q & r & Hr);
        [cbn; apply lookup_insert_eq | exact Hd | exact Hall |]
  end.
  rewrite Hr. exists q, r. unfold ret. cbn.
  rewrite insert_insert_eq. reflexivity.
Qed.

(** A call of [Close] after the first one. *)
Lemma Close_again (w : World) (sid : nat) (s : UDPSession) :
  heap w !! sid = Some s ->
  dieOnce s = true ->
  Close sid w = Ret (Some ErrClosedPipe) w.
Proof.
  intros Hs Ho. unfold Close.
  unfold bind at 1. rewrite (getS_ok _ _ _ Hs). rewrite Ho. reflexivity.
Qed.

Lemma Close_times_again (n : nat) (w : World) (sid : nat) (s : UDPSession) :
  heap w !! sid = Some s ->
  dieOnce s = true ->
  Close_times n sid w = Ret (repeat (Some ErrClosedPipe) n) w.
Proof.
  intros Hs Ho. induction n as [|n IH]; [reflexivity |].
  cbn [Close_times]. unfold bind at 1.
  rewrite (Close_again w sid s Hs Ho).
  unfold bind at 1. rewrite IH. reflexivity.
Qed.

(** The first call of [Close]. *)
Lemma Close_first (w : World) (sid : nat) (s : UDPSession) (k : KCP)
    (interval : Z) (outs : list (list byte * Z)) :
  heap w !! sid = Some s ->
  dieOnce s = false ->
  KCP_flush (kcp s) false = (k, interval, outs) ->
  Forall (output_fits (headerSize s)) outs ->
  (sess_l s = false -> ownConn s = true -> is_Some (socks w !! conn s)) ->
  exists r w1 q,
    Close sid w = Ret r w1
    /\ heap w1
       = <[sid := set_chPostProcessing q
                    (set_kcp k (set_dieOnce true (set_die true s)))]> (heap w)
    /\ DefaultSnmp w1
       = set_CurrEstab (add64 (CurrEstab (DefaultSnmp w)) (2 ^ 64 - 1))
           (DefaultSnmp w)
    /\ if sess_l s then
         r = None
         /\ listener w1
            = set_l_sessions (delete (remote s) (l_sessions (listener w)))
                (listener w)
         /\ socks w1 = socks w
         /\ trace w1 = trace w ++ [EvLock sid; EvKCP sid (CallFlush false);
                                   EvUnlock sid]
       else if ownConn s then
         exists pc,
           socks w !! conn s = Some pc
           /\ r = snd (PacketConn_Close pc)
           /\ socks w1 = <[conn s := fst (PacketConn_Close pc)]> (socks w)
           /\ listener w1 = listener w
           /\ trace w1 = trace w ++ [EvLock sid; EvKCP sid (CallFlush false);
                                     EvUnlock sid; EvConnClose (conn s)]
       else
         r = None
         /\ listener w1 = listener w
         /\ socks w1 = socks w
         /\ trace w1 = trace w ++ [EvLock sid; EvKCP sid (CallFlush false);
                                   EvUnlock sid].
Proof.
  intros Hs Ho Hf Hall Hsock. unfold Close.
  unfold bind at 1. rewrite (getS_ok _ _ _ Hs). rewrite Ho.
  unfold bind at 1. unfold bind at 1.
  rewrite (modS_ok _ _ _ _ Hs). unfold ret at 1.
  unfold bind at 1. cbn [modSnmp].
  unfold bind at 1. cbn [emit]. unfold bind at 1.
  match goal with
  | |- context [kcpFlush sid false ?W] =>
      destruct (kcpFlush_closed W sid
                  (set_dieOnce true (set_die true s)) k interval outs)
        as (q & r0 & Hfl);
        [cbn; apply lookup_insert_eq | reflexivity | exact Hf | exact Hall |]
  end.
  rewrite Hfl. clear Hfl.
  unfold bind at 1. cbn [emit].
  destruct (sess_l s) eqn:El; [| destruct (ownConn s) eqn:Eo].
  - unfold bind at 1. unfold closeSession.
    unfold bind at 1. cbn [getL].
    match goal with
    | |- context [l_sessions ?L !! remote s] =>
        change (l_sessions L) with (l_sessions (listener w))
    end.
    destruct (l_sessions (listener w) !! remote s) as [x|] eqn:Et.
    + eexists. eexists. exists q. split; [reflexivity |]. cbn.
      rewrite !insert_insert_eq.
      split; [reflexivity |]. split; [reflexivity |].
      split; [reflexivity |]. split; [reflexivity |].
      split; [reflexivity |]. rewrite <- !app_assoc. reflexivity.
    + eexists. eexists. exists q. split; [reflexivity |]. cbn.
      rewrite !insert_insert_eq.
      split; [reflexivity |]. split; [reflexivity |].
      split; [reflexivity |].
      split; [rewrite (delete_id _ _ Et); destruct (listener w); reflexivity |].
      split; [reflexivity |]. rewrite <- !app_assoc. reflexivity.
  - destruct (Hsock eq_refl eq_refl) as [pc Hpc].
    unfold connClose. cbn. rewrite Hpc. destruct (PacketConn_Close pc) as [pc' e] eqn:Ec.
    eexists. eexists. exists q. split; [reflexivity |]. cbn.
    rewrite !insert_insert_eq.
    split; [reflexivity |]. split; [reflexivity |].
    exists pc. rewrite Ec. cbn.
    split; [reflexivity |]. split; [reflexivity |]. split; [reflexivity |].
    split; [reflexivity |]. rewrite <- !app_assoc. reflexivity.
  - eexists. eexists. exists q. split; [reflexivity |]. cbn.
    rewrite !insert_insert_eq.
    split; [reflexivity |]. split; [reflexivity |].
    split; [reflexivity |]. split; [reflexivity |].
    split; [reflexivity |]. rewrite <- !app_assoc. reflexivity.
Qed.

(** C4.  [N >= 1] calls of [Close] on a session that was not closed
    make one close transition.  The first call performs the teardown:
    it closes [die], takes one from [CurrEstab], calls [flush(false)] on
    the ARQ instance between [Lock] and [Unlock], and then removes the
    session's address from the listener's table when the session
    belongs to a listener, or closes the socket when the session owns
    it, or does neither; it returns the result of that step.  Each of
    the other [N - 1] calls returns closed-pipe and changes nothing: the
    state after [N] calls is the state after the first.  (The last
    flush must emit segments that fit a pool buffer, and an owned
    socket must exist.) *)
Theorem Close_idempotent (w : World) (sid : nat) (s : UDPSession) (k : KCP)
    (interval : Z) (outs : list (list byte * Z)) (n : nat) :
  heap w !! sid = Some s ->
  dieOnce s = false ->
  KCP_flush (kcp s) false = (k, interval, outs) ->
  Forall (output_fits (headerSize s)) outs ->
  (sess_l s = false -> ownConn s = true -> is_Some (socks w !! conn s)) ->
  0 < CurrEstab (DefaultSnmp w) < 2 ^ 64 ->
  exists r w1 s1,
    Close sid w = Ret r w1
    /\ Close_times (S n) sid w = Ret (r :: repeat (Some ErrClosedPipe) n) w1
    /\ heap w1 = <[sid := s1]> (heap w)
    /\ die s1 = true /\ dieOnce s1 = true /\ kcp s1 = k
    /\ CurrEstab (DefaultSnmp w1) = CurrEstab (DefaultSnmp w) - 1
    /\ if sess_l s then
         r = None
         /\ l_sessions (listener w1)
            = delete (remote s) (l_sessions (listener w))
         /\ socks w1 = socks w
         /\ trace w1 = trace w ++ [EvLock sid; EvKCP sid (CallFlush false);
                                   EvUnlock sid]
       else if ownConn s then
         exists pc,
           socks w !! conn s = Some pc
           /\ r = snd (PacketConn_Close pc)
           /\ socks w1 = <[conn s := fst (PacketConn_Close pc)]> (socks w)
           /\ listener w1 = listener w
           /\ trace w1 = trace w ++ [EvLock sid; EvKCP sid (CallFlush false);
                                     EvUnlock sid; EvConnClose (conn s)]
       else
         r = None
         /\ listener w1 = listener w
         /\ socks w1 = socks w
         /\ trace w1 = trace w ++ [EvLock sid; EvKCP sid (CallFlush false);
                                   EvUnlock sid].
Proof.
  intros Hs Ho Hf Hall Hsock Hcnt.
  destruct (Close_first w sid s k interval outs Hs Ho Hf Hall Hsock)
    as (r & w1 & q & Hc & Hh & Hn & Hcase).
  exists r, w1,
    (set_chPostProcessing q (set_kcp k (set_dieOnce true (set_die true s)))).
  split; [exact Hc |]. split.
  { cbn [Close_times]. unfold bind at 1. rewrite Hc.
    unfold bind at 1.
    erewrite Close_times_again;
      [reflexivity | rewrite Hh; apply lookup_insert_eq | reflexivity]. }
  split; [exact Hh |]. split; [reflexivity |]. split; [reflexivity |].
  split; [reflexivity |].
  split; [rewrite Hn; cbn; apply add64_pred; exact Hcnt |].
  destruct (sess_l s); [| exact Hcase].
  destruct Hcase as (H1 & H2 & H3 & H4). rewrite H2.
  repeat split; assumption.
Qed.

(** ** The outbound crypto frame *)

Lemma le32_length (v : Z) : length (le32 v) = 4%nat.
Proof. reflexivity. Qed.

Lemma crypto_plain_length (filled buf : list byte) :
  (cryptHeaderSize <= length buf)%nat ->
  length (crypto_plain filled buf) = length buf.
Proof.
  intros H. unfold crypto_plain, cryptHeaderSize, nonceSize, crcSize in *.
  rewrite !length_app, copy_length, length_firstn, le32_length, length_skipn.
  lia.
Qed.

(** Lines 637-640 on a buffer that holds the crypto header. *)
Lemma seal_ok (w : World) (sid : nat) (s : UDPSession) (blk : BlockCrypt)
    (buf : list byte) :
  heap w !! sid = Some s ->
  (cryptHeaderSize <= length buf)%nat ->
  let plain := crypto_plain (snd (Entropy_Fill (nonce s))) buf in
  seal sid blk buf w
  = Ret (copy plain (Encrypt blk plain))
        (set_trace (trace w ++ [EvEncrypt plain])
           (set_heap
              (<[sid := set_nonce (fst (Entropy_Fill (nonce s))) s]> (heap w))
              w)).
Proof.
  intros Hs Hlen plain. unfold seal.
  unfold cryptHeaderSize, nonceSize, crcSize in *.
  unfold bind at 1. rewrite (getS_ok _ _ _ Hs).
  rewrite (slice_to_ok 16 buf) by lia.
  unfold bind at 1. cbn [inrange ret].
  destruct (Entropy_Fill (nonce s)) as [nz filled] eqn:Ef.
  unfold bind at 1. rewrite (modS_ok _ _ _ _ Hs).
  set (head := copy (firstn 16 buf) filled).
  assert (Hh : length head = 16%nat)
    by (subst head; rewrite copy_length, length_firstn; lia).
  assert (Hsk : forall n, skipn (16 + n) (head ++ skipn 16 buf)
                          = skipn (16 + n) buf).
  { intros n. rewrite skipn_app, Hh.
    rewrite (skipn_all2 head) by lia. cbn [app].
    replace (16 + n - 16)%nat with n by lia.
    rewrite skipn_skipn. f_equal. lia. }
  rewrite (slice_from_ok (16 + 4) (head ++ skipn 16 buf))
    by (rewrite length_app, length_skipn; lia).
  unfold bind at 1. cbn [inrange ret].
  rewrite (slice_from_ok 16 (head ++ skipn 16 buf))
    by (rewrite length_app, length_skipn; lia).
  unfold bind at 1. cbn [inrange ret].
  rewrite (Hsk 4%nat).
  assert (Hsk0 : skipn 16 (head ++ skipn 16 buf) = skipn 16 buf)
    by (apply (Hsk 0%nat)).
  rewrite Hsk0. cbn [Nat.add]. unfold PutUint32.
  destruct (4 <=? length (skipn 16 buf))%nat eqn:E4;
    [| apply Nat.leb_gt in E4; rewrite length_skipn in E4; lia].
  unfold bind at 1. cbn [inrange ret].
  assert (Hplain : firstn 16 (head ++ skipn 16 buf)
                   ++ copy (skipn 16 buf)
                        (le32 (ChecksumIEEE (skipn 20 buf)))
                   = plain).
  { subst plain. unfold crypto_plain, cryptHeaderSize, nonceSize, crcSize.
    cbn [snd Nat.add]. fold head.
    rewrite firstn_app, Hh, Nat.sub_diag. cbn [firstn].
    rewrite app_nil_r, firstn_all2 by lia. f_equal.
    unfold copy. rewrite le32_length, skipn_skipn.
    rewrite firstn_all2 by (rewrite le32_length, length_skipn; lia).
    reflexivity. }
  rewrite Hplain. reflexivity.
Qed.

Lemma mapM_pure {A B : Type} (f : A -> M B) (g : A -> B) (l : list A)
    (w : World) :
  (forall x, In x l -> f x w = Ret (g x) w) ->
  mapM f l w = Ret (map g l) w.
Proof.
  induction l as [|x l IH]; intros H; [reflexivity |].
  cbn [mapM map]. unfold bind at 1. rewrite (H x) by (left; reflexivity).
  unfold bind at 1. rewrite IH by (intros y Hy; apply H; right; exact Hy).
  reflexivity.
Qed.

Lemma xmitBuf_Get_ok (n : nat) (w : World) :
  Z.of_nat n <= mtuLimit -> xmitBuf_Get n w = Ret (repeat Byte.x00 n) w.
Proof.
  intros H. unfold xmitBuf_Get.
  destruct (Z.of_nat n <=? mtuLimit) eqn:E; [reflexivity |].
  apply Z.leb_gt in E. lia.
Qed.

(** The fields of one crypto frame. *)
Lemma crypto_plain_fields (filled buf : list byte) :
  (cryptHeaderSize <= length buf)%nat ->
  let plain := crypto_plain filled buf in
  (length filled = nonceSize -> firstn nonceSize plain = filled)
  /\ firstn crcSize (skipn nonceSize plain)
     = le32 (ChecksumIEEE (skipn cryptHeaderSize buf))
  /\ skipn cryptHeaderSize plain = skipn cryptHeaderSize buf
  /\ length plain = length buf.
Proof.
  intros Hlen plain.
  assert (Hhead : length (copy (firstn nonceSize buf) filled) = nonceSize).
  { rewrite copy_length, length_firstn.
    unfold cryptHeaderSize, nonceSize in *. lia. }
  split.
  { intros Hf. subst plain. unfold crypto_plain.
    rewrite firstn_app, Hhead, Nat.sub_diag. cbn [firstn].
    rewrite app_nil_r, firstn_all2 by lia.
    unfold copy. rewrite length_firstn, Hf.
    rewrite firstn_all2
      by (unfold cryptHeaderSize, nonceSize in *; lia).
    rewrite skipn_all2 by (rewrite length_firstn; lia).
    apply app_nil_r. }
  split.
  { subst plain. unfold crypto_plain.
    rewrite skipn_app, Hhead, Nat.sub_diag.
    rewrite (skipn_all2 (copy _ _)) by lia. cbn [app].
    change (skipn 0 ?l) with l.
    rewrite firstn_app, le32_length. unfold crcSize.
    cbn [Nat.sub firstn]. rewrite app_nil_r. reflexivity. }
  split; [| apply crypto_plain_length, Hlen].
  subst plain. unfold crypto_plain.
  rewrite skipn_app, Hhead.
  rewrite (skipn_all2 (copy _ _))
    by (unfold cryptHeaderSize, nonceSize in *; lia).
  cbn [app]. unfold cryptHeaderSize at 1 2. rewrite Nat.add_comm, Nat.add_sub.
  unfold crcSize. reflexivity.
Qed.

(** The frames of a run of buffers: each has the fields of
    [crypto_plain_fields] for its own buffer and its own nonce. *)
Lemma crypto_plains_fields (nz : Entropy) (bufs : list (list byte)) :
  Forall (fun e => (cryptHeaderSize <= length e)%nat) bufs ->
  Forall2 (fun b plain =>
             firstn crcSize (skipn nonceSize plain)
             = le32 (ChecksumIEEE (skipn cryptHeaderSize b))
             /\ skipn cryptHeaderSize plain = skipn cryptHeaderSize b
             /\ length plain = length b)
          bufs (crypto_plains nz bufs)
  /\ Forall2 (fun filled plain =>
                length filled = nonceSize -> firstn nonceSize plain = filled)
             (nonce_fills nz (length bufs)) (crypto_plains nz bufs).
Proof.
  unfold crypto_plains. revert nz.
  induction bufs as [|b bufs IH]; intros nz Hall.
  - split; constructor.
  - inversion Hall as [|x xs Hb Hrest]; subst.
    destruct (IH (fst (Entropy_Fill nz)) Hrest) as [A B].
    destruct (crypto_plain_fields (snd (Entropy_Fill nz)) b Hb)
      as (F1 & F2 & F3 & F4).
    cbn [length nonce_fills zip_with]. split.
    + apply List.Forall2_cons; [auto | exact A].
    + apply List.Forall2_cons; [exact F1 | exact B].
Qed.

Lemma copy_fresh (n : nat) (e : list byte) :
  n = length e -> copy (repeat Byte.x00 n) e = e.
Proof.
  intros ->. unfold copy. rewrite repeat_length, firstn_all.
  rewrite skipn_all2 by (rewrite repeat_length; lia). apply app_nil_r.
Qed.

Lemma map_const_seq {A : Type} (c : A) (start n : nat) :
  map (fun _ : nat => c) (seq start n) = repeat c n.
Proof.
  revert start. induction n as [|n IH]; intros start; [reflexivity |].
  cbn [seq map repeat]. f_equal. apply IH.
Qed.

(** Lines 642-647: every parity shard is sealed like the buffer, with
    the next nonce. *)
Lemma mapM_seal_frames (blk : BlockCrypt) (ecc : list (list byte))
    (w : World) (sid : nat) (s : UDPSession) :
  heap w !! sid = Some s ->
  Forall (fun e => (cryptHeaderSize <= length e)%nat) ecc ->
  let plains := crypto_plains (nonce s) ecc in
  exists w' s',
    mapM (seal sid blk) ecc w
    = Ret (map (fun x => copy x (Encrypt blk x)) plains) w'
    /\ heap w' !! sid = Some s'
    /\ trace w' = trace w ++ map EvEncrypt plains
    /\ map (@length byte) (map (fun x => copy x (Encrypt blk x)) plains)
       = map (@length byte) ecc.
Proof.
  unfold crypto_plains.
  revert w s. induction ecc as [|e ecc IH]; intros w s Hs Hall.
  - exists w, s. cbn. unfold ret. rewrite app_nil_r. auto.
  - inversion Hall as [|x xs He Hrest]; subst.
    cbn [mapM]. unfold bind at 1. rewrite (seal_ok w sid s blk e Hs He).
    unfold bind at 1.
    match goal with
    | |- context [mapM _ ecc ?W] =>
        destruct (IH W (set_nonce (fst (Entropy_Fill (nonce s))) s))
          as (w' & s' & Hm & Hh & Ht & Hl);
          [cbn; apply lookup_insert_eq | exact Hrest |]
    end.
    cbn [nonce set_nonce] in Hm, Ht, Hl.
    rewrite Hm. unfold ret.
    exists w', s'. cbn [length nonce_fills zip_with map].
    split; [reflexivity |]. split; [exact Hh |]. split.
    + rewrite Ht. cbn. rewrite <- app_assoc. reflexivity.
    + rewrite Hl, copy_length, crypto_plain_length by exact He.
      reflexivity.
Qed.

(** C5.  With a cipher configured, the post-processor turns every
    buffer that leaves its FEC stage, the data buffer and each parity
    shard, into the bytes of its crypto frame and encrypts them in
    place, in this order: the first 16 bytes are overwritten with what
    the nonce source stores (a new nonce for each buffer), the
    CRC32/IEEE of the bytes from offset 20 is written little-endian at
    offset 16, and the whole buffer is given to [Encrypt]; in the frame
    the bytes from offset 20 are those of the buffer.  Nothing else is
    encrypted, and the batch gets the encrypted buffer, its [dup]
    copies and the encrypted parity shards, in this order. *)
Theorem postProcess_crypto_frame (w : World) (sid : nat) (s : UDPSession)
    (blk : BlockCrypt) (buf buf1 : list byte) (ecc : list (list byte))
    (p : PostProcess) :
  heap w !! sid = Some s ->
  block s = Some blk ->
  fec_staged s buf = (buf1, ecc) ->
  (cryptHeaderSize <= length buf1)%nat ->
  (0 < dup s -> Z.of_nat (length buf1) <= mtuLimit) ->
  Forall (fun e => (cryptHeaderSize <= length e)%nat
                   /\ Z.of_nat (length e) <= mtuLimit) ecc ->
  let filled := snd (Entropy_Fill (nonce s)) in
  let plain := crypto_plain filled buf1 in
  let fills := nonce_fills (fst (Entropy_Fill (nonce s))) (length ecc) in
  let parity := crypto_plains (fst (Entropy_Fill (nonce s))) ecc in
  let sealed := fun x => (remote s, copy x (Encrypt blk x)) in
  exists p' w',
    postProcess_buf sid buf p w = Ret p' w'
    /\ txqueue p'
       = txqueue p ++ sealed plain :: repeat (sealed plain) (Z.to_nat (dup s))
                   ++ map sealed parity
    /\ trace w' = trace w ++ EvEncrypt plain :: map EvEncrypt parity
    /\ (length filled = nonceSize -> firstn nonceSize plain = filled)
    /\ firstn crcSize (skipn nonceSize plain)
       = le32 (ChecksumIEEE (skipn cryptHeaderSize buf1))
    /\ skipn cryptHeaderSize plain = skipn cryptHeaderSize buf1
    /\ length (copy plain (Encrypt blk plain)) = length buf1
    /\ Forall2 (fun e x =>
                  firstn crcSize (skipn nonceSize x)
                  = le32 (ChecksumIEEE (skipn cryptHeaderSize e))
                  /\ skipn cryptHeaderSize x = skipn cryptHeaderSize e
                  /\ length (copy x (Encrypt blk x)) = length e)
               ecc parity
    /\ Forall2 (fun f x => length f = nonceSize -> firstn nonceSize x = f)
               fills parity.
Proof.
  intros Hs Hb Hfec Hlen Hdup Hecc filled plain fills parity sealed.
  assert (Hecc1 : Forall (fun e => (cryptHeaderSize <= length e)%nat) ecc)
    by (eapply Forall_impl; [exact Hecc | cbn; tauto]).
  unfold postProcess_buf.
  unfold bind at 1. rewrite (getS_ok _ _ _ Hs).
  (* the FEC stage *)
  assert (Hstage :
    exists s0 w0,
      (match fecEncoder s with
       | Some e =>
           let '(e', stored, ecc0) := FEC_encode e buf maxFECEncodeLatency in
           bind (modS sid (set_fecEncoder (Some e')))
                (fun _ => ret (copy buf stored, ecc0))
       | None => ret (buf, [])
       end) w = Ret (buf1, ecc) w0
      /\ heap w0 !! sid = Some s0 /\ nonce s0 = nonce s
      /\ trace w0 = trace w).
  { unfold fec_staged in Hfec. destruct (fecEncoder s) as [e|].
    - destruct (FEC_encode e buf maxFECEncodeLatency) as [[e' stored] ecc0].
      inversion Hfec; subst. unfold bind. rewrite (modS_ok _ _ _ _ Hs).
      eexists. eexists. split; [reflexivity |]. cbn.
      rewrite lookup_insert_eq. auto.
    - inversion Hfec; subst. exists s, w. auto. }
  destruct Hstage as (s0 & w0 & Hst & Hs0 & Hnz & Ht0).
  unfold bind at 1. rewrite Hst. rewrite Hb.
  (* nonce, checksum, encryption of the buffer *)
  unfold bind at 1. unfold bind at 1.
  rewrite (seal_ok w0 sid s0 blk buf1 Hs0 Hlen). rewrite Hnz.
  fold filled. fold plain.
  (* the parity shards *)
  unfold bind at 1.
  match goal with
  | |- context [mapM (seal sid blk) ecc ?W] =>
      destruct (mapM_seal_frames blk ecc W sid
                  (set_nonce (fst (Entropy_Fill (nonce s))) s0))
        as (w1 & s1 & Hm & Hs1 & Ht1 & Hl);
        [cbn; apply lookup_insert_eq | exact Hecc1 |]
  end.
  cbn [nonce set_nonce] in Hm, Ht1, Hl. fold parity in Hm, Ht1, Hl.
  rewrite Hm. unfold ret at 1. unfold ret at 1.
  assert (Hplen : length (copy plain (Encrypt blk plain)) = length buf1).
  { rewrite copy_length. subst plain. apply crypto_plain_length, Hlen. }
  (* the copies for the batch *)
  unfold bind at 1.
  rewrite (mapM_pure _ (fun _ => sealed plain)).
  2:{ intros i Hi. apply in_seq in Hi.
      unfold bind. rewrite xmitBuf_Get_ok.
      - unfold ret, sealed. rewrite copy_fresh by reflexivity. reflexivity.
      - rewrite Hplen. apply Hdup. lia. }
  unfold bind at 1.
  rewrite (mapM_pure _ (fun e => (remote s, e))).
  2:{ intros e He. unfold bind. rewrite xmitBuf_Get_ok.
      - unfold ret. rewrite copy_fresh by reflexivity. reflexivity.
      - assert (Hin : In (length e)
                        (map (@length byte)
                           (map (fun x => copy x (Encrypt blk x)) parity)))
          by (apply in_map; exact He).
        rewrite Hl in Hin. apply in_map_iff in Hin.
        destruct Hin as (e0 & He0 & Hin0). rewrite <- He0.
        rewrite Forall_forall in Hecc.
        apply (Hecc e0). apply list_elem_of_In. exact Hin0. }
  unfold bind at 1. rewrite (getS_ok _ _ _ Hs1). unfold ret.
  destruct (crypto_plain_fields filled buf1 Hlen) as (F1 & F2 & F3 & _).
  destruct (crypto_plains_fields (fst (Entropy_Fill (nonce s))) ecc Hecc1)
    as [A B].
  eexists. exists w1.
  split; [reflexivity |]. cbn [txqueue]. split.
  { rewrite map_const_seq, map_map, <- app_assoc. reflexivity. }
  split.
  { rewrite Ht1. cbn. rewrite Ht0, <- app_assoc. reflexivity. }
  split; [exact F1 |]. split; [exact F2 |]. split; [exact F3 |].
  split; [exact Hplen |]. split; [| exact B].
  fold parity in A. eapply Forall2_impl; [exact A |].
  cbn. intros e x (G1 & G2 & G3).
  split; [exact G1 |]. split; [exact G2 |].
  rewrite copy_length. exact G3.
Qed.

(** ** kcpInput and newUDPSession return *)

Lemma set_trace_id (w : World) : set_trace (trace w) w = w.
Proof. destruct w. reflexivity. Qed.

Lemma set_kcp_id (s : UDPSession) : set_kcp (kcp s) s = s.
Proof. destruct s. reflexivity. Qed.

Lemma Uint16_ok (b : list byte) :
  (2 <= length b)%nat -> exists v, Uint16 b = Some v.
Proof.
  destruct b as [|b0 [|b1 r]]; cbn; intros H; try lia.
  eexists. reflexivity.
Qed.

(** The loop of [kcpInput] over the shards recovered by FEC. *)
Lemma kcpInput_recovers (sid : nat) (ack : bool)
    (recovers : list (list byte)) (w : World) (s : UDPSession) (errs : Z) :
  heap w !! sid = Some s ->
  exists errs' k evs,
    foldM recovers errs
      (fun errs r =>
         if (2 <=? length r)%nat then
           bind (inrange (Uint16 r))
             (fun sz =>
                if (sz <=? Z.of_nat (length r)) && (2 <=? sz) then
                  bind (kcpInput_call sid
                          (skipn 2 (firstn (Z.to_nat sz) r)) false ack)
                    (fun code => ret (if code =? 0 then errs else errs + 1))
                else ret errs)
         else ret errs) w
    = Ret errs'
        (set_trace (trace w ++ evs)
           (set_heap (<[sid := set_kcp k s]> (heap w)) w)).
Proof.
  revert w s errs.
  induction recovers as [|r recovers IH]; intros w s errs Hs.
  - exists errs, (kcp s), []. cbn. unfold ret.
    rewrite set_kcp_id, (insert_id _ _ _ Hs), set_heap_id, app_nil_r,
      set_trace_id.
    reflexivity.
  - cbn [foldM]. unfold bind at 1.
    destruct (2 <=? length r)%nat eqn:E2.
    + apply Nat.leb_le in E2. destruct (Uint16_ok r E2) as [sz Hsz].
      rewrite Hsz. unfold bind at 1. cbn [inrange ret].
      destruct ((sz <=? Z.of_nat (length r)) && (2 <=? sz)).
      * unfold bind at 1. unfold kcpInput_call at 1.
        unfold bind at 1. rewrite (getS_ok _ _ _ Hs).
        unfold bind at 1. cbn [emit].
        destruct (KCP_Input (kcp s) (skipn 2 (firstn (Z.to_nat sz) r))
                    false ack) as [k code] eqn:Ei.
        unfold bind at 1. erewrite modS_ok by (cbn; exact Hs).
        unfold ret at 1. unfold ret at 1. cbn beta.
        match goal with
        | |- context [foldM recovers ?e _ ?W] =>
            destruct (IH W (set_kcp k s) e) as (errs' & k' & evs & Hr);
              [cbn; apply lookup_insert_eq |]
        end.
        rewrite Hr. exists errs', k'. eexists.
        cbn. rewrite insert_insert_eq, <- app_assoc. reflexivity.
      * unfold ret at 1. cbn beta.
        destruct (IH w s errs Hs) as (errs' & k' & evs & Hr).
        rewrite Hr. eauto.
    + unfold ret at 1. cbn beta.
      destruct (IH w s errs Hs) as (errs' & k' & evs & Hr).
      rewrite Hr. eauto.
Qed.

(** What [kcpInput] leaves of a session: every field but the ARQ
    instance, the FEC decoder and the readiness slots. *)
Lemma kcpInput_ok (w : World) (sid : nat) (s : UDPSession)
    (data t4 : list byte) (flag : Z) :
  heap w !! sid = Some s ->
  slice_from 4 data = Some t4 ->
  Uint16 t4 = Some flag ->
  is_Some (fecDecoder s) \/ is_Some (newFECDecoder 1 1) ->
  exists w' s' evs,
    kcpInput sid data w = Ret tt w'
    /\ heap w' = <[sid := s']> (heap w)
    /\ listener w' = listener w
    /\ socks w' = socks w
    /\ trace w' = trace w ++ EvKcpInput sid data :: evs
    /\ remote s' = remote s /\ sess_l s' = sess_l s
    /\ die s' = die s /\ dieOnce s' = dieOnce s.
Proof.
  intros Hs H4 Hflag Hdec. unfold kcpInput.
  unfold bind at 1. cbn [emit].
  rewrite H4. unfold bind at 1. cbn [inrange ret].
  rewrite Hflag. unfold bind at 1. cbn [inrange ret].
  assert (Htail : forall (errs : Z) (w1 : World) (s1 : UDPSession),
    heap w1 !! sid = Some s1 ->
    exists w2 s2 evs,
      bind (notifyAfterInput sid)
        (fun _ => bind (emit (EvUnlock sid)) (fun _ => ret errs)) w1
      = Ret errs w2
      /\ heap w2 = <[sid := s2]> (heap w1)
      /\ listener w2 = listener w1 /\ socks w2 = socks w1
      /\ DefaultSnmp w2 = DefaultSnmp w1
      /\ trace w2 = trace w1 ++ evs
      /\ remote s2 = remote s1 /\ sess_l s2 = sess_l s1
      /\ die s2 = die s1 /\ dieOnce s2 = dieOnce s1).
  { intros errs w1 s1 H1. unfold notifyAfterInput.
    run_with H1.
    destruct (0 <? KCP_PeekSize (kcp s1));
      run_with H1;
      match goal with
      | |- context [window_open ?k ?n] => destruct (window_open k n)
      end;
      run_with H1;
      (eexists; eexists; eexists; split; [reflexivity |]; cbn;
       rewrite ?insert_insert_eq, <- ?app_assoc;
       first [ rewrite <- (insert_id _ _ _ H1) at 1; repeat split; reflexivity
             | repeat split; reflexivity ]). }
  set (W0 := set_trace (trace w ++ [EvKcpInput sid data]) w).
  assert (Hs0 : heap W0 !! sid = Some s) by exact Hs.
  assert (Hmid : exists errs wm sm evs,
    (if (flag =? typeData) || (flag =? typeParity) then
       if (fecHeaderSizePlus2 <=? length data)%nat then
         bind (emit (EvLock sid)) (fun _ =>
         bind (getS sid) (fun s0 =>
         bind (inrange (match fecDecoder s0 with
                        | Some d => Some d
                        | None => newFECDecoder 1 1
                        end)) (fun dec =>
         let '(dec', recovers) := FEC_decode dec data in
         bind (modS sid (set_fecDecoder (Some dec'))) (fun _ =>
         bind (inrange (fecPacket_flag data)) (fun flag0 =>
         bind (if flag0 =? typeData then
                 bind (inrange (slice_from fecHeaderSizePlus2 data))
                   (fun payload =>
                      bind (kcpInput_call sid payload true (ackNoDelay s0))
                        (fun code => ret (if code =? 0 then 0 else 1)))
               else ret 0) (fun e1 =>
         bind (foldM recovers e1
                 (fun errs r =>
                    if (2 <=? length r)%nat then
                      bind (inrange (Uint16 r))
                        (fun sz =>
                           if (sz <=? Z.of_nat (length r)) && (2 <=? sz) then
                             bind (kcpInput_call sid
                                     (skipn 2 (firstn (Z.to_nat sz) r))
                                     false (ackNoDelay s0))
                               (fun code =>
                                  ret (if code =? 0 then errs else errs + 1))
                           else ret errs)
                    else ret errs)) (fun e2 =>
         bind (notifyAfterInput sid) (fun _ =>
         bind (emit (EvUnlock sid)) (fun _ => ret e2)))))))))
       else
         bind (modSnmp (fun c => set_InErrs (add64 (InErrs c) 1) c))
              (fun _ => ret 0)
     else
       bind (emit (EvLock sid)) (fun _ =>
       bind (getS sid) (fun s0 =>
       bind (kcpInput_call sid data true (ackNoDelay s0)) (fun code =>
       bind (notifyAfterInput sid) (fun _ =>
       bind (emit (EvUnlock sid)) (fun _ =>
       ret (if code =? 0 then 0 else 1))))))) W0
    = Ret errs wm
    /\ heap wm = <[sid := sm]> (heap w)
    /\ listener wm = listener w /\ socks wm = socks w
    /\ trace wm = trace W0 ++ evs
    /\ remote sm = remote s /\ sess_l sm = sess_l s
    /\ die sm = die s /\ dieOnce sm = dieOnce s).
  { destruct ((flag =? typeData) || (flag =? typeParity)).
    - destruct (fecHeaderSizePlus2 <=? length data)%nat eqn:El.
      + apply Nat.leb_le in El.
        unfold bind at 1. cbn [emit].
        unfold bind at 1. erewrite getS_ok by (cbn; exact Hs).
        assert (Hd : exists d, match fecDecoder s with
                               | Some d => Some d
                               | None => newFECDecoder 1 1
                               end = Some d).
        { destruct (fecDecoder s) as [d|]; [eauto |].
          destruct Hdec as [[d Hd] | [d Hd]]; [discriminate | eauto]. }
        destruct Hd as [d Hd]. rewrite Hd.
        unfold bind at 1. cbn [inrange ret].
        destruct (FEC_decode d data) as [d' recovers].
        unfold bind at 1. erewrite modS_ok by (cbn; exact Hs).
        unfold fecPacket_flag. rewrite H4, Hflag.
        unfold bind at 1. cbn [inrange ret].
        unfold bind at 1.
        assert (Hpay : exists e1 k1 ev1,
          (if flag =? typeData then
             bind (inrange (slice_from fecHeaderSizePlus2 data))
               (fun payload =>
                  bind (kcpInput_call sid payload true (ackNoDelay s))
                    (fun code => ret (if code =? 0 then 0 else 1)))
           else ret 0)
            (set_heap (<[sid := set_fecDecoder (Some d') s]> (heap w))
               (set_trace (trace W0 ++ [EvLock sid]) W0))
          = Ret e1
              (set_trace (trace W0 ++ EvLock sid :: ev1)
                 (set_heap
                    (<[sid := set_kcp k1 (set_fecDecoder (Some d') s)]>
                       (heap w)) W0))).
        { destruct (flag =? typeData).
          - rewrite (slice_from_ok _ _ El).
            unfold kcpInput_call. run_with Hs.
            destruct (KCP_Input (kcp s) (skipn fecHeaderSizePlus2 data)
                        true (ackNoDelay s)) as [k1 code].
            run_with Hs. eexists. exists k1. eexists.
            rewrite insert_insert_eq, <- app_assoc. reflexivity.
          - exists 0, (kcp s), []. unfold ret. reflexivity. }
        destruct Hpay as (e1 & k1 & ev1 & Hpay).
        cbn [heap set_trace trace]. change (heap W0) with (heap w).
        rewrite Hpay. clear Hpay.
        unfold bind at 1.
        match goal with
        | |- context [foldM recovers e1 _ ?W] =>
            destruct (kcpInput_recovers sid (ackNoDelay s) recovers W
                        (set_kcp k1 (set_fecDecoder (Some d') s)) e1)
              as (e2 & k2 & ev2 & Hr);
              [cbn; apply lookup_insert_eq |]
        end.
        rewrite Hr. clear Hr.
        match goal with
        | |- context [bind (notifyAfterInput sid) _ ?W] =>
            destruct (Htail e2 W
                        (set_kcp k2 (set_kcp k1 (set_fecDecoder (Some d') s))))
              as (w2 & s2 & ev3 & Ht & Hh & Hl & Hso & _ & Htr & F1 & F2
                  & F3 & F4);
              [cbn; apply lookup_insert_eq |]
        end.
        rewrite Ht. exists e2, w2, s2. eexists.
        split; [reflexivity |]. split.
        { rewrite Hh. cbn. rewrite !insert_insert_eq. reflexivity. }
        split; [rewrite Hl; reflexivity |].
        split; [rewrite Hso; reflexivity |].
        split.
        { rewrite Htr. cbn. rewrite <- !app_assoc. reflexivity. }
        rewrite F1, F2, F3, F4. repeat split; reflexivity.
      + exists 0. eexists. exists s, []. unfold bind, modSnmp, ret.
        split; [reflexivity |]. cbn.
        rewrite (insert_id _ _ _ Hs), app_nil_r. repeat split; reflexivity.
    - unfold bind at 1. cbn [emit].
      unfold bind at 1. erewrite getS_ok by (cbn; exact Hs).
      unfold bind at 1. unfold kcpInput_call.
      unfold bind at 1. erewrite getS_ok by (cbn; exact Hs).
      unfold bind at 1. cbn [emit].
      destruct (KCP_Input (kcp s) data true (ackNoDelay s)) as [k1 code].
      unfold bind at 1. erewrite modS_ok by (cbn; exact Hs).
      unfold ret at 1.
      match goal with
      | |- context [bind (notifyAfterInput sid) _ ?W] =>
          destruct (Htail (if code =? 0 then 0 else 1) W (set_kcp k1 s))
            as (w2 & s2 & ev3 & Ht & Hh & Hl & Hso & _ & Htr & F1 & F2
                & F3 & F4);
            [cbn; apply lookup_insert_eq |]
      end.
      rewrite Ht. eexists. exists w2, s2. eexists.
      split; [reflexivity |]. split.
      { rewrite Hh. cbn. rewrite !insert_insert_eq. reflexivity. }
      split; [rewrite Hl; reflexivity |].
      split; [rewrite Hso; reflexivity |].
      split.
      { rewrite Htr. cbn. rewrite <- !app_assoc. reflexivity. }
      rewrite F1, F2, F3, F4. repeat split; reflexivity. }
  destruct Hmid as (errs & wm & sm & evs & Hm & Hh & Hl & Hso & Htr & F).
  fold W0. unfold bind at 1. rewrite Hm.
  unfold bind, modSnmp, when_, ret.
  destruct (0 <? errs);
    (eexists; exists sm, evs; split; [reflexivity |]; cbn;
     rewrite Hh, Hl, Hso, Htr; subst W0; cbn; rewrite <- app_assoc;
     repeat split; try reflexivity; apply F).
Qed.

Lemma newUDPSession_ok (c ds ps : Z) (l : bool) (cn : nat) (own : bool)
    (rem : string) (blk : option BlockCrypt) (w : World) :
  let sid := fresh (dom (heap w)) in
  exists w2 s2,
    newUDPSession c ds ps l cn own rem blk w = Ret sid w2
    /\ heap w !! sid = None
    /\ heap w2 = <[sid := s2]> (heap w)
    /\ listener w2 = listener w /\ socks w2 = socks w
    /\ kcp s2 = NewKCP c /\ remote s2 = rem /\ sess_l s2 = l
    /\ ownConn s2 = own /\ block s2 = blk
    /\ die s2 = false /\ dieOnce s2 = false
    /\ fecDecoder s2 = newFECDecoder ds ps
    /\ bufptr s2 = [] /\ chPostProcessing s2 = [].
Proof.
  intros sid. unfold newUDPSession, alloc, draw.
  unfold bind, emit, modSnmp, getNow, ret.
  assert (Hfresh : heap w !! sid = None)
    by (apply not_elem_of_dom, is_fresh).
  destruct l; cbn; fold sid;
    (eexists; eexists; split; [reflexivity |];
     split; [exact Hfresh |]; cbn; repeat split; reflexivity).
Qed.

(** ** The listener's dispatcher *)

Lemma packetInput_decrypt_frame (blk : option BlockCrypt) (data : list byte)
    (w : World) :
  exists decrypted frame w1,
    packetInput_decrypt blk data w = Ret (decrypted, frame) w1
    /\ heap w1 = heap w /\ listener w1 = listener w /\ socks w1 = socks w
    /\ rand w1 = rand w
    /\ (trace w1 = trace w \/ trace w1 = trace w ++ [EvDecrypt data]).
Proof.
  unfold packetInput_decrypt. destruct blk as [blk|].
  - destruct (cryptHeaderSize <=? length data)%nat eqn:E.
    + apply Nat.leb_le in E.
      unfold cryptHeaderSize, nonceSize, crcSize in *.
      set (plain := copy data (Decrypt blk data)).
      assert (Hp : length plain = length data) by apply copy_length.
      unfold bind at 1. cbn [emit].
      rewrite (slice_from_ok 16 plain) by lia.
      unfold bind at 1. cbn [inrange ret].
      rewrite (slice_from_ok 4 (skipn 16 plain))
        by (rewrite length_skipn; lia).
      unfold bind at 1. cbn [inrange ret].
      destruct (Uint32_ok (skipn 16 plain)) as [v Hv];
        [rewrite length_skipn; lia |].
      rewrite Hv. unfold bind at 1. cbn [inrange ret].
      destruct (ChecksumIEEE (skipn 4 (skipn 16 plain)) =? v).
      * eexists. eexists. eexists. split; [reflexivity |]. cbn. auto 10.
      * unfold bind, modSnmp, ret.
        eexists. eexists. eexists. split; [reflexivity |]. cbn. auto 10.
    + exists false, data, w. unfold ret. auto 10.
  - exists true, data, w. unfold ret. auto 10.
Qed.

Lemma recoverConv_header (frame : list byte) (h : Z * Z * bool) :
  recoverConv frame = Some h ->
  exists t4 flag, slice_from 4 frame = Some t4 /\ Uint16 t4 = Some flag.
Proof.
  unfold recoverConv. intros H.
  destruct (slice_from 4 frame) as [t4|] eqn:E4; [| discriminate].
  cbn in H. destruct (Uint16 t4) as [flag|] eqn:E16; [| discriminate].
  exists t4, flag. split; [reflexivity | exact E16].
Qed.

(** The accept block with room in the queue. *)
Lemma acceptNew_slack (c : Z) (frame : list byte) (addr : string)
    (w : World) (h : Z * Z * bool) :
  (length (l_chAccepts (listener w)) < acceptBacklog)%nat ->
  recoverConv frame = Some h ->
  is_Some (newFECDecoder 1 1) ->
  exists sid w2 w3 s3,
    heap w !! sid = None
    /\ newUDPSession c (l_dataShards (listener w))
         (l_parityShards (listener w)) true (l_conn (listener w)) false
         addr (l_block (listener w)) w = Ret sid w2
    /\ kcpInput sid frame w2 = Ret tt w3
    /\ acceptNew c frame addr w
       = Ret tt
           (set_listener
              (set_l_chAccepts (l_chAccepts (listener w) ++ [sid])
                 (set_l_sessions (<[addr := sid]> (l_sessions (listener w)))
                    (listener w))) w3)
    /\ heap w3 !! sid = Some s3
    /\ (forall j, j <> sid -> heap w3 !! j = heap w !! j)
    /\ remote s3 = addr /\ sess_l s3 = true /\ die s3 = false.
Proof.
  intros Hroom Hrec Hfec.
  destruct (recoverConv_header frame h Hrec) as (t4 & flag & H4 & Hflag).
  destruct (newUDPSession_ok c (l_dataShards (listener w))
              (l_parityShards (listener w)) true (l_conn (listener w))
              false addr (l_block (listener w)) w)
    as (w2 & s2 & Hnew & Hfresh & Hh2 & Hl2 & Hsock2 & _ & Hrem & Hsl & _ & _
        & Hdie & _).
  destruct (kcpInput_ok w2 (fresh (dom (heap w))) s2 frame t4 flag)
    as (w3 & s3 & evs & Hin & Hh3 & Hl3 & _ & _ & F1 & F2 & F3 & _);
    [rewrite Hh2; apply lookup_insert_eq | exact H4 | exact Hflag
    | right; exact Hfec |].
  exists (fresh (dom (heap w))), w2, w3, s3.
  split; [exact Hfresh |]. split; [exact Hnew |]. split; [exact Hin |].
  split.
  { unfold acceptNew. unfold bind at 1. cbn [getL].
    destruct (length (l_chAccepts (listener w)) <? acceptBacklog)%nat eqn:E;
      [| apply Nat.ltb_ge in E; lia].
    unfold bind at 1. rewrite Hnew.
    unfold bind at 1. rewrite Hin.
    unfold bind, modL. cbn. rewrite Hl3, Hl2. reflexivity. }
  split; [rewrite Hh3; apply lookup_insert_eq |].
  split.
  { intros j Hj. rewrite Hh3, Hh2, !lookup_insert_ne by congruence.
    reflexivity. }
  rewrite F1, F2, F3. auto.
Qed.

Lemma acceptNew_full (c : Z) (frame : list byte) (addr : string)
    (w : World) :
  (acceptBacklog <= length (l_chAccepts (listener w)))%nat ->
  acceptNew c frame addr w = Ret tt w.
Proof.
  intros Hfull. unfold acceptNew. unfold bind at 1. cbn [getL].
  destruct (length (l_chAccepts (listener w)) <? acceptBacklog)%nat eqn:E;
    [apply Nat.ltb_lt in E; lia | reflexivity].
Qed.

(** The dispatcher once the frame has passed the crypto stage. *)
Lemma Listener_packetInput_frame (data frame : list byte) (addr : string)
    (w w1 : World) (c sn : Z) (rec : bool) :
  packetInput_decrypt (l_block (listener w)) data w = Ret (true, frame) w1 ->
  (IKCP_OVERHEAD <= length frame)%nat ->
  recoverConv frame = Some (c, sn, rec) ->
  Listener_packetInput data addr w
  = bind
      (match l_sessions (listener w) !! addr with
       | Some sid =>
           bind (getS sid) (fun x =>
             if negb rec || (c =? conv (kcp x)) then
               bind (kcpInput sid frame) (fun _ => ret (Some sid))
             else if sn =? 0 then
               bind (Close sid) (fun _ => ret None)
             else ret (Some sid))
       | None => ret None
       end)
      (fun s => if negb (is_some s) && rec
                then acceptNew c frame addr else ret tt) w1.
Proof.
  intros Hd Hlen Hrec. unfold Listener_packetInput.
  unfold bind at 1. cbn [getL].
  unfold bind at 1. rewrite Hd.
  destruct (IKCP_OVERHEAD <=? length frame)%nat eqn:E;
    [| apply Nat.leb_gt in E; lia].
  cbn [andb]. rewrite Hrec. unfold bind at 1. cbn [inrange ret].
  reflexivity.
Qed.

Lemma Listener_packetInput_ineligible (data frame : list byte)
    (addr : string) (w w1 : World) (decrypted : bool) :
  packetInput_decrypt (l_block (listener w)) data w
  = Ret (decrypted, frame) w1 ->
  decrypted && (IKCP_OVERHEAD <=? length frame)%nat = false ->
  Listener_packetInput data addr w = Ret tt w1.
Proof.
  intros Hd He. unfold Listener_packetInput.
  unfold bind at 1. cbn [getL].
  unfold bind at 1. rewrite Hd. rewrite He. reflexivity.
Qed.

(** C6.  When no session exists for the remote address, the listener
    creates one exactly when the datagram passes the crypto stage, holds
    a full ARQ header, lets the conversation id be recovered, and the
    accept queue (capacity 128) has a free slot: the session is then
    allocated with the recovered [conv], fed the frame by [kcpInput],
    stored in the table under the address and appended to the accept
    queue.  With the queue full the datagram is dropped and neither the
    heap of sessions nor the listener changes; and whenever a run
    changes either of them, the conditions above held. *)
Theorem accept_backpressure (w : World) (data : list byte) (addr : string) :
  l_sessions (listener w) !! addr = None ->
  exists decrypted frame w1,
    packetInput_decrypt (l_block (listener w)) data w
    = Ret (decrypted, frame) w1
    /\ heap w1 = heap w /\ listener w1 = listener w
    /\ let eligible := decrypted && (IKCP_OVERHEAD <=? length frame)%nat in
       (forall c sn,
           eligible = true ->
           recoverConv frame = Some (c, sn, true) ->
           (length (l_chAccepts (listener w)) < acceptBacklog)%nat ->
           is_Some (newFECDecoder 1 1) ->
           exists sid w2 w3 s3,
             heap w !! sid = None
             /\ newUDPSession c (l_dataShards (listener w))
                  (l_parityShards (listener w)) true (l_conn (listener w))
                  false addr (l_block (listener w)) w1 = Ret sid w2
             /\ kcpInput sid frame w2 = Ret tt w3
             /\ Listener_packetInput data addr w
                = Ret tt
                    (set_listener
                       (set_l_chAccepts (l_chAccepts (listener w) ++ [sid])
                          (set_l_sessions
                             (<[addr := sid]> (l_sessions (listener w)))
                             (listener w))) w3)
             /\ heap w3 !! sid = Some s3
             /\ (forall j, j <> sid -> heap w3 !! j = heap w !! j)
             /\ remote s3 = addr /\ sess_l s3 = true /\ die s3 = false)
       /\ ((acceptBacklog <= length (l_chAccepts (listener w)))%nat ->
           (eligible = true -> is_Some (recoverConv frame)) ->
           Listener_packetInput data addr w = Ret tt w1)
       /\ (forall w',
              Listener_packetInput data addr w = Ret tt w' ->
              (heap w' = heap w /\ listener w' = listener w)
              \/ (eligible = true
                  /\ (exists c sn, recoverConv frame = Some (c, sn, true))
                  /\ (length (l_chAccepts (listener w))
                      < acceptBacklog)%nat)).
Proof.
  intros Hnone.
  destruct (packetInput_decrypt_frame (l_block (listener w)) data w)
    as (decrypted & frame & w1 & Hd & Hh1 & Hl1 & _).
  exists decrypted, frame, w1.
  split; [exact Hd |]. split; [exact Hh1 |]. split; [exact Hl1 |].
  intros eligible.
  assert (Hdisp : forall c sn rec,
    eligible = true -> recoverConv frame = Some (c, sn, rec) ->
    Listener_packetInput data addr w
    = (if rec then acceptNew c frame addr else ret tt) w1).
  { intros c sn rec He Hrec. subst eligible.
    apply andb_prop in He. destruct He as [-> Hlen].
    apply Nat.leb_le in Hlen.
    rewrite (Listener_packetInput_frame data frame addr w w1 c sn rec
               Hd Hlen Hrec).
    rewrite Hnone. unfold bind, ret. cbn. reflexivity. }
  split; [| split].
  - intros c sn He Hrec Hroom Hfec.
    rewrite (Hdisp c sn true He Hrec).
    rewrite <- Hl1 in Hroom |- *. rewrite <- Hh1.
    destruct (acceptNew_slack c frame addr w1 (c, sn, true) Hroom Hrec Hfec)
      as (sid & w2 & w3 & s3 & H).
    exists sid, w2, w3, s3. exact H.
  - intros Hfull Hrec. destruct eligible eqn:He.
    + destruct (Hrec eq_refl) as [[[c sn] rec] Hr].
      rewrite (Hdisp c sn rec eq_refl Hr). destruct rec; [| reflexivity].
      apply acceptNew_full. rewrite Hl1. exact Hfull.
    + apply (Listener_packetInput_ineligible data frame addr w w1 decrypted);
        assumption.
  - intros w' Hrun. destruct eligible eqn:He.
    + destruct (recoverConv frame) as [[[c sn] rec]|] eqn:Hr.
      * rewrite (Hdisp c sn rec eq_refl eq_refl) in Hrun.
        destruct rec.
        -- destruct (Nat.lt_ge_cases (length (l_chAccepts (listener w)))
                       acceptBacklog) as [Hroom | Hfull].
           ++ right. split; [reflexivity |]. split; [eauto | exact Hroom].
           ++ rewrite acceptNew_full in Hrun by (rewrite Hl1; exact Hfull).
              inversion Hrun; subst. left. auto.
        -- inversion Hrun; subst. left. auto.
      * exfalso. subst eligible.
        apply andb_prop in He. destruct He as [-> Hlen].
        unfold Listener_packetInput in Hrun.
        unfold bind at 1 in Hrun. cbn [getL] in Hrun.
        unfold bind at 1 in Hrun. rewrite Hd in Hrun.
        rewrite Hlen in Hrun. cbn [andb] in Hrun. rewrite Hr in Hrun.
        discriminate.
    + rewrite (Listener_packetInput_ineligible data frame addr w w1
                 decrypted Hd He) in Hrun.
      inversion Hrun; subst. left. auto.
Qed.

(** C2, as the code has it.  For a datagram that passes the crypto
    stage with a full ARQ header, from an address that has a session:
    when the conversation id is not recoverable or matches the
    session's, the frame is delivered to the session's [kcpInput]; when
    it is recoverable, differs and [sn] is not zero, the datagram is
    dropped and nothing else happens; when it differs and [sn] is zero,
    the session is closed (and leaves the table) and the accept block
    runs, which creates the replacement only if the accept queue has a
    free slot. *)
Theorem dispatch_existing (w w1 : World) (data frame : list byte)
    (addr : string) (sid : nat) (x : UDPSession) (c sn : Z) (rec : bool) :
  l_sessions (listener w) !! addr = Some sid ->
  heap w !! sid = Some x ->
  packetInput_decrypt (l_block (listener w)) data w = Ret (true, frame) w1 ->
  (IKCP_OVERHEAD <= length frame)%nat ->
  recoverConv frame = Some (c, sn, rec) ->
  (rec = false \/ c = conv (kcp x) ->
   Listener_packetInput data addr w = kcpInput sid frame w1)
  /\ (rec = true -> c <> conv (kcp x) -> sn <> 0 ->
      Listener_packetInput data addr w = Ret tt w1)
  /\ (rec = true -> c <> conv (kcp x) -> sn = 0 ->
      Listener_packetInput data addr w
      = bind (Close sid) (fun _ => acceptNew c frame addr) w1
      /\ (forall w2,
            (acceptBacklog <= length (l_chAccepts (listener w2)))%nat ->
            acceptNew c frame addr w2 = Ret tt w2)
      /\ (forall k interval outs,
            sess_l x = true -> dieOnce x = false ->
            KCP_flush (kcp x) false = (k, interval, outs) ->
            Forall (output_fits (headerSize x)) outs ->
            exists w2 s2,
              Close sid w1 = Ret None w2
              /\ heap w2 = <[sid := s2]> (heap w)
              /\ die s2 = true
              /\ l_sessions (listener w2)
                 = delete (remote x) (l_sessions (listener w))
              /\ Listener_packetInput data addr w
                 = acceptNew c frame addr w2)).
Proof.
  intros Ht Hx Hd Hlen Hrec.
  destruct (packetInput_decrypt_frame (l_block (listener w)) data w)
    as (d0 & f0 & w0 & Hd0 & Hh1 & Hl1 & _).
  rewrite Hd in Hd0. inversion Hd0; subst d0 f0 w0. clear Hd0.
  assert (Hx1 : heap w1 !! sid = Some x) by (rewrite Hh1; exact Hx).
  rewrite (Listener_packetInput_frame data frame addr w w1 c sn rec
             Hd Hlen Hrec).
  rewrite Ht. split; [| split].
  - intros Hdel. unfold bind at 1. unfold bind at 1.
    rewrite (getS_ok _ _ _ Hx1).
    assert (Hc : negb rec || (c =? conv (kcp x)) = true).
    { destruct Hdel as [-> | ->]; [reflexivity |].
      rewrite Z.eqb_refl. apply orb_true_r. }
    rewrite Hc. unfold bind, ret.
    destruct (kcpInput sid frame w1) as [[] w'| | |]; reflexivity.
  - intros -> Hne Hsn. unfold bind at 1. unfold bind at 1.
    rewrite (getS_ok _ _ _ Hx1).
    apply Z.eqb_neq in Hne, Hsn. rewrite Hne, Hsn. reflexivity.
  - intros -> Hne ->.
    assert (Heq :
      bind
        (bind (getS sid) (fun x0 =>
           if negb true || (c =? conv (kcp x0)) then
             bind (kcpInput sid frame) (fun _ => ret (Some sid))
           else if 0 =? 0 then bind (Close sid) (fun _ => ret None)
           else ret (Some sid)))
        (fun s => if negb (is_some s) && true
                  then acceptNew c frame addr else ret tt) w1
      = bind (Close sid) (fun _ => acceptNew c frame addr) w1).
    { unfold bind at 1. unfold bind at 1. rewrite (getS_ok _ _ _ Hx1).
      apply Z.eqb_neq in Hne. rewrite Hne. cbn [negb orb Z.eqb].
      unfold bind, ret. destruct (Close sid w1); reflexivity. }
    rewrite Heq. split; [reflexivity |]. split.
    + intros w2 Hfull. apply acceptNew_full. exact Hfull.
    + intros k interval outs Hsl Ho Hf Hfit.
      destruct (Close_first w1 sid x k interval outs Hx1 Ho Hf Hfit)
        as (r & w2 & q & Hc & Hh & _ & Hcase); [congruence |].
      rewrite Hsl in Hcase. destruct Hcase as (-> & Hl2 & _).
      exists w2. eexists.
      split; [exact Hc |]. split; [rewrite Hh, Hh1; reflexivity |].
      split; [reflexivity |].
      split; [rewrite Hl2, Hl1; reflexivity |].
      unfold bind. rewrite Hc. reflexivity.
Qed.

(** ** WriteBuffers *)

Lemma bind_Ret_inv {A B : Type} (m : M A) (k : A -> M B) (w w' : World)
    (b : B) :
  bind m k w = Ret b w' ->
  exists a w1, m w = Ret a w1 /\ k a w1 = Ret b w'.
Proof.
  unfold bind. destruct (m w) as [a w1| | |]; try discriminate. eauto.
Qed.

Lemma choose_cases {A : Type} (ready : list A) (w : World) :
  exists c r,
    choose ready w = Ret c (set_rand r w)
    /\ (c = None /\ ready = [] \/ exists x, c = Some x /\ In x ready).
Proof.
  destruct ready as [|a l] eqn:E.
  - exists None, (rand w). cbn. unfold ret. rewrite set_rand_id. auto.
  - destruct (choose_In (a :: l) w) as (x & r & Hc & Hin); [discriminate |].
    exists (Some x), r. split; [exact Hc |]. right. eauto.
Qed.

Lemma send_slices_total (sid : nat) (v : list (list byte)) (n0 n : Z)
    (w w' : World) :
  send_slices sid v n0 w = Ret n w' ->
  n = n0 + Z.of_nat (length (concat v)).
Proof.
  revert n0 w. induction v as [|b v IH]; intros n0 w H.
  - cbn in H. unfold ret in H. inversion H. cbn. lia.
  - cbn [send_slices] in H. apply bind_Ret_inv in H.
    destruct H as (_ & w1 & _ & H). apply IH in H.
    cbn [concat]. rewrite length_app. lia.
Qed.

(** A pass of [WriteBuffers] on a session without socket error that is
    not closed. *)
Lemma WriteBuffers_loop_pass (fuel : nat) (w : World) (sid : nat)
    (s : UDPSession) (v : list (list byte)) :
  heap w !! sid = Some s ->
  write_guard s = [] ->
  WriteBuffers_loop (S fuel) sid v w
  = (if window_open (kcp s) (KCP_WaitSnd (kcp s)) then
       bind (send_slices sid v 0) (fun n =>
       bind (kcpWaitSnd sid) (fun waitsnd' =>
       bind (getS sid) (fun s' =>
       bind (when_ (negb (window_open (kcp s') waitsnd')
                    || negb (writeDelay s'))
                   (bind (kcpFlush sid false) (fun _ => ret tt))) (fun _ =>
       bind (emit (EvUnlock sid)) (fun _ =>
       bind (modSnmp (fun c => set_BytesSent (add64 (BytesSent c) n) c))
         (fun _ => ret (n, None)))))))
     else
       bind (emit (EvUnlock sid)) (fun _ =>
       bind getNow (fun t =>
       bind (choose (write_ready s t)) (fun c =>
         match c with
         | Some WakeEvent =>
             bind (modS sid (set_chWriteEvent false))
                  (fun _ => WriteBuffers_loop fuel sid v)
         | Some WakeTimer => ret (0, Some errTimeout)
         | Some WakeSocketError =>
             bind (socketError (socketWriteError s))
                  (fun e => ret (0, Some e))
         | Some WakeDie => ret (0, Some ErrClosedPipe)
         | None => blocks
         end))))
      (set_trace (trace w ++ [EvLock sid; EvKCP sid CallWaitSnd]) w).
Proof.
  intros Hs Hg. cbn [WriteBuffers_loop].
  unfold bind at 1. rewrite (getS_ok _ _ _ Hs). rewrite Hg.
  unfold bind at 1. cbn [choose ret].
  unfold bind at 1. cbn [emit].
  unfold bind at 1. unfold kcpWaitSnd at 1.
  unfold bind at 1. erewrite getS_ok by (cbn; exact Hs).
  unfold bind at 1. cbn [emit]. unfold ret at 1.
  cbn [trace set_trace]. rewrite <- app_assoc. reflexivity.
Qed.

Lemma write_guard_nil (s : UDPSession) :
  write_guard s = [] -> socketWriteError s = None /\ die s = false.
Proof.
  unfold write_guard.
  destruct (socketWriteError s), (die s); cbn; intros H;
    try discriminate; auto.
Qed.

(** A pass that is stopped by the opening [select] returns an error. *)
Lemma WriteBuffers_loop_guarded (fuel : nat) (w : World) (sid : nat)
    (s : UDPSession) (v : list (list byte)) (n : Z) (w' : World) :
  heap w !! sid = Some s ->
  write_guard s <> [] ->
  WriteBuffers_loop (S fuel) sid v w <> Ret (n, None) w'.
Proof.
  intros Hs Hg. cbn [WriteBuffers_loop].
  unfold bind at 1. rewrite (getS_ok _ _ _ Hs).
  destruct (choose_In (write_guard s) w Hg) as (x & r & Hc & Hin).
  unfold bind at 1. rewrite Hc. destruct x.
  - unfold write_guard in Hin.
    destruct (socketWriteError s) as [e|] eqn:Ee.
    + unfold bind, socketError, ret. discriminate.
    + cbn in Hin. destruct (die s); cbn in Hin;
        [destruct Hin as [Hin | []]; discriminate | contradiction].
  - unfold ret. discriminate.
Qed.

(** A [WriteBuffers] that returns without error went through the
    window check. *)
Lemma WriteBuffers_returns_open (w w' : World) (sid : nat)
    (s : UDPSession) (v : list (list byte)) (n : Z) :
  heap w !! sid = Some s ->
  WriteBuffers sid v w = Ret (n, None) w' ->
  KCP_WaitSnd (kcp s) < Z.min (snd_wnd (kcp s)) (rmt_wnd (kcp s))
  /\ n = Z.of_nat (length (concat v))
  /\ socketWriteError s = None /\ die s = false.
Proof.
  intros Hs Hrun. unfold WriteBuffers in Hrun.
  destruct (write_guard s) as [|g gs] eqn:Hg.
  2:{ exfalso. eapply (WriteBuffers_loop_guarded 1 w sid s); eauto.
      rewrite Hg. discriminate. }
  rewrite (WriteBuffers_loop_pass 1 w sid s v Hs Hg) in Hrun.
  destruct (window_open (kcp s) (KCP_WaitSnd (kcp s))) eqn:Ew.
  - unfold window_open in Ew. apply andb_prop in Ew.
    destruct Ew as [E1 E2]. apply Z.ltb_lt in E1, E2.
    split; [lia |]. split; [| apply write_guard_nil; exact Hg].
    apply bind_Ret_inv in Hrun. destruct Hrun as (n1 & w1 & Hsend & Hrun).
    apply send_slices_total in Hsend.
    repeat (apply bind_Ret_inv in Hrun;
            destruct Hrun as (? & ? & _ & Hrun)).
    unfold ret in Hrun. inversion Hrun. lia.
  - exfalso.
    unfold bind at 1 in Hrun. cbn [emit] in Hrun.
    unfold bind at 1 in Hrun. cbn [getNow] in Hrun.
    unfold bind at 1 in Hrun.
    match type of Hrun with
    | context [choose ?l ?W] =>
        destruct (choose_cases l W) as (c & r & Hc & Hcase)
    end.
    rewrite Hc in Hrun.
    destruct Hcase as [[-> _] | (x & -> & Hin)]; [discriminate |].
    destruct x; try (unfold ret in Hrun; discriminate).
    + (* the write event: a second pass on the same ARQ state *)
      unfold bind at 1 in Hrun.
      erewrite modS_ok in Hrun by (cbn; exact Hs).
      match type of Hrun with
      | WriteBuffers_loop 1 sid v ?W = _ =>
          rewrite (WriteBuffers_loop_pass 0 W sid
                     (set_chWriteEvent false s) v) in Hrun;
            [| cbn; apply lookup_insert_eq | exact Hg]
      end.
      cbn [kcp set_chWriteEvent] in Hrun. rewrite Ew in Hrun.
      unfold bind at 1 in Hrun. cbn [emit] in Hrun.
      unfold bind at 1 in Hrun. cbn [getNow] in Hrun.
      unfold bind at 1 in Hrun.
      match type of Hrun with
      | context [choose ?l ?W] =>
          destruct (choose_cases l W) as (c2 & r2 & Hc2 & Hcase2)
      end.
      rewrite Hc2 in Hrun.
      destruct Hcase2 as [[-> _] | (x2 & -> & Hin2)]; [discriminate |].
      destruct x2; try (unfold ret in Hrun; discriminate).
      * unfold bind at 1 in Hrun.
        destruct (modS sid (set_chWriteEvent false) _); discriminate.
      * unfold bind, socketError, ret, panic in Hrun.
        cbn [socketWriteError set_chWriteEvent] in Hrun.
        destruct (socketWriteError s); discriminate.
    + unfold bind, socketError, ret, panic in Hrun.
      destruct (socketWriteError s); discriminate.
Qed.


(** ** The bound on the passes of [Read] and [WriteBuffers] *)

Lemma bind_ext {A B : Type} (m : M A) (k1 k2 : A -> M B) (w : World) :
  (forall a w', m w = Ret a w' -> k1 a w' = k2 a w') ->
  bind m k1 w = bind m k2 w.
Proof.
  intros H. unfold bind. destruct (m w) as [a w'| | |]; auto.
Qed.

Lemma choose_inv {A : Type} (ready : list A) (w w' : World) (c : option A) :
  choose ready w = Ret c w' ->
  c = None /\ ready = [] \/ exists x, c = Some x /\ In x ready.
Proof.
  intros H. destruct (choose_cases ready w) as (c0 & r & Hc & Hcase).
  rewrite Hc in H. injection H as -> _. exact Hcase.
Qed.

(** With the read event drained, a pass of [Read] never starts another
    one. *)
Lemma Read_loop_drained (n m : nat) (w : World) (sid : nat)
    (s : UDPSession) (dst : list byte) :
  heap w !! sid = Some s ->
  chReadEvent s = false ->
  Read_loop (S n) sid dst w = Read_loop (S m) sid dst w.
Proof.
  intros Hs Hev. cbn [Read_loop].
  apply bind_ext. intros u w1 He. unfold emit in He.
  injection He as _ Hw1.
  apply bind_ext. intros s1 w2 Hg.
  unfold getS in Hg. rewrite <- Hw1 in Hg. cbn [heap set_trace] in Hg.
  rewrite Hs in Hg. injection Hg as Hs1 Hw2. subst s1.
  destruct (0 <? length (bufptr s))%nat; [reflexivity |].
  apply bind_ext. intros size w3 _.
  destruct (0 <? size); [reflexivity |].
  apply bind_ext. intros _ w4 _.
  apply bind_ext. intros t w5 _.
  apply bind_ext. intros c w6 Hc. apply choose_inv in Hc.
  destruct Hc as [[-> _] | (x & -> & Hin)]; [reflexivity |].
  apply read_ready_In in Hin. destruct x; try reflexivity.
  congruence.
Qed.

(** In a sequential run [Read] makes at most two passes: more fuel
    changes nothing. *)
Lemma Read_loop_fuel (fuel : nat) (w : World) (sid : nat) (dst : list byte) :
  Read_loop (S (S fuel)) sid dst w = Read sid dst w.
Proof.
  unfold Read.
  cbn [Read_loop].
  apply bind_ext. intros _ w1 _.
  apply bind_ext. intros s w2 Hg.
  destruct (0 <? length (bufptr s))%nat; [reflexivity |].
  apply bind_ext. intros size w3 _.
  destruct (0 <? size); [reflexivity |].
  apply bind_ext. intros _ w4 _.
  apply bind_ext. intros t w5 _.
  apply bind_ext. intros c w6 _.
  destruct c as [[| | |]|]; try reflexivity.
  apply bind_ext. intros u w7 Hm.
  unfold modS in Hm. destruct (heap w6 !! sid) as [x|] eqn:Ex; [| discriminate].
  injection Hm as _ Hw7.
  apply (Read_loop_drained fuel 0 w7 sid (set_chReadEvent false x) dst).
  - rewrite <- Hw7. cbn. apply lookup_insert_eq.
  - reflexivity.
Qed.

Lemma write_ready_event (s : UDPSession) (t : Z) :
  In WakeEvent (write_ready s t) -> chWriteEvent s = true.
Proof.
  unfold write_ready.
  destruct (chWriteEvent s), (expired (wd s) t),
    (is_some (socketWriteError s)), (die s); cbn;
    intros H; repeat (destruct H as [H | H]); try discriminate;
    try contradiction; reflexivity.
Qed.

Lemma WriteBuffers_loop_drained (n m : nat) (w : World) (sid : nat)
    (s : UDPSession) (v : list (list byte)) :
  heap w !! sid = Some s ->
  chWriteEvent s = false ->
  WriteBuffers_loop (S n) sid v w = WriteBuffers_loop (S m) sid v w.
Proof.
  intros Hs Hev. cbn [WriteBuffers_loop].
  apply bind_ext. intros s1 w1 Hg.
  unfold getS in Hg. rewrite Hs in Hg. injection Hg as Hs1 Hw1. subst s1.
  apply bind_ext. intros c0 w2 _.
  destruct c0 as [[|]|]; try reflexivity.
  apply bind_ext. intros u w3 _.
  apply bind_ext. intros waitsnd w4 _.
  destruct (window_open (kcp s) waitsnd); [reflexivity |].
  apply bind_ext. intros u' w5 _.
  apply bind_ext. intros t w6 _.
  apply bind_ext. intros c w7 Hc. apply choose_inv in Hc.
  destruct Hc as [[-> _] | (x & -> & Hin)]; [reflexivity |].
  destruct x; try reflexivity.
  apply write_ready_event in Hin. congruence.
Qed.

(** The same bound for [WriteBuffers]. *)
Lemma WriteBuffers_loop_fuel (fuel : nat) (w : World) (sid : nat)
    (v : list (list byte)) :
  WriteBuffers_loop (S (S fuel)) sid v w = WriteBuffers sid v w.
Proof.
  unfold WriteBuffers. cbn [WriteBuffers_loop].
  apply bind_ext. intros s w1 _.
  apply bind_ext. intros c0 w2 _.
  destruct c0 as [[|]|]; try reflexivity.
  apply bind_ext. intros u w3 _.
  apply bind_ext. intros waitsnd w4 _.
  destruct (window_open (kcp s) waitsnd); [reflexivity |].
  apply bind_ext. intros u' w5 _.
  apply bind_ext. intros t w6 _.
  apply bind_ext. intros c w7 _.
  destruct c as [[| | |]|]; try reflexivity.
  apply bind_ext. intros u'' w8 Hm.
  unfold modS in Hm. destruct (heap w7 !! sid) as [x|] eqn:Ex; [| discriminate].
  injection Hm as _ Hw8.
  apply (WriteBuffers_loop_drained fuel 0 w8 sid (set_chWriteEvent false x) v).
  - rewrite <- Hw8. cbn. apply lookup_insert_eq.
  - reflexivity.
Qed.

(** ** The backlog after a write

    For an ARQ instance whose [Send] queues one segment per non-empty
    slice and keeps [mss], and whose [flush] keeps the segments it has
    not had acknowledged, a successful [Write] adds the number of
    segments of its argument to [WaitSnd], whatever the window is. *)

Section Backlog.

Hypothesis Send_WaitSnd :
  forall k b, b <> [] -> KCP_WaitSnd (KCP_Send k b) = KCP_WaitSnd k + 1.
Hypothesis Send_mss : forall k b, mss (KCP_Send k b) = mss k.
Hypothesis flush_WaitSnd :
  forall k ackOnly,
    KCP_WaitSnd (fst (fst (KCP_flush k ackOnly))) = KCP_WaitSnd k.

Lemma segments_of_last (m : Z) (b : list byte) :
  b <> [] -> Z.of_nat (length b) <= m -> segments_of m b = 1.
Proof.
  intros Hb Hle. unfold segments_of.
  assert (0 < Z.of_nat (length b)) by (destruct b; [contradiction | cbn; lia]).
  symmetry. apply (Z.div_unique _ _ 1 (Z.of_nat (length b) - 1)); lia.
Qed.

Lemma segments_of_next (m : Z) (b : list byte) :
  0 < m -> m < Z.of_nat (length b) ->
  segments_of m b = 1 + segments_of m (skipn (Z.to_nat m) b).
Proof.
  intros Hm Hlt. unfold segments_of. rewrite length_skipn.
  replace (Z.of_nat (length b) + m - 1)
    with (Z.of_nat (length b - Z.to_nat m) + m - 1 + 1 * m) by lia.
  rewrite Z.div_add by lia. lia.
Qed.

Lemma send_segments_backlog (fuel : nat) (sid : nat) (b : list byte)
    (w w' : World) (s : UDPSession) :
  heap w !! sid = Some s ->
  0 < mss (kcp s) ->
  b <> [] ->
  send_segments fuel sid b w = Ret tt w' ->
  exists k,
    heap w' = <[sid := set_kcp k s]> (heap w)
    /\ mss k = mss (kcp s)
    /\ KCP_WaitSnd k = KCP_WaitSnd (kcp s) + segments_of (mss (kcp s)) b.
Proof.
  revert b w s. induction fuel as [|fuel IH]; intros b w s Hs Hm Hb Hrun;
    [discriminate |].
  cbn [send_segments] in Hrun.
  unfold bind at 1 in Hrun. rewrite (getS_ok _ _ _ Hs) in Hrun.
  destruct (Z.of_nat (length b) <=? mss (kcp s)) eqn:E.
  - apply Z.leb_le in E. unfold kcpSend in Hrun.
    unfold bind at 1 in Hrun. rewrite (getS_ok _ _ _ Hs) in Hrun.
    unfold bind at 1 in Hrun. cbn [emit] in Hrun.
    erewrite modS_ok in Hrun by (cbn; exact Hs).
    injection Hrun as <-. exists (KCP_Send (kcp s) b). cbn.
    split; [reflexivity |]. split; [apply Send_mss |].
    rewrite Send_WaitSnd, segments_of_last by assumption. reflexivity.
  - apply Z.leb_gt in E.
    destruct (mss (kcp s) <? 0) eqn:E0; [apply Z.ltb_lt in E0; lia |].
    unfold bind at 1 in Hrun. unfold kcpSend at 1 in Hrun.
    unfold bind at 1 in Hrun. rewrite (getS_ok _ _ _ Hs) in Hrun.
    unfold bind at 1 in Hrun. cbn [emit] in Hrun.
    erewrite modS_ok in Hrun by (cbn; exact Hs).
    assert (Hhead : firstn (Z.to_nat (mss (kcp s))) b <> []).
    { intros Hnil. apply (f_equal (@length byte)) in Hnil.
      rewrite length_firstn in Hnil. cbn in Hnil. lia. }
    assert (Htail : skipn (Z.to_nat (mss (kcp s))) b <> []).
    { intros Hnil. apply (f_equal (@length byte)) in Hnil.
      rewrite length_skipn in Hnil. cbn in Hnil. lia. }
    apply IH with (s := set_kcp (KCP_Send (kcp s)
                                   (firstn (Z.to_nat (mss (kcp s))) b)) s)
      in Hrun;
      [| cbn; apply lookup_insert_eq | cbn; rewrite Send_mss; exact Hm
       | exact Htail].
    destruct Hrun as (k & Hh & Hk & Hw). exists k.
    cbn in Hh, Hk, Hw. rewrite insert_insert_eq in Hh.
    rewrite Send_mss in Hk, Hw. rewrite Send_WaitSnd in Hw by exact Hhead.
    split; [exact Hh |]. split; [exact Hk |].
    rewrite Hw, (segments_of_next (mss (kcp s)) b) by lia. lia.
Qed.

Lemma output_keeps_kcp (sid : nat) (buf : list byte) (size : Z)
    (w w' : World) (s : UDPSession) :
  heap w !! sid = Some s ->
  output sid buf size w = Ret tt w' ->
  exists s', heap w' !! sid = Some s' /\ kcp s' = kcp s.
Proof.
  intros Hs Hrun. unfold output in Hrun.
  destruct (Z.of_nat IKCP_OVERHEAD <=? size).
  - unfold bind at 1 in Hrun. rewrite (getS_ok _ _ _ Hs) in Hrun.
    apply bind_Ret_inv in Hrun. destruct Hrun as (bts & w1 & Hg & Hrun).
    unfold xmitBuf_Get in Hg.
    destruct (Z.of_nat (Z.to_nat size + headerSize s) <=? mtuLimit);
      [| discriminate].
    injection Hg as _ <-.
    apply bind_Ret_inv in Hrun. destruct Hrun as (c & w2 & Hc & Hrun).
    match type of Hc with
    | choose ?l w = _ => destruct (choose_cases l w) as (c0 & r & Hc0 & _)
    end.
    rewrite Hc0 in Hc. injection Hc as <- <-.
    destruct c0 as [[|]|]; [| | discriminate].
    + erewrite modS_ok in Hrun by (cbn; exact Hs). injection Hrun as <-.
      eexists. cbn. rewrite lookup_insert_eq. split; reflexivity.
    + injection Hrun as <-. exists s. auto.
  - injection Hrun as <-. exists s. auto.
Qed.

Lemma outputs_keep_kcp (sid : nat) (outs : list (list byte * Z))
    (w w' : World) (s : UDPSession) :
  heap w !! sid = Some s ->
  forM_ outs (fun o => output sid (fst o) (snd o)) w = Ret tt w' ->
  exists s', heap w' !! sid = Some s' /\ kcp s' = kcp s.
Proof.
  revert w s. induction outs as [|o outs IH]; intros w s Hs Hrun.
  - injection Hrun as <-. exists s. auto.
  - cbn [forM_] in Hrun. apply bind_Ret_inv in Hrun.
    destruct Hrun as ([] & w1 & Ho & Hrun).
    destruct (output_keeps_kcp sid _ _ w w1 s Hs Ho) as (s1 & Hs1 & Hk1).
    destruct (IH w1 s1 Hs1 Hrun) as (s' & Hs' & Hk').
    exists s'. split; [exact Hs' | congruence].
Qed.

Lemma kcpFlush_backlog (sid : nat) (ackOnly : bool) (w w' : World)
    (s : UDPSession) (interval : Z) :
  heap w !! sid = Some s ->
  kcpFlush sid ackOnly w = Ret interval w' ->
  exists s',
    heap w' !! sid = Some s' /\ KCP_WaitSnd (kcp s') = KCP_WaitSnd (kcp s).
Proof.
  intros Hs Hrun. unfold kcpFlush in Hrun.
  unfold bind at 1 in Hrun. rewrite (getS_ok _ _ _ Hs) in Hrun.
  unfold bind at 1 in Hrun. cbn [emit] in Hrun.
  pose proof (flush_WaitSnd (kcp s) ackOnly) as Hf.
  destruct (KCP_flush (kcp s) ackOnly) as [[k iv] outs].
  unfold bind at 1 in Hrun. erewrite modS_ok in Hrun by (cbn; exact Hs).
  apply bind_Ret_inv in Hrun. destruct Hrun as ([] & w1 & Ho & Hrun).
  injection Hrun as _ <-.
  eapply (outputs_keep_kcp sid outs _ w1 (set_kcp k s)) in Ho;
    [| cbn; apply lookup_insert_eq].
  destruct Ho as (s' & Hs' & Hk).
  exists s'. split; [exact Hs' |]. rewrite Hk. exact Hf.
Qed.

(** A successful [Write] of a non-empty slice leaves
    [WaitSnd = WaitSnd at the check + number of segments]. *)
Lemma Write_backlog (w w' : World) (sid : nat) (s : UDPSession)
    (b : list byte) (n : Z) :
  heap w !! sid = Some s ->
  0 < mss (kcp s) ->
  b <> [] ->
  Write sid b w = Ret (n, None) w' ->
  exists s',
    heap w' !! sid = Some s'
    /\ KCP_WaitSnd (kcp s')
       = KCP_WaitSnd (kcp s) + segments_of (mss (kcp s)) b.
Proof.
  intros Hs Hm Hb Hrun. unfold Write, WriteBuffers in Hrun.
  destruct (write_guard s) as [|g gs] eqn:Hg.
  2:{ exfalso. eapply (WriteBuffers_loop_guarded 1 w sid s); eauto.
      rewrite Hg. discriminate. }
  assert (Hopen : forall fuel W x,
    heap W !! sid = Some x -> kcp x = kcp s -> write_guard x = [] ->
    window_open (kcp s) (KCP_WaitSnd (kcp s)) = true ->
    WriteBuffers_loop (S fuel) sid [b] W = Ret (n, None) w' ->
    exists s',
      heap w' !! sid = Some s'
      /\ KCP_WaitSnd (kcp s')
         = KCP_WaitSnd (kcp s) + segments_of (mss (kcp s)) b).
  { intros fuel W x Hx Hk Hgx Hw Hr.
    rewrite (WriteBuffers_loop_pass fuel W sid x [b] Hx Hgx) in Hr.
    rewrite Hk, Hw in Hr.
    apply bind_Ret_inv in Hr. destruct Hr as (n1 & w1 & Hsend & Hr).
    cbn [send_slices] in Hsend. apply bind_Ret_inv in Hsend.
    destruct Hsend as ([] & w2 & Hseg & Hret). injection Hret as _ <-.
    apply send_segments_backlog with (s := x) in Hseg;
      [| cbn; exact Hx | rewrite Hk; exact Hm | exact Hb].
    destruct Hseg as (k & Hh & _ & Hwait). rewrite Hk in Hwait.
    assert (H2 : heap w2 !! sid = Some (set_kcp k x))
      by (rewrite Hh; apply lookup_insert_eq).
    unfold kcpWaitSnd in Hr.
    unfold bind at 1 in Hr. unfold bind at 1 in Hr.
    rewrite (getS_ok _ _ _ H2) in Hr.
    unfold bind at 1 in Hr. cbn [emit ret] in Hr.
    unfold bind at 1 in Hr. erewrite getS_ok in Hr by (cbn; exact H2).
    apply bind_Ret_inv in Hr. destruct Hr as ([] & w3 & Hfl & Hr).
    assert (H3 : exists s3, heap w3 !! sid = Some s3
                            /\ KCP_WaitSnd (kcp s3) = KCP_WaitSnd k).
    { unfold when_ in Hfl.
      destruct (negb _ || negb _).
      - apply bind_Ret_inv in Hfl. destruct Hfl as (iv & w4 & Hfl & Hret).
        injection Hret as <-.
        eapply kcpFlush_backlog in Hfl; [| cbn; exact H2]. exact Hfl.
      - injection Hfl as <-. exists (set_kcp k x). cbn. auto. }
    destruct H3 as (s3 & Hs3 & Hw3).
    unfold bind, emit, modSnmp, ret in Hr. injection Hr as _ Hw'.
    rewrite <- Hw'.
    exists s3. cbn. split; [exact Hs3 | congruence]. }
  destruct (window_open (kcp s) (KCP_WaitSnd (kcp s))) eqn:Ew.
  - apply (Hopen 1%nat w s); auto.
  - exfalso.
    destruct (WriteBuffers_returns_open w w' sid s [b] n Hs Hrun)
      as (Hlt & _).
    unfold window_open in Ew. apply andb_false_iff in Ew.
    destruct Ew as [E | E]; apply Z.ltb_ge in E; lia.
Qed.

End Backlog.

End Properties.

(** * The other methods

    Properties of the code that the sections above leave out. *)

(** ** The codec and the checksum *)

Lemma byte_to_of_Z (z : Z) : byte_to_Z (byte_of_Z z) = z mod 256.
Proof.
  unfold byte_to_Z, byte_of_Z.
  assert (Hr : 0 <= z mod 256 < 256) by (apply Z.mod_pos_bound; lia).
  destruct (Byte.of_N (Z.to_N (z mod 256))) as [b|] eqn:E.
  - apply Byte.to_of_N in E. rewrite E. apply Z2N.id. lia.
  - apply Byte.of_N_None_iff in E. lia.
Qed.

Lemma byte_to_Z_range (b : byte) : 0 <= byte_to_Z b < 256.
Proof.
  unfold byte_to_Z.
  pose proof (Byte.to_N_bounded b). lia.
Qed.

Lemma Uint32_le32 (v : Z) (rest : list byte) :
  Uint32 (le32 v ++ rest) = Some (v mod 2 ^ 32).
Proof.
  unfold le32. cbn [app Uint32]. f_equal.
  rewrite !byte_to_of_Z.
  apply Z.bits_inj'. intros n Hn.
  change 256 with (2 ^ 8).
  rewrite !Z.lor_spec, !Z.shiftl_spec, !Z.testbit_mod_pow2 by lia.
  destruct (Z.ltb_spec n 8).
  { rewrite (Z.testbit_neg_r _ (n - 8)), (Z.testbit_neg_r _ (n - 16)),
      (Z.testbit_neg_r _ (n - 24)) by lia.
    rewrite !andb_false_r, !orb_false_r.
    destruct (Z.ltb_spec n 32); [reflexivity | lia]. }
  destruct (Z.ltb_spec n 16).
  { rewrite (Z.testbit_neg_r _ (n - 16)), (Z.testbit_neg_r _ (n - 24)) by lia.
    rewrite !andb_false_r, !orb_false_r. cbn [orb andb].
    rewrite Z.shiftr_spec by lia.
    replace (n - 8 + 8) with n by lia.
    destruct (Z.ltb_spec (n - 8) 8); [| lia].
    destruct (Z.ltb_spec n 32); [reflexivity | lia]. }
  destruct (Z.ltb_spec n 24).
  { rewrite (Z.testbit_neg_r _ (n - 24)) by lia.
    rewrite !andb_false_r, !orb_false_r. cbn [orb andb].
    rewrite !Z.shiftr_spec by lia.
    replace (n - 16 + 16) with n by lia.
    destruct (Z.ltb_spec (n - 8) 8); [lia |].
    destruct (Z.ltb_spec (n - 16) 8); [| lia].
    destruct (Z.ltb_spec n 32); [reflexivity | lia]. }
  cbn [orb andb].
  rewrite !Z.shiftr_spec by lia.
  replace (n - 24 + 24) with n by lia.
  destruct (Z.ltb_spec (n - 8) 8); [lia |].
  destruct (Z.ltb_spec (n - 16) 8); [lia |].
  cbn [orb andb].
  destruct (Z.ltb_spec (n - 24) 8); destruct (Z.ltb_spec n 32);
    try reflexivity; lia.
Qed.

Lemma lxor_range32 (a b : Z) :
  0 <= a < 2 ^ 32 -> 0 <= b < 2 ^ 32 -> 0 <= Z.lxor a b < 2 ^ 32.
Proof.
  intros Ha Hb.
  assert (H0 : 0 <= Z.lxor a b) by (apply Z.lxor_nonneg; lia).
  split; [exact H0 |].
  destruct (Z.eq_dec (Z.lxor a b) 0) as [E | E]; [rewrite E; lia |].
  apply Z.log2_lt_pow2; [lia |].
  assert (La : Z.log2 a < 32).
  { destruct (Z.eq_dec a 0) as [-> | ?]; [cbn; lia |].
    apply Z.log2_lt_pow2; lia. }
  assert (Lb : Z.log2 b < 32).
  { destruct (Z.eq_dec b 0) as [-> | ?]; [cbn; lia |].
    apply Z.log2_lt_pow2; lia. }
  pose proof (Z.log2_lxor a b ltac:(lia) ltac:(lia)). lia.
Qed.

Lemma crc_shift_range (c : Z) : 0 <= c < 2 ^ 32 -> 0 <= crc_shift c < 2 ^ 32.
Proof.
  intros Hc. unfold crc_shift.
  assert (Hs : 0 <= Z.shiftr c 1 < 2 ^ 32).
  { rewrite Z.shiftr_div_pow2 by lia. change (2 ^ 1) with 2.
    split; [apply Z.div_pos; lia |].
    apply Z.div_lt_upper_bound; lia. }
  destruct (Z.testbit c 0); [| exact Hs].
  apply lxor_range32; [exact Hs | lia].
Qed.

Lemma crc_update_range (c : Z) (b : byte) :
  0 <= c < 2 ^ 32 -> 0 <= crc_update c b < 2 ^ 32.
Proof.
  intros Hc. unfold crc_update.
  assert (H : 0 <= Z.lxor c (byte_to_Z b) < 2 ^ 32).
  { apply lxor_range32; [exact Hc |]. pose proof (byte_to_Z_range b). lia. }
  cbn [Nat.iter nat_rect].
  repeat apply crc_shift_range. exact H.
Qed.

Lemma ChecksumIEEE_range (data : list byte) :
  0 <= ChecksumIEEE data < 2 ^ 32.
Proof.
  unfold ChecksumIEEE.
  apply lxor_range32; [| lia].
  assert (H : 0 <= 0xFFFFFFFF < 2 ^ 32) by lia.
  revert H. generalize 0xFFFFFFFF.
  induction data as [| b data IH]; intros c Hc; [exact Hc |].
  cbn [fold_left]. apply IH. apply crc_update_range. exact Hc.
Qed.

(** ** Frames *)

Create HintDb keeps.

Section Keeps.
Context {ext : Externals}.

Context (R : World -> World -> Prop) (HR : Frame R).

Lemma keeps_ret {A : Type} (a : A) : keeps R (ret a).
Proof. intros w a' w' H. injection H as _ <-. apply (frame_refl R HR). Qed.

Lemma keeps_bind {A B : Type} (m : M A) (k : A -> M B) :
  keeps R m -> (forall a, keeps R (k a)) -> keeps R (bind m k).
Proof.
  intros Hm Hk w b w' H. apply bind_Ret_inv in H.
  destruct H as (a & w1 & H1 & H2).
  eapply (frame_trans R HR); [eapply Hm | eapply Hk]; eassumption.
Qed.

Lemma keeps_panic {A : Type} : keeps R (@panic ext A).
Proof. intros w a w' H. discriminate H. Qed.

Lemma keeps_blocks {A : Type} : keeps R (@blocks ext A).
Proof. intros w a w' H. discriminate H. Qed.

Lemma keeps_loops {A : Type} : keeps R (@loops ext A).
Proof. intros w a w' H. discriminate H. Qed.

Lemma keeps_inrange {A : Type} (o : option A) : keeps R (inrange o).
Proof. destruct o; [apply keeps_ret | apply keeps_panic]. Qed.

Lemma keeps_socketError (o : option error) : keeps R (socketError o).
Proof. destruct o; [apply keeps_ret | apply keeps_panic]. Qed.

Lemma keeps_getS (sid : nat) : keeps R (getS sid).
Proof.
  intros w a w' H. unfold getS in H.
  destruct (heap w !! sid); [| discriminate]. injection H as _ <-.
  apply (frame_refl R HR).
Qed.

Lemma keeps_getL : keeps R getL.
Proof. intros w a w' H. injection H as _ <-. apply (frame_refl R HR). Qed.

Lemma keeps_getNow : keeps R getNow.
Proof. intros w a w' H. injection H as _ <-. apply (frame_refl R HR). Qed.

Lemma keeps_xmitBuf_Get (n : nat) : keeps R (xmitBuf_Get n).
Proof.
  unfold xmitBuf_Get. destruct (_ <=? _); [apply keeps_ret | apply keeps_panic].
Qed.

Lemma keeps_when (b : bool) (m : M unit) : keeps R m -> keeps R (when_ b m).
Proof. intros H. destruct b; [exact H | apply keeps_ret]. Qed.


Lemma keeps_forM_ {A : Type} (xs : list A) (body : A -> M unit) :
  (forall x, keeps R (body x)) -> keeps R (forM_ xs body).
Proof.
  intros H. induction xs as [| x xs IH]; cbn [forM_].
  - apply keeps_ret.
  - apply keeps_bind; [apply H | intros _; exact IH].
Qed.

Lemma keeps_foldM {A B : Type} (xs : list A) (acc : B)
    (body : B -> A -> M B) :
  (forall b x, keeps R (body b x)) -> keeps R (foldM xs acc body).
Proof.
  intros H. revert acc. induction xs as [| x xs IH]; intros acc; cbn [foldM].
  - apply keeps_ret.
  - apply keeps_bind; [apply H | intros b; apply IH].
Qed.

Lemma keeps_mapM {A B : Type} (f : A -> M B) (xs : list A) :
  (forall x, keeps R (f x)) -> keeps R (mapM f xs).
Proof.
  intros H. induction xs as [| x xs IH]; cbn [mapM].
  - apply keeps_ret.
  - apply keeps_bind; [apply H | intros y].
    apply keeps_bind; [exact IH | intros ys; apply keeps_ret].
Qed.

Lemma keeps_draw : keeps R draw.
Proof. intros w a w' H. injection H as _ <-. apply (frame_rand R HR). Qed.

Lemma keeps_choose {A : Type} (ready : list A) : keeps R (choose ready).
Proof.
  intros w c w' H.
  destruct (choose_cases ready w) as (c' & r & Hc & _).
  rewrite Hc in H. injection H as _ <-. apply (frame_rand R HR).
Qed.

End Keeps.

#[export] Hint Resolve keeps_ret keeps_panic keeps_blocks keeps_loops
  keeps_inrange keeps_socketError keeps_getS keeps_getL keeps_getNow
  keeps_xmitBuf_Get keeps_draw keeps_choose : keeps.

Ltac keeps_step :=
  match goal with
  | |- keeps _ (bind _ _) =>
      apply keeps_bind; [solve [auto with keeps] | | intros ?]
  | |- keeps _ (if ?b then _ else _) => destruct b
  | |- keeps _ (match ?x with _ => _ end) => destruct x
  | |- keeps _ (forM_ _ _) =>
      apply keeps_forM_; [solve [auto with keeps] | intros ?]
  | |- keeps _ (foldM _ _ _) =>
      apply keeps_foldM; [solve [auto with keeps] | intros ? ?]
  | |- keeps _ (mapM _ _) =>
      apply keeps_mapM; [solve [auto with keeps] | intros ?]
  | |- keeps _ (when_ _ _) => apply keeps_when; [solve [auto with keeps] |]
  | |- keeps _ _ => solve [auto with keeps]
  end.

Ltac keeps_tac := repeat keeps_step.

Section TraceFrames.
Context {ext : Externals}.

(** The log is left as it was. *)
Lemma same_trace_frame : Frame (fun w w' => trace w' = trace w).
Proof.
  split; [reflexivity | intros a b c H1 H2; congruence | reflexivity].
Qed.

#[local] Hint Resolve same_trace_frame : keeps.

Lemma keeps_trace_modS (sid : nat) (f : UDPSession -> UDPSession) :
  keeps (fun w w' => trace w' = trace w) (modS sid f).
Proof.
  intros w a w' H. unfold modS in H.
  destruct (heap w !! sid); [| discriminate]. injection H as _ <-.
  reflexivity.
Qed.

Lemma keeps_trace_modSnmp (f : Snmp -> Snmp) :
  keeps (fun w w' => trace w' = trace w) (modSnmp f).
Proof. intros w a w' H. injection H as _ <-. reflexivity. Qed.

Lemma keeps_trace_modL (f : Listener -> Listener) :
  keeps (fun w w' => trace w' = trace w) (modL f).
Proof. intros w a w' H. injection H as _ <-. reflexivity. Qed.

Lemma output_trace (sid : nat) (buf : list byte) (size : Z) :
  keeps (fun w w' => trace w' = trace w) (output sid buf size).
Proof.
  unfold output. keeps_tac. apply keeps_trace_modS.
Qed.

Lemma kcpFlush_trace (sid : nat) (ackOnly : bool) (w w' : World)
    (interval : Z) :
  kcpFlush sid ackOnly w = Ret interval w' ->
  trace w' = trace w ++ [EvKCP sid (CallFlush ackOnly)].
Proof.
  intros H. unfold kcpFlush in H.
  apply bind_Ret_inv in H. destruct H as (s & w1 & Hg & H).
  apply (keeps_getS _ same_trace_frame) in Hg.
  apply bind_Ret_inv in H. destruct H as ([] & w2 & He & H).
  injection He as <-.
  destruct (KCP_flush (kcp s) ackOnly) as [[k iv] outs].
  apply bind_Ret_inv in H. destruct H as ([] & w3 & Hm & H).
  apply keeps_trace_modS in Hm.
  apply bind_Ret_inv in H. destruct H as ([] & w4 & Ho & H).
  injection H as _ <-.
  apply (keeps_forM_ _ same_trace_frame) in Ho;
    [| intros o; apply output_trace].
  rewrite Ho, Hm. cbn. rewrite Hg. reflexivity.
Qed.

End TraceFrames.

Section Writes.
Context {ext : Externals}.
Context (R : World -> World -> Prop) (HR : Frame R).

Lemma keeps_modS (sid : nat) (f : UDPSession -> UDPSession) :
  ignores_heap R -> keeps R (modS sid f).
Proof.
  intros Hi w a w' H. unfold modS in H.
  destruct (heap w !! sid); [| discriminate]. injection H as _ <-.
  apply Hi.
Qed.

Lemma keeps_alloc (s : UDPSession) : ignores_heap R -> keeps R (alloc s).
Proof. intros Hi w a w' H. injection H as _ <-. apply Hi. Qed.

Lemma keeps_emit (e : Event) : ignores_trace R -> keeps R (emit e).
Proof. intros Hi w a w' H. injection H as _ <-. apply Hi. Qed.

Lemma keeps_modSnmp (f : Snmp -> Snmp) : ignores_snmp R -> keeps R (modSnmp f).
Proof. intros Hi w a w' H. injection H as _ <-. apply Hi. Qed.

Lemma keeps_modL (f : Listener -> Listener) :
  ignores_listener R -> keeps R (modL f).
Proof. intros Hi w a w' H. injection H as _ <-. apply Hi. Qed.

Lemma keeps_connClose (c : nat) :
  ignores_trace R -> ignores_socks R -> keeps R (connClose c).
Proof.
  intros Ht Hs w a w' H. unfold connClose in H.
  destruct (socks w !! c) as [pc|]; [| discriminate].
  destruct (PacketConn_Close pc). injection H as _ <-.
  eapply (frame_trans R HR); [apply Hs | apply Ht].
Qed.

End Writes.

#[export] Hint Resolve keeps_modS keeps_alloc keeps_emit keeps_modSnmp
  keeps_modL keeps_connClose : keeps.

(** ** The code of a session writes the heap, the log and the counters *)

Section SessionCode.
Context {ext : Externals}.
Context (R : World -> World -> Prop) (HR : Frame R).
Context (Hh : ignores_heap R) (Ht : ignores_trace R) (Hc : ignores_snmp R).

Lemma keeps_kcpWaitSnd (sid : nat) : keeps R (kcpWaitSnd sid).
Proof. unfold kcpWaitSnd. keeps_tac. Qed.

Lemma keeps_kcpPeekSize (sid : nat) : keeps R (kcpPeekSize sid).
Proof. unfold kcpPeekSize. keeps_tac. Qed.

Lemma keeps_kcpRecv (sid : nat) (n : nat) : keeps R (kcpRecv sid n).
Proof. unfold kcpRecv. keeps_tac. Qed.

Lemma keeps_kcpSend (sid : nat) (b : list byte) : keeps R (kcpSend sid b).
Proof. unfold kcpSend. keeps_tac. Qed.

Lemma keeps_kcpInput_call (sid : nat) (data : list byte) (r a : bool) :
  keeps R (kcpInput_call sid data r a).
Proof. unfold kcpInput_call. keeps_tac. Qed.

Lemma keeps_notifyReadEvent (sid : nat) : keeps R (notifyReadEvent sid).
Proof. unfold notifyReadEvent. keeps_tac. Qed.

Lemma keeps_notifyWriteEvent (sid : nat) : keeps R (notifyWriteEvent sid).
Proof. unfold notifyWriteEvent. keeps_tac. Qed.

Lemma keeps_output (sid : nat) (buf : list byte) (size : Z) :
  keeps R (output sid buf size).
Proof. unfold output. keeps_tac. Qed.

Lemma keeps_kcpFlush (sid : nat) (ackOnly : bool) :
  keeps R (kcpFlush sid ackOnly).
Proof. unfold kcpFlush. keeps_tac. apply keeps_output. Qed.

Lemma keeps_notifyAfterInput (sid : nat) : keeps R (notifyAfterInput sid).
Proof.
  pose proof keeps_kcpPeekSize. pose proof keeps_kcpWaitSnd.
  pose proof keeps_notifyReadEvent. pose proof keeps_notifyWriteEvent.
  unfold notifyAfterInput. keeps_tac.
Qed.

Lemma keeps_kcpInput (sid : nat) (data : list byte) :
  keeps R (kcpInput sid data).
Proof.
  pose proof keeps_kcpInput_call. pose proof keeps_notifyAfterInput.
  unfold kcpInput, fecPacket_flag. keeps_tac.
Qed.

Lemma keeps_packetInput_decrypt (blk : option BlockCrypt)
    (data : list byte) :
  keeps R (packetInput_decrypt blk data).
Proof. unfold packetInput_decrypt. keeps_tac. Qed.

Lemma keeps_newUDPSession (c ds ps : Z) (l : bool) (cn : nat) (own : bool)
    (rem : string) (blk : option BlockCrypt) :
  keeps R (newUDPSession c ds ps l cn own rem blk).
Proof. unfold newUDPSession. keeps_tac. Qed.

Lemma keeps_seal (sid : nat) (blk : BlockCrypt) (buf : list byte) :
  keeps R (seal sid blk buf).
Proof. unfold seal. keeps_tac. Qed.

Lemma keeps_postProcess_buf (sid : nat) (buf : list byte) (p : PostProcess) :
  keeps R (postProcess_buf sid buf p).
Proof.
  pose proof keeps_seal.
  unfold postProcess_buf. keeps_tac.
Qed.

End SessionCode.

#[export] Hint Resolve keeps_kcpWaitSnd keeps_kcpPeekSize keeps_kcpRecv
  keeps_kcpSend keeps_kcpInput_call keeps_notifyReadEvent
  keeps_notifyWriteEvent keeps_output keeps_kcpFlush keeps_notifyAfterInput
  keeps_kcpInput keeps_packetInput_decrypt keeps_newUDPSession keeps_seal
  keeps_postProcess_buf : keeps.

Lemma keeps_weaken {ext : Externals} {A : Type}
    (R1 R2 : World -> World -> Prop) (m : M A) :
  (forall w w', R1 w w' -> R2 w w') -> keeps R1 m -> keeps R2 m.
Proof. intros H Hm w a w' Hrun. apply H. eapply Hm. exact Hrun. Qed.

Section Wire.
Context {ext : Externals}.

(** ** The output callback and the way to the wire *)

Lemma crypto_plain_opens (filled buf : list byte) :
  (cryptHeaderSize <= length buf)%nat ->
  let plain := crypto_plain filled buf in
  slice_from nonceSize plain
  = Some (le32 (ChecksumIEEE (skipn cryptHeaderSize buf))
          ++ skipn cryptHeaderSize buf)
  /\ slice_from crcSize (le32 (ChecksumIEEE (skipn cryptHeaderSize buf))
                         ++ skipn cryptHeaderSize buf)
     = Some (skipn cryptHeaderSize buf).
Proof.
  intros Hlen plain. subst plain. unfold crypto_plain.
  assert (Hh : length (copy (firstn nonceSize buf) filled) = nonceSize).
  { rewrite copy_length, length_firstn. unfold cryptHeaderSize in Hlen. lia. }
  split.
  - rewrite slice_from_ok by (rewrite length_app; lia).
    f_equal. rewrite skipn_app, Hh, Nat.sub_diag.
    rewrite skipn_all2 by lia. reflexivity.
  - rewrite slice_from_ok by (rewrite length_app, le32_length; unfold crcSize; lia).
    reflexivity.
Qed.

(** What [seal] produces, [packetInput] opens: under a cipher whose
    [Decrypt] undoes [Encrypt] on buffers of this length. *)
Lemma seal_opens (w w2 : World) (sid : nat) (s : UDPSession)
    (blk : BlockCrypt) (buf : list byte) :
  heap w !! sid = Some s ->
  (cryptHeaderSize <= length buf)%nat ->
  (forall x, length x = length buf ->
             length (Encrypt blk x) = length x
             /\ Decrypt blk (Encrypt blk x) = x) ->
  let plain := crypto_plain (snd (Entropy_Fill (nonce s))) buf in
  seal sid blk buf w
  = Ret (Encrypt blk plain)
        (set_trace (trace w ++ [EvEncrypt plain])
           (set_heap
              (<[sid := set_nonce (fst (Entropy_Fill (nonce s))) s]> (heap w))
              w))
  /\ length (Encrypt blk plain) = length buf
  /\ packetInput_decrypt (Some blk) (Encrypt blk plain) w2
     = Ret (true, skipn cryptHeaderSize buf)
           (set_trace (trace w2 ++ [EvDecrypt (Encrypt blk plain)]) w2).
Proof.
  intros Hs Hlen Hblk plain.
  pose proof (seal_ok w sid s blk buf Hs Hlen) as Hseal. cbn zeta in Hseal.
  fold plain in Hseal.
  assert (Hpl : length plain = length buf)
    by (apply crypto_plain_length; exact Hlen).
  destruct (Hblk plain Hpl) as [Henc Hdec].
  assert (Hpkt : copy plain (Encrypt blk plain) = Encrypt blk plain).
  { rewrite copy_short by lia. rewrite <- Henc. apply firstn_all. }
  rewrite Hpkt in Hseal.
  split; [exact Hseal |]. split; [lia |].
  unfold packetInput_decrypt.
  replace (cryptHeaderSize <=? length (Encrypt blk plain))%nat with true
    by (symmetry; apply Nat.leb_le; lia).
  rewrite Hdec.
  assert (Hcp : copy (Encrypt blk plain) plain = plain).
  { rewrite copy_short by lia. rewrite Henc. apply firstn_all. }
  rewrite Hcp.
  destruct (crypto_plain_opens (snd (Entropy_Fill (nonce s))) buf Hlen)
    as [H1 H2].
  fold plain in H1.
  unfold bind at 1. cbn [emit].
  unfold bind at 1. rewrite H1. cbn [inrange]. unfold ret at 1.
  unfold bind at 1. rewrite H2. cbn [inrange]. unfold ret at 1.
  unfold bind at 1. rewrite Uint32_le32. cbn [inrange]. unfold ret at 1.
  rewrite Z.mod_small by (apply ChecksumIEEE_range).
  rewrite Z.eqb_refl. reflexivity.
Qed.

(** X1.  Round trip of the crypto frame.  Under a cipher whose
    [Decrypt] undoes [Encrypt] on buffers of this length, the datagram
    that [seal] (lines 637-640 of [postProcess]) makes of a buffer passes
    the checksum test of [packetInput], which yields the bytes of the
    buffer from offset 20; the [packetInput] of a session hands them to
    [kcpInput] when they hold a full ARQ header and drops them
    otherwise. *)
Theorem sealed_datagram_opens (w : World) (sid : nat) (s : UDPSession)
    (blk : BlockCrypt) (buf : list byte) :
  heap w !! sid = Some s ->
  (cryptHeaderSize <= length buf)%nat ->
  (forall x, length x = length buf ->
             length (Encrypt blk x) = length x
             /\ Decrypt blk (Encrypt blk x) = x) ->
  exists pkt w1,
    seal sid blk buf w = Ret pkt w1
    /\ length pkt = length buf
    /\ (forall w2,
          packetInput_decrypt (Some blk) pkt w2
          = Ret (true, skipn cryptHeaderSize buf)
                (set_trace (trace w2 ++ [EvDecrypt pkt]) w2))
    /\ (forall w2 sid2 s2,
          heap w2 !! sid2 = Some s2 ->
          block s2 = Some blk ->
          UDPSession_packetInput sid2 pkt w2
          = if (IKCP_OVERHEAD <=? length buf - cryptHeaderSize)%nat
            then kcpInput sid2 (skipn cryptHeaderSize buf)
                   (set_trace (trace w2 ++ [EvDecrypt pkt]) w2)
            else Ret tt (set_trace (trace w2 ++ [EvDecrypt pkt]) w2)).
Proof.
  intros Hs Hlen Hblk.
  destruct (seal_opens w w sid s blk buf Hs Hlen Hblk) as (Hseal & Hl & _).
  eexists _, _. split; [exact Hseal |]. split; [exact Hl |].
  split.
  - intros w2. apply (seal_opens w w2 sid s blk buf Hs Hlen Hblk).
  - intros w2 sid2 s2 Hs2 Hb2.
    destruct (seal_opens w w2 sid s blk buf Hs Hlen Hblk) as (_ & _ & Hopen).
    unfold UDPSession_packetInput.
    unfold bind at 1. rewrite (getS_ok _ _ _ Hs2). rewrite Hb2.
    unfold bind at 1. rewrite Hopen. cbn [andb].
    rewrite length_skipn.
    destruct (IKCP_OVERHEAD <=? length buf - cryptHeaderSize)%nat;
      reflexivity.
Qed.

Lemma output_queues (w : World) (sid : nat) (s : UDPSession)
    (buf : list byte) (size : Z) :
  heap w !! sid = Some s ->
  Z.of_nat IKCP_OVERHEAD <= size ->
  size + Z.of_nat (headerSize s) <= mtuLimit ->
  die s = false ->
  (length (chPostProcessing s) < acceptBacklog)%nat ->
  let bts := repeat Byte.x00 (headerSize s)
             ++ copy (repeat Byte.x00 (Z.to_nat size)) buf in
  output sid buf size w
  = Ret tt (set_heap
              (<[sid := set_chPostProcessing (chPostProcessing s ++ [bts]) s]>
                 (heap w)) w).
Proof.
  intros Hs Hsz Hfit Hd Hq bts. unfold output.
  replace (Z.of_nat IKCP_OVERHEAD <=? size) with true
    by (symmetry; apply Z.leb_le; exact Hsz).
  unfold bind at 1. rewrite (getS_ok _ _ _ Hs).
  unfold bind at 1. rewrite xmitBuf_Get_ok by lia.
  replace (length (chPostProcessing s) <? acceptBacklog)%nat with true
    by (symmetry; apply Nat.ltb_lt; exact Hq).
  rewrite Hd. cbn [app choose]. unfold bind at 1. unfold ret at 1.
  rewrite (modS_ok _ _ _ _ Hs). do 3 f_equal.
  subst bts. rewrite Nat.add_comm, repeat_app.
  rewrite firstn_app, firstn_all2 by (rewrite repeat_length; lia).
  rewrite repeat_length, Nat.sub_diag, firstn_O, app_nil_r.
  rewrite skipn_app, skipn_all2 by (rewrite repeat_length; lia).
  rewrite repeat_length, Nat.sub_diag, skipn_O. reflexivity.
Qed.

(** X2.  The output callback.  A segment shorter than the ARQ
    header is skipped.  A segment that, with the header reserved in
    front, exceeds a pool buffer of [mtuLimit] bytes makes the slice
    expression panic.  Otherwise, on an open session, the callback waits
    while the queue of the post-processor is full, and else queues one
    buffer of [size + headerSize] bytes whose bytes from offset
    [headerSize] are the segment. *)
Theorem output_reserves_header (w : World) (sid : nat) (s : UDPSession)
    (buf : list byte) (size : Z) :
  heap w !! sid = Some s ->
  (size < Z.of_nat IKCP_OVERHEAD -> output sid buf size w = Ret tt w)
  /\ (Z.of_nat IKCP_OVERHEAD <= size ->
      mtuLimit < size + Z.of_nat (headerSize s) ->
      output sid buf size w = Panic)
  /\ (Z.of_nat IKCP_OVERHEAD <= size ->
      size + Z.of_nat (headerSize s) <= mtuLimit ->
      die s = false ->
      ((acceptBacklog <= length (chPostProcessing s))%nat ->
       output sid buf size w = Blocks)
      /\ ((length (chPostProcessing s) < acceptBacklog)%nat ->
          exists bts,
            output sid buf size w
            = Ret tt
                (set_heap
                   (<[sid := set_chPostProcessing
                               (chPostProcessing s ++ [bts]) s]> (heap w)) w)
            /\ length bts = (Z.to_nat size + headerSize s)%nat
            /\ (Z.of_nat (length buf) = size ->
                skipn (headerSize s) bts = buf))).
Proof.
  intros Hs. split; [| split].
  - intros Hlt. unfold output.
    replace (Z.of_nat IKCP_OVERHEAD <=? size) with false
      by (symmetry; apply Z.leb_gt; exact Hlt).
    reflexivity.
  - intros Hsz Hbig. unfold output.
    replace (Z.of_nat IKCP_OVERHEAD <=? size) with true
      by (symmetry; apply Z.leb_le; exact Hsz).
    unfold bind at 1. rewrite (getS_ok _ _ _ Hs).
    unfold bind at 1. unfold xmitBuf_Get.
    replace (Z.of_nat (Z.to_nat size + headerSize s) <=? mtuLimit) with false
      by (symmetry; apply Z.leb_gt; lia).
    reflexivity.
  - intros Hsz Hfit Hd. split.
    + intros Hfull. unfold output.
      replace (Z.of_nat IKCP_OVERHEAD <=? size) with true
        by (symmetry; apply Z.leb_le; exact Hsz).
      unfold bind at 1. rewrite (getS_ok _ _ _ Hs).
      unfold bind at 1. rewrite xmitBuf_Get_ok by lia.
      replace (length (chPostProcessing s) <? acceptBacklog)%nat with false
        by (symmetry; apply Nat.ltb_ge; exact Hfull).
      rewrite Hd. reflexivity.
    + intros Hq. eexists. split; [apply output_queues; assumption |].
      split.
      * rewrite length_app, copy_length, !repeat_length. lia.
      * intros Hlen.
        rewrite skipn_app, skipn_all2 by (rewrite repeat_length; lia).
        rewrite repeat_length, Nat.sub_diag, skipn_O. cbn [app].
        rewrite copy_short by (rewrite repeat_length; lia).
        rewrite repeat_length. apply firstn_all2. lia.
Qed.

End Wire.

Section Pipeline.
Context {ext : Externals}.

(** X3.  From the ARQ instance of one session to that of its peer,
    with a cipher and without FEC or duplicates: the callback queues the
    segment, the first pass of the post-processor seals it, the second
    hands one datagram for the remote address to [tx], and the
    [packetInput] of any session with the same cipher hands the very
    segment to [kcpInput]. *)
Theorem segment_reaches_peer (w : World) (sid : nat) (s : UDPSession)
    (blk : BlockCrypt) (seg : list byte) :
  heap w !! sid = Some s ->
  block s = Some blk ->
  fecEncoder s = None ->
  headerSize s = cryptHeaderSize ->
  dup s = 0 ->
  die s = false ->
  chPostProcessing s = [] ->
  (IKCP_OVERHEAD <= length seg)%nat ->
  Z.of_nat (length seg + cryptHeaderSize) <= mtuLimit ->
  (forall x, length x = (cryptHeaderSize + length seg)%nat ->
             length (Encrypt blk x) = length x
             /\ Decrypt blk (Encrypt blk x) = x) ->
  exists pkt plain w1 p1 w2 w3,
    output sid seg (Z.of_nat (length seg)) w = Ret tt w1
    /\ postProcess_step sid postProcess_init w1 = Ret (Some p1) w2
    /\ postProcess_step sid p1 w2 = Ret (Some postProcess_init) w3
    /\ trace w3 = trace w ++ [EvEncrypt plain; EvTx [(remote s, pkt)]]
    /\ length pkt = (cryptHeaderSize + length seg)%nat
    /\ (forall w4 sid2 s2,
          heap w4 !! sid2 = Some s2 ->
          block s2 = Some blk ->
          UDPSession_packetInput sid2 pkt w4
          = kcpInput sid2 seg (set_trace (trace w4 ++ [EvDecrypt pkt]) w4)).
Proof.
  intros Hs Hblk Hfec Hhs Hdup Hd Hq Hov Hfit Hinv.
  set (bts := repeat Byte.x00 (headerSize s)
              ++ copy (repeat Byte.x00 (Z.to_nat (Z.of_nat (length seg)))) seg).
  assert (Hbl : length bts = (cryptHeaderSize + length seg)%nat).
  { subst bts. rewrite length_app, copy_length, !repeat_length, Hhs. lia. }
  assert (Hbody : skipn cryptHeaderSize bts = seg).
  { subst bts. rewrite Hhs.
    rewrite skipn_app, skipn_all2 by (rewrite repeat_length; lia).
    rewrite repeat_length, Nat.sub_diag, skipn_O. cbn [app].
    rewrite copy_short by (rewrite repeat_length; lia).
    rewrite repeat_length, Nat2Z.id. apply firstn_all. }
  (* the callback *)
  pose proof (output_queues w sid s seg (Z.of_nat (length seg)) Hs
                ltac:(lia) ltac:(rewrite Hhs; lia) Hd
                ltac:(rewrite Hq; cbn; unfold acceptBacklog; lia)) as Hout.
  cbn zeta in Hout. fold bts in Hout. rewrite Hq in Hout. cbn [app] in Hout.
  set (s1 := set_chPostProcessing [bts] s) in *.
  set (w1 := set_heap (<[sid := s1]> (heap w)) w) in *.
  assert (H1 : heap w1 !! sid = Some s1) by (cbn; apply lookup_insert_eq).
  (* the first pass: the buffer is sealed and queued *)
  set (s2 := set_chPostProcessing [] s1).
  set (w1' := set_heap (<[sid := s2]> (heap w1)) w1).
  assert (H2 : heap w1' !! sid = Some s2) by (cbn; apply lookup_insert_eq).
  destruct (fun H => seal_opens w1' w1' sid s2 blk bts H2 ltac:(lia) H)
    as (Hseal & Hpl & _).
  { intros x Hx. apply Hinv. lia. }
  set (plain := crypto_plain (snd (Entropy_Fill (nonce s2))) bts) in *.
  set (pkt := Encrypt blk plain) in *.
  set (p1 := {| txqueue := [(remote s, pkt)]; chCork := true;
                chDie := true |}).
  set (s3 := set_nonce (fst (Entropy_Fill (nonce s2))) s2).
  set (w2 := set_trace (trace w1' ++ [EvEncrypt plain])
               (set_heap (<[sid := s3]> (heap w1')) w1')) in *.
  assert (H3 : heap w2 !! sid = Some s3) by (cbn; apply lookup_insert_eq).
  assert (Hstep1 : postProcess_step sid postProcess_init w1
                   = Ret (Some p1) w2).
  { unfold postProcess_step.
    unfold bind at 1. rewrite (getS_ok _ _ _ H1).
    cbn [chPostProcessing s1 set_chPostProcessing length Nat.ltb Nat.leb
         postProcess_init chCork chDie die andb app choose].
    rewrite Hd. cbn [app choose].
    unfold bind at 1. unfold ret at 1.
    unfold bind at 1. rewrite (modS_ok _ _ _ _ H1). fold s2. fold w1'.
    assert (Hbuf : postProcess_buf sid bts postProcess_init w1'
                   = Ret p1 w2).
    { unfold postProcess_buf, bind, getS. rewrite H2.
      replace (fecEncoder s2) with (@None FecEncoder)
        by (symmetry; exact Hfec).
      replace (block s2) with (Some blk) by (symmetry; exact Hblk).
      replace (dup s2) with 0 by (symmetry; exact Hdup).
      unfold ret at 1. rewrite Hseal.
      change (seq 0 (Z.to_nat 0)) with (@nil nat). cbn [mapM].
      unfold ret. cbn [mapM]. unfold ret. cbn [heap set_trace set_heap].
      rewrite lookup_insert_eq. reflexivity. }
    unfold bind at 1. rewrite Hbuf. reflexivity. }
  set (w3 := set_trace (trace w2 ++ [EvTx (txqueue p1)]) w2).
  assert (Hstep2 : postProcess_step sid p1 w2 = Ret (Some postProcess_init) w3).
  { unfold postProcess_step.
    assert (Hq3 : chPostProcessing s3 = []) by reflexivity.
    assert (Hd3 : die s3 = false) by exact Hd.
    unfold bind at 1. rewrite (getS_ok _ _ _ H3).
    rewrite Hq3, Hd3. reflexivity. }
  exists pkt, plain, w1, p1, w2, w3.
  split; [exact Hout |]. split; [exact Hstep1 |]. split; [exact Hstep2 |].
  split; [cbn; rewrite <- app_assoc; reflexivity |].
  split; [lia |].
  intros w4 sid2 s4 Hs4 Hb4.
  destruct (fun H => seal_opens w1' w4 sid s2 blk bts H2 ltac:(lia) H)
    as (_ & _ & Hopen).
  { intros x Hx. apply Hinv. lia. }
  fold plain in Hopen. fold pkt in Hopen.
  unfold UDPSession_packetInput.
  unfold bind at 1. rewrite (getS_ok _ _ _ Hs4). rewrite Hb4.
  unfold bind at 1. rewrite Hopen. cbn [andb]. rewrite Hbody.
  replace (IKCP_OVERHEAD <=? length seg)%nat with true
    by (symmetry; apply Nat.leb_le; exact Hov).
  reflexivity.
Qed.

End Pipeline.

Section PostProcessor.
Context {ext : Externals}.

(** ** The post-processor drains its queue before it returns *)

Lemma transmitted_app (a b : list Event) :
  transmitted (a ++ b) = transmitted a ++ transmitted b.
Proof. unfold transmitted. apply flat_map_app. Qed.

Lemma post_frame_frame (sid : nat) : Frame (post_frame sid).
Proof.
  split.
  - intros w. split; [eauto |]. exists []. split; [| reflexivity].
    symmetry. apply app_nil_r.
  - intros a b c [H1 (e1 & T1 & X1)] [H2 (e2 & T2 & X2)]. split.
    + intros s Hs. destruct (H1 s Hs) as (s1 & Hs1 & Q1 & D1 & R1).
      destruct (H2 s1 Hs1) as (s2 & Hs2 & Q2 & D2 & R2).
      exists s2. repeat split; congruence.
    + exists (e1 ++ e2). rewrite T2, T1, app_assoc, transmitted_app, X1, X2.
      auto.
  - intros w r. split; [eauto |]. exists []. split; [| reflexivity].
    symmetry. apply app_nil_r.
Qed.

Lemma post_frame_modS (sid i : nat) (f : UDPSession -> UDPSession) :
  (forall s, chPostProcessing (f s) = chPostProcessing s
             /\ die (f s) = die s /\ remote (f s) = remote s) ->
  keeps (post_frame sid) (modS i f).
Proof.
  intros Hf w a w' H. unfold modS in H.
  destruct (heap w !! i) as [x|] eqn:Ex; [| discriminate].
  injection H as _ <-. split.
  - intros s Hs. cbn. destruct (Nat.eq_dec i sid) as [-> | Hne].
    + rewrite lookup_insert_eq. exists (f x).
      assert (x = s) by congruence. subst x.
      destruct (Hf s) as (? & ? & ?). auto.
    + rewrite lookup_insert_ne by exact Hne. eauto.
  - exists []. split; [| reflexivity]. symmetry. apply app_nil_r.
Qed.

Lemma post_frame_emit (sid : nat) (e : Event) :
  transmitted [e] = [] -> keeps (post_frame sid) (emit e).
Proof.
  intros He w a w' H. injection H as _ <-. split; [eauto |].
  exists [e]. auto.
Qed.

Lemma post_frame_seal (sid i : nat) (blk : BlockCrypt) (buf : list byte) :
  keeps (post_frame sid) (seal i blk buf).
Proof.
  pose proof (post_frame_frame sid).
  unfold seal. keeps_tac.
  - apply post_frame_modS. intros s. auto.
  - apply post_frame_emit. reflexivity.
Qed.

Lemma mapM_addressed (r : string) (xs : list (list byte)) (w w' : World)
    (ys : list (string * list byte)) :
  mapM (fun e => bind (xmitBuf_Get (length e))
                      (fun bts => ret (r, copy bts e))) xs w = Ret ys w' ->
  w' = w /\ Forall (fun m => fst m = r) ys.
Proof.
  revert ys w'. induction xs as [| x xs IH]; intros ys w' H.
  - injection H as <- <-. auto.
  - cbn [mapM] in H. apply bind_Ret_inv in H.
    destruct H as (y & w1 & Hy & H).
    apply bind_Ret_inv in Hy. destruct Hy as (bts & w0 & Hg & Hy).
    unfold xmitBuf_Get in Hg. destruct (_ <=? _); [| discriminate].
    injection Hg as _ <-. injection Hy as <- <-.
    apply bind_Ret_inv in H. destruct H as (ys' & w2 & Hm & H).
    injection H as <- <-.
    destruct (IH _ _ Hm) as [-> Hall]. split; [reflexivity |].
    constructor; [reflexivity | exact Hall].
Qed.

Lemma mapM_dups (r : string) (buf : list byte) (ns : list nat)
    (w w' : World) (ys : list (string * list byte)) :
  mapM (fun _ : nat => bind (xmitBuf_Get (length buf))
                            (fun bts => ret (r, copy bts buf))) ns w
  = Ret ys w' ->
  w' = w /\ Forall (fun m => fst m = r) ys.
Proof.
  revert ys w'. induction ns as [| x xs IH]; intros ys w' H.
  - injection H as <- <-. auto.
  - cbn [mapM] in H. apply bind_Ret_inv in H.
    destruct H as (y & w1 & Hy & H).
    apply bind_Ret_inv in Hy. destruct Hy as (bts & w0 & Hg & Hy).
    unfold xmitBuf_Get in Hg. destruct (_ <=? _); [| discriminate].
    injection Hg as _ <-. injection Hy as <- <-.
    apply bind_Ret_inv in H. destruct H as (ys' & w2 & Hm & H).
    injection H as <- <-.
    destruct (IH _ _ Hm) as [-> Hall]. split; [reflexivity |].
    constructor; [reflexivity | exact Hall].
Qed.

(** The body of [case buf := <-s.chPostProcessing]. *)
Lemma postProcess_buf_inv (sid : nat) (buf : list byte) (p p' : PostProcess)
    (w w' : World) (s : UDPSession) :
  heap w !! sid = Some s ->
  postProcess_buf sid buf p w = Ret p' w' ->
  post_frame sid w w'
  /\ (exists m more,
         txqueue p' = txqueue p ++ m :: more
         /\ Forall (fun x => fst x = remote s) (m :: more))
  /\ chCork p' = (if (length (chPostProcessing s) =? 0)%nat
                  then true else chCork p).
Proof.
  intros Hs H. unfold postProcess_buf in H.
  unfold bind at 1 in H. rewrite (getS_ok _ _ _ Hs) in H.
  apply bind_Ret_inv in H. destruct H as ([buf1 ecc1] & w1 & H1 & H).
  apply bind_Ret_inv in H. destruct H as ([buf2 ecc2] & w2 & H2 & H).
  apply bind_Ret_inv in H. destruct H as (dups & w3 & H3 & H).
  apply bind_Ret_inv in H. destruct H as (parity & w4 & H4 & H).
  apply bind_Ret_inv in H. destruct H as (s' & w5 & H5 & H).
  injection H as <- <-.
  apply mapM_dups in H3. destruct H3 as [-> Hd].
  apply mapM_addressed in H4. destruct H4 as [-> Hp].
  pose proof (post_frame_frame sid) as HF.
  assert (F1 : post_frame sid w w1).
  { match type of H1 with
    | ?m w = _ => assert (K : keeps (post_frame sid) m)
    end.
    { keeps_tac. apply post_frame_modS. intros x. auto. }
    eapply K. exact H1. }
  assert (F2 : post_frame sid w1 w2).
  { match type of H2 with
    | ?m w1 = _ => assert (K : keeps (post_frame sid) m)
    end.
    { pose proof (post_frame_seal sid sid). keeps_tac. }
    eapply K. exact H2. }
  assert (F : post_frame sid w w2)
    by (eapply (frame_trans _ HF); eassumption).
  unfold getS in H5. destruct (heap w2 !! sid) as [x|] eqn:Ex; [| discriminate].
  injection H5 as <- <-.
  destruct F as [Fh Ft]. destruct (Fh s Hs) as (x' & Hx' & Q & D & Rm).
  assert (x' = x) by congruence. subst x'.
  split; [split; [exact Fh | exact Ft] |].
  split.
  - cbn [txqueue]. exists (remote s, buf2), (dups ++ parity).
    split; [rewrite <- app_assoc; reflexivity |].
    constructor; [reflexivity |]. apply Forall_app. auto.
  - cbn [chCork]. rewrite Q. reflexivity.
Qed.

Lemma post_ready_In (s : UDPSession) (p : PostProcess) (x : PostCase) :
  In x ((if (0 <? length (chPostProcessing s))%nat then [PostBuf] else [])
        ++ (if chCork p then [PostCork] else [])
        ++ (if chDie p && die s then [PostDie] else [])) ->
  match x with
  | PostBuf => chPostProcessing s <> []
  | PostCork => chCork p = true
  | PostDie => chDie p = true /\ die s = true
  end.
Proof.
  destruct (chPostProcessing s), (chCork p), (chDie p), (die s); cbn;
    intros H; repeat (destruct H as [H | H]); try contradiction;
    subst x; auto; discriminate.
Qed.

Lemma postProcess_loop_drains (fuel : nat) (sid : nat) (w' : World) :
  forall (p : PostProcess) (w : World) (s : UDPSession),
    heap w !! sid = Some s ->
    (txqueue p <> [] -> chCork p = true \/ chPostProcessing s <> []) ->
    Forall (fun m => fst m = remote s) (txqueue p) ->
    postProcess_loop fuel sid p w = Ret tt w' ->
    exists evs s',
      trace w' = trace w ++ evs
      /\ heap w' !! sid = Some s'
      /\ chPostProcessing s' = [] /\ die s' = true
      /\ (length (txqueue p) + length (chPostProcessing s)
          <= length (transmitted evs))%nat
      /\ Forall (fun m => fst m = remote s) (transmitted evs).
Proof.
  induction fuel as [| fuel IH]; intros p w s Hs Hinv Hto Hrun;
    [discriminate |].
  cbn [postProcess_loop] in Hrun.
  apply bind_Ret_inv in Hrun. destruct Hrun as (r & w1 & Hstep & Hrun).
  unfold postProcess_step in Hstep.
  unfold bind at 1 in Hstep. rewrite (getS_ok _ _ _ Hs) in Hstep.
  apply bind_Ret_inv in Hstep. destruct Hstep as (c & w0 & Hc & Hstep).
  match type of Hc with
  | choose ?l w = _ => destruct (choose_cases l w) as (c' & rnd & Hc' & Hcase)
  end.
  rewrite Hc' in Hc. injection Hc as -> <-.
  destruct Hcase as [[-> _] | (x & -> & Hin)]; [discriminate Hstep |].
  apply post_ready_In in Hin. destruct x.
  - (* a buffer *)
    destruct (chPostProcessing s) as [| buf rest] eqn:Eq; [contradiction |].
    apply bind_Ret_inv in Hstep. destruct Hstep as ([] & wa & Hm & Hstep).
    erewrite modS_ok in Hm by (cbn; exact Hs). injection Hm as <-.
    apply bind_Ret_inv in Hstep. destruct Hstep as (p' & wb & Hb & Hstep).
    injection Hstep as <- <-.
    eapply postProcess_buf_inv in Hb; [| cbn; apply lookup_insert_eq].
    destruct Hb as ([Fh (e1 & T1 & X1)] & (m & more & Hq' & Hall) & Hck).
    destruct (Fh (set_chPostProcessing rest s)) as (s1 & Hs1 & Q1 & D1 & R1);
      [cbn; apply lookup_insert_eq |].
    cbn in Q1, D1, R1, Hck, Hall.
    destruct (IH p' wb s1 Hs1) as (e2 & s2 & T2 & Hs2 & Q2 & D2 & Hlen & Hto2).
    + intros _. rewrite Hck, Q1. destruct rest; [left | right]; cbn;
        [reflexivity | discriminate].
    + rewrite Hq', R1. apply Forall_app. split; assumption.
    + exact Hrun.
    + exists (e1 ++ e2), s2. rewrite transmitted_app, X1. cbn [app].
      split; [rewrite T2, T1; cbn; rewrite <- app_assoc; reflexivity |].
      split; [exact Hs2 |]. split; [exact Q2 |]. split; [exact D2 |].
      split.
      * rewrite Hq', Q1, length_app in Hlen. cbn [length] in Hlen |- *. lia.
      * rewrite <- R1. exact Hto2.
  - (* the cork *)
    apply bind_Ret_inv in Hstep. destruct Hstep as ([] & wa & He & Hstep).
    injection Hstep as <- <-.
    assert (Hw1 : exists e1, trace wa = trace w ++ e1
                             /\ transmitted e1 = txqueue p
                             /\ heap wa = heap w).
    { destruct (txqueue p) as [| m q] eqn:Et; cbn in He.
      - injection He as <-. exists []. cbn.
        split; [symmetry; apply app_nil_r | auto].
      - injection He as <-. exists [EvTx (m :: q)]. cbn.
        rewrite app_nil_r. auto. }
    destruct Hw1 as (e1 & T1 & X1 & Hh1).
    destruct (IH {| txqueue := []; chCork := false; chDie := true |} wa s)
      as (e2 & s2 & T2 & Hs2 & Q2 & D2 & Hlen & Hto2).
    + rewrite Hh1. exact Hs.
    + intros Hne. contradiction.
    + constructor.
    + exact Hrun.
    + exists (e1 ++ e2), s2. rewrite transmitted_app, X1.
      split; [rewrite T2, T1, <- app_assoc; reflexivity |].
      split; [exact Hs2 |]. split; [exact Q2 |]. split; [exact D2 |].
      split.
      * rewrite length_app. cbn [txqueue length] in Hlen. lia.
      * apply Forall_app. split; assumption.
  - (* die *)
    destruct Hin as [_ Hd].
    destruct (chCork p || (0 <? length (chPostProcessing s))%nat) eqn:Ebusy.
    + injection Hstep as <- <-.
      destruct (IH {| txqueue := txqueue p; chCork := chCork p;
                      chDie := false |} (set_rand rnd w) s)
        as (e2 & s2 & T2 & Hs2 & Q2 & D2 & Hlen & Hto2);
        [exact Hs | exact Hinv | exact Hto | exact Hrun |].
      exists e2, s2. auto 10.
    + injection Hstep as <- <-. injection Hrun as <-.
      apply orb_false_iff in Ebusy. destruct Ebusy as [Ek Eq].
      assert (Hq : chPostProcessing s = []).
      { destruct (chPostProcessing s); [reflexivity | discriminate Eq]. }
      assert (Htx : txqueue p = []).
      { destruct (txqueue p) as [| m q] eqn:Et; [reflexivity |].
        destruct Hinv as [H | H]; [discriminate | congruence | contradiction]. }
      exists [], s. cbn. rewrite Htx, Hq. cbn.
      split; [symmetry; apply app_nil_r |]. auto 10.
Qed.

(** X4.  The post-processor returns only when drained: when
    [postProcess] returns, the session is closed, its queue is empty,
    and [tx] was given at least one message for every buffer that was
    queued, each addressed to the remote address of the session. *)
Theorem postProcess_drains (fuel : nat) (sid : nat) (w w' : World)
    (s : UDPSession) :
  heap w !! sid = Some s ->
  postProcess fuel sid w = Ret tt w' ->
  exists evs s',
    trace w' = trace w ++ evs
    /\ heap w' !! sid = Some s'
    /\ chPostProcessing s' = [] /\ die s' = true
    /\ (length (chPostProcessing s) <= length (transmitted evs))%nat
    /\ Forall (fun m => fst m = remote s) (transmitted evs).
Proof.
  intros Hs Hrun. unfold postProcess in Hrun.
  apply (postProcess_loop_drains fuel sid w' postProcess_init w s Hs)
    in Hrun.
  - exact Hrun.
  - intros H. contradiction.
  - constructor.
Qed.

End PostProcessor.

Section Input.
Context {ext : Externals}.

(** ** kcpInput *)

Lemma grows_frame (P : Event -> Prop) : Frame (grows P).
Proof.
  split.
  - intros w. exists []. split; [symmetry; apply app_nil_r | constructor].
  - intros a b c (e1 & T1 & F1) (e2 & T2 & F2). exists (e1 ++ e2).
    split; [rewrite T2, T1, app_assoc; reflexivity |].
    apply Forall_app. auto.
  - intros w r. exists []. split; [symmetry; apply app_nil_r | constructor].
Qed.

Lemma grows_heap (P : Event -> Prop) : ignores_heap (grows P).
Proof.
  intros w h. exists []. split; [symmetry; apply app_nil_r | constructor].
Qed.

Lemma grows_snmp (P : Event -> Prop) : ignores_snmp (grows P).
Proof.
  intros w h. exists []. split; [symmetry; apply app_nil_r | constructor].
Qed.

Lemma grows_emit (P : Event -> Prop) (e : Event) :
  P e -> keeps (grows P) (emit e).
Proof.
  intros He w a w' H. injection H as _ <-. exists [e].
  split; [reflexivity | repeat constructor; exact He].
Qed.

Lemma input_frame_frame (sid : nat) : Frame (input_frame sid).
Proof.
  split.
  - intros w. unfold input_frame. auto 15.
  - intros a b c H1 H2. unfold input_frame in *.
    destruct H1 as (L1 & S1 & O1 & A1 & B1 & C1 & D1 & E1 & F1 & G1).
    destruct H2 as (L2 & S2 & O2 & A2 & B2 & C2 & D2 & E2 & F2 & G2).
    split; [congruence |]. split; [congruence |].
    split; [intros j Hj; rewrite O2, O1 by exact Hj; reflexivity |].
    repeat split; congruence.
  - intros w r. unfold input_frame. auto 15.
Qed.

Lemma input_frame_trace (sid : nat) : ignores_trace (input_frame sid).
Proof. intros w t. unfold input_frame. auto 15. Qed.

Lemma input_frame_modS (sid : nat) (f : UDPSession -> UDPSession) :
  keeps (input_frame sid) (modS sid f).
Proof.
  intros w a w' H. unfold modS in H.
  destruct (heap w !! sid); [| discriminate]. injection H as _ <-.
  unfold input_frame. cbn.
  split; [reflexivity |]. split; [reflexivity |].
  split; [intros j Hj; apply lookup_insert_ne; congruence |].
  auto 10.
Qed.

Lemma input_frame_modSnmp (sid : nat) (f : Snmp -> Snmp) :
  (forall c, ActiveOpens (f c) = ActiveOpens c
             /\ PassiveOpens (f c) = PassiveOpens c
             /\ CurrEstab (f c) = CurrEstab c /\ MaxConn (f c) = MaxConn c
             /\ BytesSent (f c) = BytesSent c
             /\ BytesReceived (f c) = BytesReceived c
             /\ InCsumErrors (f c) = InCsumErrors c) ->
  keeps (input_frame sid) (modSnmp f).
Proof.
  intros Hf w a w' H. injection H as _ <-. unfold input_frame. cbn.
  destruct (Hf (DefaultSnmp w)) as (? & ? & ? & ? & ? & ? & ?). auto 15.
Qed.

Lemma kcpInput_frame (sid : nat) (data : list byte) :
  keeps (input_frame sid) (kcpInput sid data).
Proof.
  pose proof (input_frame_frame sid) as HF.
  pose proof (input_frame_trace sid) as HT.
  pose proof (input_frame_modS sid) as HM.
  assert (HS : forall f,
             (forall c, ActiveOpens (f c) = ActiveOpens c
                        /\ PassiveOpens (f c) = PassiveOpens c
                        /\ CurrEstab (f c) = CurrEstab c
                        /\ MaxConn (f c) = MaxConn c
                        /\ BytesSent (f c) = BytesSent c
                        /\ BytesReceived (f c) = BytesReceived c
                        /\ InCsumErrors (f c) = InCsumErrors c) ->
             keeps (input_frame sid) (modSnmp f))
    by (apply input_frame_modSnmp).
  unfold kcpInput, fecPacket_flag, notifyAfterInput, kcpInput_call,
    kcpPeekSize, kcpWaitSnd, notifyReadEvent, notifyWriteEvent.
  keeps_tac; apply HS; intros c; cbn; auto 10.
Qed.

(** The counters of packets and bytes are those of [w] but for the
    additions [dp] and [db]. *)
Lemma counted_frame :
  Frame (fun w w' =>
           InPkts (DefaultSnmp w') = InPkts (DefaultSnmp w)
           /\ InBytes (DefaultSnmp w') = InBytes (DefaultSnmp w)).
Proof.
  split; [auto | | auto].
  intros a b c [H1 H2] [H3 H4]. split; congruence.
Qed.

Lemma counted_heap :
  ignores_heap (fun w w' =>
                  InPkts (DefaultSnmp w') = InPkts (DefaultSnmp w)
                  /\ InBytes (DefaultSnmp w') = InBytes (DefaultSnmp w)).
Proof. intros w h. auto. Qed.

Lemma counted_trace :
  ignores_trace (fun w w' =>
                   InPkts (DefaultSnmp w') = InPkts (DefaultSnmp w)
                   /\ InBytes (DefaultSnmp w') = InBytes (DefaultSnmp w)).
Proof. intros w h. auto. Qed.

Lemma counted_InErrs (f : Z -> Z) :
  keeps (fun w w' =>
           InPkts (DefaultSnmp w') = InPkts (DefaultSnmp w)
           /\ InBytes (DefaultSnmp w') = InBytes (DefaultSnmp w))
        (modSnmp (fun c => set_InErrs (f (InErrs c)) c)).
Proof. intros w a w' H. injection H as _ <-. auto. Qed.

(** X5.  [kcpInput] counts every packet it is given, the ones it
    rejects included: [InPkts] grows by one and [InBytes] by the length
    of the packet, modulo 2^64; the listener, the sockets, the other
    sessions, and the counters of connections, of bytes read and written
    and of checksum errors are left alone. *)
Theorem kcpInput_counts (w w' : World) (sid : nat) (data : list byte) :
  kcpInput sid data w = Ret tt w' ->
  InPkts (DefaultSnmp w') = add64 (InPkts (DefaultSnmp w)) 1
  /\ InBytes (DefaultSnmp w')
     = add64 (InBytes (DefaultSnmp w)) (Z.of_nat (length data))
  /\ input_frame sid w w'.
Proof.
  intros Hrun. split; [| split; [| eapply kcpInput_frame; exact Hrun]].
  - unfold kcpInput in Hrun.
    apply bind_Ret_inv in Hrun. destruct Hrun as ([] & w1 & H1 & Hrun).
    injection H1 as <-.
    apply bind_Ret_inv in Hrun. destruct Hrun as (t4 & w2 & H2 & Hrun).
    apply (keeps_inrange _ counted_frame) in H2.
    apply bind_Ret_inv in Hrun. destruct Hrun as (flag & w3 & H3 & Hrun).
    apply (keeps_inrange _ counted_frame) in H3.
    apply bind_Ret_inv in Hrun. destruct Hrun as (errs & w4 & H4 & Hrun).
    assert (K4 : InPkts (DefaultSnmp w4) = InPkts (DefaultSnmp w3)
                 /\ InBytes (DefaultSnmp w4) = InBytes (DefaultSnmp w3)).
    { match type of H4 with
      | ?m w3 = _ =>
          assert (K : keeps (fun w w' =>
                               InPkts (DefaultSnmp w') = InPkts (DefaultSnmp w)
                               /\ InBytes (DefaultSnmp w')
                                  = InBytes (DefaultSnmp w)) m)
      end.
      { pose proof counted_frame. pose proof counted_heap.
        pose proof counted_trace.
        pose proof (counted_InErrs (fun x => add64 x 1)).
        unfold fecPacket_flag. keeps_tac. }
      eapply K. exact H4. }
    unfold bind, modSnmp, when_, ret in Hrun.
    destruct (0 <? errs); injection Hrun as <-; cbn;
      destruct K4 as [-> _], H3 as [-> _], H2 as [-> _]; reflexivity.
  - unfold kcpInput in Hrun.
    apply bind_Ret_inv in Hrun. destruct Hrun as ([] & w1 & H1 & Hrun).
    injection H1 as <-.
    apply bind_Ret_inv in Hrun. destruct Hrun as (t4 & w2 & H2 & Hrun).
    apply (keeps_inrange _ counted_frame) in H2.
    apply bind_Ret_inv in Hrun. destruct Hrun as (flag & w3 & H3 & Hrun).
    apply (keeps_inrange _ counted_frame) in H3.
    apply bind_Ret_inv in Hrun. destruct Hrun as (errs & w4 & H4 & Hrun).
    assert (K4 : InPkts (DefaultSnmp w4) = InPkts (DefaultSnmp w3)
                 /\ InBytes (DefaultSnmp w4) = InBytes (DefaultSnmp w3)).
    { match type of H4 with
      | ?m w3 = _ =>
          assert (K : keeps (fun w w' =>
                               InPkts (DefaultSnmp w') = InPkts (DefaultSnmp w)
                               /\ InBytes (DefaultSnmp w')
                                  = InBytes (DefaultSnmp w)) m)
      end.
      { pose proof counted_frame. pose proof counted_heap.
        pose proof counted_trace.
        pose proof (counted_InErrs (fun x => add64 x 1)).
        unfold fecPacket_flag. keeps_tac. }
      eapply K. exact H4. }
    unfold bind, modSnmp, when_, ret in Hrun.
    destruct (0 <? errs); injection Hrun as <-; cbn;
      destruct K4 as [_ ->], H3 as [_ ->], H2 as [_ ->]; reflexivity.
Qed.

End Input.

Section RegularInput.
Context {ext : Externals}.

Lemma keeps_bind_val {A B : Type} (R : World -> World -> Prop)
    (m : M A) (k : A -> M B) :
  Frame R ->
  keeps R m ->
  (forall a, (exists w w1, m w = Ret a w1) -> keeps R (k a)) ->
  keeps R (bind m k).
Proof.
  intros HR Hm Hk w b w' H. apply bind_Ret_inv in H.
  destruct H as (a & w1 & H1 & H2).
  eapply (frame_trans R HR); [eapply Hm; exact H1 |].
  eapply Hk; [exists w, w1; exact H1 | exact H2].
Qed.

Lemma inrange_val {A : Type} (o : option A) (a : A) :
  (exists w w1, inrange o w = Ret a w1) -> o = Some a.
Proof.
  intros (w & w1 & H). destruct o; [| discriminate].
  injection H as -> _. reflexivity.
Qed.

(** X6.  What [kcpInput] hands to the ARQ instance as a regular
    packet, when [flag] is the 16-bit word at offset 4: the payload
    behind the FEC header when [flag] is [typeData], the packet itself
    when [flag] is neither FEC type, and nothing when it is
    [typeParity].  A parity shard reaches the ARQ instance only through
    the shards that the decoder recovers. *)
Theorem kcpInput_regular (w w' : World) (sid : nat) (data t4 : list byte)
    (flag : Z) :
  slice_from 4 data = Some t4 ->
  Uint16 t4 = Some flag ->
  kcpInput sid data w = Ret tt w' ->
  exists evs,
    trace w' = trace w ++ evs
    /\ Forall (fun ev =>
                 forall d a,
                   ev = EvKCP sid (CallInput d true a) ->
                   if flag =? typeData
                   then d = skipn fecHeaderSizePlus2 data
                   else flag <> typeParity /\ d = data) evs
    /\ (typeData <> typeParity -> flag = typeParity ->
        Forall (fun ev => ~ regular_input sid ev) evs).
Proof.
  intros Hsl Hu Hrun.
  assert (Hflag : fecPacket_flag data = Some flag)
    by (unfold fecPacket_flag; rewrite Hsl; exact Hu).
  clear t4 Hsl Hu.
  set (P := fun ev : Event =>
              forall d a,
                ev = EvKCP sid (CallInput d true a) ->
                if flag =? typeData
                then d = skipn fecHeaderSizePlus2 data
                else flag <> typeParity /\ d = data).
  assert (K : keeps (grows P) (kcpInput sid data)).
  { pose proof (grows_frame P) as HF.
    pose proof (grows_heap P) as HH.
    pose proof (grows_snmp P) as HS.
    assert (HE : forall e, (forall d a, e <> EvKCP sid (CallInput d true a)) ->
                           keeps (grows P) (emit e)).
    { intros e He. apply grows_emit. intros d a Heq. destruct (He d a Heq). }
    assert (Hcall : forall d a, P (EvKCP sid (CallInput d true a)) ->
                                keeps (grows P) (kcpInput_call sid d true a)).
    { intros d a Hp. unfold kcpInput_call. keeps_tac.
      apply grows_emit. exact Hp. }
    assert (Hrec : forall d a, keeps (grows P) (kcpInput_call sid d false a)).
    { intros d a. unfold kcpInput_call.
      keeps_tac; try (apply HE; intros d' a'; discriminate). }
    assert (Hnot : keeps (grows P) (notifyAfterInput sid)).
    { unfold notifyAfterInput, kcpPeekSize, kcpWaitSnd, notifyReadEvent,
        notifyWriteEvent.
      keeps_tac; try (apply HE; intros d' a'; discriminate). }
    unfold kcpInput.
    apply keeps_bind; [exact HF | apply HE; intros d a; discriminate |].
    intros _.
    apply keeps_bind_val; [exact HF | auto with keeps |].
    intros t4 Ht4. apply inrange_val in Ht4.
    apply keeps_bind_val; [exact HF | auto with keeps |].
    intros fecFlag Hff. apply inrange_val in Hff.
    assert (fecFlag = flag).
    { unfold fecPacket_flag in Hflag. rewrite Ht4 in Hflag. congruence. }
    subst fecFlag.
    apply keeps_bind; [exact HF | | intros errs; keeps_tac].
    destruct ((flag =? typeData) || (flag =? typeParity)) eqn:E.
    - destruct (fecHeaderSizePlus2 <=? length data)%nat; [| keeps_tac].
      apply keeps_bind; [exact HF | apply HE; intros d a; discriminate |].
      intros _.
      apply keeps_bind; [exact HF | auto with keeps | intros s].
      apply keeps_bind; [exact HF | auto with keeps | intros dec].
      destruct (FEC_decode dec data) as [dec' recovers].
      apply keeps_bind; [exact HF | auto with keeps | intros _].
      apply keeps_bind_val; [exact HF | auto with keeps |].
      intros flag' Hf'. apply inrange_val in Hf'.
      assert (flag' = flag) by congruence. subst flag'.
      apply keeps_bind; [exact HF | | intros e1].
      + destruct (flag =? typeData) eqn:Ed; [| auto with keeps].
        apply keeps_bind_val; [exact HF | auto with keeps |].
        intros payload Hpl. apply inrange_val in Hpl.
        unfold slice_from in Hpl.
        destruct (fecHeaderSizePlus2 <=? length data)%nat; [| discriminate].
        injection Hpl as <-.
        apply keeps_bind; [exact HF | | intros code; auto with keeps].
        apply Hcall. intros d a Heq. rewrite ?Ed. congruence.
      + apply keeps_bind; [exact HF | | intros e2].
        * apply keeps_foldM; [exact HF |]. intros errs r.
          keeps_tac; try apply Hrec.
        * apply keeps_bind; [exact HF | exact Hnot | intros _].
          apply keeps_bind; [exact HF | | intros _; auto with keeps].
          apply HE. intros d a. discriminate.
    - apply orb_false_iff in E. destruct E as [Ed Ep].
      apply keeps_bind; [exact HF | apply HE; intros d a; discriminate |].
      intros _.
      apply keeps_bind; [exact HF | auto with keeps | intros s].
      apply keeps_bind; [exact HF | | intros code].
      + apply Hcall. intros d a Heq. rewrite ?Ed.
        split; [apply Z.eqb_neq; exact Ep | congruence].
      + apply keeps_bind; [exact HF | exact Hnot | intros _].
        apply keeps_bind; [exact HF | | intros _; auto with keeps].
        apply HE. intros d a. discriminate. }
  destruct (K w tt w' Hrun) as (evs & Ht & Hall).
  exists evs. split; [exact Ht |]. split; [exact Hall |].
  intros Hne ->.
  eapply Forall_impl; [exact Hall |].
  intros ev Hp (d & a & Heq). specialize (Hp d a Heq).
  replace (typeParity =? typeData) with false in Hp
    by (symmetry; apply Z.eqb_neq; congruence).
  destruct Hp as [Hp _]. congruence.
Qed.

End RegularInput.

Section Deadlines.
Context {ext : Externals}.

(** ** Deadlines *)

Lemma SetReadDeadline_run (w : World) (sid : nat) (s : UDPSession)
    (t : option Z) :
  heap w !! sid = Some s ->
  SetReadDeadline sid t w
  = Ret None
      (set_heap (<[sid := set_chReadEvent true (set_rd t s)]> (heap w))
         (set_trace (trace w ++ [EvLock sid; EvUnlock sid]) w)).
Proof.
  intros Hs. unfold SetReadDeadline. run_with Hs.
  rewrite insert_insert_eq, <- app_assoc. reflexivity.
Qed.

Lemma SetWriteDeadline_run (w : World) (sid : nat) (s : UDPSession)
    (t : option Z) :
  heap w !! sid = Some s ->
  SetWriteDeadline sid t w
  = Ret None
      (set_heap (<[sid := set_chWriteEvent true (set_wd t s)]> (heap w))
         (set_trace (trace w ++ [EvLock sid; EvUnlock sid]) w)).
Proof.
  intros Hs. unfold SetWriteDeadline. run_with Hs.
  rewrite insert_insert_eq, <- app_assoc. reflexivity.
Qed.

Lemma SetDeadline_run (w : World) (sid : nat) (s : UDPSession)
    (t : option Z) :
  heap w !! sid = Some s ->
  SetDeadline sid t w
  = Ret None
      (set_heap
         (<[sid := set_chWriteEvent true
                     (set_chReadEvent true (set_wd t (set_rd t s)))]> (heap w))
         (set_trace (trace w ++ [EvLock sid; EvUnlock sid]) w)).
Proof.
  intros Hs. unfold SetDeadline. run_with Hs.
  rewrite !insert_insert_eq, <- app_assoc. reflexivity.
Qed.

Lemma choose_two {A : Type} (a b : A) (w : World) :
  exists r, choose [a; b] w = Ret (Some a) (set_rand r w)
            \/ choose [a; b] w = Ret (Some b) (set_rand r w).
Proof.
  unfold choose, bind, draw, ret. exists (tl (rand w)).
  cbn [length].
  pose proof (Nat.mod_upper_bound (hd 0%nat (rand w)) 2 ltac:(lia)) as Hb.
  destruct (hd 0%nat (rand w) mod 2)%nat as [| [| n]]; [left | right | lia];
    reflexivity.
Qed.

(** An idle reader whose deadline has passed: the timer is taken at
    once, or after the pending read event. *)
Lemma Read_expired (w : World) (sid : nat) (s : UDPSession)
    (dst : list byte) :
  heap w !! sid = Some s ->
  bufptr s = [] ->
  KCP_PeekSize (kcp s) <= 0 ->
  socketReadError s = None ->
  die s = false ->
  expired (rd s) (now w) = true ->
  exists w', Read sid dst w = Ret (dst, 0, Some errTimeout) w'.
Proof.
  intros Hs Hb Hp He Hd Hx.
  assert (Hlast : forall w0 s0,
             heap w0 !! sid = Some s0 -> bufptr s0 = [] ->
             KCP_PeekSize (kcp s0) <= 0 ->
             read_ready s0 (now w0) = [WakeTimer] ->
             forall fuel, exists w',
               Read_loop (S fuel) sid dst w0 = Ret (dst, 0, Some errTimeout) w').
  { intros w0 s0 H0 Hb0 Hp0 Hr0 fuel.
    rewrite (Read_loop_idle fuel w0 sid s0 dst H0 Hb0 Hp0), Hr0.
    eexists. reflexivity. }
  unfold Read.
  destruct (chReadEvent s) eqn:Ev.
  - rewrite (Read_loop_idle 1 w sid s dst Hs Hb Hp).
    assert (Hready : read_ready s (now w) = [WakeEvent; WakeTimer]).
    { unfold read_ready. rewrite Ev, Hx, He, Hd. reflexivity. }
    rewrite Hready.
    match goal with
    | |- exists w2, bind (choose _) _ ?W = _ =>
        destruct (choose_two WakeEvent WakeTimer W) as (r & [Hc | Hc])
    end.
    + unfold bind at 1. rewrite Hc.
      match goal with
      | |- exists w2, bind (modS _ _) _ ?W = _ =>
          assert (H2 : heap W !! sid = Some s) by (cbn; exact Hs)
      end.
      unfold bind at 1. rewrite (modS_ok _ _ _ _ H2).
      apply (Hlast _ (set_chReadEvent false s));
        [cbn; apply lookup_insert_eq | exact Hb | exact Hp |].
      unfold read_ready. cbn. rewrite Hx, He, Hd. reflexivity.
    + unfold bind at 1. rewrite Hc. eexists. reflexivity.
  - apply (Hlast w s Hs Hb Hp).
    unfold read_ready. rewrite Ev, Hx, He, Hd. reflexivity.
Qed.

(** An idle reader without a deadline waits, after it has consumed a
    pending read event. *)
Lemma Read_waits (w : World) (sid : nat) (s : UDPSession) (dst : list byte) :
  heap w !! sid = Some s ->
  bufptr s = [] ->
  KCP_PeekSize (kcp s) <= 0 ->
  socketReadError s = None ->
  die s = false ->
  expired (rd s) (now w) = false ->
  Read sid dst w = Blocks.
Proof.
  intros Hs Hb Hp He Hd Hx.
  assert (Hlast : forall w0 s0,
             heap w0 !! sid = Some s0 -> bufptr s0 = [] ->
             KCP_PeekSize (kcp s0) <= 0 ->
             read_ready s0 (now w0) = [] ->
             forall fuel, Read_loop (S fuel) sid dst w0 = Blocks).
  { intros w0 s0 H0 Hb0 Hp0 Hr0 fuel.
    rewrite (Read_loop_idle fuel w0 sid s0 dst H0 Hb0 Hp0), Hr0.
    reflexivity. }
  unfold Read.
  destruct (chReadEvent s) eqn:Ev.
  - rewrite (Read_loop_idle 1 w sid s dst Hs Hb Hp).
    assert (Hready : read_ready s (now w) = [WakeEvent]).
    { unfold read_ready. rewrite Ev, Hx, He, Hd. reflexivity. }
    rewrite Hready. cbn [choose]. unfold bind at 1. unfold ret at 1.
    match goal with
    | |- bind (modS _ _) _ ?W = _ =>
        assert (H2 : heap W !! sid = Some s) by (cbn; exact Hs)
    end.
    unfold bind at 1. rewrite (modS_ok _ _ _ _ H2).
    apply (Hlast _ (set_chReadEvent false s));
      [cbn; apply lookup_insert_eq | exact Hb | exact Hp |].
    unfold read_ready. cbn. rewrite Hx, He, Hd. reflexivity.
  - apply (Hlast w s Hs Hb Hp).
    unfold read_ready. rewrite Ev, Hx, He, Hd. reflexivity.
Qed.

(** A writer that finds the window closed and its deadline passed. *)
Lemma WriteBuffers_expired (w : World) (sid : nat) (s : UDPSession)
    (v : list (list byte)) :
  heap w !! sid = Some s ->
  socketWriteError s = None ->
  die s = false ->
  window_open (kcp s) (KCP_WaitSnd (kcp s)) = false ->
  expired (wd s) (now w) = true ->
  exists w', WriteBuffers sid v w = Ret (0, Some errTimeout) w'.
Proof.
  intros Hs He Hd Hw Hx.
  assert (Hlast : forall w0 s0,
             heap w0 !! sid = Some s0 ->
             socketWriteError s0 = None -> die s0 = false ->
             window_open (kcp s0) (KCP_WaitSnd (kcp s0)) = false ->
             write_ready s0 (now w0) = [WakeTimer] ->
             forall fuel, exists w',
               WriteBuffers_loop (S fuel) sid v w0
               = Ret (0, Some errTimeout) w').
  { intros w0 s0 H0 He0 Hd0 Hw0 Hr0 fuel.
    rewrite (WriteBuffers_loop_pass fuel w0 sid s0 v H0)
      by (unfold write_guard; rewrite He0, Hd0; reflexivity).
    rewrite Hw0.
    unfold bind at 1. cbn [emit].
    unfold bind at 1. cbn [getNow set_trace now].
    rewrite Hr0. eexists. reflexivity. }
  unfold WriteBuffers.
  destruct (chWriteEvent s) eqn:Ev.
  - rewrite (WriteBuffers_loop_pass 1 w sid s v Hs)
      by (unfold write_guard; rewrite He, Hd; reflexivity).
    rewrite Hw.
    unfold bind at 1. cbn [emit].
    unfold bind at 1. cbn [getNow set_trace now].
    assert (Hready : write_ready s (now w) = [WakeEvent; WakeTimer]).
    { unfold write_ready. rewrite Ev, Hx, He, Hd. reflexivity. }
    rewrite Hready.
    match goal with
    | |- exists w2, bind (choose _) _ ?W = _ =>
        destruct (choose_two WakeEvent WakeTimer W) as (r & [Hc | Hc])
    end.
    + unfold bind at 1. rewrite Hc.
      match goal with
      | |- exists w2, bind (modS _ _) _ ?W = _ =>
          assert (H2 : heap W !! sid = Some s) by (cbn; exact Hs)
      end.
      unfold bind at 1. rewrite (modS_ok _ _ _ _ H2).
      apply (Hlast _ (set_chWriteEvent false s));
        [cbn; apply lookup_insert_eq | exact He | exact Hd | exact Hw |].
      unfold write_ready. cbn. rewrite Hx, He, Hd. reflexivity.
    + unfold bind at 1. rewrite Hc. eexists. reflexivity.
  - apply (Hlast w s Hs He Hd Hw).
    unfold write_ready. rewrite Ev, Hx, He, Hd. reflexivity.
Qed.

(** A writer that finds the window open never looks at its deadline. *)
Lemma WriteBuffers_admitted (w w' : World) (sid : nat) (s : UDPSession)
    (v : list (list byte)) (n : Z) (e : option error) :
  heap w !! sid = Some s ->
  socketWriteError s = None ->
  die s = false ->
  window_open (kcp s) (KCP_WaitSnd (kcp s)) = true ->
  WriteBuffers sid v w = Ret (n, e) w' ->
  e = None.
Proof.
  intros Hs He Hd Hw Hrun. unfold WriteBuffers in Hrun.
  rewrite (WriteBuffers_loop_pass 1 w sid s v Hs) in Hrun
    by (unfold write_guard; rewrite He, Hd; reflexivity).
  rewrite Hw in Hrun.
  repeat (apply bind_Ret_inv in Hrun; destruct Hrun as (? & ? & _ & Hrun)).
  unfold ret in Hrun. congruence.
Qed.

(** X7.  [SetReadDeadline] with a time that has passed makes a
    [Read] that finds no data return the timeout error, whichever of the
    pending read event and the timer the scheduler takes first; after
    [SetReadDeadline] with the zero time the same [Read] waits. *)
Theorem Read_deadline (w : World) (sid : nat) (s : UDPSession)
    (dst : list byte) (t : Z) :
  heap w !! sid = Some s ->
  bufptr s = [] ->
  KCP_PeekSize (kcp s) <= 0 ->
  socketReadError s = None ->
  die s = false ->
  (t <= now w ->
   exists w1 w2,
     SetReadDeadline sid (Some t) w = Ret None w1
     /\ Read sid dst w1 = Ret (dst, 0, Some errTimeout) w2)
  /\ (exists w1,
        SetReadDeadline sid None w = Ret None w1
        /\ Read sid dst w1 = Blocks).
Proof.
  intros Hs Hb Hp He Hd. split.
  - intros Ht. eexists.
    rewrite (SetReadDeadline_run w sid s (Some t) Hs).
    match goal with
    | |- exists w2, Ret _ ?W = _ /\ _ =>
        destruct (Read_expired W sid (set_chReadEvent true (set_rd (Some t) s))
                    dst) as (w2 & Hr);
          [cbn; apply lookup_insert_eq | exact Hb | exact Hp | exact He
          | exact Hd | cbn; apply Z.leb_le; exact Ht |]
    end.
    exists w2. split; [reflexivity | exact Hr].
  - eexists. rewrite (SetReadDeadline_run w sid s None Hs).
    split; [reflexivity |].
    apply (Read_waits _ sid (set_chReadEvent true (set_rd None s)));
      [cbn; apply lookup_insert_eq | exact Hb | exact Hp | exact He
      | exact Hd | reflexivity].
Qed.

(** X8.  [SetWriteDeadline] with a time that has passed makes
    [WriteBuffers] return the timeout error when the window is closed;
    when the window is open, a write that returns does so without error:
    the deadline is looked at only by a writer that has to wait. *)
Theorem Write_deadline (w : World) (sid : nat) (s : UDPSession)
    (v : list (list byte)) (t : Z) :
  heap w !! sid = Some s ->
  socketWriteError s = None ->
  die s = false ->
  t <= now w ->
  exists w1,
    SetWriteDeadline sid (Some t) w = Ret None w1
    /\ (window_open (kcp s) (KCP_WaitSnd (kcp s)) = false ->
        exists w2, WriteBuffers sid v w1 = Ret (0, Some errTimeout) w2)
    /\ (window_open (kcp s) (KCP_WaitSnd (kcp s)) = true ->
        forall n e w2, WriteBuffers sid v w1 = Ret (n, e) w2 -> e = None).
Proof.
  intros Hs He Hd Ht. eexists.
  rewrite (SetWriteDeadline_run w sid s (Some t) Hs).
  split; [reflexivity |]. split.
  - intros Hw.
    apply (WriteBuffers_expired _ sid
             (set_chWriteEvent true (set_wd (Some t) s)));
      [cbn; apply lookup_insert_eq | exact He | exact Hd | exact Hw
      | cbn; apply Z.leb_le; exact Ht].
  - intros Hw n e w2 Hrun.
    refine (WriteBuffers_admitted _ w2 sid
              (set_chWriteEvent true (set_wd (Some t) s)) v n e
              _ He Hd Hw Hrun).
    cbn. apply lookup_insert_eq.
Qed.

(** X9.  [SetDeadline] sets both deadlines and signals both events:
    with a time that has passed, an idle [Read] and a [WriteBuffers] on
    a closed window both return the timeout error. *)
Theorem SetDeadline_both (w : World) (sid : nat) (s : UDPSession)
    (dst : list byte) (v : list (list byte)) (t : Z) :
  heap w !! sid = Some s ->
  bufptr s = [] ->
  KCP_PeekSize (kcp s) <= 0 ->
  window_open (kcp s) (KCP_WaitSnd (kcp s)) = false ->
  socketReadError s = None ->
  socketWriteError s = None ->
  die s = false ->
  t <= now w ->
  exists w1 s1,
    SetDeadline sid (Some t) w = Ret None w1
    /\ heap w1 = <[sid := s1]> (heap w)
    /\ rd s1 = Some t /\ wd s1 = Some t
    /\ chReadEvent s1 = true /\ chWriteEvent s1 = true
    /\ (exists w2, Read sid dst w1 = Ret (dst, 0, Some errTimeout) w2)
    /\ (exists w2, WriteBuffers sid v w1 = Ret (0, Some errTimeout) w2).
Proof.
  intros Hs Hb Hp Hw Her Hew Hd Ht.
  set (s1 := set_chWriteEvent true
               (set_chReadEvent true (set_wd (Some t) (set_rd (Some t) s)))).
  eexists _, s1. rewrite (SetDeadline_run w sid s (Some t) Hs).
  split; [reflexivity |].
  split; [reflexivity |].
  repeat (split; [reflexivity |]).
  split.
  - apply (Read_expired _ sid s1);
      [cbn; apply lookup_insert_eq | exact Hb | exact Hp | exact Her
      | exact Hd | cbn; apply Z.leb_le; exact Ht].
  - apply (WriteBuffers_expired _ sid s1);
      [cbn; apply lookup_insert_eq | exact Hew | exact Hd | exact Hw
      | cbn; apply Z.leb_le; exact Ht].
Qed.

End Deadlines.

Section Refused.
Context {ext : Externals}.

(** ** Writes that are refused *)

Lemma write_guard_In (s : UDPSession) (x : GuardCase) :
  In x (write_guard s) ->
  match x with
  | GuardSocketError => exists e, socketWriteError s = Some e
  | GuardDie => die s = true
  end.
Proof.
  unfold write_guard.
  destruct (socketWriteError s) as [e|], (die s); cbn;
    intros H; repeat (destruct H as [H | H]); try contradiction;
    subst x; eauto.
Qed.

Lemma write_ready_In (s : UDPSession) (t : Z) (x : WakeCase) :
  In x (write_ready s t) ->
  match x with
  | WakeEvent => chWriteEvent s = true
  | WakeTimer => expired (wd s) t = true
  | WakeSocketError => exists e, socketWriteError s = Some e
  | WakeDie => die s = true
  end.
Proof.
  unfold write_ready.
  destruct (chWriteEvent s), (expired (wd s) t),
    (socketWriteError s) as [e|], (die s); cbn;
    intros H; repeat (destruct H as [H | H]); try contradiction;
    subst x; eauto.
Qed.

(** X10.  On a session that is closed, or whose socket has
    reported a write error, [WriteBuffers] returns 0 and one of these
    two errors at once: nothing is locked, sent or logged, and only the
    choice of the scheduler between the two is consumed. *)
Theorem WriteBuffers_refused (w : World) (sid : nat) (s : UDPSession)
    (v : list (list byte)) :
  heap w !! sid = Some s ->
  die s = true \/ socketWriteError s <> None ->
  exists e r,
    WriteBuffers sid v w = Ret (0, Some e) (set_rand r w)
    /\ (e = ErrClosedPipe /\ die s = true \/ socketWriteError s = Some e).
Proof.
  intros Hs Hc.
  assert (Hne : write_guard s <> []).
  { unfold write_guard. destruct Hc as [Hd | He].
    - rewrite Hd. destruct (is_some (socketWriteError s)); discriminate.
    - destruct (socketWriteError s); [discriminate | congruence]. }
  unfold WriteBuffers. cbn [WriteBuffers_loop].
  unfold bind at 1. rewrite (getS_ok _ _ _ Hs).
  destruct (choose_In (write_guard s) w Hne) as (x & r & Hch & Hin).
  unfold bind at 1. rewrite Hch.
  apply write_guard_In in Hin. destruct x.
  - destruct Hin as (e & He). rewrite He. cbn.
    exists e, r. split; [reflexivity | right; reflexivity].
  - exists ErrClosedPipe, r. split; [reflexivity | left; auto].
Qed.

(** X11.  While the window is closed [WriteBuffers] hands
    nothing to [Send].  On an open session without socket error it waits
    when there is neither a deadline nor a pending write event; when it
    returns, it returns 0 and the timeout error, its deadline has
    passed, the ARQ instance is as it was, and the log shows only the
    mutex and [WaitSnd]. *)
Theorem WriteBuffers_window_closed (w : World) (sid : nat) (s : UDPSession)
    (v : list (list byte)) :
  heap w !! sid = Some s ->
  socketWriteError s = None ->
  die s = false ->
  window_open (kcp s) (KCP_WaitSnd (kcp s)) = false ->
  (chWriteEvent s = false -> wd s = None -> WriteBuffers sid v w = Blocks)
  /\ (forall n e w',
        WriteBuffers sid v w = Ret (n, e) w' ->
        n = 0 /\ e = Some errTimeout /\ expired (wd s) (now w) = true
        /\ exists s' evs,
             heap w' = <[sid := s']> (heap w)
             /\ kcp s' = kcp s
             /\ trace w' = trace w ++ evs
             /\ Forall (fun ev => ev = EvLock sid \/ ev = EvUnlock sid
                                  \/ ev = EvKCP sid CallWaitSnd) evs).
Proof.
  intros Hs He Hd Hw.
  assert (Hg : forall x, kcp x = kcp s -> socketWriteError x = None ->
                         die x = false -> write_guard x = []).
  { intros x _ Hex Hdx. unfold write_guard. rewrite Hex, Hdx. reflexivity. }
  (* one pass that finds no write event pending *)
  assert (Hlast : forall fuel w0 s0 n e w',
             heap w0 !! sid = Some s0 ->
             kcp s0 = kcp s -> socketWriteError s0 = None ->
             die s0 = false -> wd s0 = wd s -> chWriteEvent s0 = false ->
             WriteBuffers_loop (S fuel) sid v w0 = Ret (n, e) w' ->
             n = 0 /\ e = Some errTimeout /\ expired (wd s) (now w0) = true
             /\ heap w' = heap w0
             /\ trace w' = trace w0 ++ [EvLock sid; EvKCP sid CallWaitSnd;
                                        EvUnlock sid]).
  { intros fuel w0 s0 n e w' H0 Hk He0 Hd0 Hwd Hev Hrun.
    rewrite (WriteBuffers_loop_pass fuel w0 sid s0 v H0) in Hrun
      by (apply Hg; assumption).
    rewrite Hk, Hw in Hrun.
    unfold bind at 1 in Hrun. cbn [emit] in Hrun.
    unfold bind at 1 in Hrun. cbn [getNow set_trace now] in Hrun.
    apply bind_Ret_inv in Hrun. destruct Hrun as (c & w1 & Hc & Hrun).
    match type of Hc with
    | choose ?R ?W = _ =>
        destruct (choose_cases R W) as (c' & r & Hc' & Hcase)
    end.
    rewrite Hc' in Hc. injection Hc as -> <-.
    destruct Hcase as [[-> _] | (x & -> & Hin)]; [discriminate Hrun |].
    apply write_ready_In in Hin. destruct x.
    - congruence.
    - rewrite Hwd in Hin. unfold ret in Hrun. injection Hrun as <- <- <-.
      cbn. rewrite <- app_assoc. auto.
    - destruct Hin as (e0 & He0'). congruence.
    - congruence. }
  split.
  - intros Hev Hwd. unfold WriteBuffers.
    rewrite (WriteBuffers_loop_pass 1 w sid s v Hs) by (apply Hg; auto).
    rewrite Hw.
    unfold bind at 1. cbn [emit].
    unfold bind at 1. cbn [getNow set_trace now].
    unfold write_ready. rewrite Hev, Hwd, He, Hd. reflexivity.
  - intros n e w' Hrun.
    destruct (chWriteEvent s) eqn:Ev.
    + unfold WriteBuffers in Hrun.
      rewrite (WriteBuffers_loop_pass 1 w sid s v Hs) in Hrun
        by (apply Hg; auto).
      rewrite Hw in Hrun.
      unfold bind at 1 in Hrun. cbn [emit] in Hrun.
      unfold bind at 1 in Hrun. cbn [getNow set_trace now] in Hrun.
      apply bind_Ret_inv in Hrun. destruct Hrun as (c & w1 & Hc & Hrun).
      match type of Hc with
      | choose ?R ?W = _ =>
          destruct (choose_cases R W) as (c' & r & Hc' & Hcase)
      end.
      rewrite Hc' in Hc. injection Hc as -> <-.
      destruct Hcase as [[-> _] | (x & -> & Hin)]; [discriminate Hrun |].
      apply write_ready_In in Hin. destruct x.
      * apply bind_Ret_inv in Hrun. destruct Hrun as ([] & w2 & Hm & Hrun).
        erewrite modS_ok in Hm by (cbn; exact Hs).
        injection Hm as <-.
        apply (Hlast 0%nat _ (set_chWriteEvent false s)) in Hrun;
          [| cbn; apply lookup_insert_eq | reflexivity | exact He | exact Hd
           | reflexivity | reflexivity ].
        destruct Hrun as (-> & -> & Hx & Hh & Ht).
        split; [reflexivity |]. split; [reflexivity |].
        split; [exact Hx |].
        exists (set_chWriteEvent false s),
          ([EvLock sid; EvKCP sid CallWaitSnd; EvUnlock sid]
           ++ [EvLock sid; EvKCP sid CallWaitSnd; EvUnlock sid]).
        split; [rewrite Hh; reflexivity |].
        split; [reflexivity |].
        split; [rewrite Ht; cbn; rewrite <- !app_assoc; reflexivity |].
        cbn [app]. repeat (apply List.Forall_cons; [auto |]). apply List.Forall_nil.
      * unfold ret in Hrun. injection Hrun as <- <- <-.
        split; [reflexivity |]. split; [reflexivity |].
        split; [exact Hin |].
        exists s, [EvLock sid; EvKCP sid CallWaitSnd; EvUnlock sid].
        split; [cbn; symmetry; apply insert_id; exact Hs |].
        split; [reflexivity |].
        split; [cbn; rewrite <- app_assoc; reflexivity |].
        cbn [app]. repeat (apply List.Forall_cons; [auto |]). apply List.Forall_nil.
      * destruct Hin as (e0 & He0). congruence.
      * congruence.
    + apply (Hlast 1%nat w s) in Hrun; auto.
      destruct Hrun as (-> & -> & Hx & Hh & Ht).
      split; [reflexivity |]. split; [reflexivity |].
      split; [exact Hx |].
      exists s, [EvLock sid; EvKCP sid CallWaitSnd; EvUnlock sid].
      split; [rewrite Hh; symmetry; apply insert_id; exact Hs |].
      split; [reflexivity |].
      split; [exact Ht |].
      repeat (apply List.Forall_cons; [auto |]). apply List.Forall_nil.
Qed.

End Refused.

Section Segments.
Context {ext : Externals}.

(** ** The segments of a write

    [Send] does not change [mss] in kcp.go; the statement below is for
    every ARQ instance with that property. *)

Hypothesis Send_keeps_mss : forall k b, mss (KCP_Send k b) = mss k.

Lemma sent_app (sid : nat) (a b : list Event) :
  sent sid (a ++ b) = sent sid a ++ sent sid b.
Proof. unfold sent. apply flat_map_app. Qed.

Lemma sent_Send (sid : nat) (b : list byte) :
  sent sid [EvKCP sid (CallSend b)] = [b].
Proof. unfold sent. cbn. rewrite Nat.eqb_refl. reflexivity. Qed.

Lemma kcpSend_run (w : World) (sid : nat) (s : UDPSession) (b : list byte) :
  heap w !! sid = Some s ->
  kcpSend sid b w
  = Ret tt (set_heap (<[sid := set_kcp (KCP_Send (kcp s) b) s]> (heap w))
              (set_trace (trace w ++ [EvKCP sid (CallSend b)]) w)).
Proof.
  intros Hs. unfold kcpSend.
  unfold bind at 1. rewrite (getS_ok _ _ _ Hs).
  unfold bind at 1. cbn [emit].
  erewrite modS_ok by (cbn; exact Hs). reflexivity.
Qed.

Lemma send_segments_chunks (fuel : nat) (sid : nat) (b : list byte)
    (w w' : World) (s : UDPSession) :
  heap w !! sid = Some s ->
  send_segments fuel sid b w = Ret tt w' ->
  exists evs s',
    trace w' = trace w ++ evs
    /\ heap w' = <[sid := s']> (heap w)
    /\ mss (kcp s') = mss (kcp s)
    /\ concat (sent sid evs) = b
    /\ sent sid evs <> []
    /\ Forall (fun seg => Z.of_nat (length seg) <= mss (kcp s))
              (sent sid evs).
Proof.
  revert b w s. induction fuel as [| fuel IH]; intros b w s Hs Hrun;
    [discriminate |].
  cbn [send_segments] in Hrun.
  unfold bind at 1 in Hrun. rewrite (getS_ok _ _ _ Hs) in Hrun.
  destruct (Z.of_nat (length b) <=? mss (kcp s)) eqn:E.
  - apply Z.leb_le in E. rewrite (kcpSend_run _ _ _ _ Hs) in Hrun.
    injection Hrun as <-.
    exists [EvKCP sid (CallSend b)], (set_kcp (KCP_Send (kcp s) b) s).
    rewrite sent_Send. cbn.
    split; [reflexivity |]. split; [reflexivity |].
    split; [apply Send_keeps_mss |].
    split; [apply app_nil_r |]. split; [discriminate |].
    repeat constructor. exact E.
  - apply Z.leb_gt in E.
    destruct (mss (kcp s) <? 0) eqn:E0; [discriminate |].
    apply Z.ltb_ge in E0.
    unfold bind at 1 in Hrun. rewrite (kcpSend_run _ _ _ _ Hs) in Hrun.
    set (hd := firstn (Z.to_nat (mss (kcp s))) b) in *.
    apply IH with (s := set_kcp (KCP_Send (kcp s) hd) s) in Hrun;
      [| cbn; apply lookup_insert_eq].
    destruct Hrun as (evs & s' & Ht & Hh & Hm & Hc & Hne & Hall).
    cbn in Ht, Hh, Hm, Hall. rewrite insert_insert_eq in Hh.
    rewrite Send_keeps_mss in Hm, Hall.
    exists (EvKCP sid (CallSend hd) :: evs), s'.
    change (EvKCP sid (CallSend hd) :: evs)
      with ([EvKCP sid (CallSend hd)] ++ evs).
    rewrite sent_app, sent_Send. cbn [app concat].
    split; [rewrite Ht, <- app_assoc; reflexivity |].
    split; [exact Hh |]. split; [exact Hm |].
    split; [rewrite Hc; apply firstn_skipn |].
    split; [discriminate |].
    constructor; [| exact Hall].
    subst hd. rewrite length_firstn. lia.
Qed.

Lemma send_slices_chunks (sid : nat) (v : list (list byte)) (n0 n : Z)
    (w w' : World) (s : UDPSession) :
  heap w !! sid = Some s ->
  send_slices sid v n0 w = Ret n w' ->
  exists evs s',
    trace w' = trace w ++ evs
    /\ heap w' = <[sid := s']> (heap w)
    /\ mss (kcp s') = mss (kcp s)
    /\ concat (sent sid evs) = concat v
    /\ (length v <= length (sent sid evs))%nat
    /\ Forall (fun seg => Z.of_nat (length seg) <= mss (kcp s))
              (sent sid evs).
Proof.
  revert n0 w s. induction v as [| b v IH]; intros n0 w s Hs Hrun.
  - injection Hrun as _ <-. exists [], s. cbn.
    split; [symmetry; apply app_nil_r |].
    split; [symmetry; apply insert_id; exact Hs |].
    split; [reflexivity |]. split; [reflexivity |]. split; [lia | constructor].
  - cbn [send_slices] in Hrun. apply bind_Ret_inv in Hrun.
    destruct Hrun as ([] & w1 & Hseg & Hrun).
    destruct (send_segments_chunks _ _ _ _ _ _ Hs Hseg)
      as (evs1 & s1 & Ht1 & Hh1 & Hm1 & Hc1 & Hne1 & Hall1).
    assert (Hs1 : heap w1 !! sid = Some s1)
      by (rewrite Hh1; apply lookup_insert_eq).
    destruct (IH _ _ _ Hs1 Hrun)
      as (evs2 & s2 & Ht2 & Hh2 & Hm2 & Hc2 & Hlen2 & Hall2).
    exists (evs1 ++ evs2), s2. rewrite sent_app.
    split; [rewrite Ht2, Ht1, <- app_assoc; reflexivity |].
    split; [rewrite Hh2, Hh1; apply insert_insert_eq |].
    split; [congruence |].
    split; [rewrite concat_app, Hc1, Hc2; reflexivity |].
    split.
    + rewrite length_app. cbn [length].
      destruct (sent sid evs1); [contradiction | cbn; lia].
    + apply Forall_app. split; [exact Hall1 |].
      rewrite Hm1 in Hall2. exact Hall2.
Qed.

Lemma sent_none (sid : nat) (evs : list Event) :
  Forall (fun ev => forall b, ev <> EvKCP sid (CallSend b)) evs ->
  sent sid evs = [].
Proof.
  induction 1 as [| ev evs Hev _ IH]; [reflexivity |].
  unfold sent in *. cbn [flat_map]. rewrite IH, app_nil_r.
  destruct ev as [| | i c | | | | | | |]; try reflexivity.
  destruct c; try reflexivity.
  destruct (Nat.eqb_spec i sid) as [-> | ?]; [| reflexivity].
  exfalso. eapply Hev. reflexivity.
Qed.

Lemma kcpWaitSnd_trace (sid : nat) (w w' : World) (n : Z) :
  kcpWaitSnd sid w = Ret n w' ->
  trace w' = trace w ++ [EvKCP sid CallWaitSnd] /\ heap w' = heap w.
Proof.
  intros H. unfold kcpWaitSnd in H.
  apply bind_Ret_inv in H. destruct H as (s & w1 & Hg & H).
  unfold getS in Hg. destruct (heap w !! sid); [| discriminate].
  injection Hg as _ <-.
  unfold bind, emit, ret in H. injection H as _ <-. auto.
Qed.

(** X12.  Segmentation.  For an ARQ instance whose [Send] keeps
    [mss], the payloads that a successful [WriteBuffers] hands to [Send]
    concatenate, in order, to the bytes of its slices; none is longer
    than [mss]; and every slice, an empty one included, gives at least
    one call. *)
Theorem WriteBuffers_segments (w w' : World) (sid : nat) (s : UDPSession)
    (v : list (list byte)) (n : Z) :
  heap w !! sid = Some s ->
  WriteBuffers sid v w = Ret (n, None) w' ->
  exists evs,
    trace w' = trace w ++ evs
    /\ concat (sent sid evs) = concat v
    /\ (length v <= length (sent sid evs))%nat
    /\ Forall (fun seg => Z.of_nat (length seg) <= mss (kcp s))
              (sent sid evs).
Proof.
  intros Hs Hrun.
  destruct (WriteBuffers_returns_open w w' sid s v n Hs Hrun)
    as (Hlt & _ & He & Hd).
  unfold WriteBuffers in Hrun.
  rewrite (WriteBuffers_loop_pass 1 w sid s v Hs) in Hrun
    by (unfold write_guard; rewrite He, Hd; reflexivity).
  replace (window_open (kcp s) (KCP_WaitSnd (kcp s))) with true in Hrun
    by (symmetry; unfold window_open; apply andb_true_iff;
        split; apply Z.ltb_lt; lia).
  apply bind_Ret_inv in Hrun. destruct Hrun as (n1 & w1 & Hsend & Hrun).
  apply bind_Ret_inv in Hrun. destruct Hrun as (ws & w2 & Hws & Hrun).
  apply bind_Ret_inv in Hrun. destruct Hrun as (s2 & w3 & Hg & Hrun).
  apply bind_Ret_inv in Hrun. destruct Hrun as ([] & w4 & Hfl & Hrun).
  unfold bind, emit, modSnmp, ret in Hrun. injection Hrun as _ <-.
  destruct (fun H => send_slices_chunks sid v 0 n1 _ w1 s H Hsend) as
    (evs & s1 & Ht1 & _ & _ & Hc & Hlen & Hall);
    [cbn; exact Hs |].
  cbn [trace set_trace] in Ht1.
  apply kcpWaitSnd_trace in Hws. destruct Hws as [Ht2 _].
  apply (keeps_getS _ same_trace_frame) in Hg. cbn beta in Hg.
  assert (Ht4 : exists tl, trace w4 = trace w3 ++ tl
                           /\ (tl = [] \/ tl = [EvKCP sid (CallFlush false)])).
  { unfold when_ in Hfl. destruct (negb _ || negb _).
    - apply bind_Ret_inv in Hfl. destruct Hfl as (iv & w5 & Hfl & Hr).
      injection Hr as <-. apply kcpFlush_trace in Hfl.
      eexists. split; [exact Hfl | right; reflexivity].
    - injection Hfl as <-. exists []. split; [symmetry; apply app_nil_r | auto]. }
  destruct Ht4 as (tl & Ht4 & Htl).
  exists ([EvLock sid; EvKCP sid CallWaitSnd] ++ evs
          ++ [EvKCP sid CallWaitSnd] ++ tl ++ [EvUnlock sid]).
  assert (Hnone : sent sid ([EvKCP sid CallWaitSnd] ++ tl ++ [EvUnlock sid])
                  = []).
  { apply sent_none. destruct Htl as [-> | ->]; cbn [app];
      repeat (apply List.Forall_cons; [intros b; discriminate |]);
      apply List.Forall_nil. }
  split.
  - cbn [trace set_trace set_DefaultSnmp]. rewrite Ht4, Hg, Ht2, Ht1.
    rewrite <- !app_assoc. reflexivity.
  - rewrite sent_app, (sent_app sid evs), Hnone, app_nil_r.
    cbn [sent flat_map app]. auto.
Qed.

End Segments.

Section WriteCalls.
Context {ext : Externals}.

(** ** The calls of a successful write *)

Lemma send_segments_sends (fuel : nat) (sid : nat) (b : list byte)
    (w w' : World) (s : UDPSession) :
  heap w !! sid = Some s ->
  send_segments fuel sid b w = Ret tt w' ->
  exists segs,
    concat segs = b
    /\ trace w' = trace w ++ map (fun x => EvKCP sid (CallSend x)) segs
    /\ heap w' = <[sid := set_kcp (fold_left KCP_Send segs (kcp s)) s]> (heap w).
Proof.
  revert b w s. induction fuel as [| fuel IH]; intros b w s Hs Hrun;
    [discriminate |].
  cbn [send_segments] in Hrun.
  unfold bind at 1 in Hrun. rewrite (getS_ok _ _ _ Hs) in Hrun.
  destruct (Z.of_nat (length b) <=? mss (kcp s)).
  - rewrite (kcpSend_run _ _ _ _ Hs) in Hrun. injection Hrun as <-.
    exists [b]. cbn. rewrite app_nil_r. auto.
  - destruct (mss (kcp s) <? 0); [discriminate |].
    unfold bind at 1 in Hrun. rewrite (kcpSend_run _ _ _ _ Hs) in Hrun.
    set (hd := firstn (Z.to_nat (mss (kcp s))) b) in *.
    apply IH with (s := set_kcp (KCP_Send (kcp s) hd) s) in Hrun;
      [| cbn; apply lookup_insert_eq].
    destruct Hrun as (segs & Hc & Ht & Hh).
    exists (hd :: segs). cbn in Ht, Hh |- *.
    split; [rewrite Hc; apply firstn_skipn |].
    split; [rewrite Ht, <- app_assoc; reflexivity |].
    rewrite Hh, insert_insert_eq. reflexivity.
Qed.

Lemma send_slices_sends (sid : nat) (v : list (list byte)) (n0 n : Z)
    (w w' : World) (s : UDPSession) :
  heap w !! sid = Some s ->
  send_slices sid v n0 w = Ret n w' ->
  exists segs,
    concat segs = concat v
    /\ trace w' = trace w ++ map (fun x => EvKCP sid (CallSend x)) segs
    /\ heap w' = <[sid := set_kcp (fold_left KCP_Send segs (kcp s)) s]> (heap w).
Proof.
  revert n0 w s. induction v as [| b v IH]; intros n0 w s Hs Hrun.
  - injection Hrun as _ <-. exists []. cbn.
    split; [reflexivity |]. split; [symmetry; apply app_nil_r |].
    rewrite set_kcp_id. symmetry. apply insert_id. exact Hs.
  - cbn [send_slices] in Hrun. apply bind_Ret_inv in Hrun.
    destruct Hrun as ([] & w1 & Hseg & Hrun).
    destruct (send_segments_sends _ _ _ _ _ _ Hs Hseg) as (s1 & Hc1 & Ht1 & Hh1).
    eapply IH in Hrun; [| rewrite Hh1; apply lookup_insert_eq].
    destruct Hrun as (s2 & Hc2 & Ht2 & Hh2).
    exists (s1 ++ s2). cbn in Hh2 |- *.
    split; [rewrite concat_app, Hc1, Hc2; reflexivity |].
    split; [rewrite Ht2, Ht1, map_app, <- app_assoc; reflexivity |].
    rewrite Hh2, Hh1, insert_insert_eq, fold_left_app. reflexivity.
Qed.

Lemma SetWriteDelay_run (w : World) (sid : nat) (s : UDPSession)
    (delay : bool) :
  heap w !! sid = Some s ->
  SetWriteDelay sid delay w
  = Ret tt (set_trace (trace w ++ [EvLock sid; EvUnlock sid])
              (set_heap (<[sid := set_writeDelay delay s]> (heap w)) w)).
Proof.
  intros Hs. unfold SetWriteDelay. run_with Hs.
  rewrite <- app_assoc. reflexivity.
Qed.

(** X13.  After [SetWriteDelay(delay)] the calls that a
    successful [WriteBuffers] makes under the mutex are [WaitSnd], the
    [Send]s of its segments, [WaitSnd] again, and then [flush] exactly
    when the window is full after the sends or [delay] is off. *)
Theorem WriteDelay_defers_flush (w : World) (sid : nat) (s : UDPSession)
    (delay : bool) :
  heap w !! sid = Some s ->
  exists w1,
    SetWriteDelay sid delay w = Ret tt w1
    /\ forall v n w2,
         WriteBuffers sid v w1 = Ret (n, None) w2 ->
         exists segs,
           let k2 := fold_left KCP_Send segs (kcp s) in
           concat segs = concat v
           /\ trace w2
              = trace w1
                ++ [EvLock sid; EvKCP sid CallWaitSnd]
                ++ map (fun b => EvKCP sid (CallSend b)) segs
                ++ [EvKCP sid CallWaitSnd]
                ++ (if negb (window_open k2 (KCP_WaitSnd k2)) || negb delay
                    then [EvKCP sid (CallFlush false)] else [])
                ++ [EvUnlock sid].
Proof.
  intros Hs. eexists. split; [apply (SetWriteDelay_run w sid s delay Hs) |].
  set (s1 := set_writeDelay delay s).
  match goal with
  | |- forall v n w2, WriteBuffers _ _ ?W = _ -> _ => set (w1 := W)
  end.
  assert (H1 : heap w1 !! sid = Some s1) by (cbn; apply lookup_insert_eq).
  intros v n w2 Hrun.
  destruct (WriteBuffers_returns_open w1 w2 sid s1 v n H1 Hrun)
    as (Hlt & _ & He & Hd).
  unfold WriteBuffers in Hrun.
  rewrite (WriteBuffers_loop_pass 1 w1 sid s1 v H1) in Hrun
    by (unfold write_guard; rewrite He, Hd; reflexivity).
  replace (window_open (kcp s1) (KCP_WaitSnd (kcp s1))) with true in Hrun
    by (symmetry; unfold window_open; apply andb_true_iff;
        split; apply Z.ltb_lt; lia).
  apply bind_Ret_inv in Hrun. destruct Hrun as (n1 & wa & Hsend & Hrun).
  eapply send_slices_sends in Hsend; [| cbn; exact H1].
  destruct Hsend as (segs & Hc & Hta & Hha).
  cbn [trace set_trace heap] in Hta, Hha.
  change (kcp s1) with (kcp s) in Hha.
  set (k2 := fold_left KCP_Send segs (kcp s)) in *.
  set (s2 := set_kcp k2 s1) in *.
  assert (H2 : heap wa !! sid = Some s2)
    by (rewrite Hha; apply lookup_insert_eq).
  unfold kcpWaitSnd in Hrun.
  unfold bind at 1 in Hrun. unfold bind at 1 in Hrun.
  rewrite (getS_ok _ _ _ H2) in Hrun.
  unfold bind at 1 in Hrun. cbn [emit ret] in Hrun.
  unfold bind at 1 in Hrun. erewrite getS_ok in Hrun by (cbn; exact H2).
  change (kcp s2) with k2 in Hrun. change (writeDelay s2) with delay in Hrun.
  exists segs. cbn zeta. fold k2. split; [exact Hc |].
  destruct (negb (window_open k2 (KCP_WaitSnd k2)) || negb delay);
    cbn [when_] in Hrun.
  - apply bind_Ret_inv in Hrun. destruct Hrun as ([] & wb & Hfl & Hrun).
    apply bind_Ret_inv in Hfl. destruct Hfl as (iv & wc & Hfl & Hr).
    injection Hr as <-. apply kcpFlush_trace in Hfl.
    cbn [trace set_trace] in Hfl.
    unfold bind, emit, modSnmp, ret in Hrun. injection Hrun as _ <-.
    cbn [trace set_trace set_DefaultSnmp]. rewrite Hfl, Hta.
    rewrite <- !app_assoc. reflexivity.
  - unfold bind, emit, modSnmp, ret in Hrun. injection Hrun as _ <-.
    cbn [trace set_trace set_DefaultSnmp]. rewrite Hta.
    rewrite <- !app_assoc. reflexivity.
Qed.

End WriteCalls.

Section Timer.
Context {ext : Externals}.

(** ** The timer task *)

Lemma session_keeps_frame {T : Type} (sid : nat) (proj : UDPSession -> T) :
  Frame (session_keeps sid proj).
Proof.
  split.
  - intros w s Hs. eauto.
  - intros a b c H1 H2 s Hs. destruct (H1 s Hs) as (s1 & Hs1 & P1).
    destruct (H2 s1 Hs1) as (s2 & Hs2 & P2).
    exists s2. split; [exact Hs2 | congruence].
  - intros w r s Hs. eauto.
Qed.

Lemma session_keeps_trace {T : Type} (sid : nat) (proj : UDPSession -> T) :
  ignores_trace (session_keeps sid proj).
Proof. intros w t s Hs. eauto. Qed.

Lemma session_keeps_snmp {T : Type} (sid : nat) (proj : UDPSession -> T) :
  ignores_snmp (session_keeps sid proj).
Proof. intros w t s Hs. eauto. Qed.

Lemma session_keeps_listener {T : Type} (sid : nat) (proj : UDPSession -> T) :
  ignores_listener (session_keeps sid proj).
Proof. intros w t s Hs. eauto. Qed.

Lemma session_keeps_socks {T : Type} (sid : nat) (proj : UDPSession -> T) :
  ignores_socks (session_keeps sid proj).
Proof. intros w t s Hs. eauto. Qed.

Lemma session_keeps_modS {T : Type} (sid i : nat) (proj : UDPSession -> T)
    (f : UDPSession -> UDPSession) :
  (forall s, proj (f s) = proj s) ->
  keeps (session_keeps sid proj) (modS i f).
Proof.
  intros Hf w a w' H. unfold modS in H.
  destruct (heap w !! i) as [x|] eqn:Ex; [| discriminate].
  injection H as _ <-.
  intros s Hs. cbn. destruct (Nat.eq_dec i sid) as [-> | Hne].
  - rewrite lookup_insert_eq. exists (f x).
    assert (x = s) by congruence. subst x. auto.
  - rewrite lookup_insert_ne by exact Hne. eauto.
Qed.

Lemma session_keeps_output {T : Type} (sid i : nat)
    (proj : UDPSession -> T) (buf : list byte) (size : Z) :
  (forall s q, proj (set_chPostProcessing q s) = proj s) ->
  keeps (session_keeps sid proj) (output i buf size).
Proof.
  intros Hp. pose proof (session_keeps_frame sid proj).
  unfold output. keeps_tac.
  apply session_keeps_modS. intros x. apply Hp.
Qed.

Lemma same_now_frame : Frame (fun w w' => now w' = now w).
Proof.
  split; [reflexivity | intros a b c H1 H2; congruence | reflexivity].
Qed.

Lemma kcpFlush_inv (sid : nat) (ackOnly : bool) (w w' : World)
    (s : UDPSession) (interval : Z) :
  heap w !! sid = Some s ->
  kcpFlush sid ackOnly w = Ret interval w' ->
  interval = snd (fst (KCP_flush (kcp s) ackOnly))
  /\ now w' = now w
  /\ trace w' = trace w ++ [EvKCP sid (CallFlush ackOnly)]
  /\ exists s',
       heap w' !! sid = Some s'
       /\ kcp s' = fst (fst (KCP_flush (kcp s) ackOnly))
       /\ chWriteEvent s' = chWriteEvent s
       /\ die s' = die s.
Proof.
  intros Hs H. unfold kcpFlush in H.
  unfold bind at 1 in H. rewrite (getS_ok _ _ _ Hs) in H.
  unfold bind at 1 in H. cbn [emit] in H.
  destruct (KCP_flush (kcp s) ackOnly) as [[k iv] outs].
  unfold bind at 1 in H. erewrite modS_ok in H by (cbn; exact Hs).
  apply bind_Ret_inv in H. destruct H as ([] & w1 & Ho & H).
  injection H as <- <-.
  assert (Hn : now w1 = now w).
  { apply (keeps_forM_ _ same_now_frame) in Ho; [exact Ho |].
    intros o. apply (keeps_output _ same_now_frame); intros x y; reflexivity. }
  assert (Ht : trace w1 = trace w ++ [EvKCP sid (CallFlush ackOnly)]).
  { apply (keeps_forM_ _ same_trace_frame) in Ho; [exact Ho |].
    intros o. apply output_trace. }
  apply (keeps_forM_ _ (session_keeps_frame sid
                          (fun x => (kcp x, chWriteEvent x, die x)))) in Ho.
  - destruct (Ho (set_kcp k s)) as (s' & Hs' & Hp);
      [cbn; apply lookup_insert_eq |].
    cbn in Hp. injection Hp as Hk He Hd.
    split; [reflexivity |]. split; [exact Hn |]. split; [exact Ht |].
    exists s'. auto.
  - intros o. apply session_keeps_output. intros x q. reflexivity.
Qed.

(** X14.  The timer task.  On a closed session [update] does
    nothing, so that the chain of timers ends.  On an open session it
    flushes under the mutex, asks [WaitSnd], signals the write event
    when the window has room after the flush, and schedules itself again
    at now plus the interval that [flush] returned. *)
Theorem update_reschedules (w : World) (sid : nat) (s : UDPSession) :
  heap w !! sid = Some s ->
  (die s = true -> update sid w = Ret tt w)
  /\ (die s = false ->
      forall w',
        update sid w = Ret tt w' ->
        let k := fst (fst (KCP_flush (kcp s) false)) in
        let interval := snd (fst (KCP_flush (kcp s) false)) in
        trace w'
        = trace w ++ [EvLock sid; EvKCP sid (CallFlush false);
                      EvKCP sid CallWaitSnd; EvUnlock sid;
                      EvTimedSched sid (now w + interval)]
        /\ exists s',
             heap w' !! sid = Some s'
             /\ kcp s' = k
             /\ chWriteEvent s'
                = (window_open k (KCP_WaitSnd k) || chWriteEvent s)).
Proof.
  intros Hs. split.
  - intros Hd. unfold update. unfold bind at 1.
    rewrite (getS_ok _ _ _ Hs), Hd. reflexivity.
  - intros Hd w' H k interval. unfold update in H.
    unfold bind at 1 in H. rewrite (getS_ok _ _ _ Hs), Hd in H.
    unfold bind at 1 in H. cbn [emit] in H.
    apply bind_Ret_inv in H. destruct H as (iv & w1 & Hf & H).
    eapply kcpFlush_inv in Hf; [| cbn; exact Hs].
    destruct Hf as (-> & Hn1 & Ht1 & s1 & Hs1 & Hk1 & He1 & Hd1).
    cbn in Hn1, Ht1.
    unfold kcpWaitSnd in H.
    unfold bind at 1 in H. unfold bind at 1 in H.
    rewrite (getS_ok _ _ _ Hs1) in H.
    unfold bind at 1 in H. cbn [emit ret] in H.
    unfold bind at 1 in H. erewrite getS_ok in H by (cbn; exact Hs1).
    rewrite Hk1 in H. fold k in H.
    destruct (window_open k (KCP_WaitSnd k)) eqn:Ew; cbn [when_ orb] in H |- *.
    + unfold notifyWriteEvent in H.
      unfold bind at 1 in H. erewrite modS_ok in H by (cbn; exact Hs1).
      unfold bind, emit, getNow, ret in H. injection H as <-.
      cbn. rewrite Ht1, Hn1, <- !app_assoc. split; [reflexivity |].
      eexists. rewrite lookup_insert_eq. split; [reflexivity |].
      split; [exact Hk1 | reflexivity].
    + unfold bind, emit, getNow, ret in H. injection H as <-.
      cbn. rewrite Ht1, Hn1, <- !app_assoc. split; [reflexivity |].
      exists s1. auto.
Qed.

End Timer.

Section SocketErrors.
Context {ext : Externals}.

(** ** Socket errors *)

(** An idle reader of a session whose socket has failed. *)
Lemma Read_socket_error (w : World) (sid : nat) (s : UDPSession)
    (dst : list byte) (e : error) :
  heap w !! sid = Some s ->
  bufptr s = [] ->
  KCP_PeekSize (kcp s) <= 0 ->
  socketReadError s = Some e ->
  die s = false ->
  expired (rd s) (now w) = false ->
  exists w', Read sid dst w = Ret (dst, 0, Some e) w'.
Proof.
  intros Hs Hb Hp He Hd Hx.
  assert (Hlast : forall w0 s0,
             heap w0 !! sid = Some s0 -> bufptr s0 = [] ->
             KCP_PeekSize (kcp s0) <= 0 ->
             socketReadError s0 = Some e ->
             read_ready s0 (now w0) = [WakeSocketError] ->
             forall fuel, exists w',
               Read_loop (S fuel) sid dst w0 = Ret (dst, 0, Some e) w').
  { intros w0 s0 H0 Hb0 Hp0 He0 Hr0 fuel.
    rewrite (Read_loop_idle fuel w0 sid s0 dst H0 Hb0 Hp0), Hr0, He0.
    eexists. reflexivity. }
  unfold Read.
  destruct (chReadEvent s) eqn:Ev.
  - rewrite (Read_loop_idle 1 w sid s dst Hs Hb Hp).
    assert (Hready : read_ready s (now w) = [WakeEvent; WakeSocketError]).
    { unfold read_ready. rewrite Ev, Hx, He, Hd. reflexivity. }
    rewrite Hready.
    match goal with
    | |- exists w2, bind (choose _) _ ?W = _ =>
        destruct (choose_two WakeEvent WakeSocketError W) as (r & [Hc | Hc])
    end.
    + unfold bind at 1. rewrite Hc.
      match goal with
      | |- exists w2, bind (modS _ _) _ ?W = _ =>
          assert (H2 : heap W !! sid = Some s) by (cbn; exact Hs)
      end.
      unfold bind at 1. rewrite (modS_ok _ _ _ _ H2).
      apply (Hlast _ (set_chReadEvent false s));
        [cbn; apply lookup_insert_eq | exact Hb | exact Hp | exact He |].
      unfold read_ready. cbn. rewrite Hx, He, Hd. reflexivity.
    + unfold bind at 1. rewrite Hc. rewrite He. eexists. reflexivity.
  - apply (Hlast w s Hs Hb Hp He).
    unfold read_ready. rewrite Ev, Hx, He, Hd. reflexivity.
Qed.

Lemma notifyReadError_run (w : World) (sid : nat) (s : UDPSession)
    (err : error) :
  heap w !! sid = Some s ->
  notifyReadError sid err w
  = Ret tt (if is_some (socketReadError s) then w
            else set_heap
                   (<[sid := set_socketReadError (Some err) s]> (heap w)) w).
Proof.
  intros Hs. unfold notifyReadError.
  unfold bind at 1. rewrite (getS_ok _ _ _ Hs).
  destruct (is_some (socketReadError s)); [reflexivity |].
  apply modS_ok. exact Hs.
Qed.

Lemma notifyWriteError_run (w : World) (sid : nat) (s : UDPSession)
    (err : error) :
  heap w !! sid = Some s ->
  notifyWriteError sid err w
  = Ret tt (if is_some (socketWriteError s) then w
            else set_heap
                   (<[sid := set_socketWriteError (Some err) s]> (heap w)) w).
Proof.
  intros Hs. unfold notifyWriteError.
  unfold bind at 1. rewrite (getS_ok _ _ _ Hs).
  destruct (is_some (socketWriteError s)); [reflexivity |].
  apply modS_ok. exact Hs.
Qed.

(** X15.  The first socket error sticks: of two calls of
    [notifyReadError] (of [notifyWriteError]) only the first is stored;
    on an open session an idle [Read] then returns that error, and
    [WriteBuffers] returns it at once. *)
Theorem first_socket_error_sticks (w : World) (sid : nat) (s : UDPSession)
    (e1 e2 : error) (dst : list byte) (v : list (list byte)) :
  heap w !! sid = Some s ->
  die s = false ->
  (socketReadError s = None ->
   exists w1,
     bind (notifyReadError sid e1) (fun _ => notifyReadError sid e2) w
     = Ret tt w1
     /\ heap w1 = <[sid := set_socketReadError (Some e1) s]> (heap w)
     /\ (bufptr s = [] -> KCP_PeekSize (kcp s) <= 0 ->
         expired (rd s) (now w) = false ->
         exists w2, Read sid dst w1 = Ret (dst, 0, Some e1) w2))
  /\ (socketWriteError s = None ->
      exists w1,
        bind (notifyWriteError sid e1) (fun _ => notifyWriteError sid e2) w
        = Ret tt w1
        /\ heap w1 = <[sid := set_socketWriteError (Some e1) s]> (heap w)
        /\ exists r, WriteBuffers sid v w1 = Ret (0, Some e1) (set_rand r w1)).
Proof.
  intros Hs Hd. split.
  - intros He.
    set (s1 := set_socketReadError (Some e1) s).
    set (w1 := set_heap (<[sid := s1]> (heap w)) w).
    assert (H1 : heap w1 !! sid = Some s1) by (cbn; apply lookup_insert_eq).
    exists w1. split; [| split; [reflexivity |]].
    + unfold bind. rewrite (notifyReadError_run w sid s e1 Hs), He.
      cbn [is_some]. fold s1. fold w1.
      rewrite (notifyReadError_run w1 sid s1 e2 H1). reflexivity.
    + intros Hb Hp Hx.
      apply (Read_socket_error w1 sid s1 dst e1 H1 Hb Hp);
        [reflexivity | exact Hd | exact Hx].
  - intros He.
    set (s1 := set_socketWriteError (Some e1) s).
    set (w1 := set_heap (<[sid := s1]> (heap w)) w).
    assert (H1 : heap w1 !! sid = Some s1) by (cbn; apply lookup_insert_eq).
    exists w1. split; [| split; [reflexivity |]].
    + unfold bind. rewrite (notifyWriteError_run w sid s e1 Hs), He.
      cbn [is_some]. fold s1. fold w1.
      rewrite (notifyWriteError_run w1 sid s1 e2 H1). reflexivity.
    + unfold WriteBuffers. cbn [WriteBuffers_loop].
      unfold bind at 1. rewrite (getS_ok _ _ _ H1).
      assert (Hg : write_guard s1 = [GuardSocketError]).
      { unfold write_guard. cbn. rewrite Hd. reflexivity. }
      rewrite Hg. cbn [choose]. unfold bind at 1. unfold ret at 1.
      cbn [socketWriteError s1 set_socketWriteError socketError].
      exists (rand w1). rewrite set_rand_id. reflexivity.
Qed.

(** What [notifyReadError] does to a session. *)

Lemma notify_all (err : error) (sids : list nat) (w : World) :
  (forall sid, sid ∈ sids -> is_Some (heap w !! sid)) ->
  exists w',
    forM_ sids (fun sid => notifyReadError sid err) w = Ret tt w'
    /\ listener w' = listener w /\ trace w' = trace w /\ now w' = now w
    /\ (forall sid s,
          heap w !! sid = Some s ->
          exists s',
            heap w' !! sid = Some s'
            /\ socketReadError s'
               = (if is_some (socketReadError s) then socketReadError s
                  else if bool_decide (sid ∈ sids) then Some err else None)
            /\ die s' = die s /\ bufptr s' = bufptr s /\ kcp s' = kcp s
            /\ rd s' = rd s).
Proof.
  revert w. induction sids as [| x xs IH]; intros w Hall.
  - exists w. split; [reflexivity |]. repeat (split; [reflexivity |]).
    intros sid s Hs. exists s. split; [exact Hs |].
    split; [| auto].
    destruct (socketReadError s); reflexivity.
  - destruct (Hall x) as (sx & Hx); [apply list_elem_of_here |].
    cbn [forM_]. unfold bind at 1.
    rewrite (notifyReadError_run w x sx err Hx).
    set (w1 := if is_some (socketReadError sx) then w
               else set_heap
                      (<[x := set_socketReadError (Some err) sx]> (heap w)) w).
    assert (H1 : forall sid s,
               heap w !! sid = Some s ->
               exists s1,
                 heap w1 !! sid = Some s1
                 /\ socketReadError s1
                    = (if is_some (socketReadError s) then socketReadError s
                       else if bool_decide (sid = x) then Some err else None)
                 /\ die s1 = die s /\ bufptr s1 = bufptr s /\ kcp s1 = kcp s
                 /\ rd s1 = rd s).
    { intros sid s Hs. subst w1.
      destruct (Nat.eq_dec sid x) as [-> | Hne].
      - assert (sx = s) by congruence. subst sx.
        rewrite bool_decide_eq_true_2 by reflexivity.
        destruct (socketReadError s) as [e|] eqn:E; cbn [is_some].
        + exists s. rewrite E. auto 10.
        + eexists. cbn. rewrite lookup_insert_eq. split; [reflexivity |].
          cbn. auto 10.
      - rewrite bool_decide_eq_false_2 by exact Hne.
        exists s. split.
        + destruct (is_some (socketReadError sx)); [exact Hs |].
          cbn. rewrite lookup_insert_ne by congruence. exact Hs.
        + split; [| auto]. destruct (socketReadError s); reflexivity. }
    assert (Hw1 : listener w1 = listener w /\ trace w1 = trace w
                  /\ now w1 = now w).
    { subst w1. destruct (is_some (socketReadError sx)); auto. }
    destruct Hw1 as (Hl1 & Ht1 & Hn1).
    destruct (IH w1) as (w' & Hrun & Hl & Ht & Hn & Hs').
    { intros sid Hin.
      destruct (Hall sid) as (s & Hs); [apply list_elem_of_further; exact Hin |].
      destruct (H1 sid s Hs) as (s1 & Hs1 & _). eauto. }
    exists w'. split; [exact Hrun |].
    split; [congruence |]. split; [congruence |]. split; [congruence |].
    intros sid s Hs.
    destruct (H1 sid s Hs) as (s1 & Hs1 & E1 & D1 & B1 & K1 & R1).
    destruct (Hs' sid s1 Hs1) as (s2 & Hs2 & E2 & D2 & B2 & K2 & R2).
    exists s2. split; [exact Hs2 |].
    split; [| repeat split; congruence].
    rewrite E2, E1.
    destruct (socketReadError s) as [e|]; cbn [is_some]; [reflexivity |].
    destruct (bool_decide_reflect (sid = x)) as [-> | Hne]; cbn [is_some].
    + rewrite bool_decide_eq_true_2 by apply list_elem_of_here. reflexivity.
    + destruct (bool_decide_reflect (sid ∈ xs)) as [Hin | Hnin].
      * rewrite bool_decide_eq_true_2
          by (apply list_elem_of_further; exact Hin).
        reflexivity.
      * rewrite bool_decide_eq_false_2; [reflexivity |].
        intros H. apply elem_of_cons in H.
        destruct H as [H | H]; [congruence | contradiction].
Qed.

(** X16.  A read error of the listener's socket is stored
    once and handed to every session of the table: a session that had no
    error of its own gets this one, and returns it from an idle [Read];
    a session that had one keeps it.  A second call changes nothing, and
    [AcceptKCP] on an empty queue returns the error. *)
Theorem Listener_read_error_fans_out (w : World) (err : error)
    (c : ListenerCells) :
  l_socketReadError c = None ->
  (forall addr sid,
      l_sessions (listener w) !! addr = Some sid -> is_Some (heap w !! sid)) ->
  let c' := {| l_socketReadError := Some err; l_rd := l_rd c |} in
  exists w',
    Listener_notifyReadError err c w = Ret c' w'
    /\ listener w' = listener w
    /\ (forall addr sid s,
          l_sessions (listener w) !! addr = Some sid ->
          heap w !! sid = Some s ->
          exists s',
            heap w' !! sid = Some s'
            /\ socketReadError s' = Some (default err (socketReadError s))
            /\ (bufptr s = [] -> KCP_PeekSize (kcp s) <= 0 ->
                die s = false -> expired (rd s) (now w) = false ->
                forall dst, exists w2,
                  Read sid dst w'
                  = Ret (dst, 0, Some (default err (socketReadError s))) w2))
    /\ (forall err2, Listener_notifyReadError err2 c' w' = Ret c' w')
    /\ (l_chAccepts (listener w) = [] -> l_die (listener w) = false ->
        expired (l_rd c) (now w) = false ->
        AcceptKCP c' w' = Ret (None, Some err) w').
Proof.
  intros Hc Htab c'.
  destruct (notify_all err (map snd (map_to_list (l_sessions (listener w)))) w)
    as (w' & Hrun & Hl & Ht & Hn & Hs').
  { intros sid Hin. apply list_elem_of_In, in_map_iff in Hin.
    destruct Hin as ([addr sid'] & <- & Hin).
    apply list_elem_of_In, elem_of_map_to_list in Hin. eapply Htab. exact Hin. }
  exists w'. split; [| split; [exact Hl |]; split; [| split]].
  - unfold Listener_notifyReadError. rewrite Hc. cbn [is_some].
    unfold bind at 1. cbn [getL]. unfold bind at 1. rewrite Hrun. reflexivity.
  - intros addr sid s Hin Hs.
    destruct (Hs' sid s Hs) as (s' & Hsid & He & Hd & Hb & Hk & Hr).
    assert (He' : socketReadError s' = Some (default err (socketReadError s))).
    { rewrite He. destruct (socketReadError s) as [e|]; cbn; [reflexivity |].
      rewrite bool_decide_eq_true_2; [reflexivity |].
      apply list_elem_of_In, in_map_iff. exists (addr, sid).
      split; [reflexivity |].
      apply list_elem_of_In, elem_of_map_to_list. exact Hin. }
    exists s'. split; [exact Hsid |]. split; [exact He' |].
    intros Hbp Hpk Hdie Hx dst.
    apply (Read_socket_error w' sid s' dst _ Hsid); try congruence.
  - intros err2. reflexivity.
  - intros Hq Hd Hx.
    unfold AcceptKCP, bind, getL, getNow, accept_ready. cbn beta iota.
    rewrite Hl, Hn, Hq, Hd. cbn [l_rd l_socketReadError c']. rewrite Hx.
    reflexivity.
Qed.

End SocketErrors.

Section Opening.
Context {ext : Externals}.

(** ** Opening and closing a client session *)

Lemma newUDPSession_counts (c ds ps : Z) (l : bool) (cn : nat) (own : bool)
    (rem : string) (blk : option BlockCrypt) (w : World) :
  let sid := fresh (dom (heap w)) in
  let enc := newFECEncoder ds ps
               (if is_some blk then Z.of_nat cryptHeaderSize else 0) in
  exists w2 s2,
    newUDPSession c ds ps l cn own rem blk w = Ret sid w2
    /\ heap w !! sid = None
    /\ heap w2 = <[sid := s2]> (heap w)
    /\ listener w2 = listener w /\ socks w2 = socks w
    /\ kcp s2 = NewKCP c /\ conn s2 = cn /\ ownConn s2 = own
    /\ sess_l s2 = l /\ remote s2 = rem /\ dieOnce s2 = false
    /\ die s2 = false
    /\ headerSize s2
       = ((if is_some blk then cryptHeaderSize else 0)
          + (if is_some enc then fecHeaderSizePlus2 else 0))%nat
    /\ trace w2
       = trace w ++ EvGo sid TaskPostProcess
                 :: (if l then [] else [EvGo sid TaskReadLoop])
                 ++ [EvTimedSched sid (now w)]
    /\ CurrEstab (DefaultSnmp w2) = add64 (CurrEstab (DefaultSnmp w)) 1
    /\ MaxConn (DefaultSnmp w2)
       = Z.max (MaxConn (DefaultSnmp w))
               (add64 (CurrEstab (DefaultSnmp w)) 1)
    /\ ActiveOpens (DefaultSnmp w2)
       = (if l then ActiveOpens (DefaultSnmp w)
          else add64 (ActiveOpens (DefaultSnmp w)) 1)
    /\ PassiveOpens (DefaultSnmp w2)
       = (if l then add64 (PassiveOpens (DefaultSnmp w)) 1
          else PassiveOpens (DefaultSnmp w)).
Proof.
  intros sid enc.
  assert (Hfresh : heap w !! sid = None).
  { apply not_elem_of_dom. apply is_fresh. }
  unfold newUDPSession, bind, draw, alloc, emit, modSnmp, getNow, ret.
  fold enc. cbn [heap set_rand]. fold sid.
  destruct l; cbn.
  - eexists _, _. split; [reflexivity |]. split; [exact Hfresh |].
    split; [reflexivity |].
    repeat (split; [reflexivity |]).
    split; [rewrite <- !app_assoc; reflexivity |].
    split.
    + destruct (MaxConn (DefaultSnmp w) <? add64 (CurrEstab (DefaultSnmp w)) 1);
        reflexivity.
    + split; [| split].
      * destruct (Z.ltb_spec (MaxConn (DefaultSnmp w))
                    (add64 (CurrEstab (DefaultSnmp w)) 1)); cbn; lia.
      * destruct (MaxConn (DefaultSnmp w) <? _); reflexivity.
      * destruct (MaxConn (DefaultSnmp w) <? _); reflexivity.
  - eexists _, _. split; [reflexivity |]. split; [exact Hfresh |].
    split; [reflexivity |].
    repeat (split; [reflexivity |]).
    split; [rewrite <- !app_assoc; reflexivity |].
    split.
    + destruct (MaxConn (DefaultSnmp w) <? add64 (CurrEstab (DefaultSnmp w)) 1);
        reflexivity.
    + split; [| split].
      * destruct (Z.ltb_spec (MaxConn (DefaultSnmp w))
                    (add64 (CurrEstab (DefaultSnmp w)) 1)); cbn; lia.
      * destruct (MaxConn (DefaultSnmp w) <? _); reflexivity.
      * destruct (MaxConn (DefaultSnmp w) <? _); reflexivity.
Qed.

(** X17.  [NewConn4], then [Close].  The session is new; [CurrEstab]
    goes up by one and [MaxConn] is at or above it; [isClosed] is false
    before [Close] and true after it; [Close] flushes under the mutex,
    brings [CurrEstab] back, and closes the socket exactly when the
    session owns it.  [NewConn3] is [NewConn4] for a socket that the
    session does not own. *)
Theorem NewConn_Close (convid : Z) (raddr : string)
    (blk : option BlockCrypt) (ds ps : Z) (own : bool) (cn : nat)
    (w : World) (k : KCP) (interval : Z) (outs : list (list byte * Z)) :
  let enc := newFECEncoder ds ps
               (if is_some blk then Z.of_nat cryptHeaderSize else 0) in
  let hs := ((if is_some blk then cryptHeaderSize else 0)
             + (if is_some enc then fecHeaderSizePlus2 else 0))%nat in
  0 <= CurrEstab (DefaultSnmp w) < 2 ^ 64 - 1 ->
  KCP_flush (NewKCP convid) false = (k, interval, outs) ->
  Forall (output_fits hs) outs ->
  (own = true -> is_Some (socks w !! cn)) ->
  exists sid w1 r w2,
    NewConn4 convid raddr blk ds ps own cn w = Ret (sid, None) w1
    /\ NewConn3 convid raddr blk ds ps cn w
       = NewConn4 convid raddr blk ds ps false cn w
    /\ heap w !! sid = None
    /\ CurrEstab (DefaultSnmp w1) = CurrEstab (DefaultSnmp w) + 1
    /\ CurrEstab (DefaultSnmp w1) <= MaxConn (DefaultSnmp w1)
    /\ isClosed sid w1 = Ret false w1
    /\ Close sid w1 = Ret r w2
    /\ isClosed sid w2 = Ret true w2
    /\ CurrEstab (DefaultSnmp w2) = CurrEstab (DefaultSnmp w)
    /\ MaxConn (DefaultSnmp w2) = MaxConn (DefaultSnmp w1)
    /\ listener w2 = listener w
    /\ trace w2
       = trace w ++ [EvGo sid TaskPostProcess; EvGo sid TaskReadLoop;
                     EvTimedSched sid (now w); EvLock sid;
                     EvKCP sid (CallFlush false); EvUnlock sid]
                 ++ (if own then [EvConnClose cn] else [])
    /\ (if own then
          exists pc,
            socks w !! cn = Some pc
            /\ r = snd (PacketConn_Close pc)
            /\ socks w2 = <[cn := fst (PacketConn_Close pc)]> (socks w)
        else r = None /\ socks w2 = socks w).
Proof.
  intros enc hs Hc Hfl Hfit Hsock.
  destruct (newUDPSession_counts convid ds ps false cn own raddr blk w)
    as (w1 & s1 & Hnew & Hfresh & Hh1 & Hl1 & Hso1 & Hk1 & Hcn1 & Hown1
        & Hsl1 & Hrem1 & Hdo1 & Hdi1 & Hhs1 & Ht1 & Hce1 & Hmc1 & _).
  fold enc in Hhs1. fold hs in Hhs1.
  assert (Hs1 : heap w1 !! fresh (dom (heap w)) = Some s1)
    by (rewrite Hh1; apply lookup_insert_eq).
  rewrite add64_succ in Hce1, Hmc1 by exact Hc.
  destruct (Close_first w1 (fresh (dom (heap w))) s1 k interval outs)
    as (r & w2 & q & Hclose & Hh2 & Hsn2 & Hcase).
  - exact Hs1.
  - exact Hdo1.
  - rewrite Hk1. exact Hfl.
  - rewrite Hhs1. exact Hfit.
  - intros _ Ho. rewrite Hcn1, Hso1. apply Hsock. congruence.
  - exists (fresh (dom (heap w))), w1, r, w2.
    split; [unfold NewConn4, bind; rewrite Hnew; reflexivity |].
    split; [reflexivity |].
    split; [exact Hfresh |]. split; [exact Hce1 |].
    split; [rewrite Hce1, Hmc1; lia |].
    split; [unfold isClosed, bind; rewrite (getS_ok _ _ _ Hs1), Hdi1;
            reflexivity |].
    split; [exact Hclose |].
    split; [unfold isClosed, bind, getS; rewrite Hh2, lookup_insert_eq;
            reflexivity |].
    split; [rewrite Hsn2; cbn [CurrEstab set_CurrEstab]; rewrite Hce1;
            rewrite add64_pred by lia; lia |].
    split; [rewrite Hsn2; reflexivity |].
    rewrite Hsl1, Hown1, Hcn1 in Hcase.
    destruct own.
    + destruct Hcase as (pc & Hpc & Hr & Hso2 & Hl2 & Ht2).
      split; [congruence |].
      split; [rewrite Ht2, Ht1; cbn [app]; rewrite <- !app_assoc; reflexivity |].
      exists pc. rewrite <- Hso1. auto.
    + destruct Hcase as (Hr & Hl2 & Hso2 & Ht2).
      split; [congruence |].
      split; [rewrite Ht2, Ht1; cbn [app]; rewrite <- !app_assoc; reflexivity |].
      split; [exact Hr | congruence].
Qed.

End Opening.

Section Accepting.
Context {ext : Externals}.

(** ** The table and the accept queue of the listener *)

(** X18.  [closeSession] reports whether the address was in the
    table and removes it; the other entries, the accept queue, the
    sessions and the log are left alone, and a second call returns
    false. *)
Theorem closeSession_removes (w : World) (addr : string) :
  exists w',
    closeSession addr w
    = Ret (is_some (l_sessions (listener w) !! addr)) w'
    /\ l_sessions (listener w') = delete addr (l_sessions (listener w))
    /\ l_chAccepts (listener w') = l_chAccepts (listener w)
    /\ heap w' = heap w /\ trace w' = trace w
    /\ (forall a, a <> addr ->
          l_sessions (listener w') !! a = l_sessions (listener w) !! a)
    /\ closeSession addr w' = Ret false w'.
Proof.
  unfold closeSession, getL, bind.
  destruct (l_sessions (listener w) !! addr) as [sid|] eqn:E.
  - eexists. split; [reflexivity |]. cbn.
    rewrite lookup_delete_eq.
    repeat (split; [reflexivity |]).
    split; [| reflexivity].
    intros a Ha. apply lookup_delete_ne. congruence.
  - exists w. split; [reflexivity |]. rewrite E.
    split; [symmetry; apply delete_id; exact E |].
    repeat (split; [reflexivity |]).
    split; reflexivity.
Qed.

Lemma accept_ready_In (l : Listener) (c : ListenerCells) (t : Z)
    (x : AcceptCase) :
  In x (accept_ready l c t) ->
  match x with
  | AcceptTimeout => expired (l_rd c) t = true
  | AcceptSession => l_chAccepts l <> []
  | AcceptSocketError => exists e, l_socketReadError c = Some e
  | AcceptDie => l_die l = true
  end.
Proof.
  unfold accept_ready.
  destruct (expired (l_rd c) t), (l_chAccepts l) as [| sid q],
    (l_socketReadError c) as [e|], (l_die l); cbn;
    intros H; repeat (destruct H as [H | H]); try contradiction;
    subst x; eauto; discriminate.
Qed.

Lemma AcceptKCP_inv (w w' : World) (c : ListenerCells) (r : option nat)
    (e : option error) :
  AcceptKCP c w = Ret (r, e) w' ->
  match r with
  | Some sid =>
      e = None
      /\ l_chAccepts (listener w) = sid :: l_chAccepts (listener w')
      /\ l_sessions (listener w') = l_sessions (listener w)
      /\ heap w' = heap w
  | None =>
      listener w' = listener w
      /\ (e = Some errTimeout /\ expired (l_rd c) (now w) = true
          \/ e = Some ErrClosedPipe /\ l_die (listener w) = true
          \/ e <> None /\ e = l_socketReadError c)
  end.
Proof.
  intros H. unfold AcceptKCP in H.
  unfold bind at 1 in H. cbn [getL] in H.
  unfold bind at 1 in H. cbn [getNow] in H.
  apply bind_Ret_inv in H. destruct H as (x & w1 & Hc & H).
  destruct (choose_cases (accept_ready (listener w) c (now w)) w)
    as (x' & rnd & Hc' & Hcase).
  rewrite Hc' in Hc. injection Hc as -> <-.
  destruct Hcase as [[-> _] | (y & -> & Hin)]; [discriminate H |].
  apply accept_ready_In in Hin. destruct y.
  - injection H as <- <- <-. split; [reflexivity | left; auto].
  - destruct (l_chAccepts (listener w)) as [| sid rest] eqn:Eq;
      [discriminate H |].
    unfold bind, modL, ret in H. injection H as <- <- <-.
    cbn. auto.
  - destruct Hin as (e0 & He0). rewrite He0 in H. cbn in H.
    injection H as <- <- <-. split; [reflexivity |].
    right. right. split; [discriminate | congruence].
  - injection H as <- <- <-. split; [reflexivity |]. right. left. auto.
Qed.

Lemma AcceptKCP_head (w : World) (c : ListenerCells) (sid : nat)
    (rest : list nat) :
  l_chAccepts (listener w) = sid :: rest ->
  expired (l_rd c) (now w) = false ->
  l_socketReadError c = None ->
  l_die (listener w) = false ->
  AcceptKCP c w
  = Ret (Some sid, None) (set_listener (set_l_chAccepts rest (listener w)) w).
Proof.
  intros Hq Hx He Hd.
  unfold AcceptKCP, bind, getL, getNow, accept_ready. cbn beta iota.
  rewrite Hx, He, Hd, Hq. cbn. unfold modL, ret. reflexivity.
Qed.

(** X19.  [AcceptKCP] takes sessions from the head of the accept
    queue and from nowhere else.  A session it returns comes without
    error, was the oldest one queued, and the table is left alone.  A
    call that returns no session returns the timeout error, closed-pipe
    or the stored socket error, and leaves the listener alone.  While
    the queue is the only case that is ready its head is returned; with
    nothing queued, no deadline, no error and an open listener the call
    waits. *)
Theorem AcceptKCP_queue (w : World) (c : ListenerCells) :
  (forall sid e w',
      AcceptKCP c w = Ret (Some sid, e) w' ->
      e = None
      /\ l_chAccepts (listener w) = sid :: l_chAccepts (listener w')
      /\ l_sessions (listener w') = l_sessions (listener w)
      /\ heap w' = heap w)
  /\ (forall e w',
        AcceptKCP c w = Ret (None, e) w' ->
        listener w' = listener w
        /\ (e = Some errTimeout /\ expired (l_rd c) (now w) = true
            \/ e = Some ErrClosedPipe /\ l_die (listener w) = true
            \/ e <> None /\ e = l_socketReadError c))
  /\ (forall sid rest,
        l_chAccepts (listener w) = sid :: rest ->
        expired (l_rd c) (now w) = false ->
        l_socketReadError c = None ->
        l_die (listener w) = false ->
        AcceptKCP c w
        = Ret (Some sid, None)
              (set_listener (set_l_chAccepts rest (listener w)) w))
  /\ (l_chAccepts (listener w) = [] ->
      l_rd c = None ->
      l_socketReadError c = None ->
      l_die (listener w) = false ->
      AcceptKCP c w = Blocks).
Proof.
  split; [intros sid e w' H; apply (AcceptKCP_inv _ _ _ _ _ H) |].
  split; [intros e w' H; apply (AcceptKCP_inv _ _ _ _ _ H) |].
  split; [apply AcceptKCP_head |].
  intros Hq Hrd He Hd.
  unfold AcceptKCP, bind, getL, getNow, accept_ready. cbn beta iota.
  rewrite Hq, Hrd, He, Hd. reflexivity.
Qed.

Lemma connClose_run (w : World) (c : nat) (pc : PacketConn) :
  socks w !! c = Some pc ->
  connClose c w
  = Ret (snd (PacketConn_Close pc))
        (set_trace (trace w ++ [EvConnClose c])
           (set_socks (<[c := fst (PacketConn_Close pc)]> (socks w)) w)).
Proof.
  intros H. unfold connClose. rewrite H.
  destruct (PacketConn_Close pc). reflexivity.
Qed.

(** X20.  [Listener.Close] closes once.  The first call closes
    [die] and, for a socket of its own only, the socket; the sessions,
    the table and the accept queue are left alone.  Every later call
    returns closed-pipe and changes nothing.  From then on [AcceptKCP]
    never waits, and it returns closed-pipe when nothing else is
    ready. *)
Theorem Listener_Close_once (w : World) :
  l_die (listener w) = false ->
  (l_ownConn (listener w) = true ->
   is_Some (socks w !! l_conn (listener w))) ->
  exists r w1,
    Listener_Close w = Ret r w1
    /\ Listener_Close w1 = Ret (Some ErrClosedPipe) w1
    /\ listener w1 = set_l_die true (listener w)
    /\ heap w1 = heap w
    /\ (if l_ownConn (listener w) then
          exists pc,
            socks w !! l_conn (listener w) = Some pc
            /\ r = snd (PacketConn_Close pc)
            /\ socks w1
               = <[l_conn (listener w) := fst (PacketConn_Close pc)]> (socks w)
            /\ trace w1 = trace w ++ [EvConnClose (l_conn (listener w))]
        else r = None /\ socks w1 = socks w /\ trace w1 = trace w)
    /\ (forall c, AcceptKCP c w1 <> Blocks)
    /\ (forall c,
          l_chAccepts (listener w) = [] ->
          expired (l_rd c) (now w) = false ->
          l_socketReadError c = None ->
          AcceptKCP c w1 = Ret (None, Some ErrClosedPipe) w1).
Proof.
  intros Hd Hown.
  assert (Hagain : forall w1, l_die (listener w1) = true ->
                              Listener_Close w1 = Ret (Some ErrClosedPipe) w1).
  { intros w1 H1. unfold Listener_Close, bind, getL. rewrite H1. reflexivity. }
  assert (Hnb : forall w1 c, l_die (listener w1) = true ->
                             AcceptKCP c w1 <> Blocks).
  { intros w1 c H1 Hb. unfold AcceptKCP in Hb.
    unfold bind at 1 in Hb. cbn [getL] in Hb.
    unfold bind at 1 in Hb. cbn [getNow] in Hb.
    assert (Hne : accept_ready (listener w1) c (now w1) <> []).
    { unfold accept_ready. rewrite H1.
      destruct (expired _ _), (0 <? _)%nat, (is_some _); discriminate. }
    destruct (choose_In _ w1 Hne) as (x & r & Hc & Hin).
    unfold bind at 1 in Hb. rewrite Hc in Hb.
    apply accept_ready_In in Hin. destruct x; try discriminate Hb.
    - destruct (l_chAccepts (listener w1)); [contradiction | discriminate Hb].
    - destruct Hin as (e & He). rewrite He in Hb. discriminate Hb. }
  assert (Hlast : forall w1 c,
             l_die (listener w1) = true ->
             l_chAccepts (listener w1) = [] ->
             expired (l_rd c) (now w1) = false ->
             l_socketReadError c = None ->
             AcceptKCP c w1 = Ret (None, Some ErrClosedPipe) w1).
  { intros w1 c H1 Hq Hx He.
    unfold AcceptKCP, bind, getL, getNow, accept_ready. cbn beta iota.
    rewrite H1, Hq, Hx, He. reflexivity. }
  unfold Listener_Close at 1.
  unfold bind at 1. cbn [getL]. rewrite Hd.
  unfold bind at 1. cbn [modL].
  destruct (l_ownConn (listener w)) eqn:Eo.
  - destruct (Hown eq_refl) as (pc & Hpc).
    erewrite connClose_run by (cbn; exact Hpc).
    eexists _, _. split; [reflexivity |].
    split; [apply Hagain; reflexivity |].
    split; [reflexivity |]. split; [reflexivity |].
    split; [exists pc; repeat split; auto |].
    split; [intros c; apply Hnb; reflexivity |].
    intros c Hq Hx He. apply Hlast; auto.
  - eexists _, _. split; [reflexivity |].
    split; [apply Hagain; reflexivity |].
    split; [reflexivity |]. split; [reflexivity |].
    split; [auto |].
    split; [intros c; apply Hnb; reflexivity |].
    intros c Hq Hx He. apply Hlast; auto.
Qed.

End Accepting.

Section FirstDatagram.
Context {ext : Externals}.

(** X21.  The first datagram of a conversation, then
    [AcceptKCP]: the session that the dispatcher created is the one that
    [AcceptKCP] returns; it is new, open, accepted from that address and
    registered under it, and the queue is empty again. *)
Theorem first_datagram_accepted (w w1 : World) (data frame : list byte)
    (addr : string) (c sn : Z) (cells : ListenerCells) :
  l_sessions (listener w) !! addr = None ->
  l_chAccepts (listener w) = [] ->
  packetInput_decrypt (l_block (listener w)) data w = Ret (true, frame) w1 ->
  (IKCP_OVERHEAD <= length frame)%nat ->
  recoverConv frame = Some (c, sn, true) ->
  is_Some (newFECDecoder 1 1) ->
  l_rd cells = None ->
  l_socketReadError cells = None ->
  l_die (listener w) = false ->
  exists sid w2 w3 s,
    Listener_packetInput data addr w = Ret tt w2
    /\ AcceptKCP cells w2 = Ret (Some sid, None) w3
    /\ heap w !! sid = None
    /\ heap w3 !! sid = Some s
    /\ remote s = addr /\ sess_l s = true /\ die s = false
    /\ l_sessions (listener w3) = <[addr := sid]> (l_sessions (listener w))
    /\ l_chAccepts (listener w3) = [].
Proof.
  intros Hnone Hq Hdec Hlen Hrec Hfec Hrd Herr Hdie.
  destruct (packetInput_decrypt_frame (l_block (listener w)) data w)
    as (d0 & f0 & w0 & Hd0 & Hh1 & Hl1 & _).
  rewrite Hdec in Hd0. injection Hd0 as <- <- <-.
  rewrite (Listener_packetInput_frame data frame addr w w1 c sn true
             Hdec Hlen Hrec).
  rewrite Hnone. unfold bind at 1. unfold ret at 1. cbn [is_some negb andb].
  destruct (acceptNew_slack c frame addr w1 (c, sn, true))
    as (sid & wa & wb & s3 & Hfresh & _ & _ & Hrun & Hs3 & _ & Hrem & Hl & Hd);
    [rewrite Hl1, Hq; cbn; unfold acceptBacklog; lia | exact Hrec | exact Hfec |].
  rewrite Hl1 in Hrun. rewrite Hq in Hrun. cbn [app] in Hrun.
  eexists sid, _, _, s3. split; [exact Hrun |].
  split.
  - apply (AcceptKCP_head _ cells sid []).
    + reflexivity.
    + rewrite Hrd. reflexivity.
    + exact Herr.
    + cbn. exact Hdie.
  - cbn. rewrite <- Hh1. auto 10.
Qed.

End FirstDatagram.

Section AcceptQueue.
Context {ext : Externals}.

(** ** The accept queue over a run of datagrams *)

Lemma same_queue_frame :
  Frame (fun w w' => l_chAccepts (listener w') = l_chAccepts (listener w)).
Proof.
  split; [reflexivity | intros a b c H1 H2; congruence | reflexivity].
Qed.

Lemma same_queue_heap :
  ignores_heap
    (fun w w' => l_chAccepts (listener w') = l_chAccepts (listener w)).
Proof. intros w h. reflexivity. Qed.

Lemma same_queue_trace :
  ignores_trace
    (fun w w' => l_chAccepts (listener w') = l_chAccepts (listener w)).
Proof. intros w h. reflexivity. Qed.

Lemma same_queue_snmp :
  ignores_snmp
    (fun w w' => l_chAccepts (listener w') = l_chAccepts (listener w)).
Proof. intros w h. reflexivity. Qed.

Lemma same_queue_socks :
  ignores_socks
    (fun w w' => l_chAccepts (listener w') = l_chAccepts (listener w)).
Proof. intros w h. reflexivity. Qed.

#[local] Hint Resolve same_queue_frame same_queue_heap same_queue_trace
  same_queue_snmp same_queue_socks : keeps.

Lemma closeSession_queue (addr : string) :
  keeps (fun w w' => l_chAccepts (listener w') = l_chAccepts (listener w))
        (closeSession addr).
Proof.
  intros w b w' H. unfold closeSession, bind, getL, modL, ret in H.
  destruct (l_sessions (listener w) !! addr); injection H as _ <-; reflexivity.
Qed.

Lemma Close_queue (sid : nat) :
  keeps (fun w w' => l_chAccepts (listener w') = l_chAccepts (listener w))
        (Close sid).
Proof.
  pose proof closeSession_queue.
  unfold Close. keeps_tac.
Qed.

Lemma acceptNew_queue (c : Z) (frame : list byte) (addr : string)
    (w w' : World) :
  acceptNew c frame addr w = Ret tt w' ->
  l_chAccepts (listener w') = l_chAccepts (listener w)
  \/ (length (l_chAccepts (listener w)) < acceptBacklog)%nat
     /\ exists sid,
          l_chAccepts (listener w') = l_chAccepts (listener w) ++ [sid].
Proof.
  intros H. unfold acceptNew in H.
  unfold bind at 1 in H. cbn [getL] in H.
  destruct (length (l_chAccepts (listener w)) <? acceptBacklog)%nat eqn:E.
  - right. apply Nat.ltb_lt in E. split; [exact E |].
    apply bind_Ret_inv in H. destruct H as (sid & w1 & Hn & H).
    apply bind_Ret_inv in H. destruct H as ([] & w2 & Hk & H).
    apply (keeps_newUDPSession _ same_queue_frame same_queue_heap
             same_queue_trace same_queue_snmp) in Hn.
    apply (keeps_kcpInput _ same_queue_frame same_queue_heap
             same_queue_trace same_queue_snmp) in Hk.
    unfold bind, modL in H. injection H as <-.
    exists sid. cbn. congruence.
  - left. injection H as <-. reflexivity.
Qed.

(** The queue grows at its tail and stays within [acceptBacklog]. *)
Lemma bounded_queue_frame :
  Frame (fun w w' =>
           (exists new,
               l_chAccepts (listener w') = l_chAccepts (listener w) ++ new)
           /\ ((length (l_chAccepts (listener w)) <= acceptBacklog)%nat ->
               (length (l_chAccepts (listener w')) <= acceptBacklog)%nat)).
Proof.
  split.
  - intros w. split; [exists []; symmetry; apply app_nil_r | auto].
  - intros a b c [(n1 & H1) B1] [(n2 & H2) B2]. split; [| auto].
    exists (n1 ++ n2). rewrite H2, H1, app_assoc. reflexivity.
  - intros w r. split; [exists []; symmetry; apply app_nil_r | auto].
Qed.

Lemma Listener_packetInput_queue (data : list byte) (addr : string) :
  keeps (fun w w' =>
           (exists new,
               l_chAccepts (listener w') = l_chAccepts (listener w) ++ new)
           /\ ((length (l_chAccepts (listener w)) <= acceptBacklog)%nat ->
               (length (l_chAccepts (listener w')) <= acceptBacklog)%nat))
        (Listener_packetInput data addr).
Proof.
  assert (Hweak : forall (A : Type) (m : M A),
             keeps (fun w w' => l_chAccepts (listener w')
                                = l_chAccepts (listener w)) m ->
             keeps (fun w w' =>
                      (exists new,
                          l_chAccepts (listener w')
                          = l_chAccepts (listener w) ++ new)
                      /\ ((length (l_chAccepts (listener w))
                           <= acceptBacklog)%nat ->
                          (length (l_chAccepts (listener w'))
                           <= acceptBacklog)%nat)) m).
  { intros A m. apply keeps_weaken. intros w w' H. rewrite H.
    split; [exists []; symmetry; apply app_nil_r | auto]. }
  assert (Hacc : forall c frame,
             keeps (fun w w' =>
                      (exists new,
                          l_chAccepts (listener w')
                          = l_chAccepts (listener w) ++ new)
                      /\ ((length (l_chAccepts (listener w))
                           <= acceptBacklog)%nat ->
                          (length (l_chAccepts (listener w'))
                           <= acceptBacklog)%nat))
                   (acceptNew c frame addr)).
  { intros c frame w [] w' H. apply acceptNew_queue in H.
    destruct H as [H | (Hlt & sid & H)]; rewrite H.
    - split; [exists []; symmetry; apply app_nil_r | auto].
    - split; [exists [sid]; reflexivity |].
      intros _. rewrite length_app. cbn. lia. }
  pose proof bounded_queue_frame as HF.
  pose proof Close_queue as HC.
  unfold Listener_packetInput.
  apply keeps_bind; [exact HF | auto with keeps | intros l].
  apply keeps_bind; [exact HF | apply Hweak; auto with keeps | intros r].
  destruct r as [decrypted frame].
  destruct (decrypted && _); [| auto with keeps].
  apply keeps_bind; [exact HF | auto with keeps | intros h].
  destruct h as [[c sn] rec].
  apply keeps_bind; [exact HF | | intros s].
  - apply Hweak. keeps_tac.
  - destruct (negb (is_some s) && rec); [apply Hacc | auto with keeps].
Qed.

(** X22.  However many datagrams the listener is given, and
    from whatever addresses, its accept queue grows at the tail only and
    never beyond [acceptBacklog], so that the send on [chAccepts] cannot
    block the reader. *)
Theorem accept_queue_bounded (pkts : list (list byte * string))
    (w w' : World) :
  (length (l_chAccepts (listener w)) <= acceptBacklog)%nat ->
  Listener_packetInputs pkts w = Ret tt w' ->
  (length (l_chAccepts (listener w')) <= acceptBacklog)%nat
  /\ exists new,
       l_chAccepts (listener w') = l_chAccepts (listener w) ++ new.
Proof.
  intros Hb Hrun. unfold Listener_packetInputs in Hrun.
  apply (keeps_forM_ _ bounded_queue_frame) in Hrun.
  - destruct Hrun as [Hnew Hle]. split; [apply Hle; exact Hb | exact Hnew].
  - intros p. apply Listener_packetInput_queue.
Qed.

End AcceptQueue.

Section Table.
Context {ext : Externals}.

(** ** The table of the listener *)

Lemma kcpInput_keeps_id (j sid : nat) (data : list byte) :
  keeps (session_keeps j session_id) (kcpInput sid data).
Proof.
  pose proof (session_keeps_frame j session_id) as HF.
  pose proof (session_keeps_trace j session_id) as HT.
  pose proof (session_keeps_snmp j session_id) as HS.
  assert (HM : forall f,
             (forall s, session_id (f s) = session_id s) ->
             keeps (session_keeps j session_id) (modS sid f))
    by (intros f; apply session_keeps_modS).
  unfold kcpInput, fecPacket_flag, notifyAfterInput, kcpInput_call,
    kcpPeekSize, kcpWaitSnd, notifyReadEvent, notifyWriteEvent.
  keeps_tac; apply HM; intros x; reflexivity.
Qed.

Lemma kcpFlush_frame (sid : nat) (ackOnly : bool) :
  keeps (input_frame sid) (kcpFlush sid ackOnly).
Proof.
  pose proof (input_frame_frame sid) as HF.
  pose proof (input_frame_trace sid) as HT.
  pose proof (input_frame_modS sid) as HM.
  unfold kcpFlush, output. keeps_tac.
Qed.

Lemma Close_inv (w w' : World) (sid : nat) (x : UDPSession)
    (r : option error) :
  heap w !! sid = Some x ->
  dieOnce x = false ->
  sess_l x = true ->
  Close sid w = Ret r w' ->
  l_sessions (listener w') = delete (remote x) (l_sessions (listener w))
  /\ l_chAccepts (listener w') = l_chAccepts (listener w)
  /\ (forall j, j <> sid -> heap w' !! j = heap w !! j).
Proof.
  intros Hx Hdo Hsl H. unfold Close in H.
  unfold bind at 1 in H. rewrite (getS_ok _ _ _ Hx), Hdo, Hsl in H.
  unfold bind at 1 in H. unfold bind at 1 in H.
  rewrite (modS_ok _ _ _ _ Hx) in H. unfold ret at 1 in H.
  unfold bind at 1 in H. cbn [modSnmp] in H.
  unfold bind at 1 in H. cbn [emit] in H.
  apply bind_Ret_inv in H. destruct H as (iv & w1 & Hf & H).
  apply kcpFlush_frame in Hf.
  destruct Hf as (Hl1 & _ & Ho1 & _).
  cbn in Hl1, Ho1.
  unfold bind at 1 in H. cbn [emit] in H.
  apply bind_Ret_inv in H. destruct H as (b & w2 & Hc & H).
  injection H as _ <-.
  unfold closeSession, bind, getL, modL, ret in Hc. cbn in Hc.
  rewrite Hl1 in Hc.
  destruct (l_sessions (listener w) !! remote x) eqn:E;
    injection Hc as _ <-; cbn; rewrite ?Hl1.
  - split; [reflexivity |]. split; [reflexivity |].
    intros j Hj. rewrite Ho1 by exact Hj. apply lookup_insert_ne. congruence.
  - split; [symmetry; apply delete_id; exact E |]. split; [reflexivity |].
    intros j Hj. rewrite Ho1 by exact Hj. apply lookup_insert_ne. congruence.
Qed.

Lemma acceptNew_inv (c : Z) (frame : list byte) (addr : string)
    (w w' : World) :
  acceptNew c frame addr w = Ret tt w' ->
  w' = w
  \/ exists sid s,
       heap w !! sid = None
       /\ heap w' !! sid = Some s
       /\ session_id s = (addr, true, false, false, false)
       /\ (forall j, j <> sid -> heap w' !! j = heap w !! j)
       /\ l_sessions (listener w') = <[addr := sid]> (l_sessions (listener w)).
Proof.
  intros H. unfold acceptNew in H.
  unfold bind at 1 in H. cbn [getL] in H.
  destruct (length (l_chAccepts (listener w)) <? acceptBacklog)%nat;
    [| left; injection H as <-; reflexivity].
  right.
  destruct (newUDPSession_counts c (l_dataShards (listener w))
              (l_parityShards (listener w)) true (l_conn (listener w)) false
              addr (l_block (listener w)) w)
    as (w1 & s1 & Hnew & Hfresh & Hh1 & Hl1 & _ & _ & _ & Hown & Hsl & Hrem
        & Hdo & Hd1 & _).
  unfold bind at 1 in H. rewrite Hnew in H.
  apply bind_Ret_inv in H. destruct H as ([] & w2 & Hk & H).
  unfold bind, modL in H. injection H as <-.
  set (sid := fresh (dom (heap w))) in *.
  assert (Hs1 : heap w1 !! sid = Some s1)
    by (rewrite Hh1; apply lookup_insert_eq).
  pose proof (kcpInput_keeps_id sid sid frame w1 tt w2 Hk s1 Hs1)
    as (s2 & Hs2 & Hid).
  pose proof (kcpInput_frame sid frame w1 tt w2 Hk) as (Hl2 & _ & Ho2 & _).
  exists sid, s2. cbn.
  split; [exact Hfresh |]. split; [exact Hs2 |].
  split; [rewrite Hid; unfold session_id; congruence |].
  split; [| rewrite Hl2, Hl1; reflexivity].
  intros j Hj. rewrite Ho2 by exact Hj. rewrite Hh1.
  apply lookup_insert_ne. congruence.
Qed.

Lemma table_ok_rel :
  Frame (fun w w' => table_ok w -> table_ok w').
Proof.
  split; [auto | auto |]. intros w r H. exact H.
Qed.

Lemma table_ok_same (w w' : World) :
  listener w' = listener w -> heap w' = heap w -> table_ok w -> table_ok w'.
Proof.
  intros Hl Hh H addr sid Hin. rewrite Hl in Hin. rewrite Hh. apply H, Hin.
Qed.

Lemma table_ok_acceptNew (c : Z) (frame : list byte) (addr : string)
    (w w' : World) :
  acceptNew c frame addr w = Ret tt w' -> table_ok w -> table_ok w'.
Proof.
  intros H Hok. apply acceptNew_inv in H.
  destruct H as [-> | (sid & s & Hfresh & Hs & Hid & Hoth & Htab)];
    [exact Hok |].
  intros a j Hin. rewrite Htab in Hin.
  destruct (decide (a = addr)) as [-> | Hne].
  - rewrite lookup_insert_eq in Hin. injection Hin as <-. eauto.
  - rewrite lookup_insert_ne in Hin by congruence.
    destruct (Hok a j Hin) as (sj & Hsj & Hidj).
    exists sj. split; [| exact Hidj].
    rewrite Hoth; [exact Hsj |]. intros ->. congruence.
Qed.

Lemma Listener_packetInput_table (data : list byte) (addr : string)
    (w w' : World) :
  Listener_packetInput data addr w = Ret tt w' -> table_ok w -> table_ok w'.
Proof.
  intros Hrun Hok.
  destruct (packetInput_decrypt_frame (l_block (listener w)) data w)
    as (decrypted & frame & w1 & Hdec & Hh1 & Hl1 & _).
  assert (Hok1 : table_ok w1) by (apply (table_ok_same w); auto).
  destruct (decrypted && (IKCP_OVERHEAD <=? length frame)%nat) eqn:El.
  2:{ rewrite (Listener_packetInput_ineligible data frame addr w w1 decrypted
                 Hdec El) in Hrun.
      injection Hrun as <-. exact Hok1. }
  apply andb_true_iff in El. destruct El as [-> El].
  apply Nat.leb_le in El.
  destruct (recoverConv frame) as [[[c sn] rec]|] eqn:Er.
  2:{ unfold Listener_packetInput in Hrun.
      unfold bind at 1 in Hrun. cbn [getL] in Hrun.
      unfold bind at 1 in Hrun. rewrite Hdec in Hrun.
      replace (IKCP_OVERHEAD <=? length frame)%nat with true in Hrun
        by (symmetry; apply Nat.leb_le; exact El).
      cbn [andb] in Hrun. rewrite Er in Hrun. discriminate Hrun. }
  rewrite (Listener_packetInput_frame data frame addr w w1 c sn rec
             Hdec El Er) in Hrun.
  apply bind_Ret_inv in Hrun. destruct Hrun as (so & w2 & Hdisp & Hrun).
  assert (Hnext : table_ok w2 -> table_ok w').
  { intros Hok2. destruct (negb (is_some so) && rec).
    - eapply table_ok_acceptNew; eassumption.
    - injection Hrun as <-. exact Hok2. }
  apply Hnext. clear Hnext Hrun.
  destruct (l_sessions (listener w) !! addr) as [sid|] eqn:Et.
  2:{ injection Hdisp as _ <-. exact Hok1. }
  destruct (Hok addr sid Et) as (x & Hx & Hid).
  unfold session_id in Hid. injection Hid as Hrem Hsl Hown Hd Hdo.
  assert (Hx1 : heap w1 !! sid = Some x) by (rewrite Hh1; exact Hx).
  unfold bind at 1 in Hdisp. rewrite (getS_ok _ _ _ Hx1) in Hdisp.
  destruct (negb rec || (c =? conv (kcp x))).
  - (* delivery *)
    apply bind_Ret_inv in Hdisp. destruct Hdisp as ([] & w3 & Hk & Hdisp).
    injection Hdisp as _ <-.
    pose proof (kcpInput_frame sid frame w1 tt w3 Hk) as (Hl3 & _ & Ho3 & _).
    intros a j Hin. rewrite Hl3 in Hin.
    destruct (Hok1 a j Hin) as (sj & Hsj & Hidj).
    destruct (kcpInput_keeps_id j sid frame w1 tt w3 Hk sj Hsj)
      as (sj' & Hsj' & Hid').
    exists sj'. split; [exact Hsj' | congruence].
  - destruct (sn =? 0).
    + (* replacement *)
      apply bind_Ret_inv in Hdisp. destruct Hdisp as (r & w3 & Hc & Hdisp).
      injection Hdisp as _ <-.
      destruct (Close_inv w1 w3 sid x r Hx1 Hdo Hsl Hc) as (Ht3 & _ & Ho3).
      intros a j Hin. rewrite Ht3, Hrem in Hin.
      destruct (decide (a = addr)) as [-> | Hne];
        [rewrite lookup_delete_eq in Hin; discriminate |].
      rewrite lookup_delete_ne in Hin by congruence.
      destruct (Hok1 a j Hin) as (sj & Hsj & Hidj).
      exists sj. split; [| exact Hidj].
      rewrite Ho3; [exact Hsj |].
      intros ->. assert (sj = x) by congruence. subst sj.
      unfold session_id in Hidj. congruence.
    + injection Hdisp as _ <-. exact Hok1.
Qed.

(** X23.  The table of the listener holds, under each address, an
    open session that was accepted from that address and does not own
    the socket, and it holds no session twice: every run of datagrams
    keeps this. *)
Theorem table_invariant (pkts : list (list byte * string)) (w w' : World) :
  table_ok w ->
  Listener_packetInputs pkts w = Ret tt w' ->
  table_ok w'
  /\ (forall a1 a2 sid,
        l_sessions (listener w') !! a1 = Some sid ->
        l_sessions (listener w') !! a2 = Some sid -> a1 = a2).
Proof.
  intros Hok Hrun.
  assert (Hok' : table_ok w').
  { unfold Listener_packetInputs in Hrun.
    apply (keeps_forM_ _ table_ok_rel) in Hrun; [apply Hrun; exact Hok |].
    intros p w0 u w1 H. destruct u.
    exact (Listener_packetInput_table _ _ _ _ H). }
  split; [exact Hok' |].
  intros a1 a2 sid H1 H2.
  destruct (Hok' a1 sid H1) as (s1 & Hs1 & Hid1).
  destruct (Hok' a2 sid H2) as (s2 & Hs2 & Hid2).
  assert (s1 = s2) by congruence. subst s2.
  unfold session_id in *. congruence.
Qed.

End Table.

Section AcceptDeadline.
Context {ext : Externals}.

(** X24.  The deadlines of the listener.  [SetWriteDeadline] is an
    invalid operation; [SetDeadline] sets the read deadline and returns
    nil.  With a read deadline that has passed [AcceptKCP] on an empty
    queue returns the timeout error; with the zero time it waits. *)
Theorem Accept_deadline (w : World) (c : ListenerCells) (t : Z) :
  l_chAccepts (listener w) = [] ->
  l_socketReadError c = None ->
  l_die (listener w) = false ->
  Listener_SetWriteDeadline (Some t) = Some errInvalidOperation
  /\ snd (Listener_SetDeadline (Some t) c) = None
  /\ fst (Listener_SetDeadline (Some t) c)
     = fst (Listener_SetReadDeadline (Some t) c)
  /\ (t <= now w ->
      AcceptKCP (fst (Listener_SetReadDeadline (Some t) c)) w
      = Ret (None, Some errTimeout) w)
  /\ AcceptKCP (fst (Listener_SetReadDeadline None c)) w = Blocks.
Proof.
  intros Hq He Hd.
  split; [reflexivity |]. split; [reflexivity |]. split; [reflexivity |].
  split.
  - intros Ht.
    unfold AcceptKCP, bind, getL, getNow, accept_ready. cbn beta iota.
    rewrite Hq, Hd. cbn [fst Listener_SetReadDeadline l_rd l_socketReadError
                         expired].
    rewrite He.
    replace (t <=? now w) with true by (symmetry; apply Z.leb_le; exact Ht).
    reflexivity.
  - unfold AcceptKCP, bind, getL, getNow, accept_ready. cbn beta iota.
    rewrite Hq, Hd. cbn [fst Listener_SetReadDeadline l_rd l_socketReadError
                         expired].
    rewrite He. reflexivity.
Qed.

End AcceptDeadline.

(** * The properties on concrete packets

    Each statement below runs the reference instance. *)

Module Runs.

Import Ref.

Lemma run_after {A : Type} (m : M A) (w : World) (a : A) :
  result_of (m w) = Some a -> m w = Ret a (after m w).
Proof.
  unfold result_of, after. destruct (m w); intros H; try discriminate.
  injection H as ->. reflexivity.
Qed.

(** [SetMtu] on a client session: 1501 is refused, 0 is passed on. *)
Lemma SetMtu_bound_witness :
  (SetMtu 0 1501 (world1 (session0 7 false None peer))
   = Ret false (world1 (session0 7 false None peer)) <-> 1500 < 1501)
  /\ exists w', SetMtu 0 0 (world1 (session0 7 false None peer)) = Ret true w'.
Proof.
  destruct (SetMtu_bound (world1 (session0 7 false None peer)) 0
              (session0 7 false None peer) 1501) as [H _];
    [reflexivity |].
  destruct (SetMtu_bound (world1 (session0 7 false None peer)) 0
              (session0 7 false None peer) 0) as [_ H0];
    [reflexivity |].
  destruct H0 as (w' & Hw & _); [lia |].
  split; [exact H | exists w'; exact Hw].
Defined.

(** Five bytes under a cipher: dropped by both input paths. *)
Lemma short_packet_dropped_witness :
  let w := world1 (session0 7 true (Some (xorCrypt 90)) peer) in
  UDPSession_packetInput 0 (repeat Byte.x2a 5) w = Ret tt w
  /\ Listener_packetInput (repeat Byte.x2a 5) peer w = Ret tt w.
Proof.
  intros w.
  destruct (short_packet_dropped w (xorCrypt 90) (repeat Byte.x2a 5) peer)
    as [A B]; [vm_compute; lia |].
  split.
  - apply (A 0%nat (session0 7 true (Some (xorCrypt 90)) peer));
      reflexivity.
  - apply B. reflexivity.
Defined.

(** A garbled datagram of 24 bytes: one checksum error, no input. *)
Lemma checksum_rejection_witness :
  let w := world1 (session0 7 true (Some (xorCrypt 90)) peer) in
  exists w',
    UDPSession_packetInput 0 garbled w = Ret tt w'
    /\ Listener_packetInput garbled peer w = Ret tt w'
    /\ InCsumErrors (DefaultSnmp w') = 1
    /\ trace w' = [EvDecrypt garbled].
Proof.
  intros w.
  destruct (checksum_rejection w (xorCrypt 90) garbled peer) as [A B].
  - vm_compute. lia.
  - vm_compute. discriminate.
  - vm_compute. split; [discriminate | reflexivity].
  - eexists. split.
    + apply (A 0%nat (session0 7 true (Some (xorCrypt 90)) peer));
        reflexivity.
    + split; [apply B; reflexivity |]. split; reflexivity.
Defined.

(** Three calls of [Close] on an accepted session: the first
    deregisters it and returns nil, the others return closed-pipe. *)
Lemma Close_idempotent_witness :
  let w := world1 (session0 7 true None peer) in
  exists w1,
    Close_times 3 0 w
    = Ret [None; Some ErrClosedPipe; Some ErrClosedPipe] w1
    /\ l_sessions (listener w1) = delete peer {[ peer := 0%nat ]}
    /\ CurrEstab (DefaultSnmp w1) = 0
    /\ trace w1 = [EvLock 0; EvKCP 0 (CallFlush false); EvUnlock 0].
Proof.
  intros w.
  destruct (Close_idempotent w 0 (session0 7 true None peer)
              (new_kcp 7) 10 [] 2)
    as (r & w1 & s1 & _ & Hn & _ & _ & _ & _ & Hc & Hr & Ht & _ & Htr).
  - reflexivity.
  - reflexivity.
  - reflexivity.
  - constructor.
  - intros _ Ho. discriminate Ho.
  - vm_compute. split; reflexivity.
  - subst r. exists w1. split; [exact Hn |].
    split; [exact Ht |].
    split; [exact Hc | exact Htr].
Defined.

(** The crypto frames of one outbound buffer under the XOR cipher,
    with FEC and one duplicate: the buffer, its copy and the parity
    shard leave encrypted, the shard with the next nonce and the
    checksum of its own bytes. *)
Lemma postProcess_crypto_frame_witness :
  let buf := RefFec.outbound_fec in
  let plain := crypto_plain (repeat Byte.x00 16) buf in
  let shard := crypto_plain (repeat Byte.x01 16) (RefFec.parity_of buf) in
  let enc := fun x => (peer, copy x (map (xor_byte 90) x)) in
  exists p' w',
    postProcess_buf 0 buf
      {| txqueue := []; chCork := false; chDie := true |} RefFec.world_fec
    = Ret p' w'
    /\ txqueue p' = [enc plain; enc plain; enc shard]
    /\ trace w' = [EvEncrypt plain; EvEncrypt shard]
    /\ firstn 4 (skipn 16 plain) = le32 (ChecksumIEEE (skipn 20 buf))
    /\ skipn 20 plain = skipn 20 buf
    /\ firstn 16 shard = repeat Byte.x01 16
    /\ firstn 4 (skipn 16 shard)
       = le32 (ChecksumIEEE (skipn 20 (RefFec.parity_of buf)))
    /\ skipn 20 shard = skipn 20 (RefFec.parity_of buf).
Proof.
  intros buf plain shard enc.
  destruct (postProcess_crypto_frame RefFec.world_fec 0 RefFec.session_fec
              (xorCrypt 90) buf buf [RefFec.parity_of buf]
              {| txqueue := []; chCork := false; chDie := true |})
    as (p' & w' & Hrun & Hq & Ht & _ & Hcrc0 & Hsk0 & _ & Hp & Hn).
  - reflexivity.
  - reflexivity.
  - reflexivity.
  - vm_compute. lia.
  - intros _. vm_compute. discriminate.
  - repeat constructor; vm_compute; try lia; discriminate.
  - change (Forall2
              (fun e x =>
                 firstn crcSize (skipn nonceSize x)
                 = le32 (ChecksumIEEE (skipn cryptHeaderSize e))
                 /\ skipn cryptHeaderSize x = skipn cryptHeaderSize e
                 /\ length (copy x (map (xor_byte 90) x)) = length e)
              [RefFec.parity_of buf] [shard]) in Hp.
    apply Forall2_cons_1 in Hp as [(Hcrc & Hsk & _) _].
    change (Forall2
              (fun f x => length f = nonceSize -> firstn nonceSize x = f)
              [repeat Byte.x01 16] [shard]) in Hn.
    apply Forall2_cons_1 in Hn as [Hnz _].
    exists p', w'. split; [exact Hrun |]. split; [exact Hq |].
    split; [exact Ht |]. split; [exact Hcrc0 |]. split; [exact Hsk0 |].
    split; [apply Hnz; reflexivity |].
    split; [exact Hcrc | exact Hsk].
Defined.

(** The first datagram of a conversation at an idle listener. *)
Lemma accept_backpressure_witness :
  exists sid w',
    Listener_packetInput (frame 7 0 hi) peer (world0 None) = Ret tt w'
    /\ l_sessions (listener w') = {[ peer := sid ]}
    /\ l_chAccepts (listener w') = [sid].
Proof.
  destruct (accept_backpressure (world0 None) (frame 7 0 hi) peer)
    as (decrypted & fr & w1 & Hd & _ & _ & Hif & _);
    [reflexivity |].
  assert (Hd' : Ret (true, frame 7 0 hi) (world0 None)
                = Ret (decrypted, fr) w1) by exact Hd.
  injection Hd' as <- <- <-.
  destruct (Hif 7 0) as (sid & w2 & w3 & s3 & _ & _ & _ & Hrun & _).
  - reflexivity.
  - vm_compute. reflexivity.
  - vm_compute. lia.
  - eexists. reflexivity.
  - exists sid. eexists. split; [exact Hrun |]. split; reflexivity.
Defined.

(** One byte read from a stash of two; and a message of two bytes
    delivered directly into a destination of four. *)
Lemma Read_priority_witness :
  (exists w',
      Read 0 [Byte.x00] (world1 closed_with_stash)
      = Ret ([Byte.x68], 1, None) w'
      /\ trace w' = [EvLock 0; EvUnlock 0])
  /\ (exists w',
         Read 0 (repeat Byte.x00 4) (world1 with_message)
         = Ret (hi ++ [Byte.x00; Byte.x00], 2, None) w').
Proof.
  split.
  - destruct (Read_priority (world1 closed_with_stash) 0 closed_with_stash
                [Byte.x00]) as [Hstash _];
      [reflexivity |].
    destruct Hstash as (w' & Hrun & _ & _ & Htr); [discriminate |].
    exists w'. split; [exact Hrun | exact Htr].
  - destruct (Read_priority (world1 with_message) 0 with_message
                (repeat Byte.x00 4)) as [_ Hmsg];
      [reflexivity |].
    destruct Hmsg as [Hdirect _]; [reflexivity | reflexivity |].
    destruct Hdirect as (w' & Hrun & _); [vm_compute; discriminate |].
    exists w'. exact Hrun.
Defined.

(** A closed session still hands out its stash: the two bytes left
    are copied to the destination and the stash is empty afterwards. *)
Lemma Read_after_Close_witness :
  exists w',
    Read 0 [Byte.x00; Byte.x00; Byte.x00] (world1 closed_with_stash)
    = Ret (hi ++ [Byte.x00], 2, None) w'
    /\ heap w' = <[0%nat := set_bufptr [] closed_with_stash]>
                   (heap (world1 closed_with_stash)).
Proof.
  destruct (Read_after_Close (world1 closed_with_stash) 0 closed_with_stash
              [Byte.x00; Byte.x00; Byte.x00]) as [Hdata _];
    [reflexivity | reflexivity |].
  destruct Hdata as (w' & Hrun & _ & Hh & _); [discriminate |].
  exists w'. split; [exact Hrun | exact Hh].
Defined.

(** A frame of conversation 9 with [sn = 5] for a session of
    conversation 7: dropped. *)
Lemma dispatch_existing_witness :
  Listener_packetInput (frame 9 5 hi) peer (world1 (session0 7 true None peer))
  = Ret tt (world1 (session0 7 true None peer)).
Proof.
  destruct (dispatch_existing (world1 (session0 7 true None peer))
              (world1 (session0 7 true None peer))
              (frame 9 5 hi) (frame 9 5 hi) peer 0
              (session0 7 true None peer) 9 5 true)
    as (_ & Hdrop & _).
  - reflexivity.
  - reflexivity.
  - reflexivity.
  - vm_compute. lia.
  - vm_compute. reflexivity.
  - apply Hdrop; [reflexivity | discriminate | discriminate].
Defined.

(** C2 as stated fails: the spec delivers a frame whose conversation
    id differs and whose [sn] is not zero to the existing session's
    [kcpInput]; the dispatcher drops it, leaving the process as it was,
    whereas a delivery would have counted the packet and logged the
    entry into [kcpInput]. *)
Lemma mismatch_nonzero_sn_not_delivered :
  let w := world1 (session0 7 true None peer) in
  let pkt := frame 9 5 hi in
  l_sessions (listener w) !! peer = Some 0%nat
  /\ conv (kcp (session0 7 true None peer)) = 7
  /\ recoverConv pkt = Some (9, 5, true)
  /\ Listener_packetInput pkt peer w = Ret tt w
  /\ InPkts (DefaultSnmp (after (kcpInput 0 pkt) w)) = 1
  /\ InPkts (DefaultSnmp (after (Listener_packetInput pkt peer) w)) = 0
  /\ Listener_packetInput pkt peer w <> kcpInput 0 pkt w.
Proof.
  intros w pkt.
  assert (H1 : InPkts (DefaultSnmp (after (kcpInput 0 pkt) w)) = 1)
    by (vm_compute; reflexivity).
  assert (H0 : InPkts (DefaultSnmp (after (Listener_packetInput pkt peer) w))
               = 0)
    by (vm_compute; reflexivity).
  split; [reflexivity |]. split; [reflexivity |].
  split; [vm_compute; reflexivity |]. split; [reflexivity |].
  split; [exact H1 |]. split; [exact H0 |].
  intros H. unfold after in H1, H0. rewrite H in H0. rewrite H0 in H1.
  discriminate H1.
Qed.



(** The reference ARQ instance satisfies the laws of [Write_backlog]:
    on it every successful [Write] of a non-empty slice adds its
    segments to the backlog. *)
Lemma Write_backlog_Ref (w w' : World) (sid : nat) (s : UDPSession)
    (b : list byte) (n : Z) :
  heap w !! sid = Some s ->
  0 < mss (kcp s) ->
  b <> [] ->
  Write sid b w = Ret (n, None) w' ->
  exists s',
    heap w' !! sid = Some s'
    /\ KCP_WaitSnd (kcp s')
       = KCP_WaitSnd (kcp s) + segments_of (mss (kcp s)) b.
Proof.
  apply Write_backlog.
  - intros k x Hx. destruct x as [|y x]; [contradiction |].
    unfold KCP_WaitSnd, KCP_Send; cbn. unfold wait_snd; cbn.
    rewrite length_app. cbn. lia.
  - intros k x. destruct x; reflexivity.
  - intros k ackOnly. unfold KCP_WaitSnd, KCP_flush; cbn.
    unfold wait_snd; cbn.
    rewrite length_app, length_skipn.
    destruct ackOnly; cbn; [lia |].
    rewrite length_firstn. lia.
Qed.

(** The XOR cipher undoes itself on every buffer. *)
Lemma xor_byte_twice (b : byte) : xor_byte 90 (xor_byte 90 b) = b.
Proof. destruct b; reflexivity. Qed.

Lemma xorCrypt_opens (x : list byte) :
  length (Encrypt (xorCrypt 90) x) = length x
  /\ Decrypt (xorCrypt 90) (Encrypt (xorCrypt 90) x) = x.
Proof.
  split; [apply length_map |].
  cbn. induction x as [| b x IH]; [reflexivity |].
  cbn [map]. rewrite xor_byte_twice. f_equal. exact IH.
Qed.

(** The sealed form of [outbound] opens to the frame it carries. *)
Lemma sealed_datagram_opens_witness :
  let s := session0 7 false (Some (xorCrypt 90)) peer in
  exists pkt w1,
    seal 0 (xorCrypt 90) outbound (world1 s) = Ret pkt w1
    /\ length pkt = length outbound
    /\ packetInput_decrypt (Some (xorCrypt 90)) pkt (world1 s)
       = Ret (true, frame 7 0 hi)
             (set_trace (trace (world1 s) ++ [EvDecrypt pkt]) (world1 s)).
Proof.
  intros s.
  destruct (sealed_datagram_opens (world1 s) 0 s (xorCrypt 90) outbound)
    as (pkt & w1 & H1 & H2 & H3 & _).
  - reflexivity.
  - vm_compute. lia.
  - intros x _. apply xorCrypt_opens.
  - exists pkt, w1. split; [exact H1 |]. split; [exact H2 |].
    exact (H3 (world1 s)).
Defined.

(** A frame of 26 bytes is queued behind 20 reserved bytes. *)
Lemma output_reserves_header_witness :
  let s := session0 7 false (Some (xorCrypt 90)) peer in
  exists bts,
    output 0 (frame 7 0 hi) 26 (world1 s)
    = Ret tt (set_heap (<[0%nat := set_chPostProcessing [bts] s]>
                          (heap (world1 s))) (world1 s))
    /\ length bts = 46%nat
    /\ skipn 20 bts = frame 7 0 hi.
Proof.
  intros s.
  destruct (output_reserves_header (world1 s) 0 s (frame 7 0 hi) 26)
    as (_ & _ & H); [reflexivity |].
  destruct H as [_ H]; [vm_compute; discriminate | vm_compute; discriminate
                        | reflexivity |].
  destruct H as (bts & Hrun & Hlen & Hsk); [vm_compute; lia |].
  exists bts. split; [exact Hrun |]. split; [exact Hlen |].
  apply Hsk. reflexivity.
Defined.

(** One frame from the ARQ output to the input of the peer. *)
Lemma segment_reaches_peer_witness :
  let s := session0 7 false (Some (xorCrypt 90)) peer in
  let r := session0 7 true (Some (xorCrypt 90)) peer in
  exists pkt plain w3,
    trace w3 = [EvEncrypt plain; EvTx [(peer, pkt)]]
    /\ length pkt = 46%nat
    /\ UDPSession_packetInput 0 pkt (world1 r)
       = kcpInput 0 (frame 7 0 hi)
           (set_trace (trace (world1 r) ++ [EvDecrypt pkt]) (world1 r)).
Proof.
  intros s r.
  destruct (segment_reaches_peer (world1 s) 0 s (xorCrypt 90) (frame 7 0 hi))
    as (pkt & plain & w1 & p1 & w2 & w3 & _ & _ & _ & Ht & Hl & Hin).
  - reflexivity.
  - reflexivity.
  - reflexivity.
  - reflexivity.
  - reflexivity.
  - reflexivity.
  - reflexivity.
  - vm_compute. lia.
  - vm_compute. discriminate.
  - intros x _. apply xorCrypt_opens.
  - exists pkt, plain, w3. split; [exact Ht |]. split; [exact Hl |].
    apply (Hin (world1 r) 0%nat r); reflexivity.
Defined.

(** A closed session with one queued segment: the post-processor
    transmits it before it exits. *)
Lemma postProcess_drains_witness :
  exists w' evs s',
    postProcess 3 0 (world1 closing) = Ret tt w'
    /\ trace w' = evs
    /\ heap w' !! 0%nat = Some s'
    /\ chPostProcessing s' = []
    /\ (1 <= length (transmitted evs))%nat
    /\ Forall (fun m => fst m = peer) (transmitted evs).
Proof.
  assert (Hrun : postProcess 3 0 (world1 closing)
                 = Ret tt (after (postProcess 3 0) (world1 closing)))
    by (apply run_after; vm_compute; reflexivity).
  destruct (postProcess_drains 3 0 (world1 closing) _ closing eq_refl Hrun)
    as (evs & s' & Ht & Hh & Hq & _ & Hn & Hall).
  exists (after (postProcess 3 0) (world1 closing)), evs, s'.
  split; [exact Hrun |]. split; [exact Ht |]. split; [exact Hh |].
  split; [exact Hq |]. split; [exact Hn | exact Hall].
Defined.

(** One frame into an accepted session: one packet, 26 bytes. *)
Lemma kcpInput_counts_witness :
  let w := world1 (session0 7 true None peer) in
  exists w',
    kcpInput 0 (frame 7 0 hi) w = Ret tt w'
    /\ InPkts (DefaultSnmp w') = 1
    /\ InBytes (DefaultSnmp w') = 26.
Proof.
  intros w.
  assert (Hrun : kcpInput 0 (frame 7 0 hi) w
                 = Ret tt (after (kcpInput 0 (frame 7 0 hi)) w))
    by (apply run_after; vm_compute; reflexivity).
  destruct (kcpInput_counts _ _ _ _ Hrun) as (Hp & Hb & _).
  eexists. split; [exact Hrun |]. split; [exact Hp | exact Hb].
Defined.

(** A parity shard never reaches the ARQ as a regular input. *)
Lemma kcpInput_regular_witness :
  let w := world1 (session0 7 true None peer) in
  exists w' evs,
    kcpInput 0 parity_shard w = Ret tt w'
    /\ trace w' = trace w ++ evs
    /\ Forall (fun ev => ~ regular_input 0 ev) evs.
Proof.
  intros w.
  assert (Hrun : kcpInput 0 parity_shard w
                 = Ret tt (after (kcpInput 0 parity_shard) w))
    by (apply run_after; vm_compute; reflexivity).
  destruct (kcpInput_regular w (after (kcpInput 0 parity_shard) w) 0
              parity_shard (skipn 4 parity_shard) 0xf2)
    as (evs & Ht & _ & Hno); [reflexivity | reflexivity | exact Hrun |].
  exists (after (kcpInput 0 parity_shard) w), evs.
  split; [exact Hrun |]. split; [exact Ht |].
  apply Hno; [discriminate | reflexivity].
Defined.
(** An idle session: a deadline that has passed times the read out,
    the zero deadline lets it wait. *)
Lemma Read_deadline_witness :
  let w := world1 (session0 7 false None peer) in
  (exists w1 w2,
     SetReadDeadline 0 (Some 0) w = Ret None w1
     /\ Read 0 [Byte.x00] w1 = Ret ([Byte.x00], 0, Some errTimeout) w2)
  /\ (exists w1,
        SetReadDeadline 0 None w = Ret None w1
        /\ Read 0 [Byte.x00] w1 = Blocks).
Proof.
  intros w.
  destruct (Read_deadline w 0 (session0 7 false None peer) [Byte.x00] 0)
    as [A B].
  - reflexivity.
  - reflexivity.
  - vm_compute. discriminate.
  - reflexivity.
  - reflexivity.
  - split; [apply A; vm_compute; discriminate | exact B].
Defined.

(** A full window and a deadline that has passed: the write times out. *)
Lemma Write_deadline_witness :
  exists w1 w2,
    SetWriteDeadline 0 (Some 0) (world1 stalled) = Ret None w1
    /\ WriteBuffers 0 [hi] w1 = Ret (0, Some errTimeout) w2.
Proof.
  destruct (Write_deadline (world1 stalled) 0 stalled [hi] 0)
    as (w1 & H1 & H2 & _).
  - reflexivity.
  - reflexivity.
  - reflexivity.
  - vm_compute. discriminate.
  - destruct H2 as (w2 & H2); [reflexivity |].
    exists w1, w2. split; [exact H1 | exact H2].
Defined.

(** [SetDeadline] sets both deadlines: both directions time out. *)
Lemma SetDeadline_both_witness :
  exists w1 w2 w3,
    SetDeadline 0 (Some 0) (world1 stalled) = Ret None w1
    /\ Read 0 [Byte.x00] w1 = Ret ([Byte.x00], 0, Some errTimeout) w2
    /\ WriteBuffers 0 [hi] w1 = Ret (0, Some errTimeout) w3.
Proof.
  destruct (SetDeadline_both (world1 stalled) 0 stalled [Byte.x00] [hi] 0)
    as (w1 & s1 & H1 & _ & _ & _ & _ & _ & (w2 & H2) & (w3 & H3)).
  - reflexivity.
  - reflexivity.
  - vm_compute. discriminate.
  - reflexivity.
  - reflexivity.
  - reflexivity.
  - reflexivity.
  - vm_compute. discriminate.
  - exists w1, w2, w3. split; [exact H1 |]. split; [exact H2 | exact H3].
Defined.

(** A write on a closed session is refused with closed-pipe. *)
Lemma WriteBuffers_refused_witness :
  exists r,
    WriteBuffers 0 [hi] (world1 closed_with_stash)
    = Ret (0, Some ErrClosedPipe) (set_rand r (world1 closed_with_stash)).
Proof.
  destruct (WriteBuffers_refused (world1 closed_with_stash) 0
              closed_with_stash [hi]) as (e & r & Hrun & He).
  - reflexivity.
  - left. reflexivity.
  - exists r. destruct He as [[-> _] | He]; [exact Hrun |].
    discriminate He.
Defined.

(** A full window without deadline: the write waits. *)
Lemma WriteBuffers_window_closed_witness :
  WriteBuffers 0 [hi] (world1 stalled) = Blocks.
Proof.
  destruct (WriteBuffers_window_closed (world1 stalled) 0 stalled [hi])
    as [A _].
  - reflexivity.
  - reflexivity.
  - reflexivity.
  - reflexivity.
  - apply A; reflexivity.
Defined.

(** The reference ARQ keeps its segment size when it queues data. *)
Lemma send_keeps_mss (k : KCP) (b : list byte) :
  mss (KCP_Send k b) = mss k.
Proof. destruct b; reflexivity. Qed.

(** Three full segments written at once are handed over as three
    segments of at most 1376 bytes. *)
Lemma WriteBuffers_segments_witness :
  exists w' evs,
    WriteBuffers 0 [bulk] (world1 narrow) = Ret (3 * 1376, None) w'
    /\ trace w' = evs
    /\ concat (sent 0 evs) = bulk
    /\ Forall (fun seg => Z.of_nat (length seg) <= 1376) (sent 0 evs).
Proof.
  assert (Hrun : WriteBuffers 0 [bulk] (world1 narrow)
                 = Ret (3 * 1376, None)
                       (after (WriteBuffers 0 [bulk]) (world1 narrow)))
    by (apply run_after; vm_compute; reflexivity).
  destruct (WriteBuffers_segments send_keeps_mss (world1 narrow) _ 0 narrow
              [bulk] (3 * 1376) eq_refl Hrun) as (evs & Ht & Hc & _ & Hall).
  exists (after (WriteBuffers 0 [bulk]) (world1 narrow)), evs.
  split; [exact Hrun |]. split; [exact Ht |].
  split; [rewrite Hc; apply app_nil_r | exact Hall].
Defined.

(** With the write delay set, a small write leaves the flush to the
    timer. *)
Lemma WriteDelay_defers_flush_witness :
  let w := world1 (session0 7 false None peer) in
  exists w1,
    SetWriteDelay 0 true w = Ret tt w1
    /\ forall n w2,
         WriteBuffers 0 [hi] w1 = Ret (n, None) w2 ->
         ~ In (EvKCP 0 (CallFlush false)) (trace w2).
Proof.
  intros w.
  destruct (WriteDelay_defers_flush w 0 (session0 7 false None peer) true)
    as (w1 & H1 & H2); [reflexivity |].
  exists w1. split; [exact H1 |].
  intros n w2 Hrun.
  assert (E : Ret tt (after (SetWriteDelay 0 true) w) = Ret tt w1).
  { rewrite <- H1. symmetry. apply run_after. reflexivity. }
  injection E as <-.
  assert (E : Ret (n, None (A := error)) w2
              = Ret (2, None)
                  (after (WriteBuffers 0 [hi])
                     (after (SetWriteDelay 0 true) w))).
  { rewrite <- Hrun. apply run_after. vm_compute. reflexivity. }
  injection E as -> ->.
  vm_compute. intros H.
  repeat (destruct H as [H | H]; [discriminate H |]). exact H.
Defined.

(** The timer task of an open session flushes and reschedules itself
    after the interval the flush returned; on a closed session it
    does nothing. *)
Lemma update_reschedules_witness :
  update 0 (world1 closed_with_stash) = Ret tt (world1 closed_with_stash)
  /\ exists w',
       update 0 (world1 stalled) = Ret tt w'
       /\ trace w' = [EvLock 0; EvKCP 0 (CallFlush false);
                      EvKCP 0 CallWaitSnd; EvUnlock 0; EvTimedSched 0 10].
Proof.
  split.
  - destruct (update_reschedules (world1 closed_with_stash) 0
                closed_with_stash eq_refl) as [A _].
    apply A. reflexivity.
  - destruct (update_reschedules (world1 stalled) 0 stalled eq_refl)
      as [_ B].
    assert (Hrun : update 0 (world1 stalled)
                   = Ret tt (after (update 0) (world1 stalled)))
      by (apply run_after; vm_compute; reflexivity).
    destruct (B eq_refl _ Hrun) as [Ht _].
    eexists. split; [exact Hrun | exact Ht].
Defined.

(** Two socket errors in a row: the reader and the writer get the
    first. *)
Lemma first_socket_error_sticks_witness :
  let w := world1 (session0 7 false None peer) in
  (exists w1 w2,
     bind (notifyReadError 0 (SocketError 1))
       (fun _ => notifyReadError 0 (SocketError 2)) w = Ret tt w1
     /\ Read 0 [Byte.x00] w1
        = Ret ([Byte.x00], 0, Some (SocketError 1)) w2)
  /\ (exists w1 r,
        bind (notifyWriteError 0 (SocketError 1))
          (fun _ => notifyWriteError 0 (SocketError 2)) w = Ret tt w1
        /\ WriteBuffers 0 [hi] w1
           = Ret (0, Some (SocketError 1)) (set_rand r w1)).
Proof.
  intros w.
  destruct (first_socket_error_sticks w 0 (session0 7 false None peer)
              (SocketError 1) (SocketError 2) [Byte.x00] [hi])
    as [A B]; [reflexivity | reflexivity |].
  split.
  - destruct A as (w1 & H1 & _ & H2); [reflexivity |].
    destruct H2 as (w2 & H2);
      [reflexivity | vm_compute; discriminate | reflexivity |].
    exists w1, w2. split; [exact H1 | exact H2].
  - destruct B as (w1 & H1 & _ & r & H2); [reflexivity |].
    exists w1, r. split; [exact H1 | exact H2].
Defined.

(** A read error of the listener's socket reaches the accepted session
    and the next [AcceptKCP]. *)
Lemma Listener_read_error_fans_out_witness :
  let w := world1 (session0 7 true None peer) in
  let c' := {| l_socketReadError := Some (SocketError 1); l_rd := None |} in
  exists w' w2,
    Listener_notifyReadError (SocketError 1) cells0 w = Ret c' w'
    /\ Read 0 [Byte.x00] w' = Ret ([Byte.x00], 0, Some (SocketError 1)) w2
    /\ AcceptKCP c' w' = Ret (None, Some (SocketError 1)) w'.
Proof.
  intros w c'.
  destruct (Listener_read_error_fans_out w (SocketError 1) cells0)
    as (w' & H1 & _ & H2 & _ & H3).
  - reflexivity.
  - intros addr sid H.
    change (({[ peer := 0%nat ]} : gmap string nat) !! addr = Some sid) in H.
    apply lookup_singleton_Some in H as [_ <-].
    eexists. reflexivity.
  - destruct (H2 peer 0%nat (session0 7 true None peer))
      as (s' & _ & _ & H4); [reflexivity | reflexivity |].
    destruct (H4 eq_refl) with (dst := [Byte.x00]) as (w2 & H5);
      [vm_compute; discriminate | reflexivity | reflexivity |].
    exists w', w2. split; [exact H1 |]. split; [exact H5 |].
    apply H3; reflexivity.
Defined.
(** A client session is opened on socket 0 and closed again: the
    gauge goes up and down, the socket is closed. *)
Lemma NewConn_Close_witness :
  exists sid w1 w2,
    NewConn4 7 peer None 0 0 true 0 (world0 None) = Ret (sid, None) w1
    /\ CurrEstab (DefaultSnmp w1) = 1
    /\ isClosed sid w1 = Ret false w1
    /\ Close sid w1 = Ret None w2
    /\ isClosed sid w2 = Ret true w2
    /\ CurrEstab (DefaultSnmp w2) = 0
    /\ socks w2 = <[0%nat := true]> (socks (world0 None)).
Proof.
  pose proof (NewConn_Close 7 peer None 0 0 true 0 (world0 None)
                (new_kcp 7) 10 []) as H.
  cbv zeta in H.
  destruct H as (sid & w1 & r & w2 & H1 & _ & _ & H2 & _ & H3 & H4 & H5
                 & H6 & _ & _ & _ & pc & Hpc & Hr & Hs).
  - split; [vm_compute; discriminate | reflexivity].
  - reflexivity.
  - constructor.
  - intros _. eexists. reflexivity.
  - assert (E : Some pc = Some false) by (rewrite <- Hpc; reflexivity).
    injection E as ->. subst r.
    exists sid, w1, w2. split; [exact H1 |]. split; [exact H2 |].
    split; [exact H3 |]. split; [exact H4 |]. split; [exact H5 |].
    split; [exact H6 | exact Hs].
Defined.

(** The table of one accepted session: its entry is removed once. *)
Lemma closeSession_removes_witness :
  let w := world1 (session0 7 true None peer) in
  exists w',
    closeSession peer w = Ret true w'
    /\ l_sessions (listener w') = delete peer (l_sessions (listener w))
    /\ closeSession peer w' = Ret false w'.
Proof.
  intros w.
  destruct (closeSession_removes w peer)
    as (w' & H1 & H2 & _ & _ & _ & _ & H3).
  exists w'. split; [exact H1 |]. split; [exact H2 | exact H3].
Defined.

(** [AcceptKCP] hands out the head of the queue, and waits on an empty
    queue without deadline. *)
Lemma AcceptKCP_queue_witness :
  let w := set_listener (set_l_chAccepts [4%nat; 5%nat] (listener0 None))
             (world0 None) in
  AcceptKCP cells0 w
  = Ret (Some 4%nat, None)
        (set_listener (set_l_chAccepts [5%nat] (listener w)) w)
  /\ AcceptKCP cells0 (world0 None) = Blocks.
Proof.
  intros w. split.
  - destruct (AcceptKCP_queue w cells0) as (_ & _ & A & _).
    apply A; reflexivity.
  - destruct (AcceptKCP_queue (world0 None) cells0) as (_ & _ & _ & B).
    apply B; reflexivity.
Defined.

(** The listener is closed once; the second call returns closed-pipe
    and [AcceptKCP] no longer waits. *)
Lemma Listener_Close_once_witness :
  exists w1,
    Listener_Close (world0 None) = Ret None w1
    /\ Listener_Close w1 = Ret (Some ErrClosedPipe) w1
    /\ trace w1 = [EvConnClose 0]
    /\ AcceptKCP cells0 w1 = Ret (None, Some ErrClosedPipe) w1.
Proof.
  destruct (Listener_Close_once (world0 None))
    as (r & w1 & H1 & H2 & _ & _ & (pc & Hpc & Hr & _ & Ht) & _ & H3).
  - reflexivity.
  - intros _. eexists. reflexivity.
  - assert (E : Some pc = Some false) by (rewrite <- Hpc; reflexivity).
    injection E as ->. subst r.
    exists w1. split; [exact H1 |]. split; [exact H2 |].
    split; [exact Ht |]. apply H3; reflexivity.
Defined.

(** The first frame of a new peer: the session it creates is the one
    the next [AcceptKCP] returns. *)
Lemma first_datagram_accepted_witness :
  exists sid w2 w3 s,
    Listener_packetInput (frame 7 0 hi) peer (world0 None) = Ret tt w2
    /\ AcceptKCP cells0 w2 = Ret (Some sid, None) w3
    /\ heap w3 !! sid = Some s
    /\ remote s = peer
    /\ l_sessions (listener w3) = {[ peer := sid ]}.
Proof.
  destruct (first_datagram_accepted (world0 None) (world0 None)
              (frame 7 0 hi) (frame 7 0 hi) peer 7 0 cells0)
    as (sid & w2 & w3 & s & H1 & H2 & _ & H3 & H4 & _ & _ & H5 & _).
  - reflexivity.
  - reflexivity.
  - reflexivity.
  - vm_compute. lia.
  - vm_compute. reflexivity.
  - eexists. reflexivity.
  - reflexivity.
  - reflexivity.
  - reflexivity.
  - exists sid, w2, w3, s. split; [exact H1 |]. split; [exact H2 |].
    split; [exact H3 |]. split; [exact H4 | exact H5].
Defined.

(** Two peers send a first frame: what is queued stays within the
    backlog. *)
Lemma accept_queue_bounded_witness :
  let pkts := [(frame 7 0 hi, peer); (frame 8 0 hi, "10.0.0.2:4000")] in
  exists w' new,
    Listener_packetInputs pkts (world0 None) = Ret tt w'
    /\ l_chAccepts (listener w') = new
    /\ (length new <= acceptBacklog)%nat.
Proof.
  intros pkts.
  assert (Hrun : Listener_packetInputs pkts (world0 None)
                 = Ret tt (after (Listener_packetInputs pkts) (world0 None)))
    by (apply run_after; vm_compute; reflexivity).
  destruct (accept_queue_bounded pkts (world0 None)
              (after (Listener_packetInputs pkts) (world0 None)))
    as (Hb & new & Hn); [vm_compute; lia | exact Hrun |].
  change (l_chAccepts
            (listener (after (Listener_packetInputs pkts) (world0 None)))
          = new) in Hn.
  exists (after (Listener_packetInputs pkts) (world0 None)), new.
  split; [exact Hrun |]. split; [exact Hn |].
  rewrite <- Hn. exact Hb.
Defined.

(** After the frames of two peers every entry of the table is an
    open session of its address, and no session has two addresses. *)
Lemma table_invariant_witness :
  let pkts := [(frame 7 0 hi, peer); (frame 8 0 hi, "10.0.0.2:4000")] in
  exists w',
    Listener_packetInputs pkts (world0 None) = Ret tt w'
    /\ table_ok w'
    /\ (forall a1 a2 sid,
          l_sessions (listener w') !! a1 = Some sid ->
          l_sessions (listener w') !! a2 = Some sid -> a1 = a2).
Proof.
  intros pkts.
  assert (Hrun : Listener_packetInputs pkts (world0 None)
                 = Ret tt (after (Listener_packetInputs pkts) (world0 None)))
    by (apply run_after; vm_compute; reflexivity).
  assert (H0 : table_ok (world0 None)).
  { intros addr sid H.
    change ((∅ : gmap string nat) !! addr = Some sid) in H.
    rewrite lookup_empty in H. discriminate H. }
  destruct (table_invariant pkts (world0 None) _ H0 Hrun) as [A B].
  eexists. split; [exact Hrun |]. split; [exact A | exact B].
Defined.

(** A listener with an empty queue: a deadline that has passed times
    [AcceptKCP] out, the zero deadline lets it wait; the write deadline
    is refused. *)
Lemma Accept_deadline_witness :
  Listener_SetWriteDeadline (Some 0) = Some errInvalidOperation
  /\ AcceptKCP (fst (Listener_SetReadDeadline (Some 0) cells0)) (world0 None)
     = Ret (None, Some errTimeout) (world0 None)
  /\ AcceptKCP (fst (Listener_SetReadDeadline None cells0)) (world0 None)
     = Blocks.
Proof.
  destruct (Accept_deadline (world0 None) cells0 0)
    as (A & _ & _ & B & C); [reflexivity | reflexivity | reflexivity |].
  split; [exact A |]. split; [apply B; vm_compute; discriminate | exact C].
Defined.

End Runs.
